(* ===== verification/_CoqProject ===== *)
-Q . S2P
Prelude.v
Effects.v
CLib.v
Messages.v
MessagesSpec.v
Getopt.v
Net.v
Xwrite.v
Buffer.v
Tokens.v
Connect.v
NetAddr.v
AddrInfo.v
Listen.v
Command.v
Vector.v
Memory.v
Portable.v
Client.v
Open.v
ClientFraming.v
Api.v
ApiSafe.v
Session.v
Server.v
Acl.v
ConfLines.v
Config.v
ConfigLoad.v
ConfigPrint.v
Process.v
Commands.v
Execs.v
Responses.v
Serve.v
Accept.v
Daemon.v
Handshake.v
Termination.v
DaemonSpec.v
Delivery.v
Results.v
Simplified.v
Remctl.v
RemctlSpec.v
CommandSpec.v
Ssh.v
SshSpec.v
Streams.v
RoundTrip.v
