(* ===== verification/Prelude.v ===== *)
(** remctl: a verification library.

    remctl runs commands on a remote server for clients that authenticate with
    GSS-API.  This library models the C program (the directory [src/] of the
    repository) as Rocq definitions named after the C functions, and proves
    what the parts promise to each other: a command that the client sends is
    the command the server runs, it runs only where the configuration permits
    it, and its output and status come back unchanged.

    * The program and how its parts interact

    A client ([src/client/]) opens a connection, authenticates, and sends a
    command: an argument count followed by counted strings, cut into tokens.
    The server ([src/server/]) reassembles the tokens, parses the command,
    looks for the configuration line that matches it, checks that line's
    access control list (ACL), forks the program, and sends its output and
    its exit status as further tokens.  remctl-shell is a second server,
    started by ssh, that parses the command from one string and writes to its
    own standard output.  Shared code ([src/util/]) gives tokens, network
    reads and writes with timeouts, buffers and vectors of strings.

    * Files

    Shared:
    - [Prelude]: machine integers, bytes, C strings, list lemmas, automation
      (hint databases [zlist] and [keeps], tactics for lengths).
    - [Effects]: the monad of stateful code, [M S A], with three outcomes: a
      value and a state, [exit], and [Fault], which stands for undefined
      behaviour (an access outside a block, an invalid free, the use of a
      closed descriptor), and [NoFuel], which stands for exhausted fuel and
      for a call that does not return ([forever]).  [runs], [wp] and [loop_wp]
      are the calculus of postconditions the component proofs use.
    - [CLib]: the C library's functions on text that the program uses.
    - [Getopt] (portable/getopt.c): the replacement, and what the system's
      function gives.
    - [Messages], [MessagesSpec] (messages.c, messages-krb5.c, gss-errors.c,
      event-util.c, logging.c): how a message becomes text on a terminal or an
      entry of syslog.

    src/util:
    - [Net] (xwrite.c, network.c): [xwrite], [network_read],
      [network_write] against a [chan], the script of what the kernel
      answers to each read, write and select.
    - [Xwrite] (xwrite.c): [xwritev] and [xpwrite].
    - [Connect] (network.c, fdflag.c): sockets, source addresses and
      connecting with a timeout.
    - [NetAddr] (network.c, portable/inet_*.c): printing, parsing and
      comparing addresses.
    - [AddrInfo] (portable/getaddrinfo.c, portable/getnameinfo.c): the
      replacements, with the list of results on a heap.
    - [Listen] (network.c): binding, listening and accepting.
    - [Buffer] (buffer.c): [buffer_append], [buffer_resize],
      [buffer_find_string] and the rest on a block of cells that may be
      uninitialized.
    - [Tokens] (protocol.h, tokens.c, gss-tokens.c): [token_send],
      [token_recv], [token_send_priv], [token_recv_priv].  The mechanism is
      the class [Gss]; [GssLaws] states what RFC 2743 promises.
    - [Vector] (vector.c): [vector_split], [vector_split_multi],
      [vector_join] and their in-place versions, with capacities and
      out-of-bounds stores.
    - [Memory] (xmalloc.c; portable/strndup.c, reallocarray.c, asprintf.c):
      allocation that may fail, on a heap.
    - [Portable] (portable/setenv.c, mkstemp.c, daemon.c, sd-daemon.c).

    src/client:
    - [Client] (internal.h, error.c, client-v1.c, client-v2.c): the record
      [remctl] is [struct remctl]; sending commands and receiving output.
    - [ClientFraming]: the tokens of [internal_v2_commandv] are the framed
      chunks of the encoded command.
    - [Open] (open.c), [Api] (api.c): the negotiation and every entry point;
      [ApiSafe] and [Session] their theorems for whole sequences of calls.
    - [Remctl], [RemctlSpec] (remctl.c): the command line client.

    src/server:
    - [Command] (generic.c): [server_parse_command] and the reference
      encoding of a command.
    - [Server] (internal.h, logging.c, senders of server-v1.c, server-v2.c
      and server-ssh.c): the data of the server and the [world], the state
      of all server operations.
    - [Acl] (config.c): the ACL schemes, files, directories and
      [acl_permit].
    - [ConfLines] (config.c): the line buffer of [read_conf_file] as a block,
      and the lines of a file read without a buffer.
    - [Config], [ConfigLoad], [ConfigPrint] (config.c): reading
      remctl.conf, its theorems, and the printer it inverts.
    - [Process] (process.c): event handlers and event loop.
    - [Commands] (commands.c, logging.c): [server_run_command], help and
      summary.
    - [Serve] (server-v2.c, server-v1.c): tokens, continuation and the
      message loops.
    - [Accept] (generic.c, remctld.c): [server_new_client] and
      [handle_connection].
    - [Daemon], [DaemonSpec] (remctld.c): options, sockets and the accept
      loop with its signals and children.
    - [Ssh], [SshSpec] (server-ssh.c, remctl-shell.c): the quoting grammar
      and the program remctl-shell.

    Across components:
    - [Execs]: programs run only under a rule that permits them.
    - [Responses]: one answer for each command.
    - [Streams]: all output of a program, in order.
    - [Results]: from the server's senders to the client's
      [internal_v2_output] and [internal_v1_output].
    - [Handshake]: the client's [internal_open] with the server's
      [server_new_client].
    - [Simplified]: what [remctl()] returns of the server's answer.
    - [Termination]: [handle_connection] ends whatever a client sends.
    - [Delivery]: from the client's [internal_v2_commandv] to the server's
      [server_v2_handle_token].
    - [CommandSpec]: what reaches the program and the log.
    - [RoundTrip]: from the command line of [remctl] to the program on the
      server and back, the composition of the parts above.

    * How state and operations correspond to the code

    A struct is a record with the fields the operations use, in the code's
    order, a prefix in place of the struct name ([r_fd] for [r->fd]).  An
    operation is a definition with the C function's name; loops whose bound is
    not structural are a [_body] and [loop fuel].  Guards, early returns and
    error messages are in the order of the code; a message keeps its format
    and arguments separately, and the log keeps every message.  Integers are
    [Z] with the conversions of the code written out ([u32], [s32], [u64]).
    [char] is signed, [int] has 32 bits, [size_t] and [long] 64.

    What the system gives is an argument.  A [chan] holds the answers of one
    socket, a [child] those of libevent, fork, the program and waitpid for
    one process, [ConfEnv], [AclEnv] and [SshEnv] are classes of functions for
    files, directories, the password database, the ACL libraries and the
    environment.  [Inet], [InetPrint] and [Passive] are the resolver,
    [GssClient] and [GssServer] the two sides of a context's negotiation,
    [Startup] what the system tells a daemon that starts.  The rounds of a
    [daemon] are what happens between two passes of its accept loop.  Theorems quantify over all of them; where a theorem needs
    documented behaviour of a library (for instance that one end of a context
    unwraps what the other wrapped), the law is a class with an instance in
    the witness.

    * What the theorems show

    - The whole: [remctl_round_trip] and [remctl_refused].
    - Framing and delivery: [parse_command_exact], [v2_commandv_framing],
      [command_delivery], [reply_delivery], [v1_result_delivery],
      [status_byte_faithful].
    - Connections: [handshake_agreement], [network_addr_match_prefix],
      [network_bind_all_sockets], [daemon_serves_until_exit].
    - The library and the client: [api_session_safe],
      [remctl_result_delivery], [remctl_main_delivery], [remctl_main_safe].
    - The replacements of library functions: [getopt_equiv],
      [getaddrinfo_builds], [nameinfo_roundtrip].
    - Access control: [acl_permit_first_decisive],
      [command_execs_permitted], [shell_execs_permitted], and the lemmas
      [acl_deny_never_grants], [acl_include_directory] and
      [acl_file_principals] of [Acl].
    - Running commands: [command_answered], [process_output_complete],
      [command_arguments], [log_masked], [connection_terminates], and in
      [CommandSpec] the lemma [log_command_printable].
    - Messages: [messages_implement_logger].
    - Configuration: [config_load_wellformed], [conf_buffer_invisible],
      [config_roundtrip].
    - remctl-shell: [ssh_parse_grammar], and the lemma
      [ssh_quote_roundtrip] of [SshSpec].
    - Data structures: [buffer_refines_string], [buffer_read_all_stream],
      [xwritev_equiv], [xmalloc_gives_or_exits], [vector_split_join] and
      [vector_split_multi_words].
    - Places where the code does something else than it means to:
      [api_misuse_faults], [empty_continuation_invalid_free], the lemmas
      [large_descriptor_faults] of [Session], [short_command_overread] of
      [Delivery], [stdin_last_subcommand] and [logmask_overflow] of
      [CommandSpec] and [shell_failure_exits_zero] of [SshSpec], and the
      Examples of [ConfigLoad], [Listen], [DaemonSpec], [Getopt] and
      [RemctlSpec].

    * Fuel and bounds

    - Reads and writes loop at most once for each entry of the script and
      once for each byte, and their fuel is computed from both.
    - The message loops of the server take fuel from the bytes the connection
      can still give ([serve_fuel]): a token has at least five.
    - The recursion of the ACL check is an argument, [acl_fuel];
      [acl_permit_terminates] shows that some bound suffices, and the results
      do not depend on it, when a rank decreases along includes.  The same
      holds of [conf_fuel] and [config_load_wellformed].
    - [getopt] takes one step for each byte of the argument vector
      ([argv_size]); the client's responses, like the handshake, one for each
      token the connection can still give ([open_fuel]).
    - The accept loop takes its rounds from a script; a [select] beyond the
      script does not return, and [daemon_serves_until_exit] needs a script
      that ends in a signal to exit.
    - The loops over lines of a configuration file take one more than the
      length of the file, because each iteration consumes a byte.
    - What libevent reports of a program is a script ([child]).  The main run
      of the event loop, [event_base_dispatch], returns only if a handler has
      broken it off or told it to exit; after the events of a script in which
      neither happens it waits for ever ([forever]), as [waitpid] does for a
      child whose script has no status ([wait_child]).
      [connection_terminates] therefore asks that every program exits
      ([programs_end]), and [process_waits_for_exit] shows that it has to.
      [orderly] and [drained] of [RoundTrip] say which scripts are those of a
      program that prints something and exits.
    - [select] takes an [fd_set] of [FD_SETSIZE] descriptors; [FD_SET] of
      another one is a [Fault].  With a timeout a descriptor therefore has to
      be [selectable]: [api_session_safe] restricts the timeouts and the
      descriptors of a caller, [remctl_main_safe] and the theorems on whole
      commands ask for [tool_room] when [-t] is given, and the server's
      theorems for [can_wait] or [fit_fd_set].
    - The line buffer of [read_conf_file] is counted by an [int]: [fgets_at]
      gives [FgotUndef] outside its block, [grow] fails above [INT_MAX], and
      the theorems on configuration files take files for which neither
      happens ([file_fits]): less than 2 MiB, or less than 2 GiB without nul
      bytes.

    * Not modelled

    - Allocation failure outside [AddrInfo] and [Memory]: elsewhere an
      allocation succeeds, which [xmalloc_gives_or_exits] justifies for
      everything that goes through xmalloc.c.
    - libevent, GSS-API, Kerberos, PCRE, GPUT, the kernel and the C library's
      [getopt] are not under [src/]: scripts and classes.
    - Debug messages, the registration of signal handlers, and the Windows
      event log of messages.c.
    - The bindings for Perl, PHP, Python and Ruby: glue to the interpreters.
    - The wrappers in src/portable/ for old versions of libevent and Kerberos
      and for Windows. *)

From stdpp Require Export base tactics list numbers strings option sets gmap.
From Stdlib Require Export ZArith Lia.
From Stdlib Require Export Strings.Byte.

#[export] Set Warnings "-clear-no-such-hyp,-level-tolerance".
#[global] Open Scope Z_scope.

Declare Scope remctl_scope.
Delimit Scope remctl_scope with remctl.
#[global] Open Scope remctl_scope.

(** * Machine integers *)

Definition u8 (z : Z) : Z := z mod 2 ^ 8.
Definition u16 (z : Z) : Z := z mod 2 ^ 16.
Definition u32 (z : Z) : Z := z mod 2 ^ 32.
Definition u64 (z : Z) : Z := z mod 2 ^ 64.

Definition swrap (w z : Z) : Z := (z + 2 ^ (w - 1)) mod 2 ^ w - 2 ^ (w - 1).
Definition s8 (z : Z) : Z := swrap 8 z.
Definition s32 (z : Z) : Z := swrap 32 z.
Definition s64 (z : Z) : Z := swrap 64 z.

Definition UINT32_MAX : Z := 4294967295.
Definition SIZE_MAX : Z := 18446744073709551615.
Definition LONG_MAX : Z := 9223372036854775807.
Definition INT_MAX : Z := 2147483647.

Lemma u32_small z : 0 <= z < 2 ^ 32 -> u32 z = z.
Proof. apply Z.mod_small. Qed.
Lemma u64_small z : 0 <= z < 2 ^ 64 -> u64 z = z.
Proof. apply Z.mod_small. Qed.
Lemma u32_range z : 0 <= u32 z < 2 ^ 32.
Proof. apply Z.mod_pos_bound. lia. Qed.
Lemma u64_range z : 0 <= u64 z < 2 ^ 64.
Proof. apply Z.mod_pos_bound. lia. Qed.

(** * Bytes and C strings *)

Abbreviation byte := Byte.byte.
Abbreviation bytes := (list byte).

#[export] Instance byte_eq_decision : EqDecision byte := Byte.byte_eq_dec.

(** The value of a [char]: unsigned, and signed as on x86-64. *)
Definition bu (b : byte) : Z := Z.of_N (Byte.to_N b).
Definition bs (b : byte) : Z := s8 (bu b).
(** Storing an integer into a [char]. *)
Definition bz (z : Z) : byte := default x00 (Byte.of_N (Z.to_N (u8 z))).

Lemma bu_range b : 0 <= bu b < 256.
Proof.
  unfold bu. pose proof (Byte.to_N_bounded b) as H.
  change 256 with (Z.of_N 256). lia.
Qed.

Lemma bu_bz z : bu (bz z) = u8 z.
Proof.
  unfold bu, bz. assert (0 <= u8 z < 256) as H by (apply Z.mod_pos_bound; lia).
  destruct (Byte.of_N (Z.to_N (u8 z))) as [b|] eqn:E; simpl.
  - apply Byte.to_of_N in E. rewrite E. lia.
  - apply Byte.of_N_None_iff in E. lia.
Qed.

Lemma bz_bu b : bz (bu b) = b.
Proof.
  unfold bz, bu. pose proof (Byte.to_N_bounded b).
  replace (u8 (Z.of_N (Byte.to_N b))) with (Z.of_N (Byte.to_N b))
    by (symmetry; apply Z.mod_small; lia).
  rewrite N2Z.id, Byte.of_to_N. reflexivity.
Qed.

Lemma bu_inj a b : bu a = bu b -> a = b.
Proof. intros E. rewrite <- (bz_bu a), <- (bz_bu b), E. reflexivity. Qed.

(** String literals of the source as byte lists. *)
Definition str (s : string) : bytes := String.list_byte_of_string s.

(** [strcmp(a, b) == 0]. *)
Definition bytes_eqb (a b : bytes) : bool := bool_decide (a = b).

Lemma bytes_eqb_true a b : bytes_eqb a b = true <-> a = b.
Proof. apply bool_decide_eq_true. Qed.
Lemma bytes_eqb_false a b : bytes_eqb a b = false <-> a <> b.
Proof. apply bool_decide_eq_false. Qed.
Lemma bytes_eqb_refl a : bytes_eqb a a = true.
Proof. by apply bytes_eqb_true. Qed.

Definition byte_eqb (a b : byte) : bool := bool_decide (a = b).

Lemma byte_eqb_refl a : byte_eqb a a = true.
Proof. by apply bool_decide_eq_true. Qed.
Lemma byte_eqb_neq a b : a <> b -> byte_eqb a b = false.
Proof. apply bool_decide_eq_false_2. Qed.

Definition nul : byte := x00.

(** A C string inside a block of memory: the bytes before the first nul. *)
Fixpoint cstr (l : bytes) : bytes :=
  match l with
  | [] => []
  | b :: l' => if byte_eqb b nul then [] else b :: cstr l'
  end.

Definition no_nul (l : bytes) : Prop := nul ∉ l.

(** [memchr(l, c, len)] and [strchr(l, c)] as a membership test. *)
Definition has_byte (c : byte) (l : bytes) : bool := bool_decide (c ∈ l).

Lemma cstr_no_nul l : no_nul (cstr l).
Proof.
  unfold no_nul. induction l as [|b l IH]; simpl; [set_solver|].
  unfold byte_eqb. case_bool_decide; set_solver.
Qed.

Lemma cstr_id l : no_nul l -> cstr l = l.
Proof.
  unfold no_nul. induction l as [|b l IH]; simpl; intros H; [done|].
  unfold byte_eqb. rewrite bool_decide_eq_false_2 by set_solver.
  f_equal. apply IH. set_solver.
Qed.

Lemma cstr_app_no_nul a b : no_nul a -> cstr (a ++ b) = a ++ cstr b.
Proof.
  unfold no_nul. induction a as [|c a IH]; intros Ha; [done|]. cbn [app cstr].
  unfold byte_eqb. rewrite bool_decide_eq_false_2 by set_solver. rewrite IH by set_solver. done.
Qed.

Lemma no_nul_app a b : no_nul (a ++ b) <-> no_nul a /\ no_nul b.
Proof. unfold no_nul. set_solver. Qed.

(** * Sizes in [Z] *)

Definition blen {A} (l : list A) : Z := Z.of_nat (length l).
Definition ztake {A} (n : Z) (l : list A) : list A := take (Z.to_nat n) l.
Definition zdrop {A} (n : Z) (l : list A) : list A := drop (Z.to_nat n) l.

(** Read [n] bytes at offset [off]; [None] when that leaves the object. *)
Definition zsub {A} (off n : Z) (l : list A) : option (list A) :=
  if bool_decide (0 <= off /\ 0 <= n /\ off + n <= blen l)
  then Some (ztake n (zdrop off l)) else None.

Section zlist.
Context {A : Type}.
Implicit Types l k : list A.

Lemma blen_nonneg l : 0 <= blen l.
Proof. unfold blen. lia. Qed.
Lemma blen_nil : blen (@nil A) = 0.
Proof. done. Qed.
Lemma blen_cons x l : blen (x :: l) = 1 + blen l.
Proof. unfold blen. simpl. lia. Qed.
Lemma blen_app l k : blen (l ++ k) = blen l + blen k.
Proof. unfold blen. rewrite length_app. lia. Qed.
Lemma blen_0 l : blen l = 0 -> l = [].
Proof. destruct l; [done|]. rewrite blen_cons. pose proof (blen_nonneg l). lia. Qed.
Lemma blen_ztake n l : blen (ztake n l) = Z.max 0 (Z.min n (blen l)).
Proof. unfold blen, ztake. rewrite length_take. lia. Qed.
Lemma blen_zdrop n l : blen (zdrop n l) = Z.max 0 (blen l - Z.max 0 n).
Proof. unfold blen, zdrop. rewrite length_drop. lia. Qed.
Lemma ztake_zdrop n l : ztake n l ++ zdrop n l = l.
Proof. apply take_drop. Qed.
Lemma ztake_ge n l : blen l <= n -> ztake n l = l.
Proof. unfold blen, ztake. intros. apply take_ge. lia. Qed.
Lemma zdrop_ge n l : blen l <= n -> zdrop n l = [].
Proof. unfold blen, zdrop. intros. apply drop_ge. lia. Qed.
Lemma ztake_0 n l : n <= 0 -> ztake n l = [].
Proof. unfold ztake. intros. replace (Z.to_nat n) with 0%nat by lia. done. Qed.
Lemma zdrop_0 n l : n <= 0 -> zdrop n l = l.
Proof. unfold zdrop. intros. replace (Z.to_nat n) with 0%nat by lia. done. Qed.
Lemma ztake_nil n : ztake n (@nil A) = [].
Proof. unfold ztake. apply take_nil. Qed.
Lemma zdrop_nil n : zdrop n (@nil A) = [].
Proof. unfold zdrop. apply drop_nil. Qed.
Lemma ztake_app_l n l k : n <= blen l -> ztake n (l ++ k) = ztake n l.
Proof. unfold blen, ztake. intros. apply take_app_le. lia. Qed.
Lemma zdrop_app_l n l k : n <= blen l -> zdrop n (l ++ k) = zdrop n l ++ k.
Proof. unfold blen, zdrop. intros. apply drop_app_le. lia. Qed.
Lemma ztake_app_r n l k : blen l <= n -> ztake n (l ++ k) = l ++ ztake (n - blen l) k.
Proof.
  unfold blen, ztake. intros. rewrite take_app_ge by lia. do 2 f_equal. lia.
Qed.
Lemma zdrop_app_r n l k : blen l <= n -> zdrop n (l ++ k) = zdrop (n - blen l) k.
Proof. unfold blen, zdrop. intros. rewrite drop_app_ge by lia. f_equal. lia. Qed.
Lemma ztake_blen_app l k : ztake (blen l) (l ++ k) = l.
Proof. rewrite ztake_app_r, ztake_0, app_nil_r by lia. done. Qed.
Lemma zdrop_blen_app l k : zdrop (blen l) (l ++ k) = k.
Proof. rewrite zdrop_app_r, zdrop_0 by lia. done. Qed.
Lemma zdrop_zdrop a b l : 0 <= a -> 0 <= b -> zdrop a (zdrop b l) = zdrop (a + b) l.
Proof. intros. unfold zdrop. rewrite drop_drop. f_equal. lia. Qed.
Lemma ztake_ztake a b l : ztake a (ztake b l) = ztake (Z.min a b) l.
Proof. unfold ztake. rewrite take_take. f_equal. lia. Qed.
Lemma zdrop_ztake a b l : 0 <= a -> zdrop a (ztake b l) = ztake (b - a) (zdrop a l).
Proof.
  intros. unfold ztake, zdrop. rewrite skipn_firstn_comm. f_equal. lia.
Qed.
Lemma zsub_Some off n l : 0 <= off -> 0 <= n -> off + n <= blen l ->
  zsub off n l = Some (ztake n (zdrop off l)).
Proof. intros. unfold zsub. by rewrite bool_decide_eq_true_2. Qed.
Lemma zsub_None off n l : blen l < off + n -> zsub off n l = None.
Proof. intros. unfold zsub. rewrite bool_decide_eq_false_2; [done|lia]. Qed.
End zlist.

Lemma blen_cstr l : blen (cstr l) <= blen l.
Proof. unfold blen. induction l as [|x l IH]; simpl; [done|]. destruct (byte_eqb x nul); simpl; lia. Qed.

Lemma no_nul_ztake n s : no_nul s -> no_nul (ztake n s).
Proof. unfold no_nul, ztake. intros H Hn. apply H. rewrite <- (take_drop (Z.to_nat n) s). set_solver. Qed.

Create Rewrite HintDb zlist.
#[export] Hint Rewrite @ztake_nil @zdrop_nil @blen_nil @blen_cons @blen_app @blen_ztake @blen_zdrop
  @ztake_zdrop @ztake_blen_app @zdrop_blen_app app_nil_r : zlist.

(** Arithmetic over list lengths. *)
Ltac blia :=
  repeat match goal with
    | |- context [blen ?l] =>
        lazymatch goal with
        | _ : 0 <= blen l |- _ => fail
        | _ => pose proof (blen_nonneg l)
        end
    | _ : context [blen ?l] |- _ =>
        lazymatch goal with
        | _ : 0 <= blen l |- _ => fail
        | _ => pose proof (blen_nonneg l)
        end
    end; lia.
Ltac zlist := autorewrite with zlist in *; try blia.

(** * Network byte order *)

(** The four bytes of [htonl(z)] in memory, and [ntohl] of four bytes. *)
Definition be32 (z : Z) : bytes :=
  [bz (Z.shiftr z 24); bz (Z.shiftr z 16); bz (Z.shiftr z 8); bz z].
Definition of_be32 (l : bytes) : Z :=
  fold_left (fun acc b => Z.lor (Z.shiftl acc 8) (bu b)) l 0.

Lemma be_byte z b : 0 <= b < 256 -> Z.lor (Z.shiftl z 8) b = 256 * z + b.
Proof.
  intros Hb. rewrite Z.shiftl_mul_pow2 by lia.
  assert (Z.land (z * 2 ^ 8) b = 0) as E.
  { apply Z.bits_inj'; intros n Hn. rewrite Z.land_spec, Z.bits_0.
    destruct (decide (n < 8)).
    - rewrite Z.mul_pow2_bits_low by lia. done.
    - replace b with (b mod 2 ^ 8) by (apply Z.mod_small; lia).
      rewrite Z.mod_pow2_bits_high by lia. apply andb_false_r. }
  rewrite <- Z.lxor_lor, <- Z.add_nocarry_lxor by done. lia.
Qed.

Lemma of_be32_eq a b c d :
  of_be32 [a; b; c; d] = bu a * 2 ^ 24 + bu b * 2 ^ 16 + bu c * 2 ^ 8 + bu d.
Proof.
  unfold of_be32. simpl fold_left.
  pose proof (bu_range a); pose proof (bu_range b);
  pose proof (bu_range c); pose proof (bu_range d).
  rewrite !be_byte by lia. lia.
Qed.

Lemma be32_length z : length (be32 z) = 4%nat.
Proof. done. Qed.
Lemma blen_be32 z : blen (be32 z) = 4.
Proof. done. Qed.

Lemma of_be32_be32 z : of_be32 (be32 z) = u32 z.
Proof.
  unfold be32. rewrite of_be32_eq, !bu_bz. unfold u8, u32.
  rewrite !Z.shiftr_div_pow2 by lia.
  change (2 ^ 24) with 16777216; change (2 ^ 16) with 65536;
  change (2 ^ 8) with 256; change (2 ^ 32) with 4294967296.
  Z.to_euclidean_division_equations. lia.
Qed.

Lemma be32_of_be32 l : length l = 4%nat -> be32 (of_be32 l) = l.
Proof.
  destruct l as [|a [|b [|c [|d [|]]]]]; try discriminate. intros _.
  rewrite of_be32_eq. unfold be32.
  pose proof (bu_range a); pose proof (bu_range b);
  pose proof (bu_range c); pose proof (bu_range d).
  rewrite !Z.shiftr_div_pow2 by lia.
  change (2 ^ 24) with 16777216; change (2 ^ 16) with 65536; change (2 ^ 8) with 256.
  repeat f_equal; apply bu_inj; rewrite bu_bz; unfold u8; change (2 ^ 8) with 256;
    Z.to_euclidean_division_equations; lia.
Qed.

Lemma of_be32_range l : length l = 4%nat -> 0 <= of_be32 l < 2 ^ 32.
Proof.
  intros H. rewrite <- (be32_of_be32 l H), of_be32_be32. apply u32_range.
Qed.

#[global] Arguments blen : simpl never.
#[global] Arguments ztake : simpl never.
#[global] Arguments zdrop : simpl never.
#[global] Arguments zsub : simpl never.
#[global] Arguments be32 : simpl never.
#[global] Arguments of_be32 : simpl never.
#[global] Arguments bz : simpl never.
#[global] Arguments bu : simpl never.
#[global] Arguments bs : simpl never.
#[global] Arguments str : simpl never.
#[global] Arguments bytes_eqb : simpl never.
#[global] Arguments byte_eqb : simpl never.
#[global] Arguments has_byte : simpl never.

(** Equality of tuples whose integers are linear expressions. *)
Ltac tuple := repeat first [lia | done | f_equal].
