(* ===== verification/Effects.v ===== *)
(** Effects: the state-and-termination monad in which the stateful code is
    written, the log of diagnostics, C loops with fuel, and the
    postcondition calculus the component proofs use. *)

From S2P Require Import Prelude.

(** * Outcomes

    A C function applied to a state returns, calls [exit] (also through
    [die] and [sysdie], or [abort] on a failed assertion, code 134), reads or
    writes outside an object, or has not finished within the loop fuel. *)
Inductive outcome (S A : Type) : Type :=
  | Ret (a : A) (s : S)
  | Exit (code : Z) (s : S)
  | Fault
  | NoFuel.
Arguments Ret {S A} a s.
Arguments Exit {S A} code s.
Arguments Fault {S A}.
Arguments NoFuel {S A}.

Definition M (S A : Type) : Type := S -> outcome S A.

Definition ret {S A} (a : A) : M S A := fun s => Ret a s.

Definition bind {S A B} (m : M S A) (k : A -> M S B) : M S B := fun s =>
  match m s with
  | Ret a s' => k a s'
  | Exit c s' => Exit c s'
  | Fault => Fault
  | NoFuel => NoFuel
  end.

Definition gets {S A} (f : S -> A) : M S A := fun s => Ret (f s) s.
Definition modify {S} (f : S -> S) : M S unit := fun s => Ret tt (f s).
Definition exit_with {S A} (code : Z) : M S A := fun s => Exit code s.
Definition fault {S A} : M S A := fun _ => Fault.

(** A call that never returns. *)
Definition forever {S A} : M S A := fun _ => NoFuel.

(** A memory access that leaves its object has no defined behaviour. *)
Definition from_option_fault {S A} (o : option A) : M S A :=
  match o with Some a => ret a | None => fault end.

(** [assert(cond)]. *)
Definition massert {S} (b : bool) : M S unit :=
  if b then ret tt else exit_with 134.

(** Run an operation of a component on the part of the state it owns. *)
Definition zoom {S T A} (getp : S -> T) (putp : T -> S -> S) (m : M T A) : M S A :=
  fun s => match m (getp s) with
           | Ret a t => Ret a (putp t s)
           | Exit c t => Exit c (putp t s)
           | Fault => Fault
           | NoFuel => NoFuel
           end.

Notation "'let*' x ':=' m 'in' k" := (bind m (fun x => k))
  (at level 10, x pattern, m at level 100, k at level 200,
   format "'[v' 'let*'  x  ':='  m  'in' '/' k ']'") : remctl_scope.
Notation "'do*' m 'in' k" := (bind m (fun _ => k))
  (at level 10, m at level 100, k at level 200,
   format "'[v' 'do*'  m  'in' '/' k ']'") : remctl_scope.

(** * Postconditions *)

(** [m], started in [s], neither faults nor runs out of fuel; it returns in a
    state where [Q] holds or exits in a state where [E] holds. *)
Definition wp {S A} (m : M S A) (Q : A -> S -> Prop) (E : Z -> S -> Prop) (s : S) : Prop :=
  match m s with
  | Ret a s' => Q a s'
  | Exit c s' => E c s'
  | Fault | NoFuel => False
  end.

(** [m] returns, in a state where [Q] holds. *)
Definition runs {S A} (m : M S A) (Q : A -> S -> Prop) (s : S) : Prop :=
  wp m Q (fun _ _ => False) s.

Section wp.
Context {S : Type}.

Lemma wp_ret {A} (a : A) Q E (s : S) : Q a s -> wp (ret a) Q E s.
Proof. done. Qed.

Lemma wp_bind {A B} (m : M S A) (k : A -> M S B) Q E s :
  wp m (fun a s' => wp (k a) Q E s') E s -> wp (bind m k) Q E s.
Proof. unfold wp, bind. by destruct (m s). Qed.

Lemma wp_bind_inv {A B} (m : M S A) (k : A -> M S B) Q E s :
  wp (bind m k) Q E s -> wp m (fun a s' => wp (k a) Q E s') E s.
Proof. unfold wp, bind. by destruct (m s). Qed.

Lemma wp_mono {A} (m : M S A) (Q Q' : A -> S -> Prop) (E E' : Z -> S -> Prop) s :
  wp m Q E s -> (forall a s', Q a s' -> Q' a s') -> (forall c s', E c s' -> E' c s') ->
  wp m Q' E' s.
Proof. unfold wp. destruct (m s); naive_solver. Qed.

Lemma wp_gets {A} (f : S -> A) Q E s : Q (f s) s -> wp (gets f) Q E s.
Proof. done. Qed.
Lemma wp_modify (f : S -> S) Q E s : Q tt (f s) -> wp (modify f) Q E s.
Proof. done. Qed.

Lemma runs_ret {A} (a : A) Q (s : S) : Q a s -> runs (ret a) Q s.
Proof. done. Qed.
Lemma runs_gets {A} (f : S -> A) (Q : A -> S -> Prop) s : Q (f s) s -> runs (gets f) Q s.
Proof. done. Qed.
Lemma runs_modify (f : S -> S) (Q : unit -> S -> Prop) s : Q tt (f s) -> runs (modify f) Q s.
Proof. done. Qed.
Lemma runs_bind {A B} (m : M S A) (k : A -> M S B) Q s :
  runs m (fun a s' => runs (k a) Q s') s -> runs (bind m k) Q s.
Proof. apply wp_bind. Qed.
Lemma runs_mono {A} (m : M S A) (Q Q' : A -> S -> Prop) s :
  runs m Q s -> (forall a s', Q a s' -> Q' a s') -> runs m Q' s.
Proof. intros H HQ. eapply wp_mono; [exact H|exact HQ|done]. Qed.

(** [runs] names a result. *)
Lemma runs_elim {A} (m : M S A) Q s :
  runs m Q s <-> exists a s', m s = Ret a s' /\ Q a s'.
Proof.
  unfold runs, wp. destruct (m s); split; naive_solver.
Qed.

(** The equation of [bind] once its first part is known. *)
Lemma bind_Ret {A B} (m : M S A) (k : A -> M S B) s a s' :
  m s = Ret a s' -> bind m k s = k a s'.
Proof. unfold bind. by intros ->. Qed.

Lemma bind_Ret_inv {A B} (m : M S A) (k : A -> M S B) s b s2 :
  bind m k s = Ret b s2 -> exists a s1, m s = Ret a s1 /\ k a s1 = Ret b s2.
Proof. unfold bind. destruct (m s); naive_solver. Qed.
End wp.

(** * Loops *)

(** [body] either continues with a new loop state or leaves the loop. *)
Fixpoint loop {S A B} (fuel : nat) (body : A -> M S (A + B)) (a : A) : M S B :=
  match fuel with
  | O => fun _ => NoFuel
  | Datatypes.S f =>
      let* r := body a in
      match r with
      | inl a' => loop f body a'
      | inr b => ret b
      end
  end.

(** Total correctness of a loop: an invariant, and a measure below the fuel
    that every continuing iteration decreases. *)
Lemma loop_wp {S A B} (I : A -> S -> Prop) (mu : A -> S -> nat)
    (body : A -> M S (A + B)) (Q : B -> S -> Prop) (E : Z -> S -> Prop) :
  (forall a s, I a s ->
     wp (body a) (fun r s' => match r with
                              | inl a' => I a' s' /\ (mu a' s' < mu a s)%nat
                              | inr b => Q b s'
                              end) E s) ->
  forall fuel a s, I a s -> (mu a s < fuel)%nat -> wp (loop fuel body a) Q E s.
Proof.
  intros Hbody. induction fuel as [|f IH]; intros a s HI Hmu; [lia|].
  simpl. apply wp_bind. eapply wp_mono; [exact (Hbody a s HI)| |done].
  intros [a'|b] s' Hr; simpl in Hr.
  - destruct Hr as [HI' Hlt]. apply IH; [done|lia].
  - by apply wp_ret.
Qed.

Lemma loop_S {S A B} f (body : A -> M S (A + B)) a s :
  loop (Datatypes.S f) body a s =
  bind (body a) (fun r => match r with inl a' => loop f body a' | inr b => ret b end) s.
Proof. done. Qed.

Lemma loop_inl {S A B} f (body : A -> M S (A + B)) a s a' s' :
  body a s = Ret (inl a') s' -> loop (Datatypes.S f) body a s = loop f body a' s'.
Proof. intros E. rewrite loop_S. unfold bind. by rewrite E. Qed.
Lemma loop_inr {S A B} f (body : A -> M S (A + B)) a s b s' :
  body a s = Ret (inr b) s' -> loop (Datatypes.S f) body a s = Ret b s'.
Proof. intros E. rewrite loop_S. unfold bind. by rewrite E. Qed.

(** * Partial correctness

    [triple P m Q]: whenever [m] returns from a state of [P], its result and
    final state satisfy [Q].  It says nothing about runs that do not return. *)
Definition triple {S A} (P : S -> Prop) (m : M S A) (Q : A -> S -> Prop) : Prop :=
  forall s, P s -> match m s with Ret a s' => Q a s' | _ => True end.

Section triple.
Context {S : Type}.

Lemma triple_ret {A} (P : S -> Prop) (a : A) (Q : A -> S -> Prop) :
  (forall s, P s -> Q a s) -> triple P (ret a) Q.
Proof. intros H s Hs. by apply H. Qed.
Lemma triple_bind {A B} (P : S -> Prop) (m : M S A) (k : A -> M S B) R Q :
  triple P m R -> (forall a, triple (R a) (k a) Q) -> triple P (bind m k) Q.
Proof.
  intros Hm Hk s Hs. specialize (Hm s Hs). unfold bind. destruct (m s); [|done..]. by apply Hk.
Qed.
Lemma triple_gets {A} (P : S -> Prop) (f : S -> A) :
  triple P (gets f) (fun a s => P s /\ a = f s).
Proof. by intros s Hs. Qed.
Lemma triple_modify (P Q : S -> Prop) f : (forall s, P s -> Q (f s)) -> triple P (modify f) (fun _ => Q).
Proof. intros H s Hs. by apply H. Qed.
Lemma triple_conseq {A} (P P' : S -> Prop) (m : M S A) (Q Q' : A -> S -> Prop) :
  triple P m Q -> (forall s, P' s -> P s) -> (forall a s, Q a s -> Q' a s) -> triple P' m Q'.
Proof. intros Hm HP HQ s Hs. specialize (Hm s (HP s Hs)). destruct (m s); auto. Qed.
Lemma triple_pre {A} (P : S -> Prop) (m : M S A) (Q : A -> S -> Prop) (X : Prop) :
  (X -> triple P m Q) -> triple (fun s => P s /\ X) m Q.
Proof. intros H s [Hs HX]. by apply H. Qed.
Lemma triple_Ret {A} P (m : M S A) Q s a s' : triple P m Q -> P s -> m s = Ret a s' -> Q a s'.
Proof. intros Hm Hs E. specialize (Hm s Hs). by rewrite E in Hm. Qed.
Lemma triple_fault {A} P (Q : A -> S -> Prop) : triple P fault Q.
Proof. by intros s. Qed.
Lemma triple_forever {A} P (Q : A -> S -> Prop) : triple P forever Q.
Proof. by intros s. Qed.
Lemma triple_exit {A} P c (Q : A -> S -> Prop) : triple P (exit_with c) Q.
Proof. by intros s. Qed.
Lemma triple_from_option {A} P (o : option A) (Q : A -> S -> Prop) :
  (forall a, o = Some a -> forall s, P s -> Q a s) -> triple P (from_option_fault o) Q.
Proof. intros H s Hs. destruct o; simpl; [by apply H|done]. Qed.
End triple.

(** [m] leaves what [f] reads as it is. *)
Definition keeps {S X A} (f : S -> X) (m : M S A) : Prop :=
  forall s, match m s with Ret _ s' => f s' = f s | _ => True end.

Section keeps.
Context {S X : Type} (f : S -> X).

Lemma keeps_ret {A} (a : A) : keeps f (ret a).
Proof. by intros s. Qed.
Lemma keeps_fault {A} : keeps (A:=A) f fault.
Proof. by intros s. Qed.
Lemma keeps_forever {A} : keeps (A:=A) f forever.
Proof. by intros s. Qed.
Lemma keeps_exit {A} c : keeps (A:=A) f (exit_with c).
Proof. by intros s. Qed.
Lemma keeps_bind {A B} (m : M S A) (k : A -> M S B) :
  keeps f m -> (forall a, keeps f (k a)) -> keeps f (bind m k).
Proof.
  intros Hm Hk s. specialize (Hm s). unfold bind. destruct (m s) as [a s1| | |]; [|done..].
  specialize (Hk a s1). destruct (k a s1); [|done..]. congruence.
Qed.
Lemma keeps_loop {A B} fuel (body : A -> M S (A + B)) : (forall a, keeps f (body a)) -> forall a, keeps f (loop fuel body a).
Proof.
  intros Hb. induction fuel as [|fuel IH]; intros a; [by intros s|]. cbn [loop].
  apply keeps_bind; [apply Hb|]. intros [a'|b]; [apply IH|apply keeps_ret].
Qed.
Lemma keeps_gets {A} (g : S -> A) : keeps f (gets g).
Proof. by intros s. Qed.
Lemma keeps_modify g : (forall s, f (g s) = f s) -> keeps f (modify g).
Proof. intros H s. apply H. Qed.
Lemma keeps_option {A} (o : option A) : keeps f (from_option_fault o).
Proof. by destruct o; intros s. Qed.
Lemma keeps_massert b : keeps f (massert b).
Proof. by destruct b; intros s. Qed.
Lemma keeps_zoom {T A} (g : S -> T) p (m : M T A) :
  (forall t s, f (p t s) = f s) -> keeps f (zoom g p m).
Proof. intros H s. unfold zoom. destruct (m (g s)); auto. Qed.
Lemma keeps_Ret {A} (m : M S A) s a s' : keeps f m -> m s = Ret a s' -> f s' = f s.
Proof. intros Hm E. specialize (Hm s). by rewrite E in Hm. Qed.
Lemma keeps_triple {A} (m : M S A) (P : X -> Prop) :
  keeps f m -> triple (fun s => P (f s)) m (fun _ s => P (f s)).
Proof. intros Hm s Hs. specialize (Hm s). destruct (m s); [|done..]. congruence. Qed.
Lemma keeps_if {A} (b : bool) (m m' : M S A) : keeps f m -> keeps f m' -> keeps f (if b then m else m').
Proof. by destruct b. Qed.
End keeps.

Create HintDb keeps.
#[export] Hint Resolve keeps_ret keeps_fault keeps_forever keeps_exit keeps_bind keeps_gets keeps_option
  keeps_massert keeps_if : keeps.

(** [m] does what [m'] does, unless it faults. *)
Definition below {S A} (m m' : M S A) : Prop := forall s, m s = Fault \/ m s = m' s.

Section below.
Context {S : Type}.

Lemma below_refl {A} (m : M S A) : below m m.
Proof. by right. Qed.
Lemma below_fault {A} (m m' : M S A) : (forall s, m s = Fault) -> below m m'.
Proof. by left. Qed.
Lemma below_bind {A B} (m m' : M S A) (k k' : A -> M S B) :
  below m m' -> (forall a, below (k a) (k' a)) -> below (bind m k) (bind m' k').
Proof.
  intros Hm Hk s. unfold bind. destruct (Hm s) as [->| ->]; [by left|].
  destruct (m' s) as [a s'| | |]; [apply Hk|by right..].
Qed.
Lemma below_zoom {T A} (g : S -> T) p (m m' : M T A) : below m m' -> below (zoom g p m) (zoom g p m').
Proof. intros Hm s. unfold zoom. destruct (Hm (g s)) as [->| ->]; [by left|by right]. Qed.
Lemma below_if {A} (b : bool) (m1 m1' m2 m2' : M S A) :
  below m1 m1' -> below m2 m2' -> below (if b then m1 else m2) (if b then m1' else m2').
Proof. by destruct b. Qed.

(** What [m'] guarantees, [m] does too unless it faults. *)
Lemma below_runs {A} (m m' : M S A) Q s : below m m' -> runs m' Q s -> m s = Fault \/ runs m Q s.
Proof. intros Hm Hr. destruct (Hm s) as [->|E]; [by left|right]. unfold runs, wp in *. by rewrite E. Qed.
Lemma below_triple {A} (m m' : M S A) P (Q : A -> S -> Prop) :
  below m m' -> (forall s, P s -> runs m' Q s) -> triple P m Q.
Proof.
  intros Hm Hr s Hs. specialize (Hr s Hs). unfold runs, wp in Hr. by destruct (Hm s) as [->| ->]; destruct (m' s).
Qed.
End below.

Create HintDb below.
#[export] Hint Resolve below_refl below_bind below_zoom below_if : below.

(** * Diagnostics *)

(** [debug] is not kept; a message is its format and its arguments, which
    [printf] renders. *)
Inductive level : Type := Notice | Warn | SysWarn | Die | SysDie.
Inductive larg : Type :=
  | AStr (b : bytes)
  | AInt (z : Z)
  | AErr (e : Z)                   (* strerror(e) *)
  | AGai (e : Z)                   (* gai_strerror(e) *)
  | AKrb (e : Z).                  (* krb5_get_error_message(ctx, e) *)
Record logline : Type := Log { l_level : level; l_fmt : string; l_args : list larg }.

(** States that keep a log, newest message last. *)
Class HasLog (S : Type) : Type := add_log : logline -> S -> S.

Section logging.
Context {S : Type} `{HasLog S}.
Definition notice (f : string) (a : list larg) : M S unit := modify (add_log (Log Notice f a)).
Definition warn (f : string) (a : list larg) : M S unit := modify (add_log (Log Warn f a)).
Definition syswarn (f : string) (a : list larg) : M S unit := modify (add_log (Log SysWarn f a)).

(** [exit(message_fatal_cleanup ? ... : 1)] with the default cleanup. *)
Definition die {A} (f : string) (a : list larg) : M S A :=
  do* modify (add_log (Log Die f a)) in exit_with 1.
Definition sysdie {A} (f : string) (a : list larg) : M S A :=
  do* modify (add_log (Log SysDie f a)) in exit_with 1.
End logging.

(** A component whose only effect is to log. *)
Abbreviation logs := (list logline).
#[export] Instance logs_HasLog : HasLog logs := fun l s => s ++ [l].
