(* ===== verification/CLib.v ===== *)
(** What the program uses of the C library on text: character classes in the
    C locale, [strtol] and the printing of decimal numbers. *)

From S2P Require Import Prelude.

(** [isspace] in the C locale. *)
Definition isspace (c : byte) : bool :=
  (bu c =? 32) || ((9 <=? bu c) && (bu c <=? 13)).

Fixpoint skip_space (s : bytes) : bytes :=
  match s with [] => [] | c :: s' => if isspace c then skip_space s' else s end.

Definition is_alpha (c : byte) : bool :=
  ((65 <=? bu c) && (bu c <=? 90)) || ((97 <=? bu c) && (bu c <=? 122)).
Definition is_digit (c : byte) : bool := (48 <=? bu c) && (bu c <=? 57).
Definition is_alnum (c : byte) : bool := is_alpha c || is_digit c.

Definition LONG_MIN : Z := -9223372036854775808.

(** The digits of [strtol] in base 10: the value, how many there are and the rest. *)
Fixpoint digits (s : bytes) (acc : Z) (n : nat) : Z * nat * bytes :=
  match s with
  | c :: s' => if is_digit c then digits s' (10 * acc + (bu c - 48)) (S n) else (acc, n, s)
  | [] => (acc, n, [])
  end.

(** [strtol(s, &end, 10)]: the value, whether [errno] is set, and [end]. *)
Definition strtol (s : bytes) : Z * bool * bytes :=
  let p := skip_space s in
  let '(sign, p) := match p with
                    | c :: p' => if byte_eqb c "-" then (-1, p') else if byte_eqb c "+" then (1, p') else (1, p)
                    | [] => (1, [])
                    end in
  let '(v, n, rest) := digits p 0 0 in
  match n with
  | O => (0, false, s)
  | _ =>
      if LONG_MAX <? sign * v then (LONG_MAX, true, rest)
      else if sign * v <? LONG_MIN then (LONG_MIN, true, rest)
      else (sign * v, false, rest)
  end.

Definition ULONG_MAX : Z := 18446744073709551615.

(** [strtoul(s, &end, 10)]: the value and [end]; a negative number wraps. *)
Definition strtoul (s : bytes) : Z * bytes :=
  let p := skip_space s in
  let '(sign, p) := match p with
                    | c :: p' => if byte_eqb c "-" then (-1, p') else if byte_eqb c "+" then (1, p') else (1, p)
                    | [] => (1, [])
                    end in
  let '(v, n, rest) := digits p 0 0 in
  match n with
  | O => (0, s)
  | _ => if ULONG_MAX <? v then (ULONG_MAX, rest) else (u64 (sign * v), rest)
  end.

(** Decimal numbers. *)
Definition digit (d : Z) : byte := bz (48 + d).
Fixpoint dec_go (fuel : nat) (n : Z) (rest : bytes) : bytes :=
  match fuel with
  | O => rest
  | S fuel => if n <? 10 then digit n :: rest else dec_go fuel (n / 10) (digit (n mod 10) :: rest)
  end.
Definition decimal (n : Z) : bytes := dec_go 20 n [].

(** What the parent sees of a value returned from [main]. *)
Definition exit_code (status : Z) : Z := Z.land status 255.

Inductive std_stream : Type := StdOut | StdErr.

(** * Lemmas *)

Lemma digits_range s : forall acc n, 0 <= acc -> 0 <= (digits s acc n).1.1.
Proof.
  induction s as [|c s IH]; intros acc n Ha; [done|]. simpl. destruct (is_digit c) eqn:Ec; [|done].
  apply IH. unfold is_digit in Ec. apply andb_true_iff in Ec as [E%Z.leb_le _]. lia.
Qed.

Lemma strtol_range s : LONG_MIN <= (strtol s).1.1 <= LONG_MAX.
Proof.
  unfold strtol. destruct (match skip_space s with [] => _ | _ => _ end) as [sign p].
  destruct (digits p 0 0) as [[v n] rest]. destruct n; [done|].
  destruct (Z.ltb_spec LONG_MAX (sign * v)); [done|]. destruct (Z.ltb_spec (sign * v) LONG_MIN); [done|]. simpl. lia.
Qed.

Lemma digit_digit d : 0 <= d < 10 -> is_digit (digit d) = true /\ bu (digit d) = 48 + d.
Proof.
  intros Hd. assert (bu (digit d) = 48 + d) as E by (unfold digit; rewrite bu_bz; apply Z.mod_small; lia).
  split; [|done]. unfold is_digit. rewrite E. apply andb_true_iff. split; apply Z.leb_le; lia.
Qed.

Lemma digits_dec fuel : forall n rest, 0 <= n < 10 ^ Z.of_nat fuel -> (0 < fuel)%nat ->
  exists k, (0 < k)%nat /\ digits (dec_go fuel n rest) 0 0 = digits rest n k.
Proof.
  induction fuel as [|fuel IH]; intros n rest Hn Hf; [lia|]. cbn [dec_go]. destruct (Z.ltb_spec n 10).
  - exists 1%nat. split; [lia|]. cbn [digits]. destruct (digit_digit n) as [-> ->]; [lia|].
    f_equal. lia.
  - rewrite Nat2Z.inj_succ, Z.pow_succ_r in Hn by lia.
    destruct (IH (n / 10) (digit (n mod 10) :: rest)) as (k & Hk & ->).
    { split; [apply Z.div_pos; lia|]. apply Z.div_lt_upper_bound; lia. }
    { destruct fuel; [simpl in Hn; lia|lia]. }
    exists (S k). split; [lia|]. cbn [digits].
    pose proof (Z.mod_pos_bound n 10 ltac:(lia)). destruct (digit_digit (n mod 10)) as [-> ->]; [lia|].
    f_equal. pose proof (Z.div_mod n 10 ltac:(lia)). lia.
Qed.

Lemma dec_go_digits fuel : forall n rest, 0 <= n -> Forall (fun c => is_digit c = true) rest ->
  Forall (fun c => is_digit c = true) (dec_go fuel n rest).
Proof.
  induction fuel as [|fuel IH]; intros n rest Hn Hr; [done|]. cbn [dec_go]. destruct (Z.ltb_spec n 10).
  - constructor; [apply digit_digit; lia|done].
  - apply IH; [apply Z.div_pos; lia|]. constructor; [|done].
    pose proof (Z.mod_pos_bound n 10 ltac:(lia)). apply digit_digit. lia.
Qed.

Lemma digit_plain c : is_digit c = true -> isspace c = false /\ c <> "-"%byte /\ c <> "+"%byte /\ c <> ","%byte /\
  c ∉ [nul; x20; x09; x0a].
Proof. destruct c; try done; intros _; repeat split; try done; set_solver. Qed.

Lemma decimal_digits n : 0 < n -> Forall (fun c => is_digit c = true) (decimal n).
Proof. intros. apply dec_go_digits; [lia|done]. Qed.
