(* ===== verification/Messages.v ===== *)
(** Messages: [util/messages.c], [util/messages-krb5.c],
    [util/gss-errors.c] and the libevent callbacks of [server/event-util.c].

    The other files keep a message as its format and arguments; here it
    becomes text on a terminal or an entry of syslog.  A handler list is a
    block of the heap that ends in [NULL], or one of the two static arrays. *)

From S2P Require Import Prelude Effects CLib.

(** [strerror], [gai_strerror] and [krb5_get_error_message]. *)
Class ErrorText : Type := {
  strerror : Z -> bytes;
  gai_strerror : Z -> bytes;
  krb5_get_error_message : Z -> option bytes;
}.

(** * printf *)

Section printf.
Context `{ErrorText}.

Definition sdecimal (z : Z) : bytes := if z <? 0 then "-"%byte :: decimal (- z) else decimal z.

Definition string_arg (a : larg) : option bytes :=
  match a with
  | AStr s => Some (cstr s)
  | AErr e => Some (strerror e)
  | AGai e => Some (gai_strerror e)
  | AKrb e => krb5_get_error_message e
  | AInt _ => None
  end.

Definition int_arg (conv : Z -> bytes) (a : larg) : option bytes :=
  match a with AInt z => Some (conv z) | _ => None end.

(** The conversions the program uses: the characters after the percent sign
    and what becomes of the argument. *)
Definition conversions : list (bytes * (larg -> option bytes)) :=
  [(str "s", string_arg);
   (str "c", int_arg (fun z => [bz z]));
   (str "d", int_arg (fun z => sdecimal (s32 z)));
   (str "ld", int_arg (fun z => sdecimal (s64 z)));
   (str "u", int_arg (fun z => decimal (u32 z)));
   (str "lu", int_arg (fun z => decimal (u64 z)));
   (str "hu", int_arg (fun z => decimal (u16 z)))].

Fixpoint find_conversion (convs : list (bytes * (larg -> option bytes))) (fmt : bytes)
    : option ((larg -> option bytes) * nat) :=
  match convs with
  | [] => None
  | (spec, conv) :: convs =>
      if bytes_eqb (firstn (length spec) fmt) spec then Some (conv, length spec) else find_conversion convs fmt
  end.

(** What [printf] makes of a format and its arguments; [None] if they do not
    fit together.  [skip] characters belong to the conversion before. *)
Fixpoint format_text (skip : nat) (fmt : bytes) (args : list larg) : option bytes :=
  match fmt with
  | [] => Some []
  | c :: fmt =>
      match skip with
      | S skip => format_text skip fmt args
      | O =>
          if negb (byte_eqb c "%") then cons c <$> format_text 0 fmt args
          else if bytes_eqb (firstn 1 fmt) (str "%") then cons c <$> format_text 1 fmt args
          else
            match find_conversion conversions fmt, args with
            | Some (conv, n), a :: args =>
                match conv a, format_text n fmt args with Some t, Some rest => Some (t ++ rest) | _, _ => None end
            | _, _ => None
            end
      end
  end.

Definition printf (fmt : string) (args : list larg) : option bytes := format_text 0 (str fmt) args.

(** The result of [vsnprintf]. *)
Definition printf_length (text : bytes) : Z := if INT_MAX <? blen text then -1 else blen text.
End printf.

(** * The state of messages.c *)

Definition LOG_CRIT : Z := 2.
Definition LOG_ERR : Z := 3.
Definition LOG_WARNING : Z := 4.
Definition LOG_NOTICE : Z := 5.
Definition LOG_INFO : Z := 6.
Definition LOG_DEBUG : Z := 7.

(** [message_log_stdout], [message_log_stderr] and [message_log_syslog_*]. *)
Inductive handler : Type := message_log_stdout | message_log_stderr | message_log_syslog_pri (pri : Z).

Inductive handler_list : Type := NullList | StdoutHandlers | StderrHandlers | Block (id : Z).

#[export] Instance handler_list_eq_decision : EqDecision handler_list.
Proof. solve_decision. Defined.

Inductive kind : Type := KDebug | KNotice | KWarn | KDie.

Abbreviation terminal := (list (std_stream * byte)).

Record messages : Type := Messages {
  ms_heap : gmap Z (list (option handler));
  ms_next : Z;                             (* where the next block will be *)
  debug_handlers : handler_list;
  notice_handlers : handler_list;
  warn_handlers : handler_list;
  die_handlers : handler_list;
  message_fatal_cleanup : option Z;        (* what the function returns *)
  message_program_name : option bytes;
  ms_stdout : bytes;                       (* what stdout has buffered *)
  ms_terminal : terminal;
  ms_syslog : list (Z * bytes);
  ms_errno : Z;
}.

Definition put_heap h n m := Messages h n (debug_handlers m) (notice_handlers m) (warn_handlers m) (die_handlers m)
  (message_fatal_cleanup m) (message_program_name m) (ms_stdout m) (ms_terminal m) (ms_syslog m) (ms_errno m).
Definition put_lists d n w x m := Messages (ms_heap m) (ms_next m) d n w x
  (message_fatal_cleanup m) (message_program_name m) (ms_stdout m) (ms_terminal m) (ms_syslog m) (ms_errno m).
Definition put_term o t m := Messages (ms_heap m) (ms_next m) (debug_handlers m) (notice_handlers m) (warn_handlers m)
  (die_handlers m) (message_fatal_cleanup m) (message_program_name m) o t (ms_syslog m) (ms_errno m).
Definition put_syslog l m := Messages (ms_heap m) (ms_next m) (debug_handlers m) (notice_handlers m) (warn_handlers m)
  (die_handlers m) (message_fatal_cleanup m) (message_program_name m) (ms_stdout m) (ms_terminal m) l (ms_errno m).
Definition put_merrno e m := Messages (ms_heap m) (ms_next m) (debug_handlers m) (notice_handlers m) (warn_handlers m)
  (die_handlers m) (message_fatal_cleanup m) (message_program_name m) (ms_stdout m) (ms_terminal m) (ms_syslog m) e.

Definition handlers_of (k : kind) (m : messages) : handler_list :=
  match k with
  | KDebug => debug_handlers m
  | KNotice => notice_handlers m
  | KWarn => warn_handlers m
  | KDie => die_handlers m
  end.

Definition set_handlers (k : kind) (l : handler_list) (m : messages) : messages :=
  match k with
  | KDebug => put_lists l (notice_handlers m) (warn_handlers m) (die_handlers m) m
  | KNotice => put_lists (debug_handlers m) l (warn_handlers m) (die_handlers m) m
  | KWarn => put_lists (debug_handlers m) (notice_handlers m) l (die_handlers m) m
  | KDie => put_lists (debug_handlers m) (notice_handlers m) (warn_handlers m) l m
  end.

Definition initial_messages : messages :=
  Messages ∅ 1 NullList StdoutHandlers StderrHandlers StderrHandlers None None [] [] [] 0.

(** [free]. *)
Definition free_list (l : handler_list) : M messages unit :=
  match l with
  | NullList => ret tt
  | Block id => fun m =>
      match ms_heap m !! id with
      | Some _ => Ret tt (put_heap (delete id (ms_heap m)) (ms_next m) m)
      | None => Fault
      end
  | _ => fault
  end.

Definition is_static (l : handler_list) : bool :=
  match l with StdoutHandlers | StderrHandlers => true | _ => false end.

(** Storing an entry of a list. *)
Definition store_handler (id : Z) (i : nat) (h : option handler) : M messages unit := fun m =>
  match ms_heap m !! id with
  | Some block =>
      if bool_decide (i < length block)%nat
      then Ret tt (put_heap (<[id := <[i := h]> block]> (ms_heap m)) (ms_next m) m) else Fault
  | None => Fault
  end.

(** [count] more arguments, stored from [i] on. *)
Fixpoint store_handlers (id : Z) (i count : nat) (args : list handler) : M messages unit :=
  match count with
  | O => ret tt
  | S count =>
      match args with
      | [] => fault
      | h :: args => do* store_handler id i (Some h) in store_handlers id (S i) count args
      end
  end.

Definition message_handlers (k : kind) (count : nat) (args : list handler) : M messages unit :=
  let* l := gets (handlers_of k) in
  do* (if negb (is_static l) then free_list l else ret tt) in
  let* id := gets ms_next in
  do* modify (fun m => put_heap (<[id := replicate (count + 1) None]> (ms_heap m)) (id + 1) m) in
  do* modify (set_handlers k (Block id)) in
  do* store_handlers id 0 count args in
  store_handler id count None.

Definition reset_list (k : kind) (default : handler_list) : M messages unit :=
  let* l := gets (handlers_of k) in
  if bool_decide (l = default) then ret tt
  else do* free_list l in modify (set_handlers k default).

Definition message_handlers_reset : M messages unit :=
  let* l := gets debug_handlers in
  do* free_list l in
  do* modify (set_handlers KDebug NullList) in
  do* reset_list KNotice StdoutHandlers in
  do* reset_list KWarn StderrHandlers in
  reset_list KDie StderrHandlers.

(** * Reporting *)

Section reporting.
Context `{ErrorText}.

Definition print_stdout (text : bytes) : M messages unit :=
  modify (fun m => put_term (ms_stdout m ++ text) (ms_terminal m) m).
Definition fflush_stdout : M messages unit :=
  modify (fun m => put_term [] (ms_terminal m ++ map (pair StdOut) (ms_stdout m)) m).

(** Standard error has no buffer. *)
Definition print_stderr (text : bytes) : M messages unit :=
  modify (fun m => put_term (ms_stdout m) (ms_terminal m ++ map (pair StdErr) text) m).

Definition newline : byte := x0a.

(** The body of [message_log_stdout] and [message_log_stderr]. *)
Definition log_line (print : bytes -> M messages unit) (fmt : string) (args : list larg) (err : Z) : M messages unit :=
  let* name := gets message_program_name in
  do* match name with Some name => print (name ++ str ": ") | None => ret tt end in
  let* text := from_option_fault (printf fmt args) in
  do* print text in
  do* (if negb (err =? 0) then print (str ": " ++ strerror err) else ret tt) in
  print [newline].

(** [warn] is what the function calls when it cannot format the message. *)
Definition message_log_syslog (warn : M messages unit) (pri len : Z) (fmt : string) (args : list larg) (err : Z)
    : M messages unit :=
  let* text := from_option_fault (printf fmt args) in
  let status := printf_length text in
  if (status <? 0) || (u64 (len + 1) <=? status) then warn
  else
    let entry := if err =? 0 then cstr text else cstr text ++ str ": " ++ strerror err in
    modify (fun m => put_syslog (ms_syslog m ++ [(pri, entry)]) m).

Definition run_handler (warn : M messages unit) (h : handler) (len : Z) (fmt : string) (args : list larg) (err : Z)
    : M messages unit :=
  match h with
  | message_log_stdout => do* log_line print_stdout fmt args err in fflush_stdout
  | message_log_stderr => do* fflush_stdout in log_line print_stderr fmt args err
  | message_log_syslog_pri pri => message_log_syslog warn pri len fmt args err
  end.

(** The array a list points to; the static ones have one handler. *)
Definition list_block (l : handler_list) : M messages (list (option handler)) :=
  match l with
  | NullList => fault
  | StdoutHandlers => ret [Some message_log_stdout; None]
  | StderrHandlers => ret [Some message_log_stderr; None]
  | Block id => fun m => match ms_heap m !! id with Some block => Ret block m | None => Fault end
  end.

(** [for (log = list; *log != NULL; log++)]. *)
Fixpoint call_handlers (run : handler -> M messages unit) (block : list (option handler)) : M messages unit :=
  match block with
  | [] => fault
  | None :: _ => ret tt
  | Some h :: block => do* run h in call_handlers run block
  end.

(** The common part of the reporting functions. *)
Definition report (warn : M messages unit) (k : kind) (fmt : string) (args : list larg) (err : Z) : M messages unit :=
  let* text := from_option_fault (printf fmt args) in
  let length := printf_length text in
  if length <? 0 then ret tt
  else
    let* l := gets (handlers_of k) in
    let* block := list_block l in
    call_handlers (fun h => run_handler warn h length fmt args err) block.

(** The message of [message_log_syslog] about itself. *)
Fixpoint format_failed (depth : nat) : M messages unit :=
  match depth with
  | O => fun _ => NoFuel
  | S depth => report (format_failed depth) KWarn "failed to format output with vsnprintf in syslog handler" [] 0
  end.

Definition SYSLOG_DEPTH : nat := 1.

Definition debug_message (fmt : string) (args : list larg) : M messages unit :=
  let* l := gets debug_handlers in
  if bool_decide (l = NullList) then ret tt else report (format_failed SYSLOG_DEPTH) KDebug fmt args 0.

Definition notice_message (fmt : string) (args : list larg) : M messages unit :=
  report (format_failed SYSLOG_DEPTH) KNotice fmt args 0.

Definition sysnotice_message (fmt : string) (args : list larg) : M messages unit :=
  let* error := gets ms_errno in report (format_failed SYSLOG_DEPTH) KNotice fmt args error.

Definition warn_message (fmt : string) (args : list larg) : M messages unit :=
  report (format_failed SYSLOG_DEPTH) KWarn fmt args 0.

Definition syswarn_message (fmt : string) (args : list larg) : M messages unit :=
  let* error := gets ms_errno in report (format_failed SYSLOG_DEPTH) KWarn fmt args error.

(** [exit(message_fatal_cleanup ? (...)() : 1)], which flushes stdout. *)
Definition fatal_exit : M messages unit :=
  let* cleanup := gets message_fatal_cleanup in
  do* fflush_stdout in
  exit_with (default 1 cleanup).

Definition die_message (fmt : string) (args : list larg) : M messages unit :=
  do* report (format_failed SYSLOG_DEPTH) KDie fmt args 0 in fatal_exit.

Definition sysdie_message (fmt : string) (args : list larg) : M messages unit :=
  let* error := gets ms_errno in
  do* report (format_failed SYSLOG_DEPTH) KDie fmt args error in fatal_exit.

(** ** util/messages-krb5.c *)

(** [ctx] says whether there is a context. *)
Definition krb5_message (report : string -> list larg -> M messages unit) (ctx : bool) (code : Z) (fmt : string)
    (args : list larg) : M messages unit :=
  let k5_msg := if ctx then krb5_get_error_message code else None in
  let* message := from_option_fault (printf fmt args) in
  match k5_msg with
  | None => report "%s" [AStr message]
  | Some k5_msg => report "%s: %s" [AStr message; AStr k5_msg]
  end.

Definition die_krb5 := krb5_message die_message.
Definition warn_krb5 := krb5_message warn_message.

(** ** util/gss-errors.c *)

(** [gss_display_status] gives a text and the next [msg_ctx]. *)
Context (gss_display_status : Z -> bool -> Z -> bytes * Z).

(** The loop for one status; [string] is what has been built. *)
Fixpoint display_loop (fuel : nat) (status : Z) (mech : bool) (msg_ctx : Z) (prefix : bytes) (string : option bytes)
    : option bytes :=
  match fuel with
  | O => None
  | S fuel =>
      let '(msg, msg_ctx) := gss_display_status status mech msg_ctx in
      let string := match string with
        | None => str "GSS-API error " ++ prefix ++ str ": " ++ cstr msg
        | Some old => old ++ str ", " ++ cstr msg
        end in
      if negb (msg_ctx =? 0) then display_loop fuel status mech msg_ctx prefix (Some string) else Some string
  end.

Definition gssapi_error_string (fuel : nat) (prefix : bytes) (major minor : Z) : option bytes :=
  match display_loop fuel major false 0 prefix None with
  | None => None
  | Some string =>
      if negb (minor =? 0) then display_loop fuel minor true 0 prefix (Some string) else Some string
  end.

(** ** server/event-util.c *)

Definition EVENT_LOG_DEBUG : Z := 0.
Definition EVENT_LOG_MSG : Z := 1.

Definition server_event_log_callback (severity : Z) (message : bytes) : M messages unit :=
  if severity =? EVENT_LOG_DEBUG then debug_message "%s" [AStr message]
  else if severity =? EVENT_LOG_MSG then notice_message "%s" [AStr message]
  else warn_message "%s" [AStr message].

Definition server_event_fatal_callback (err : Z) : M messages unit := die_message "fatal libevent error (%d)" [AInt err].

(** ** The set-up of [main] in [server/remctld.c] *)

Definition setup_logging (log_stdout debug : bool) : M messages unit :=
  if log_stdout then
    if debug then message_handlers KDebug 1 [message_log_stdout] else ret tt
  else
    do* message_handlers KNotice 1 [message_log_syslog_pri LOG_INFO] in
    do* message_handlers KWarn 1 [message_log_syslog_pri LOG_WARNING] in
    do* message_handlers KDie 1 [message_log_syslog_pri LOG_ERR] in
    if debug then message_handlers KDebug 1 [message_log_syslog_pri LOG_DEBUG] else ret tt.

(** What a kept message, a [logline], was when the program wrote it. *)
Definition deliver (l : logline) : M messages unit :=
  match l_level l with
  | Notice => notice_message (l_fmt l) (l_args l)
  | Warn => warn_message (l_fmt l) (l_args l)
  | SysWarn => syswarn_message (l_fmt l) (l_args l)
  | Die => die_message (l_fmt l) (l_args l)
  | SysDie => sysdie_message (l_fmt l) (l_args l)
  end.
End reporting.
