(* ===== verification/MessagesSpec.v ===== *)
(** Messages, theorems: the handler lists on the heap implement a logger that
    sends each message to the handlers set last, in the order of the calls,
    without a double free or a leak. *)

From S2P Require Import Prelude Effects CLib Messages.

(** * What messages.c promises *)

#[export] Instance kind_eq_decision : EqDecision kind.
Proof. solve_decision. Defined.

(** The handlers in effect, and what has come out so far; standard output
    counts as out when it is printed, not when it is flushed. *)
Record logger : Type := Logger {
  lg_handlers : kind -> list handler;
  lg_out : terminal;
  lg_syslog : list (Z * bytes);
  lg_cleanup : option Z;
  lg_name : option bytes;
  lg_errno : Z;
}.

Definition default_handlers (k : kind) : list handler :=
  match k with KDebug => [] | KNotice => [message_log_stdout] | KWarn | KDie => [message_log_stderr] end.

Definition lg_print (std : std_stream) (text : bytes) (g : logger) : logger :=
  Logger (lg_handlers g) (lg_out g ++ map (pair std) text) (lg_syslog g) (lg_cleanup g) (lg_name g) (lg_errno g).

Definition lg_entry (pri : Z) (text : bytes) (g : logger) : logger :=
  Logger (lg_handlers g) (lg_out g) (lg_syslog g ++ [(pri, text)]) (lg_cleanup g) (lg_name g) (lg_errno g).

Definition lg_set (f : kind -> list handler) (g : logger) : logger :=
  Logger f (lg_out g) (lg_syslog g) (lg_cleanup g) (lg_name g) (lg_errno g).

Definition lg_set_errno (e : Z) (g : logger) : logger :=
  Logger (lg_handlers g) (lg_out g) (lg_syslog g) (lg_cleanup g) (lg_name g) e.

Section spec.
Context `{ErrorText}.

Definition error_suffix (err : Z) : bytes := if err =? 0 then [] else str ": " ++ strerror err.

(** A line of output: the program's name, the message and the error. *)
Definition line (g : logger) (text : bytes) (err : Z) : bytes :=
  match lg_name g with Some name => name ++ str ": " | None => [] end ++ text ++ error_suffix err ++ [newline].

Definition emit (text : bytes) (err : Z) (g : logger) (h : handler) : logger :=
  match h with
  | message_log_stdout => lg_print StdOut (line g text err) g
  | message_log_stderr => lg_print StdErr (line g text err) g
  | message_log_syslog_pri pri => lg_entry pri (cstr text ++ error_suffix err) g
  end.

(** A message of more than [INT_MAX] bytes is dropped. *)
Definition lg_report (k : kind) (text : bytes) (err : Z) (g : logger) : logger :=
  if INT_MAX <? blen text then g else foldl (emit text err) g (lg_handlers g k).

(** What a program does with messages. *)
Inductive msg_op : Type :=
  | OpHandlers (k : kind) (hs : list handler)        (* message_handlers_<k> *)
  | OpReset
  | OpPrint (text : bytes)                           (* the program's own output *)
  | OpErrno (e : Z)
  | OpDebug (fmt : string) (args : list larg)
  | OpSysNotice (fmt : string) (args : list larg)
  | OpLog (l : logline).

Definition run_op (op : msg_op) : M messages unit :=
  match op with
  | OpHandlers k hs => message_handlers k (length hs) hs
  | OpReset => message_handlers_reset
  | OpPrint text => print_stdout text
  | OpErrno e => modify (put_merrno e)
  | OpDebug fmt args => debug_message fmt args
  | OpSysNotice fmt args => sysnotice_message fmt args
  | OpLog l => deliver l
  end.

Definition lg_message (k : kind) (sys fatal : bool) (fmt : string) (args : list larg) : M logger unit :=
  let* text := from_option_fault (printf fmt args) in
  do* modify (fun g => lg_report k text (if sys then lg_errno g else 0) g) in
  if fatal then let* cleanup := gets lg_cleanup in exit_with (default 1 cleanup) else ret tt.

Definition spec_op (op : msg_op) : M logger unit :=
  match op with
  | OpHandlers k hs => modify (fun g => lg_set (fun k' => if decide (k' = k) then hs else lg_handlers g k') g)
  | OpReset => modify (lg_set default_handlers)
  | OpPrint text => modify (lg_print StdOut text)
  | OpErrno e => modify (lg_set_errno e)
  | OpDebug fmt args => lg_message KDebug false false fmt args
  | OpSysNotice fmt args => lg_message KNotice true false fmt args
  | OpLog l =>
      let '(k, sys, fatal) := match l_level l with
        | Notice => (KNotice, false, false) | Warn => (KWarn, false, false) | SysWarn => (KWarn, true, false)
        | Die => (KDie, false, true) | SysDie => (KDie, true, true) end in
      lg_message k sys fatal (l_fmt l) (l_args l)
  end.

Fixpoint run_ops {S} (run : msg_op -> M S unit) (ops : list msg_op) : M S unit :=
  match ops with [] => ret tt | op :: ops => do* run op in run_ops run ops end.
End spec.

(** * The heap *)

Definition default_list (k : kind) : handler_list :=
  match k with KDebug => NullList | KNotice => StdoutHandlers | KWarn | KDie => StderrHandlers end.

Definition block_of (hs : list handler) : list (option handler) := map Some hs ++ [None].

(** The lists of the kinds that satisfy [P] are those of [f], each on a block
    of its own, and there are no other blocks. *)
Record owned (P : kind -> Prop) (f : kind -> list handler) (m : messages) : Prop := Owned {
  ow_list : forall k, P k ->
    match handlers_of k m with
    | Block id => ms_heap m !! id = Some (block_of (f k))
    | l => l = default_list k /\ f k = default_handlers k
    end;
  ow_own : forall k k' id, P k -> P k' -> handlers_of k m = Block id -> handlers_of k' m = Block id -> k = k';
  ow_live : forall id, is_Some (ms_heap m !! id) -> exists k, P k /\ handlers_of k m = Block id;
  ow_next : forall id, is_Some (ms_heap m !! id) -> id < ms_next m;
}.

Definition all_kinds (k : kind) : Prop := True.

Lemma handlers_of_set k l m k' : handlers_of k' (set_handlers k l m) = if decide (k' = k) then l else handlers_of k' m.
Proof. by destruct k, k'. Qed.

Lemma set_heap k l m : ms_heap (set_handlers k l m) = ms_heap m /\ ms_next (set_handlers k l m) = ms_next m.
Proof. by destruct k. Qed.

(** The output side of the state. *)
Definition outs (m : messages) : terminal * list (Z * bytes) * option Z * option bytes * Z :=
  (ms_terminal m ++ map (pair StdOut) (ms_stdout m), ms_syslog m, message_fatal_cleanup m, message_program_name m, ms_errno m).

Definition lg_outs (g : logger) : terminal * list (Z * bytes) * option Z * option bytes * Z :=
  (lg_out g, lg_syslog g, lg_cleanup g, lg_name g, lg_errno g).

Lemma set_outs k l m : outs (set_handlers k l m) = outs m.
Proof. by destruct k. Qed.

(** After [free], the list of [k] is not to be used. *)
Lemma free_owned P k f m : P k -> owned P f m -> is_static (handlers_of k m) = false ->
  runs (free_list (handlers_of k m)) (fun _ m' => owned (fun k' => P k' /\ k' <> k) f m' /\ outs m' = outs m /\
    forall k', handlers_of k' m' = handlers_of k' m) m.
Proof.
  intros Pk [Hl Ho Hv Hn] Hs. pose proof (Hl k Pk) as Hk. destruct (handlers_of k m) as [| | |id] eqn:Ek; try done.
  - apply runs_ret. split; [|done]. split.
    + intros k' [Pk' _]. by apply Hl.
    + intros k1 k2 id [P1 _] [P2 _]. by apply Ho.
    + intros id Hid. destruct (Hv id Hid) as (k' & Pk' & Ek'). exists k'. split; [|done]. split; [done|].
      intros ->. congruence.
    + done.
  - unfold runs, wp, free_list. rewrite Hk. split; [|split; [done|by intros []]]. split; simpl.
    + intros k' [Pk' Hne]. pose proof (Hl k' Pk') as Hk'.
      change (handlers_of k' (put_heap (delete id (ms_heap m)) (ms_next m) m)) with (handlers_of k' m) in *.
      destruct (handlers_of k' m) as [| | |id'] eqn:Ek'; try done.
      rewrite lookup_delete_ne; [done|]. intros ->. by apply Hne, (Ho k' k id').
    + intros k1 k2 id' [P1 _] [P2 _] E1 E2. by apply (Ho k1 k2 id').
    + intros id' Hid'. destruct (decide (id' = id)) as [->|Hne]; [rewrite lookup_delete_eq in Hid'; by destruct Hid'|].
      rewrite lookup_delete_ne in Hid' by done. destruct (Hv id' Hid') as (k' & Pk' & Ek'). exists k'.
      split; [|done]. split; [done|]. intros ->. congruence.
    + intros id' [x Hx]. apply lookup_delete_Some in Hx as [_ Hx]. apply Hn. by eexists.
Qed.

Lemma static_owned k f m : owned all_kinds f m -> is_static (handlers_of k m) = true ->
  owned (fun k' => all_kinds k' /\ k' <> k) f m.
Proof.
  intros [Hl Ho Hv Hn] Hs. split.
  - intros k' [Pk' _]. by apply Hl.
  - intros k1 k2 id [P1 _] [P2 _]. by apply Ho.
  - intros id Hid. destruct (Hv id Hid) as (k' & Pk' & Ek'). exists k'. split; [|done]. split; [done|].
    intros ->. by rewrite Ek' in Hs.
  - done.
Qed.

Definition upd (f : kind -> list handler) (k : kind) (hs : list handler) : kind -> list handler :=
  fun k' => if decide (k' = k) then hs else f k'.

Lemma default_owned k f m : owned (fun k' => all_kinds k' /\ k' <> k) f m ->
  owned all_kinds (upd f k (default_handlers k)) (set_handlers k (default_list k) m).
Proof.
  intros [Hl Ho Hv Hn]. destruct (set_heap k (default_list k) m) as [Eh En].
  assert (forall id, default_list k <> Block id) as Hd by (by destruct k). split; rewrite ?Eh, ?En.
  - intros k' _. rewrite handlers_of_set. unfold upd. destruct (decide (k' = k)) as [->|Hne].
    + destruct k; done.
    + by apply Hl.
  - intros k1 k2 id _ _. rewrite !handlers_of_set.
    do 2 destruct (decide _); intros E1 E2; first [congruence|by apply Hd in E1|by apply Hd in E2|by apply (Ho k1 k2 id)].
  - intros id Hid. destruct (Hv id Hid) as (k' & [_ Hne] & Ek'). exists k'. split; [done|].
    by rewrite handlers_of_set, decide_False by done.
  - done.
Qed.

Lemma alloc_owned k hs f m : owned (fun k' => all_kinds k' /\ k' <> k) f m ->
  owned all_kinds (upd f k hs)
    (set_handlers k (Block (ms_next m)) (put_heap (<[ms_next m := block_of hs]> (ms_heap m)) (ms_next m + 1) m)).
Proof.
  intros [Hl Ho Hv Hn]. set (m1 := put_heap _ _ m). destruct (set_heap k (Block (ms_next m)) m1) as [Eh En].
  assert (forall k', handlers_of k' m1 = handlers_of k' m) as Em by (by intros []).
  assert (forall k' id, k' <> k -> handlers_of k' m = Block id -> id <> ms_next m) as Hfresh.
  { intros k' id Hne E ->. pose proof (Hl k' (conj I Hne)) as H1. rewrite E in H1.
    pose proof (Hn (ms_next m) ltac:(by eexists)). lia. }
  split; rewrite ?Eh, ?En.
  - intros k' _. rewrite handlers_of_set, Em. unfold upd. destruct (decide (k' = k)) as [->|Hne].
    + apply lookup_insert_eq.
    + pose proof (Hl k' (conj I Hne)) as Hk'. destruct (handlers_of k' m) as [| | |id] eqn:E; try done.
      simpl. rewrite lookup_insert_ne; [done|]. intros Hid. by apply (Hfresh k' id).
  - intros k1 k2 id _ _. rewrite !handlers_of_set, !Em. destruct (decide (k1 = k)), (decide (k2 = k)); intros E1 E2.
    + congruence.
    + injection E1 as <-. by apply Hfresh in E2.
    + injection E2 as <-. by apply Hfresh in E1.
    + by apply (Ho k1 k2 id).
  - intros id. simpl. destruct (decide (id = ms_next m)) as [->|Hne].
    + intros _. exists k. split; [done|]. by rewrite handlers_of_set, decide_True.
    + rewrite lookup_insert_ne by done. intros Hid. destruct (Hv id Hid) as (k' & [_ Hk'] & Ek').
      exists k'. split; [done|]. by rewrite handlers_of_set, decide_False, Em.
  - intros id. simpl. destruct (decide (id = ms_next m)) as [->|Hne]; [lia|].
    rewrite lookup_insert_ne by done. intros Hid%Hn. lia.
Qed.

(** ** Setting handlers *)

Lemma store_handler_runs id i h block m (Q : unit -> messages -> Prop) : ms_heap m !! id = Some block ->
  (i < length block)%nat -> Q tt (put_heap (<[id := <[i := h]> block]> (ms_heap m)) (ms_next m) m) ->
  runs (store_handler id i h) Q m.
Proof. intros E Hi HQ. unfold runs, wp, store_handler. by rewrite E, bool_decide_eq_true_2. Qed.

Lemma store_handlers_runs id args : forall i done rest m,
  ms_heap m !! id = Some (done ++ replicate (length args) None ++ rest) -> i = length done ->
  runs (store_handlers id i (length args) args) (fun _ m' =>
    m' = put_heap (<[id := done ++ map Some args ++ rest]> (ms_heap m)) (ms_next m) m) m.
Proof.
  induction args as [|h args IH]; intros i done rest m E ->; cbn [store_handlers length].
  - apply runs_ret. simpl in *. rewrite insert_id by done. by destruct m.
  - apply runs_bind. eapply store_handler_runs; [exact E|rewrite !length_app; simpl; lia|].
    eapply runs_mono; [apply (IH _ (done ++ [Some h]) rest)|].
    + simpl. rewrite lookup_insert_eq. f_equal. rewrite <- !app_assoc. simpl. by rewrite insert_app_r_alt, Nat.sub_diag by lia.
    + rewrite length_app. simpl. lia.
    + intros _ m' ->. simpl. rewrite insert_insert_eq, <- app_assoc. done.
Qed.

Lemma message_handlers_runs k hs f m : owned all_kinds f m ->
  runs (message_handlers k (length hs) hs) (fun _ m' => owned all_kinds (upd f k hs) m' /\ outs m' = outs m) m.
Proof.
  intros Ho. unfold message_handlers. apply runs_bind, runs_gets, runs_bind.
  eapply runs_mono with (Q := fun _ m' => owned (fun k' => all_kinds k' /\ k' <> k) f m' /\ outs m' = outs m).
  { destruct (is_static (handlers_of k m)) eqn:Es;
      [|eapply runs_mono; [exact (free_owned all_kinds k f m I Ho Es)|]; by intros [] m1 (A & B & _)].
    apply runs_ret. split; [by apply static_owned|done]. }
  intros [] m1 [Ho1 E1]. apply runs_bind, runs_gets, runs_bind, runs_modify, runs_bind, runs_modify, runs_bind.
  set (m2 := set_handlers _ _ _).
  eapply runs_mono; [apply (store_handlers_runs _ hs 0 [] [None] m2)|].
  { unfold m2. destruct (set_heap k (Block (ms_next m1)) (put_heap (<[ms_next m1:=replicate (length hs + 1) None]> (ms_heap m1)) (ms_next m1 + 1) m1)) as [-> _].
    simpl. rewrite lookup_insert_eq. f_equal. by rewrite replicate_add. }
  { done. }
  intros [] m3 ->. eapply store_handler_runs; [simpl; apply lookup_insert_eq|rewrite length_app, length_map; simpl; lia|].
  rewrite app_nil_l. 
  pose proof (alloc_owned k hs f m1 Ho1) as Ha. set (m4 := put_heap _ _ _).
  assert (m4 = set_handlers k (Block (ms_next m1)) (put_heap (<[ms_next m1 := block_of hs]> (ms_heap m1)) (ms_next m1 + 1) m1)) as ->.
  { unfold m4, m2. clear. rewrite insert_app_r_alt, length_map, Nat.sub_diag by (rewrite length_map; lia).
    destruct k; simpl; by rewrite !insert_insert_eq. }
  split; [exact Ha|]. by rewrite set_outs.
Qed.

Lemma reset_list_runs k f m : k <> KDebug -> owned all_kinds f m ->
  runs (reset_list k (default_list k)) (fun _ m' => owned all_kinds (upd f k (default_handlers k)) m' /\ outs m' = outs m /\
    forall k', handlers_of k' m' = if decide (k' = k) then default_list k else handlers_of k' m) m.
Proof.
  intros Hk Ho. unfold reset_list. apply runs_bind, runs_gets. destruct (bool_decide_reflect (handlers_of k m = default_list k)) as [E|E].
  - apply runs_ret. split; [|split; [done|]]; [|intros k'; by destruct (decide _) as [->|]].
    pose proof (default_owned k f m) as Hd.
    assert (set_handlers k (default_list k) m = m) as Em by (rewrite <- E; by destruct k, m).
    rewrite Em in Hd. apply Hd, static_owned; [done|]. rewrite E. by destruct k.
  - apply runs_bind. eapply runs_mono; [apply (free_owned all_kinds k f m I Ho)|].
    + pose proof (ow_list _ _ _ Ho k I) as Hl. destruct (handlers_of k m); try done; by destruct Hl.
    + intros [] m1 (Ho1 & E1 & K1). apply runs_modify. split; [by apply default_owned|]. split; [by rewrite set_outs|].
      intros k'. by rewrite handlers_of_set, K1.
Qed.

Lemma message_handlers_reset_runs f m : owned all_kinds f m ->
  runs message_handlers_reset (fun _ m' => owned all_kinds default_handlers m' /\ outs m' = outs m /\
    forall k, handlers_of k m' = default_list k) m.
Proof.
  intros Ho. unfold message_handlers_reset. apply runs_bind, runs_gets, runs_bind.
  eapply runs_mono; [apply (free_owned all_kinds KDebug f m I Ho)|].
  { pose proof (ow_list _ _ _ Ho KDebug I) as Hl. simpl in *. destruct (debug_handlers m); try done; by destruct Hl. }
  intros [] m1 (Ho1 & E1 & K1). apply runs_bind, runs_modify, runs_bind. apply default_owned in Ho1.
  eapply runs_mono; [by apply (reset_list_runs KNotice)|]. intros [] m2 (Ho2 & E2 & K2). apply runs_bind.
  eapply runs_mono; [by apply (reset_list_runs KWarn)|]. intros [] m3 (Ho3 & E3 & K3).
  eapply runs_mono; [by apply (reset_list_runs KDie)|]. intros [] m4 (Ho4 & E4 & K4).
  split; [|split; [by rewrite E4, E3, E2, <- E1|]].
  - destruct Ho4 as [Hl Hother Hv Hn]. split; [|done..]. intros k _. pose proof (Hl k I) as Hk. by destruct k.
  - intros k. rewrite K4, K3, K2. by destruct k.
Qed.

(** * Reporting *)

Section reporting_lemmas.
Context `{HE : ErrorText}.

(** The handler lists of two states agree. *)
Definition same_lists (m m' : messages) : Prop :=
  ms_heap m' = ms_heap m /\ ms_next m' = ms_next m /\ forall k, handlers_of k m' = handlers_of k m.

Lemma same_lists_trans m m1 m2 : same_lists m m1 -> same_lists m1 m2 -> same_lists m m2.
Proof. intros (A & B & C) (D & E & F). split; [congruence|]. split; [congruence|]. intros k. by rewrite F. Qed.

Lemma owned_same P f m m' : same_lists m m' -> owned P f m -> owned P f m'.
Proof.
  intros (Eh & En & Ek) [Hl Ho Hv Hn]. split.
  - intros k Pk. rewrite Ek, Eh. by apply Hl.
  - intros k k' id. rewrite !Ek. apply Ho.
  - intros id. rewrite Eh. intros Hid. destruct (Hv id Hid) as (k & ? & ?). exists k. by rewrite Ek.
  - intros id. rewrite Eh, En. apply Hn.
Qed.

Definition add_std (std : std_stream) (text : bytes) (m : messages) : messages :=
  match std with
  | StdOut => put_term (ms_stdout m ++ text) (ms_terminal m) m
  | StdErr => put_term (ms_stdout m) (ms_terminal m ++ map (pair StdErr) text) m
  end.

Lemma add_std_app std t1 t2 m : add_std std t2 (add_std std t1 m) = add_std std (t1 ++ t2) m.
Proof. destruct std, m; simpl; unfold put_term; simpl; [|rewrite map_app]; by rewrite app_assoc. Qed.

Lemma add_std_nil std m : add_std std [] m = m.
Proof. destruct std, m; simpl; unfold put_term; simpl; by rewrite app_nil_r. Qed.

Definition full_line (name : option bytes) (text : bytes) (err : Z) : bytes :=
  match name with Some name => name ++ str ": " | None => [] end ++ text ++ error_suffix err ++ [newline].

Lemma log_line_eq std fmt args err text m : printf fmt args = Some text ->
  log_line (match std with StdOut => print_stdout | StdErr => print_stderr end) fmt args err m =
  Ret tt (add_std std (full_line (message_program_name m) text err) m).
Proof.
  intros Ep. set (print := match std with StdOut => print_stdout | StdErr => print_stderr end).
  assert (forall t m, print t m = Ret tt (add_std std t m)) as Hp by (by intros; unfold print; destruct std).
  unfold log_line. rewrite Ep. rewrite (bind_Ret _ _ _ (message_program_name m) m) by done.
  set (head := match message_program_name m with Some name => name ++ str ": " | None => [] end).
  assert (match message_program_name m with Some name => print (name ++ str ": ") | None => ret tt end m =
    Ret tt (add_std std head m)) as E1.
  { unfold head. destruct (message_program_name m); [apply Hp|]. by rewrite add_std_nil. }
  rewrite (bind_Ret _ _ _ _ _ E1), (bind_Ret _ _ _ text (add_std std head m)) by done.
  rewrite (bind_Ret _ _ _ _ _ (Hp text _)), add_std_app.
  assert (forall m, (if negb (err =? 0) then print (str ": " ++ strerror err) else ret tt) m =
    Ret tt (add_std std (error_suffix err) m)) as E2.
  { intros m'. unfold error_suffix. destruct (err =? 0); [by rewrite add_std_nil|]. apply Hp. }
  rewrite (bind_Ret _ _ _ _ _ (E2 _)), Hp, !add_std_app. unfold full_line. fold head. by rewrite <- !app_assoc.
Qed.

(** What handlers leave alone, and what they put out. *)
Definition emits (g : logger) (m m' : messages) : Prop := same_lists m m' /\ outs m' = lg_outs g.

Lemma run_handler_runs warn h fmt args err text g m : printf fmt args = Some text -> blen text <= INT_MAX ->
  outs m = lg_outs g ->
  runs (run_handler warn h (printf_length text) fmt args err) (fun _ m' => emits (emit text err g h) m m') m.
Proof.
  intros Ep Hlen Ho. assert (printf_length text = blen text) as El.
  { unfold printf_length. by rewrite (proj2 (Z.ltb_ge _ _)). }
  pose proof Ho as (Eo & Es & Ec & En & Ee)%(fun e => conj (f_equal (fun x => x.1.1.1.1) e) (conj (f_equal (fun x => x.1.1.1.2) e)
    (conj (f_equal (fun x => x.1.1.2) e) (conj (f_equal (fun x => x.1.2) e) (f_equal snd e))))).
  simpl in Eo, Es, Ec, En, Ee. unfold run_handler. destruct h as [| |pri].
  - apply runs_bind. unfold runs at 1, wp at 1. pose proof (log_line_eq StdOut fmt args err text m Ep) as E. cbv iota in E.
    rewrite E. apply runs_modify. split; [by split; [|split; [|intros []]]|].
    unfold outs, lg_outs, line, full_line. simpl. rewrite app_nil_r, map_app, app_assoc, Eo, Es, Ec, En, Ee. done.
  - apply runs_bind, runs_modify. unfold runs, wp. set (m1 := put_term _ _ _).
    pose proof (log_line_eq StdErr fmt args err text m1 Ep) as E. cbv iota in E. rewrite E.
    split; [by split; [|split; [|intros []]]|]. unfold outs, lg_outs, line, full_line, m1. simpl.
    rewrite app_nil_r, Eo, Es, Ec, En, Ee. done.
  - unfold message_log_syslog. rewrite Ep. apply runs_bind, runs_ret. rewrite El. pose proof (blen_nonneg text).
    rewrite (proj2 (Z.ltb_ge (blen text) 0)), u64_small, (proj2 (Z.leb_gt _ _)) by (unfold INT_MAX in Hlen; lia).
    apply runs_modify. split; [by split; [|split; [|intros []]]|].
    unfold outs, lg_outs. simpl. rewrite Eo, Es, Ec, En, Ee.
    unfold error_suffix. by destruct (err =? 0); rewrite ?app_nil_r.
Qed.

Lemma emit_keeps text err g h : lg_handlers (emit text err g h) = lg_handlers g.
Proof. by destruct h. Qed.

Lemma call_handlers_runs warn fmt args err text hs : printf fmt args = Some text -> blen text <= INT_MAX -> forall g m,
  outs m = lg_outs g ->
  runs (call_handlers (fun h => run_handler warn h (printf_length text) fmt args err) (block_of hs))
    (fun _ m' => emits (foldl (emit text err) g hs) m m') m.
Proof.
  intros Ep Hlen. induction hs as [|h hs IH]; intros g m Ho; cbn [block_of map app call_handlers foldl].
  - apply runs_ret. split; [|done]. done.
  - apply runs_bind. eapply runs_mono; [by apply run_handler_runs|]. intros [] m1 [S1 O1].
    eapply runs_mono; [by apply IH|]. intros [] m2 [S2 O2]. split; [by eapply same_lists_trans|done].
Qed.

Lemma lg_report_keeps k text err g : lg_handlers (lg_report k text err g) = lg_handlers g.
Proof.
  unfold lg_report. destruct (_ <? _); [done|]. generalize (lg_handlers g k) as hs. intros hs. revert g.
  induction hs as [|h hs IH]; intros g; [done|]. simpl. by rewrite IH, emit_keeps.
Qed.

(** A state of messages.c and the logger it implements. *)
Definition implements (m : messages) (g : logger) : Prop := owned all_kinds (lg_handlers g) m /\ outs m = lg_outs g.

Lemma report_runs warn k fmt args err text g m : printf fmt args = Some text -> implements m g ->
  handlers_of k m <> NullList ->
  runs (report warn k fmt args err) (fun _ m' => implements m' (lg_report k text err g)) m.
Proof.
  intros Ep [Hw Ho] Hk. unfold report. rewrite Ep. apply runs_bind, runs_ret. unfold lg_report, printf_length at 1.
  pose proof (blen_nonneg text). destruct (Z.ltb_spec INT_MAX (blen text)); [by apply runs_ret|].
  rewrite (proj2 (Z.ltb_ge (blen text) 0)) by done. apply runs_bind, runs_gets, runs_bind.
  eapply runs_mono with (Q := fun b m' => b = block_of (lg_handlers g k) /\ m' = m).
  - pose proof (ow_list _ _ _ Hw k I) as Hl. destruct (handlers_of k m) as [| | |id] eqn:E; [done|..].
    + destruct Hl as [El ->]. by destruct k.
    + destruct Hl as [El ->]. by destruct k.
    + unfold runs, wp, list_block. by rewrite Hl.
  - intros b m' [-> ->]. eapply runs_mono; [by apply call_handlers_runs|]. intros [] m1 [S1 O1]. split; [|done].
    pose proof (lg_report_keeps k text err g) as Ek. unfold lg_report in Ek. rewrite (proj2 (Z.ltb_ge INT_MAX (blen text))) in Ek by done.
    rewrite Ek. by eapply owned_same.
Qed.

Lemma lg_outs_errno m g : outs m = lg_outs g -> ms_errno m = lg_errno g /\ message_fatal_cleanup m = lg_cleanup g.
Proof. intros E. injection E. done. Qed.

Lemma not_null k f m : k <> KDebug -> owned all_kinds f m -> handlers_of k m <> NullList.
Proof. intros Hk Hw E. pose proof (ow_list _ _ _ Hw k I) as Hl. rewrite E in Hl. destruct Hl as [Hl _]. by destruct k. Qed.

(** ** Single calls *)

(** What a call of [M logger] says about one of [M messages]. *)
Definition follows (m : outcome messages unit) (g : outcome logger unit) : Prop :=
  match g with
  | Ret _ g' => exists m', m = Ret tt m' /\ implements m' g'
  | Exit c g' => exists m', m = Exit c m' /\ implements m' g' /\ ms_stdout m' = []
  | _ => True
  end.

Lemma follows_runs (r : M messages unit) m g' : runs r (fun _ m' => implements m' g') m -> follows (r m) (Ret tt g').
Proof. intros Hr%runs_elim. destruct Hr as ([] & m' & E & Hi). by exists m'. Qed.

Lemma fatal_exit_eq m g : implements m g ->
  exists m', fatal_exit m = Exit (default 1 (lg_cleanup g)) m' /\ implements m' g /\ ms_stdout m' = [].
Proof.
  intros [Hw Ho]. destruct (lg_outs_errno m g Ho) as [_ Ec]. rewrite <- Ec. eexists. split; [done|]. split; [split|done].
  - eapply owned_same; [|exact Hw]. by split; [|split; [|intros []]].
  - rewrite <- Ho. unfold outs. simpl. by rewrite app_nil_r.
Qed.

Lemma message_follows k (sys fatal : bool) fmt args m g : k <> KDebug -> implements m g ->
  follows ((do* (let* error := gets (fun m => if sys then ms_errno m else 0) in
                 report (format_failed SYSLOG_DEPTH) k fmt args error) in
            if fatal then fatal_exit else ret tt) m)
    (lg_message k sys fatal fmt args g).
Proof.
  intros Hk Hi. unfold lg_message. destruct (printf fmt args) as [text|] eqn:Ep; [|done].
  rewrite (bind_Ret (from_option_fault (Some text)) _ g text g) by done.
  destruct (lg_outs_errno m g (proj2 Hi)) as [Ee _]. rewrite (bind_Ret _ _ g tt _) by done.
  set (g1 := lg_report _ _ _ g).
  assert (exists m1, (let* error := gets (fun m => if sys then ms_errno m else 0) in
    report (format_failed SYSLOG_DEPTH) k fmt args error) m = Ret tt m1 /\ implements m1 g1) as (m1 & E1 & Hi1).
  { pose proof (report_runs (format_failed SYSLOG_DEPTH) k fmt args (if sys then ms_errno m else 0) text g m Ep Hi
      (not_null k _ m Hk (proj1 Hi))) as Hr. apply runs_elim in Hr as ([] & m1 & E & Hi1).
    exists m1. split; [exact E|]. by rewrite Ee in Hi1. }
  rewrite (bind_Ret _ _ _ _ _ E1). destruct fatal; [|by exists m1].
  by apply fatal_exit_eq.
Qed.

Lemma bind_gets {S A B} (f : S -> A) (k : A -> M S B) s : (let* a := gets f in k a) s = k (f s) s.
Proof. done. Qed.

Lemma ret_follows (r : M messages unit) m o : follows ((do* r in ret tt) m) o -> follows (r m) o.
Proof. unfold bind, ret. by destruct (r m) as [[] m'| | |]. Qed.

Lemma op_follows op m g : implements m g -> follows (run_op op m) (spec_op op g).
Proof.
  intros Hi. pose proof Hi as [Hw Ho]. destruct op as [k hs| |text|e|fmt args|fmt args|[lev fmt args]]; cbn [run_op spec_op].
  - apply follows_runs. eapply runs_mono; [by apply message_handlers_runs|]. intros [] m' [Hw' Ho']. split; [done|].
    by rewrite Ho'.
  - apply follows_runs. eapply runs_mono; [by apply (message_handlers_reset_runs (lg_handlers g))|]. intros [] m' (Hw' & Ho' & _).
    split; [done|]. by rewrite Ho'.
  - apply follows_runs, runs_modify. split; [eapply owned_same; [|exact Hw]; by split; [|split; [|intros []]]|].
    injection Ho as E1 E2 E3 E4 E5. unfold outs, lg_outs. simpl. rewrite map_app, app_assoc, E1. congruence.
  - apply follows_runs, runs_modify. split; [eapply owned_same; [|exact Hw]; by split; [|split; [|intros []]]|].
    injection Ho as E1 E2 E3 E4 E5. unfold outs, lg_outs. simpl. congruence.
  - unfold debug_message. rewrite bind_gets. destruct (printf fmt args) as [text|] eqn:Ep;
      [|unfold lg_message; by rewrite Ep].
    unfold lg_message. rewrite Ep. rewrite (bind_Ret (from_option_fault (Some text)) _ g text g), (bind_Ret _ _ g tt _) by done.
    destruct (bool_decide_reflect (debug_handlers m = NullList)) as [E|E].
    + exists m. split; [done|]. pose proof (ow_list _ _ _ Hw KDebug I) as Hl. simpl in Hl. rewrite E in Hl.
      destruct Hl as [_ Hl]. unfold lg_report. rewrite Hl. by destruct (_ <? _).
    + apply follows_runs. by apply report_runs.
  - by apply ret_follows, (message_follows KNotice true false).
  - destruct lev.
    + by apply ret_follows, (message_follows KNotice false false).
    + by apply ret_follows, (message_follows KWarn false false).
    + by apply ret_follows, (message_follows KWarn true false).
    + by apply (message_follows KDie false true).
    + pose proof (message_follows KDie true true fmt args m g) as Hf. by apply Hf.
Qed.

Lemma ops_follow ops : forall m g, implements m g -> follows (run_ops run_op ops m) (run_ops spec_op ops g).
Proof.
  induction ops as [|op ops IH]; intros m g Hi; cbn [run_ops]; [by exists m|].
  pose proof (op_follows op m g Hi) as Hf. unfold bind. destruct (spec_op op g) as [[] g1|c g1| |]; [| |done..].
  - destruct Hf as (m1 & -> & Hi1). by apply IH.
  - destruct Hf as (m1 & -> & Hi1). by exists m1.
Qed.
End reporting_lemmas.

Definition initial_logger : logger := Logger default_handlers [] [] None None 0.

Lemma initial_implements : implements initial_messages initial_logger.
Proof.
  split; [|done]. split; simpl.
  - by intros [].
  - by intros [] [] id.
  - intros id [x Hx]. by rewrite lookup_empty in Hx.
  - intros id [x Hx]. by rewrite lookup_empty in Hx.
Qed.

(** C16: the handlers of messages.c implement a simple logger.  Let a program
    set handlers, reset them, print to standard output and write messages in
    any order.  As long as formats fit their arguments nothing is freed twice
    or read outside its block; each message goes to exactly the handlers set
    last for its kind; what reaches the terminal, standard output and standard
    error together, and syslog is what the calls give in their order; a fatal
    message exits with everything flushed; and a reset leaves no memory
    allocated. *)
Theorem messages_implement_logger `{ErrorText} ops :
  match run_ops spec_op ops initial_logger with
  | Ret _ g => exists m, run_ops run_op ops initial_messages = Ret tt m /\
      ms_terminal m ++ map (pair StdOut) (ms_stdout m) = lg_out g /\ ms_syslog m = lg_syslog g /\
      exists m', message_handlers_reset m = Ret tt m' /\ ms_heap m' = ∅
  | Exit c g => exists m, run_ops run_op ops initial_messages = Exit c m /\ ms_terminal m = lg_out g /\
      ms_syslog m = lg_syslog g
  | _ => True
  end.
Proof.
  pose proof (ops_follow ops _ _ initial_implements) as Hf. unfold follows in Hf.
  destruct (run_ops spec_op ops initial_logger) as [[] g|c g| |]; [| |done..].
  - destruct Hf as (m & E & Hw & Ho). exists m. split; [exact E|]. injection Ho as E1 E2 _ _ _.
    split; [done|]. split; [done|].
    pose proof (message_handlers_reset_runs _ m Hw) as Hr. apply runs_elim in Hr as ([] & m' & Er & Hw' & _ & Hk).
    exists m'. split; [done|]. apply map_empty. intros id. destruct (ms_heap m' !! id) eqn:Eid; [|done].
    destruct (ow_live _ _ _ Hw' id ltac:(by eexists)) as (k & _ & Ek). rewrite Hk in Ek. by destruct k.
  - destruct Hf as (m & E & [Hw Ho] & Es). exists m. split; [exact E|]. injection Ho as E1 E2 _ _ _.
    by rewrite Es, app_nil_r in E1.
Qed.

(** * The set-up of remctld *)

Section remctld_setup.
Context `{ErrorText}.

Definition syslog_priority (l : level) : Z :=
  match l with Notice => LOG_INFO | Warn | SysWarn => LOG_WARNING | Die | SysDie => LOG_ERR end.

(** A message that does not end the program, its text, and the entry it
    becomes with [errno] [e]. *)
Definition readable (l : logline) (text : bytes) : Prop :=
  printf (l_fmt l) (l_args l) = Some text /\ blen text <= INT_MAX /\ l_level l <> Die /\ l_level l <> SysDie.

Definition syslog_entry (e : Z) (l : logline) (text : bytes) : Z * bytes :=
  (syslog_priority (l_level l), cstr text ++ match l_level l with SysWarn => error_suffix e | _ => [] end).

Definition syslog_handlers (k : kind) : list handler :=
  match k with
  | KDebug => []
  | KNotice => [message_log_syslog_pri LOG_INFO]
  | KWarn => [message_log_syslog_pri LOG_WARNING]
  | KDie => [message_log_syslog_pri LOG_ERR]
  end.

Lemma spec_syslog logs texts : Forall2 readable logs texts -> forall g,
  (forall k, lg_handlers g k = syslog_handlers k) ->
  exists g', run_ops spec_op (map OpLog logs) g = Ret tt g' /\ lg_out g' = lg_out g /\
    lg_syslog g' = lg_syslog g ++ zip_with (syslog_entry (lg_errno g)) logs texts.
Proof.
  induction 1 as [|l text logs texts (Ep & Hlen & H1 & H2) _ IH]; intros g Hg; cbn [run_ops map zip_with].
  - exists g. by rewrite app_nil_r.
  - assert (exists g1, spec_op (OpLog l) g = Ret tt g1 /\ lg_out g1 = lg_out g /\ lg_errno g1 = lg_errno g /\
      lg_handlers g1 = lg_handlers g /\ lg_syslog g1 = lg_syslog g ++ [syslog_entry (lg_errno g) l text])
      as (g1 & E1 & O1 & N1 & K1 & S1).
    { destruct l as [lev fmt args]. unfold syslog_entry. simpl in *.
      destruct lev; try done; unfold lg_message; rewrite Ep;
        rewrite (bind_Ret (from_option_fault (Some text)) _ g text g), (bind_Ret _ _ g tt _) by done;
        unfold lg_report; rewrite (proj2 (Z.ltb_ge _ _)), Hg by done; (eexists; split; [done|]);
        cbn [syslog_handlers foldl emit syslog_priority]; unfold error_suffix at 1; rewrite ?app_nil_r; done. }
    rewrite (bind_Ret _ _ _ _ _ E1). destruct (IH g1) as (g' & E' & O' & S'); [intros k; by rewrite K1|].
    exists g'. split; [done|]. split; [congruence|]. by rewrite S', S1, N1, <- app_assoc.
Qed.

(** After remctld's set-up the kept messages are the entries of syslog, at
    their priorities and in order, and nothing reaches the terminal. *)
Lemma remctld_log_to_syslog logs texts : Forall2 readable logs texts ->
  exists m, (do* setup_logging false false in run_ops run_op (map OpLog logs)) initial_messages = Ret tt m /\
    ms_terminal m = [] /\ ms_syslog m = zip_with (syslog_entry 0) logs texts.
Proof.
  intros Hr.
  pose proof (ops_follow [OpHandlers KNotice [message_log_syslog_pri LOG_INFO];
    OpHandlers KWarn [message_log_syslog_pri LOG_WARNING]; OpHandlers KDie [message_log_syslog_pri LOG_ERR]]
    _ _ initial_implements) as (m1 & E1 & Hi1).
  assert (setup_logging false false initial_messages = Ret tt m1) as Es.
  { rewrite <- E1. unfold setup_logging, run_ops, run_op. unfold bind at 1 2 4 5.
    destruct (message_handlers KNotice _ _ _) as [[] a| | |]; [|done..]. cbn [length].
    destruct (message_handlers KWarn _ _ _) as [[] b| | |]; [|done..].
    unfold bind. by destruct (message_handlers KDie _ _ _) as [[] c| | |]. }
  rewrite (bind_Ret _ _ _ _ _ Es).
  pose proof (ops_follow (map OpLog logs) _ _ Hi1) as Hf.
  set (g1 := lg_set _ _) in *. destruct (spec_syslog logs texts Hr g1) as (g' & Eg & Og & Sg); [by intros []|].
  rewrite Eg in Hf. destruct Hf as (m & E & _ & Ho). exists m. split; [exact E|].
  injection Ho as E2 E3 _ _ _. rewrite Og in E2. split; [by apply app_eq_nil in E2 as [-> _]|]. by rewrite E3, Sg.
Qed.
End remctld_setup.

(** * util/gss-errors.c *)

Section gss_errors.
Context (gss_display_status : Z -> bool -> Z -> bytes * Z).

(** The texts that the calls for one status give, from [msg_ctx] on. *)
Fixpoint displays (status : Z) (mech : bool) (msg_ctx : Z) (ms : list bytes) : Prop :=
  match ms with
  | [] => False
  | [m] => gss_display_status status mech msg_ctx = (m, 0)
  | m :: ms => exists next, gss_display_status status mech msg_ctx = (m, next) /\ next <> 0 /\ displays status mech next ms
  end.

Definition listed (ms : list bytes) : bytes := concat (map (fun m => str ", " ++ cstr m) ms).

Lemma display_loop_listed status mech prefix ms : forall msg_ctx fuel old, displays status mech msg_ctx ms ->
  (length ms <= fuel)%nat ->
  display_loop gss_display_status fuel status mech msg_ctx prefix (Some old) = Some (old ++ listed ms).
Proof.
  induction ms as [|m ms IH]; intros msg_ctx fuel old Hd Hf; [done|]. destruct fuel as [|fuel]; [simpl in Hf; lia|].
  cbn [display_loop]. destruct ms as [|m2 ms].
  - simpl in Hd. rewrite Hd. cbn. unfold listed. simpl. by rewrite app_nil_r.
  - destruct Hd as (next & -> & Hn & Hd). rewrite (proj2 (Z.eqb_neq next 0)) by done. cbn [negb].
    rewrite (IH next fuel _ Hd) by (simpl in *; lia). unfold listed. cbn [map concat]. by rewrite <- !app_assoc.
Qed.

(** The string is the prefix and then every text of both statuses. *)
Lemma gssapi_error_string_text prefix major minor m ms minors fuel :
  displays major false 0 (m :: ms) -> (minor <> 0 -> displays minor true 0 minors) -> (minor = 0 -> minors = []) ->
  (length (m :: ms) <= fuel)%nat -> (length minors <= fuel)%nat ->
  gssapi_error_string gss_display_status fuel prefix major minor =
  Some (str "GSS-API error " ++ prefix ++ str ": " ++ cstr m ++ listed (ms ++ minors)).
Proof.
  intros Hd Hm Hm0 Hf1 Hf2. unfold gssapi_error_string. destruct fuel as [|fuel]; [simpl in Hf1; lia|].
  set (head := str "GSS-API error " ++ prefix ++ str ": " ++ cstr m).
  assert (display_loop gss_display_status (S fuel) major false 0 prefix None = Some (head ++ listed ms)) as ->.
  { cbn [display_loop]. destruct ms as [|m2 ms].
    - simpl in Hd. rewrite Hd. unfold listed. simpl. by rewrite app_nil_r.
    - destruct Hd as (next & -> & Hn & Hd). rewrite (proj2 (Z.eqb_neq next 0)) by done. cbn [negb].
      apply (display_loop_listed major false prefix (m2 :: ms)); [done|]. simpl in *. lia. }
  assert (head ++ listed (ms ++ minors) = (head ++ listed ms) ++ listed minors) as Eh.
  { unfold listed. by rewrite map_app, concat_app, app_assoc. }
  destruct (Z.eqb_spec minor 0) as [->|Hne].
  - cbn [negb]. rewrite (Hm0 eq_refl), app_nil_r. unfold head. by rewrite <- !app_assoc.
  - cbn [negb]. rewrite (display_loop_listed _ _ _ minors) by auto. rewrite <- Eh. unfold head. by rewrite <- !app_assoc.
Qed.
End gss_errors.

(** A program that writes, warns and dies. *)
Definition demo_errors : ErrorText := {|
  strerror _ := str "Broken pipe"; gai_strerror _ := str "Name unknown"; krb5_get_error_message _ := None;
|}.

Example message_order : let _ := demo_errors in
  match run_ops run_op [OpPrint (str "out "); OpErrno 32; OpHandlers KDie [message_log_stderr; message_log_syslog_pri LOG_ERR];
      OpLog (Log Warn "cannot %s (%d)" [AStr (str "read"); AInt (-1)]); OpLog (Log SysDie "write %lu%%" [AInt 7])]
    initial_messages with
  | Exit c m => c = 1 /\ map snd (ms_terminal m) = str "out cannot read (-1)" ++ [newline] ++ str "write 7%: Broken pipe" ++ [newline] /\
      ms_syslog m = [(LOG_ERR, str "write 7%: Broken pipe")]
  | _ => False
  end.
Proof. vm_compute. done. Qed.
