(* ===== verification/Getopt.v ===== *)
(** [getopt]: the replacement of [portable/getopt.c], and what the C library's
    function gives for a whole argument vector.

    The static variables are the state.  A word is a C string without its
    nul, and what goes to standard error is kept as format and arguments.
    [posixly] says whether [POSIXLY_CORRECT] is set. *)

From S2P Require Import Prelude Effects CLib.

(** * The C library's [getopt] *)

(** An option with its argument, or one it does not know or that lacks its
    argument. *)
Inductive getopt_result : Type := Opt (c : byte) (arg : bytes) | OptBad (c : byte).

(** [Some true]: the option takes an argument. *)
Fixpoint find_opt (optstring : bytes) (c : byte) : option bool :=
  match optstring with
  | [] => None
  | d :: rest =>
      if byte_eqb c d && negb (byte_eqb c ":") then
        Some (match rest with e :: _ => byte_eqb e ":" | [] => false end)
      else find_opt rest c
  end.

(** One word of options, and the option left without its argument. *)
Fixpoint getopt_word (optstring cs : bytes) : list getopt_result * option byte :=
  match cs with
  | [] => ([], None)
  | c :: cs =>
      match find_opt optstring c with
      | None => let '(r, need) := getopt_word optstring cs in (OptBad c :: r, need)
      | Some false => let '(r, need) := getopt_word optstring cs in (Opt c [] :: r, need)
      | Some true => match cs with [] => ([], Some c) | _ => ([Opt c cs], None) end
      end
  end.

(** What the calls of [getopt] return, and the operands: moved to the end, or
    with [plus], which is a [+] before [optstring], everything from the first
    operand on. *)
Fixpoint getopt_words (plus : bool) (optstring : bytes) (words : list bytes) : list getopt_result * list bytes :=
  let operand w words :=
    if plus then ([], w :: words)
    else let '(r, rest) := getopt_words plus optstring words in (r, w :: rest) in
  match words with
  | [] => ([], [])
  | w :: words =>
      if bytes_eqb w (str "--") then ([], words)
      else
        match w with
        | d :: c :: cs =>
            if byte_eqb d "-" then
              match getopt_word optstring (c :: cs) with
              | (r, None) => let '(r', rest) := getopt_words plus optstring words in (r ++ r', rest)
              | (r, Some o) =>
                  match words with
                  | [] => (r ++ [OptBad o], [])
                  | a :: words => let '(r', rest) := getopt_words plus optstring words in (r ++ Opt o a :: r', rest)
                  end
              end
            else operand w words
        | _ => operand w words
        end
  end.

Definition getopt_all : bytes -> list bytes -> list getopt_result * list bytes := getopt_words false.

(** * portable/getopt.c *)

Record getopt_state : Type := Getopt {
  optind : nat;
  optopt : byte;
  optarg : option bytes;
  charind : nat;
  go_argv : list bytes;
  go_stderr : list (string * list larg);
}.

Definition set_optind n g := Getopt n (optopt g) (optarg g) (charind g) (go_argv g) (go_stderr g).
Definition set_optopt c g := Getopt (optind g) c (optarg g) (charind g) (go_argv g) (go_stderr g).
Definition set_optarg a g := Getopt (optind g) (optopt g) a (charind g) (go_argv g) (go_stderr g).
Definition set_charind n g := Getopt (optind g) (optopt g) (optarg g) n (go_argv g) (go_stderr g).
Definition set_argv l g := Getopt (optind g) (optopt g) (optarg g) (charind g) l (go_stderr g).
Definition set_stderr l g := Getopt (optind g) (optopt g) (optarg g) (charind g) (go_argv g) l.

Abbreviation G := (M getopt_state).

Definition getopt_init (argv : list bytes) : getopt_state := Getopt 1 nul None 0 argv [].

(** A character of a C string, up to the nul. *)
Definition cchar (s : bytes) (i : nat) : G byte := from_option_fault ((s ++ [nul]) !! i).

Definition word (i : nat) : G bytes :=
  let* argv := gets go_argv in from_option_fault (argv !! i).
Definition argc : G nat := gets (fun g => length (go_argv g)).

(** [fprintf(stderr, ...)] with the program's name first. *)
Definition complain (fmt : string) (c : byte) : G unit :=
  let* name := word 0 in
  modify (fun g => set_stderr (go_stderr g ++ [(fmt, [AStr name; AInt (bs c)])]) g).

Definition EOF : Z := -1.

(** One pass of the loop over [optstring], from its index [p]: [inl] goes on,
    [inr true] leaves it at the end of the string, and [inr false] is
    [goto done]. *)
Definition match_body (optstring : bytes) (colon_mode : bool) (st : nat * Z) : G (nat * Z + Z * bool) :=
  let '(p, option) := st in
  let* c := cchar optstring p in
  if byte_eqb c nul then ret (inr (option, true))
  else
    let* oo := gets optopt in
    if byte_eqb oo c then
      let p := S p in
      let* c := cchar optstring p in
      if byte_eqb c ":" then
        let* i := gets optind in
        let* w := word i in
        let* k := gets charind in
        let* next := cchar w (S k) in
        if negb (byte_eqb next nul) then
          do* modify (set_optarg (Some (drop (S k) w))) in
          do* modify (set_optind (S i)) in
          do* modify (set_charind 0) in
          ret (inl (S p, bs oo))
        else
          let p := S p in
          let* c := cchar optstring p in
          if byte_eqb c ":" then ret (inl (S p, bs oo))
          else
            do* modify (set_charind 0) in
            do* modify (set_optind (S i)) in
            let* n := argc in
            if bool_decide (n <= S i)%nat then
              do* complain "%s: option requires an argument -- %c" oo in
              ret (inr (if colon_mode then bs ":" else bs "?", false))
            else
              let* a := word (S i) in
              do* modify (set_optarg (Some a)) in
              do* modify (set_optind (S (S i))) in
              ret (inl (S p, bs oo))
      else ret (inl (S p, bs oo))
    else ret (inl (S p, option)).

(** The option at [charind], and the end of the function. *)
Definition getopt_done : G unit :=
  let* k := gets charind in
  do* (if bool_decide (k = 0%nat) then ret tt
       else
         do* modify (set_charind (S k)) in
         let* i := gets optind in
         let* w := word i in
         let* c := cchar w (S k) in
         if byte_eqb c nul then
           do* modify (set_optind (S i)) in modify (set_charind 0)
         else ret tt) in
  let* i := gets optind in
  let* n := argc in
  if bool_decide (n < i)%nat then modify (set_optind n) else ret tt.

Definition getopt_option (optstring : bytes) (offset : nat) (colon_mode : bool) : G Z :=
  let* i := gets optind in
  let* w := word i in
  let* k := gets charind in
  let* c := cchar w k in
  do* modify (set_optopt c) in
  let* (option, ended) := loop (S (S (length optstring))) (match_body optstring colon_mode) (offset, -1) in
  let* option :=
    if ended && (option =? -1) then
      let* oo := gets optopt in
      do* complain "%s: illegal option -- %c" oo in ret (bs "?")
    else ret option in
  do* getopt_done in
  ret option.

(** [argv[i][0] == '-' && argv[i][1] != '\0'] *)
Definition option_word (w : bytes) : bool :=
  match w with d :: c :: _ => byte_eqb d "-" | _ => false end.

(** The [for] loop over [k]. *)
Fixpoint shift_words (n k : nat) (argv : list bytes) : list bytes :=
  match n with
  | O => argv
  | S n => shift_words n (S k) (match argv !! S k with Some w => <[k := w]> argv | None => argv end)
  end.

(** The [while (i > j)] loop, [n] being [i - j]. *)
Fixpoint unwind (n i : nat) : G unit :=
  match n with
  | O => ret tt
  | S n =>
      let i := (i - 1)%nat in
      let* tmp := word i in
      let* k := gets charind in
      let* o := gets optind in
      let e := if bool_decide (k = 0%nat) then (o - 1)%nat else o in
      do* modify (fun g => set_argv (shift_words (e - i) i (go_argv g)) g) in
      do* modify (fun g => set_argv (<[e := tmp]> (go_argv g)) g) in
      do* modify (set_optind (o - 1)) in
      unwind n i
  end.

(** The permutation at a word that is no option; [self] is the recursive
    call. *)
Definition permute (self : G Z) : G Z :=
  let* j := gets optind in
  let* argv := gets go_argv in
  match list_find (fun w => option_word w = true) (drop (S j) argv) with
  | None => ret (-1)
  | Some (d, _) =>
      let i := (S j + d)%nat in
      do* modify (set_optind i) in
      let* option := self in
      do* unwind (i - j) i in
      ret option
  end.

(** [s[i] == c] for a character that is not the nul. *)
Definition char_is (s : bytes) (i : nat) (c : byte) : bool :=
  match s !! i with Some d => byte_eqb d c | None => false end.

Definition getopt_body (posixly : bool) (optstring : bytes) (self : G Z) : G Z :=
  let mode_char := negb posixly && (char_is optstring 0 "+"%byte || char_is optstring 0 "-"%byte) in
  let offset := if mode_char then 1%nat else 0%nat in
  let plus := posixly || (mode_char && char_is optstring 0 "+"%byte) in
  let minus := mode_char && char_is optstring 0 "-"%byte in
  let colon_mode := posixly || char_is optstring offset ":"%byte in
  let offset := if negb posixly && char_is optstring offset ":"%byte then S offset else offset in
  do* modify (set_optarg None) in
  let* k := gets charind in
  if bool_decide (k = 0%nat) then
    let* i := gets optind in
    let* n := argc in
    if bool_decide (n <= i)%nat then do* getopt_done in ret EOF
    else
      let* w := word i in
      if bytes_eqb w (str "--") then do* modify (set_optind (S i)) in do* getopt_done in ret EOF
      else if negb (option_word w) then
        if plus then ret EOF
        else if minus then
          do* modify (set_optarg (Some w)) in
          do* modify (set_optind (S i)) in
          ret 1
        else permute self
      else
        do* modify (set_charind 1) in
        getopt_option optstring offset colon_mode
  else getopt_option optstring offset colon_mode.

(** The call inside starts at an option, so it makes no further one. *)
Definition getopt (posixly : bool) (optstring : bytes) : G Z :=
  getopt_body posixly optstring (getopt_body posixly optstring (fun _ => NoFuel)).

(** * One call, when the first operand ends the options *)

(** What is left to read: the options of the word begun, and the words. *)
Abbreviation point := (bytes * list bytes)%type.

(** The option [c], when [cs] and [words] follow. *)
Definition option_at (optstring : bytes) (c : byte) (cs : bytes) (words : list bytes) : getopt_result * point :=
  match find_opt optstring c with
  | None => (OptBad c, (cs, words))
  | Some false => (Opt c [], (cs, words))
  | Some true =>
      match cs, words with
      | _ :: _, _ => (Opt c cs, ([], words))
      | [], a :: words => (Opt c a, ([], words))
      | [], [] => (OptBad c, ([], []))
      end
  end.

Definition getopt_next (optstring : bytes) (q : point) : (getopt_result * point) + list bytes :=
  match q with
  | (c :: cs, words) => inl (option_at optstring c cs words)
  | ([], []) => inr []
  | ([], w :: words) =>
      if bytes_eqb w (str "--") then inr words
      else
        match w with
        | d :: c :: cs => if byte_eqb d "-" then inl (option_at optstring c cs words) else inr (w :: words)
        | _ => inr (w :: words)
        end
  end.

(** The calls from a point: what they return, and the operands. *)
Inductive calls (optstring : bytes) : point -> list getopt_result -> list bytes -> Prop :=
  | calls_end q operands : getopt_next optstring q = inr operands -> calls optstring q [] operands
  | calls_option q r q' rs operands :
      getopt_next optstring q = inl (r, q') -> calls optstring q' rs operands ->
      calls optstring q (r :: rs) operands.

Lemma calls_word optstring cs : forall words rs operands need r,
  getopt_word optstring cs = (r, need) ->
  match need with
  | None => calls optstring ([], words) rs operands
  | Some c => match words with
              | a :: words => exists rs', rs = Opt c a :: rs' /\ calls optstring ([], words) rs' operands
              | [] => rs = [OptBad c] /\ operands = []
              end
  end -> calls optstring (cs, words) (r ++ rs) operands.
Proof.
  induction cs as [|c cs IH]; intros words rs operands need r Hw H; cbn [getopt_word] in Hw.
  - by injection Hw as <- <-.
  - destruct (find_opt optstring c) as [[]|] eqn:Ef.
    + destruct cs as [|d cs].
      * injection Hw as <- <-. destruct words as [|a words].
        -- destruct H as [-> ->]. eapply calls_option; [cbn; unfold option_at; by rewrite Ef|]. by apply calls_end.
        -- destruct H as (rs' & -> & H). eapply calls_option; [cbn; unfold option_at; by rewrite Ef|done].
      * injection Hw as <- <-. eapply calls_option; [cbn; unfold option_at; by rewrite Ef|done].
    + destruct (getopt_word optstring cs) as [r' need'] eqn:Er. injection Hw as <- <-.
      eapply calls_option; [cbn; unfold option_at; by rewrite Ef|]. by eapply IH.
    + destruct (getopt_word optstring cs) as [r' need'] eqn:Er. injection Hw as <- <-.
      eapply calls_option; [cbn; unfold option_at; by rewrite Ef|]. by eapply IH.
Qed.

(** The calls on a whole vector. *)
Lemma calls_words optstring words :
  calls optstring ([], words) (getopt_words true optstring words).1 (getopt_words true optstring words).2.
Proof.
  remember (length words) as n eqn:Hn. revert words Hn.
  induction n as [n IH] using lt_wf_ind. intros [|w words] ->; [by apply calls_end|].
  cbn [getopt_words]. destruct (bytes_eqb w (str "--")) eqn:E; [by apply calls_end; cbn; rewrite E|].
  assert (match w with d :: c :: cs => byte_eqb d "-" = false | _ => True end ->
    calls optstring ([], w :: words) [] (w :: words)) as Hop.
  { intros Hw. apply calls_end. cbn. rewrite E. destruct w as [|d [|c cs]]; [done|done|]. by rewrite Hw. }
  destruct w as [|d [|c cs]]; [by apply Hop|by apply Hop|]. destruct (byte_eqb d "-") eqn:Ed; [|by apply Hop].
  assert (forall rs operands, calls optstring (c :: cs, words) rs operands ->
    calls optstring ([], (d :: c :: cs) :: words) rs operands) as Hopen.
  { intros rs operands Hc. inversion Hc as [q' o' Hq|q' r p2 rs' o' Hq Hc2]; subst; [done|].
    eapply calls_option; [|exact Hc2]. cbn. by rewrite E, Ed. }
  apply Hopen. destruct (getopt_word optstring (c :: cs)) as [r need] eqn:Er. destruct need as [o|].
  - destruct words as [|a words].
    + eapply (calls_word _ _ [] [OptBad o]); [exact Er|done].
    + pose proof (IH (length words) ltac:(simpl; lia) words eq_refl) as H.
      destruct (getopt_words true optstring words) as [r' rest]. eapply calls_word; [exact Er|].
      exists r'. done.
  - pose proof (IH (length words) ltac:(simpl; lia) words eq_refl) as H.
    destruct (getopt_words true optstring words) as [r' rest]. by eapply calls_word.
Qed.

(** * The calls of portable/getopt.c *)

(** Letters and digits, each at most once, and single colons after them. *)
Fixpoint opts_ok (opts : bytes) : bool :=
  match opts with
  | [] => true
  | c :: rest =>
      is_alnum c && negb (has_byte c rest) &&
      match rest with
      | d :: rest' => if byte_eqb d ":" then opts_ok rest' else opts_ok rest
      | [] => true
      end
  end.

(** The rest of [opts] after the letter [c] and its colon. *)
Fixpoint opts_after (opts : bytes) (c : byte) : bytes :=
  match opts with
  | [] => []
  | d :: rest =>
      if byte_eqb c d then match rest with e :: rest' => if byte_eqb e ":" then rest' else rest | [] => [] end
      else opts_after rest c
  end.

(** The loop over [optstring] is not run past its end. *)
Definition within (opts : bytes) (r : getopt_result) : Prop :=
  match r with Opt c _ => opts_after opts c <> [] | OptBad c => c <> ":"%byte end.

Lemma cchar_at s i c (g : getopt_state) : (s ++ [nul]) !! i = Some c -> cchar s i g = Ret c g.
Proof. unfold cchar. by intros ->. Qed.

Lemma cchar_end s (g : getopt_state) : cchar s (length s) g = Ret nul g.
Proof. apply cchar_at. by rewrite lookup_app_r, Nat.sub_diag. Qed.

Lemma cchar_drop s i c t (g : getopt_state) : drop i s = c :: t -> cchar s i g = Ret c g.
Proof.
  intros E. apply cchar_at. apply lookup_app_l_Some. rewrite <- (Nat.add_0_r i), <- lookup_drop, E. done.
Qed.

Lemma cchar_drop_end s i (g : getopt_state) : drop i s = [] -> (i <= length s)%nat -> cchar s i g = Ret nul g.
Proof.
  intros E Hi. assert (length (drop i s) = 0%nat) as Hl by by rewrite E. rewrite length_drop in Hl.
  replace i with (length s) by lia. apply cchar_end.
Qed.

Lemma drop_tl {A} i (s : list A) c t : drop i s = c :: t -> drop (S i) s = t.
Proof. intros E. by rewrite <- Nat.add_1_r, <- drop_drop, E. Qed.

Lemma alnum_plain c : is_alnum c = true -> c <> nul /\ c <> ":"%byte /\ c <> "+"%byte /\ c <> "-"%byte /\ bs c <> -1.
Proof. by destruct c. Qed.

(** The loop runs to the end over letters other than the option. *)
Lemma match_rest s cm fuel : forall t p option g, drop p s = t -> (p <= length s)%nat -> optopt g ∉ t -> nul ∉ t ->
  (length t < fuel)%nat -> loop fuel (match_body s cm) (p, option) g = Ret (option, true) g.
Proof.
  induction fuel as [|fuel IH]; intros t p option g Hd Hp Ho Hn Hf; [lia|]. destruct t as [|c t].
  - apply loop_inr. unfold match_body. rewrite (bind_Ret _ _ _ _ _ (cchar_drop_end _ _ g Hd Hp)). done.
  - assert (c <> nul) as Hc by set_solver. assert (optopt g <> c) as Hoc by set_solver.
    rewrite (loop_inl _ _ _ _ (S p, option) g).
    + apply (IH t); [by eapply drop_tl| |set_solver|set_solver|simpl in Hf; lia].
      assert (length (drop p s) = S (length t)) as Hl by by rewrite Hd. rewrite length_drop in Hl. lia.
    + unfold match_body. rewrite (bind_Ret _ _ _ _ _ (cchar_drop _ _ _ _ g Hd)).
      rewrite byte_eqb_neq by done. rewrite (bind_Ret _ _ g (optopt g) g) by done. by rewrite byte_eqb_neq.
Qed.

Lemma match_skip s cm pre : forall p option fuel t g, drop p s = pre ++ t -> optopt g ∉ pre -> nul ∉ pre ->
  loop (length pre + fuel) (match_body s cm) (p, option) g = loop fuel (match_body s cm) ((p + length pre)%nat, option) g.
Proof.
  induction pre as [|c pre IH]; intros p option fuel t g Hd Ho Hn; [simpl; by rewrite Nat.add_0_r|].
  assert (c <> nul) as Hc by set_solver. assert (optopt g <> c) as Hoc by set_solver.
  change (length (c :: pre) + fuel)%nat with (S (length pre + fuel)).
  rewrite (loop_inl _ _ _ _ (S p, option) g).
  - rewrite (IH _ _ _ t); [by replace (S p + length pre)%nat with (p + length (c :: pre))%nat by (simpl; lia)| |set_solver|set_solver].
    by eapply drop_tl.
  - unfold match_body. rewrite (bind_Ret _ _ _ _ _ (cchar_drop _ _ _ _ g Hd)).
    rewrite byte_eqb_neq by done. rewrite (bind_Ret _ _ g (optopt g) g) by done. by rewrite byte_eqb_neq.
Qed.

Lemma opts_ok_cons c rest : opts_ok (c :: rest) = true ->
  is_alnum c = true /\ c ∉ rest /\
  ((exists rest', rest = ":"%byte :: rest' /\ opts_ok rest' = true) \/
   (head rest <> Some ":"%byte /\ opts_ok rest = true)).
Proof.
  cbn [opts_ok]. intros [[Ha Hb]%andb_true_iff Hr]%andb_true_iff. split; [done|]. split.
  - apply negb_true_iff in Hb. by apply bool_decide_eq_false in Hb.
  - destruct rest as [|d rest]; [by right|]. unfold byte_eqb in Hr. case_bool_decide as Hd.
    + left. exists rest. by rewrite Hd.
    + right. split; [|done]. simpl. congruence.
Qed.

Lemma opts_ok_head opts : opts_ok opts = true -> head opts <> Some ":"%byte.
Proof. destruct opts as [|c rest]; [done|]. intros (Ha & _)%opts_ok_cons E. injection E as ->. done. Qed.

Lemma opts_no_nul opts : opts_ok opts = true -> nul ∉ opts.
Proof.
  remember (length opts) as n eqn:Hn. revert opts Hn. induction n as [n IH] using lt_wf_ind.
  intros [|c rest] -> Hok; [set_solver|]. apply opts_ok_cons in Hok as (Ha & _ & Hr).
  apply alnum_plain in Ha as (Hc & _). destruct Hr as [(rest' & -> & Hok)|[_ Hok]].
  - pose proof (IH (length rest') ltac:(simpl; lia) rest' eq_refl Hok). set_solver.
  - pose proof (IH (length rest) ltac:(simpl; lia) rest eq_refl Hok). set_solver.
Qed.

(** Where the letter [c] stands. *)
Lemma opts_split opts c takes : opts_ok opts = true -> find_opt opts c = Some takes ->
  exists pre t, opts = pre ++ c :: t /\ c ∉ pre /\ c ∉ t /\ is_alnum c = true /\
    if takes : bool then t = ":"%byte :: opts_after opts c /\ head (opts_after opts c) <> Some ":"%byte
    else t = opts_after opts c /\ head t <> Some ":"%byte.
Proof.
  remember (length opts) as n eqn:Hn. revert opts Hn. induction n as [n IH] using lt_wf_ind.
  intros [|d rest] -> Hok; [done|]. apply opts_ok_cons in Hok as (Ha & Hnin & Hr).
  pose proof (alnum_plain _ Ha) as (_ & Hcolon & _).
  cbn [find_opt opts_after]. destruct (decide (c = d)) as [<-|Hcd].
  - rewrite byte_eqb_refl, byte_eqb_neq by done. cbn [andb negb]. intros E. exists [], rest.
    split; [done|]. split; [set_solver|]. split; [done|]. split; [done|].
    destruct rest as [|e rest]; injection E as <-; [by split|]. destruct Hr as [(rest' & E & Hok)|[Hh Hok]].
    + injection E as -> ->. rewrite byte_eqb_refl. split; [done|]. by apply opts_ok_head.
    + rewrite byte_eqb_neq by (intros ->; by apply Hh). done.
  - rewrite (byte_eqb_neq c d) by done. cbn [andb]. intros E. destruct Hr as [(rest' & -> & Hok)|[Hh Hok]].
    + cbn [find_opt] in E. assert (byte_eqb c ":" && negb (byte_eqb c ":") = false) as Eb by (by destruct (byte_eqb c ":")).
      rewrite Eb in E. destruct (IH (length rest') ltac:(simpl; lia) rest' eq_refl Hok E) as (pre & t & -> & H1 & H2 & H3 & H4).
      assert (c <> ":"%byte) as Hc by by destruct (alnum_plain _ H3) as (_ & ? & _).
      exists (d :: ":"%byte :: pre), t. split; [done|]. split; [set_solver|]. split; [done|]. split; [done|].
      cbn [opts_after]. by rewrite !byte_eqb_neq.
    + destruct (IH (length rest) ltac:(simpl; lia) rest eq_refl Hok E) as (pre & t & -> & H1 & H2 & H3 & H4).
      exists (d :: pre), t. split; [done|]. split; [set_solver|]. done.
Qed.

Lemma find_opt_none opts c : opts_ok opts = true -> find_opt opts c = None -> c <> ":"%byte -> c ∉ opts.
Proof.
  intros _ E Hc. induction opts as [|d rest IH]; [set_solver|]. cbn [find_opt] in E.
  destruct (byte_eqb c d && negb (byte_eqb c ":")) eqn:Eb; [done|].
  rewrite (byte_eqb_neq c ":") in Eb by done. unfold byte_eqb in Eb. case_bool_decide; [done|]. set_solver.
Qed.

Lemma match_letter opts cm takes g : opts_ok opts = true -> find_opt opts (optopt g) = Some takes ->
  exists p fuel t, drop p ("+"%byte :: opts) = optopt g :: t /\ (p <= length opts)%nat /\ optopt g ∉ t /\ nul ∉ t /\
    is_alnum (optopt g) = true /\ (length t < fuel)%nat /\
    (if takes then t = ":"%byte :: opts_after opts (optopt g) /\ head (opts_after opts (optopt g)) <> Some ":"%byte
     else t = opts_after opts (optopt g) /\ head t <> Some ":"%byte) /\
    loop (S (S (length ("+"%byte :: opts)))) (match_body ("+"%byte :: opts) cm) (1%nat, -1) g =
    loop (S fuel) (match_body ("+"%byte :: opts) cm) (p, -1) g.
Proof.
  intros Hok Hf. pose proof (opts_no_nul _ Hok) as Hn.
  destruct (opts_split _ _ _ Hok Hf) as (pre & t & E & Hpre & Ht & Ha & Htakes).
  exists (1 + length pre)%nat, (S (S (S (length t)))), t. rewrite E in *. cbn [length]. rewrite length_app. cbn [length].
  split; [change (drop (length pre) (pre ++ optopt g :: t) = optopt g :: t); by rewrite drop_app_length|].
  split; [lia|]. split; [done|]. split; [set_solver|]. split; [done|]. split; [lia|]. split; [done|].
  replace (S (S (S (length pre + S (length t))))) with (length pre + S (S (S (S (length t)))))%nat by lia.
  rewrite (match_skip _ _ pre _ _ _ (optopt g :: t)); [done|done|done|set_solver].
Qed.

(** ** The state between two calls *)

Definition at_point (g : getopt_state) (q : point) : Prop :=
  match q with
  | ([], words) => charind g = 0%nat /\ (optind g <= length (go_argv g))%nat /\ drop (optind g) (go_argv g) = words
  | (cs, words) => exists w, (0 < charind g)%nat /\ go_argv g !! optind g = Some w /\ drop (charind g) w = cs /\
      drop (S (optind g)) (go_argv g) = words
  end.

(** The argument vector of a program: its name, and C strings. *)
Definition argv_ok (argv : list bytes) : Prop := argv <> [] /\ Forall (fun w => nul ∉ w) argv.

(** What a call returns for a result, and where the rest of it is. *)
Definition returned (opts : bytes) (r : getopt_result) (v : Z) (g : getopt_state) : Prop :=
  match r with
  | Opt c a => v = bs c /\ optopt g = c /\ (find_opt opts c = Some true -> optarg g = Some a)
  | OptBad c => v = bs "?" /\ optopt g = c
  end.

Lemma word_at i w (g : getopt_state) : go_argv g !! i = Some w -> word i g = Ret w g.
Proof. unfold word. intros E. rewrite (bind_Ret _ _ g (go_argv g) g) by done. by rewrite E. Qed.

Lemma complain_Ret fmt c g : argv_ok (go_argv g) -> exists l, complain fmt c g = Ret tt (set_stderr l g).
Proof.
  intros [Hne _]. unfold complain. destruct (go_argv g) as [|name argv] eqn:E; [done|].
  rewrite (bind_Ret _ _ g name g) by (apply word_at; by rewrite E). by eexists.
Qed.

Lemma done_next g c cs w words : (0 < charind g)%nat -> go_argv g !! optind g = Some w -> nul ∉ w ->
  drop (charind g) w = c :: cs -> drop (S (optind g)) (go_argv g) = words ->
  exists g', getopt_done g = Ret tt g' /\ at_point g' (cs, words) /\ go_argv g' = go_argv g /\
    optopt g' = optopt g /\ optarg g' = optarg g.
Proof.
  intros Hk Hw Hn Hd Hws. pose proof (lookup_lt_Some _ _ _ Hw) as Hlt. unfold getopt_done.
  rewrite (bind_Ret _ _ g (charind g) g) by done. rewrite bool_decide_eq_false_2 by lia.
  assert (length (drop (charind g) w) = S (length cs)) as Hl by by rewrite Hd. rewrite length_drop in Hl.
  set (g1 := set_charind (S (charind g)) g).
  destruct cs as [|d cs].
  - set (g2 := set_charind 0 (set_optind (S (optind g)) g1)). exists g2. split.
    + rewrite (bind_Ret _ _ g tt g2).
      * rewrite (bind_Ret _ _ g2 (S (optind g)) g2) by done. rewrite (bind_Ret _ _ g2 (length (go_argv g)) g2) by done.
        by rewrite bool_decide_eq_false_2 by lia.
      * rewrite (bind_Ret _ _ g tt g1) by done. rewrite (bind_Ret _ _ g1 (optind g) g1) by done.
        rewrite (bind_Ret _ _ g1 w g1) by (by apply word_at).
        rewrite (bind_Ret _ _ g1 nul g1) by (simpl in Hl; replace (S (charind g)) with (length w) by lia; apply cchar_end).
        done.
    + split; [|done]. split; [done|]. split; [simpl; lia|done].
  - exists g1. assert (d <> nul) as Hdn.
    { intros ->. apply Hn, (list_elem_of_lookup_2 w (S (charind g))).
      rewrite <- (Nat.add_0_r (S (charind g))), <- lookup_drop, (drop_tl _ _ _ _ Hd). done. }
    split.
    + rewrite (bind_Ret _ _ g tt g1).
      * rewrite (bind_Ret _ _ g1 (optind g) g1) by done. rewrite (bind_Ret _ _ g1 (length (go_argv g)) g1) by done.
        by rewrite bool_decide_eq_false_2 by lia.
      * rewrite (bind_Ret _ _ g tt g1) by done. rewrite (bind_Ret _ _ g1 (optind g) g1) by done.
        rewrite (bind_Ret _ _ g1 w g1) by (by apply word_at).
        rewrite (bind_Ret _ _ g1 d g1) by (eapply cchar_drop, drop_tl, Hd).
        by rewrite byte_eqb_neq.
    + split; [|done]. exists w. split; [simpl; lia|]. split; [done|]. split; [|done]. by eapply drop_tl.
Qed.

Lemma done_word g : charind g = 0%nat -> (optind g <= length (go_argv g))%nat ->
  getopt_done g = Ret tt g.
Proof.
  intros Hk Hi. unfold getopt_done. rewrite (bind_Ret _ _ g (charind g) g) by done. rewrite bool_decide_eq_true_2 by done.
  rewrite (bind_Ret _ _ g tt g) by done. rewrite (bind_Ret _ _ g (optind g) g) by done.
  rewrite (bind_Ret _ _ g (length (go_argv g)) g) by done. by rewrite bool_decide_eq_false_2 by lia.
Qed.

Lemma drop_cons_lookup {A} i (l : list A) x t : drop i l = x :: t -> l !! i = Some x.
Proof. intros E. by rewrite <- (Nat.add_0_r i), <- lookup_drop, E. Qed.

(** [getopt_option] once the loop over [optstring] is known. *)
Lemma option_finish opts cm g option g1 c cs w : go_argv g !! optind g = Some w ->
  drop (charind g) w = c :: cs ->
  loop (S (S (length opts))) (match_body opts cm) (1%nat, -1) (set_optopt c g) = Ret (option, true) g1 ->
  option <> -1 -> getopt_option opts 1 cm g = bind getopt_done (fun _ => ret option) g1.
Proof.
  intros Hw Hd El Hne. unfold getopt_option. rewrite (bind_Ret _ _ g (optind g) g) by done.
  rewrite (bind_Ret _ _ g w g) by (by apply word_at). rewrite (bind_Ret _ _ g (charind g) g) by done.
  rewrite (bind_Ret _ _ g c g) by (by eapply cchar_drop). rewrite (bind_Ret _ _ g tt (set_optopt c g)) by done.
  rewrite (bind_Ret _ _ _ _ _ El). cbn [andb]. rewrite (proj2 (Z.eqb_neq _ _)) by done.
  by rewrite (bind_Ret _ _ g1 option g1).
Qed.

Section option_step.
Context (opts : bytes) (Hok : opts_ok opts = true).
Context (g : getopt_state) (c : byte) (cs : bytes) (words : list bytes) (w : bytes).
Context (Hargv : argv_ok (go_argv g)) (Hk : (0 < charind g)%nat) (Hw : go_argv g !! optind g = Some w).
Context (Hd : drop (charind g) w = c :: cs) (Hws : drop (S (optind g)) (go_argv g) = words).

Definition stepped (r : getopt_result) (q' : point) : Prop :=
  exists v g', getopt_option ("+"%byte :: opts) 1 false g = Ret v g' /\ at_point g' q' /\ go_argv g' = go_argv g /\
    v <> -1 /\ returned opts r v g'.

Lemma word_no_nul : nul ∉ w.
Proof using Hargv Hw. destruct Hargv as [_ Hn]. by eapply Forall_lookup_1 in Hn. Qed.

Lemma option_unknown : c <> ":"%byte -> find_opt opts c = None -> stepped (OptBad c) (cs, words).
Proof using All.
  intros Hc Hf. pose proof (find_opt_none _ _ Hok Hf Hc) as Hnin. set (g1 := set_optopt c g).
  assert (loop (S (S (length ("+"%byte :: opts)))) (match_body ("+"%byte :: opts) false) (1%nat, -1) g1 = Ret (-1, true) g1) as El.
  { apply (match_rest _ _ _ opts); [done|simpl; lia|done|by apply opts_no_nul|simpl; lia]. }
  destruct (complain_Ret "%s: illegal option -- %c" c g1 Hargv) as [l Ec].
  destruct (done_next (set_stderr l g1) c cs w words) as (g' & Ed & Hp & Ha & Ho & _); [done|done|apply word_no_nul|done|done|].
  exists (bs "?"), g'. split; [|done]. unfold getopt_option. rewrite (bind_Ret _ _ g (optind g) g) by done.
  rewrite (bind_Ret _ _ g w g) by (by apply word_at). rewrite (bind_Ret _ _ g (charind g) g) by done.
  rewrite (bind_Ret _ _ g c g) by (by eapply cchar_drop). rewrite (bind_Ret _ _ g tt g1) by done.
  rewrite (bind_Ret _ _ _ _ _ El). cbn [andb]. change (-1 =? -1) with true. cbv iota.
  rewrite (bind_Ret _ _ g1 (bs "?") (set_stderr l g1)); [by rewrite (bind_Ret _ _ _ _ _ Ed)|].
  rewrite (bind_Ret _ _ g1 c g1) by done. by rewrite (bind_Ret _ _ _ _ _ Ec).
Qed.

Lemma option_flag : find_opt opts c = Some false -> opts_after opts c <> [] -> stepped (Opt c []) (cs, words).
Proof using All.
  intros Hf Hafter. set (g1 := set_optopt c g).
  destruct (match_letter opts false false g1 Hok Hf) as (p & fuel & t & Hp & Hpl & Hct & Hnt & Hal & Hfu & [Ht Hh] & El).
  change (optopt g1) with c in *. destruct t as [|d t]; [by rewrite <- Ht in Hafter|].
  assert (d <> ":"%byte) as Hdc by (intros ->; by apply Hh).
  pose proof (drop_tl _ _ _ _ Hp) as Hp1. pose proof (drop_tl _ _ _ _ Hp1) as Hp2.
  assert (length (drop (S p) ("+"%byte :: opts)) = S (length t)) as Hlen by by rewrite Hp1.
  rewrite length_drop in Hlen. cbn [length] in Hlen, Hfu. pose proof (alnum_plain _ Hal) as (Hcn & _ & _ & _ & Hne).
  destruct (done_next g1 c cs w words) as (g' & Ed & Hpt & Ha & Ho & _); [done|done|apply word_no_nul|done|done|].
  exists (bs c), g'. split; [|split; [done|split; [done|split; [done|split; [done|split; [done|by rewrite Hf]]]]]].
  rewrite (option_finish _ _ g (bs c) g1 c cs w); [by rewrite (bind_Ret _ _ _ _ _ Ed)|done|done| |done].
  fold g1. rewrite El. rewrite (loop_inl _ _ _ _ (S (S p), bs c) g1).
  - apply (match_rest _ _ _ t); [done|cbn [length]; lia|set_solver|set_solver|lia].
  - unfold match_body. rewrite (bind_Ret _ _ _ _ _ (cchar_drop _ _ _ _ g1 Hp)).
    rewrite byte_eqb_neq by done. rewrite (bind_Ret _ _ g1 c g1) by done. rewrite byte_eqb_refl.
    rewrite (bind_Ret _ _ _ _ _ (cchar_drop _ _ _ _ g1 Hp1)). by rewrite byte_eqb_neq.
Qed.

(** The loop's pass at a letter that takes an argument, up to the argument. *)
Lemma option_takes : find_opt opts c = Some true ->
  exists p fuel t, drop p ("+"%byte :: opts) = c :: ":"%byte :: t /\ t = opts_after opts c /\ head t <> Some ":"%byte /\
    c ∉ t /\ nul ∉ t /\ (length t < fuel)%nat /\ bs c <> -1 /\ (S (S p) <= length ("+"%byte :: opts))%nat /\
    loop (S (S (length ("+"%byte :: opts)))) (match_body ("+"%byte :: opts) false) (1%nat, -1) (set_optopt c g) =
    loop (S fuel) (match_body ("+"%byte :: opts) false) (p, -1) (set_optopt c g) /\
    match_body ("+"%byte :: opts) false (p, -1) (set_optopt c g) =
    bind (cchar w (S (charind g))) (fun next =>
      if negb (byte_eqb next nul) then
        do* modify (set_optarg (Some (drop (S (charind g)) w))) in
        do* modify (set_optind (S (optind g))) in
        do* modify (set_charind 0) in
        ret (inl (S (S p), bs c))
      else
        let* e := cchar ("+"%byte :: opts) (S (S p)) in
        if byte_eqb e ":" then ret (inl (S (S (S p)), bs c))
        else
          do* modify (set_charind 0) in
          do* modify (set_optind (S (optind g))) in
          let* n := argc in
          if bool_decide (n <= S (optind g))%nat then
            do* complain "%s: option requires an argument -- %c" c in ret (inr (bs "?", false))
          else
            let* a := word (S (optind g)) in
            do* modify (set_optarg (Some a)) in
            do* modify (set_optind (S (S (optind g)))) in
            ret (inl (S (S (S p)), bs c))) (set_optopt c g).
Proof using All.
  intros Hf. set (g1 := set_optopt c g).
  destruct (match_letter opts false true g1 Hok Hf) as (p & fuel & t & Hp & Hpl & Hct & Hnt & Hal & Hfu & [Ht Hh] & El).
  change (optopt g1) with c in *. pose proof (alnum_plain _ Hal) as (Hcn & _ & _ & _ & Hne).
  exists p, fuel, (opts_after opts c). rewrite Ht in *. pose proof (drop_tl _ _ _ _ Hp) as Hp1.
  assert (length (drop (S p) ("+"%byte :: opts)) = S (length (opts_after opts c))) as Hlen by by rewrite Hp1.
  rewrite length_drop in Hlen. cbn [length] in Hlen, Hfu. cbn [length].
  split; [done|]. split; [done|]. split; [done|]. split; [set_solver|]. split; [set_solver|]. split; [lia|].
  split; [done|]. split; [lia|]. split; [exact El|]. unfold match_body at 1.
  rewrite (bind_Ret _ _ _ _ _ (cchar_drop _ _ _ _ g1 Hp)).
  rewrite byte_eqb_neq by done. rewrite (bind_Ret _ _ g1 c g1) by done. rewrite byte_eqb_refl.
  rewrite (bind_Ret _ _ _ _ _ (cchar_drop _ _ _ _ g1 Hp1)), byte_eqb_refl.
  rewrite (bind_Ret _ _ g1 (optind g) g1) by done. rewrite (bind_Ret _ _ g1 w g1) by (by apply word_at).
  by rewrite (bind_Ret _ _ g1 (charind g) g1).
Qed.

Lemma option_attached d cs' : cs = d :: cs' -> find_opt opts c = Some true -> stepped (Opt c cs) ([], words).
Proof using All.
  intros Ecs Hf. set (g1 := set_optopt c g).
  destruct (option_takes Hf) as (p & fuel & t & Hp & Ht & Hh & Hct & Hnt & Hfu & Hne & Hpl & El & Eb). fold g1 in El, Eb.
  pose proof (drop_tl _ _ _ _ Hd) as Hd1. rewrite Ecs in Hd1.
  assert (d <> nul) as Hdn by (intros ->; apply word_no_nul, (list_elem_of_lookup_2 w (S (charind g))); by eapply drop_cons_lookup).
  set (g2 := set_charind 0 (set_optind (S (optind g)) (set_optarg (Some cs) g1))).
  assert (getopt_done g2 = Ret tt g2) as Ed.
  { apply done_word; [done|]. simpl. apply lookup_lt_Some in Hw. lia. }
  exists (bs c), g2. split; [|split; [split; [done|split; [|done]]|done]].
  2: { simpl. apply lookup_lt_Some in Hw. lia. }
  rewrite (option_finish _ _ g (bs c) g2 c cs w); [by rewrite (bind_Ret _ _ _ _ _ Ed)|done|done| |done].
  fold g1. rewrite El. rewrite (loop_inl _ _ _ _ (S (S p), bs c) g2).
  - apply (match_rest _ _ _ t); [by do 2 eapply drop_tl|done|done|done|done].
  - rewrite Eb. rewrite (bind_Ret _ _ _ _ _ (cchar_drop _ _ _ _ g1 Hd1)). rewrite byte_eqb_neq by done.
    rewrite Hd1, <- Ecs. done.
Qed.

(** The nul of a word whose last letter is the option. *)
Lemma option_last : cs = [] -> cchar w (S (charind g)) (set_optopt c g) = Ret nul (set_optopt c g).
Proof using Hd Hk.
  intros Ecs. assert (length (drop (charind g) w) = 1%nat) as Hl by by rewrite Hd, Ecs. rewrite length_drop in Hl.
  replace (S (charind g)) with (length w) by lia. apply cchar_end.
Qed.

Lemma option_separate a rest : cs = [] -> words = a :: rest -> find_opt opts c = Some true ->
  opts_after opts c <> [] -> stepped (Opt c a) ([], rest).
Proof using All.
  intros Ecs Ews Hf Hafter. set (g1 := set_optopt c g).
  destruct (option_takes Hf) as (p & fuel & t & Hp & Ht & Hh & Hct & Hnt & Hfu & Hne & Hpl & El & Eb). fold g1 in El, Eb.
  destruct t as [|d t]; [by rewrite <- Ht in Hafter|]. assert (d <> ":"%byte) as Hdc by (intros ->; by apply Hh).
  assert (drop (S (S p)) ("+"%byte :: opts) = d :: t) as Hp2 by by do 2 eapply drop_tl.
  assert (length (drop (S (S p)) ("+"%byte :: opts)) = S (length t)) as Hlen by by rewrite Hp2.
  rewrite length_drop in Hlen. rewrite Ews in Hws. pose proof (drop_cons_lookup _ _ _ _ Hws) as Ha.
  pose proof (lookup_lt_Some _ _ _ Ha) as Hlt. cbn [length] in Hfu.
  set (g2 := set_charind 0 g1). set (g3 := set_optind (S (optind g)) g2).
  set (g4 := set_optind (S (S (optind g))) (set_optarg (Some a) g3)).
  assert (getopt_done g4 = Ret tt g4) as Ed by (apply done_word; [done|simpl; lia]).
  exists (bs c), g4. split; [|split; [split; [done|split; [simpl; lia|by eapply drop_tl]]|done]].
  rewrite (option_finish _ _ g (bs c) g4 c cs w); [by rewrite (bind_Ret _ _ _ _ _ Ed)|done|done| |done].
  fold g1. rewrite El. rewrite (loop_inl _ _ _ _ (S (S (S p)), bs c) g4).
  - apply (match_rest _ _ _ t); [by eapply drop_tl|lia|set_solver|set_solver|lia].
  - rewrite Eb. rewrite (bind_Ret _ _ _ _ _ (option_last Ecs)). rewrite byte_eqb_refl. cbn [negb].
    rewrite (bind_Ret _ _ _ _ _ (cchar_drop _ _ _ _ g1 Hp2)). rewrite byte_eqb_neq by done.
    rewrite (bind_Ret _ _ g1 tt g2), (bind_Ret _ _ g2 tt g3), (bind_Ret _ _ g3 (length (go_argv g)) g3) by done.
    rewrite bool_decide_eq_false_2 by lia. by rewrite (bind_Ret _ _ g3 a g3) by (by apply word_at).
Qed.

Lemma option_missing : cs = [] -> words = [] -> find_opt opts c = Some true -> stepped (OptBad c) ([], []).
Proof using All.
  intros Ecs Ews Hf. set (g1 := set_optopt c g).
  destruct (option_takes Hf) as (p & fuel & t & Hp & Ht & Hh & Hct & Hnt & Hfu & Hne & Hpl & El & Eb). fold g1 in El, Eb.
  assert (drop (S (S p)) ("+"%byte :: opts) = t) as Hp2 by by do 2 eapply drop_tl.
  assert (exists e, cchar ("+"%byte :: opts) (S (S p)) g1 = Ret e g1 /\ e <> ":"%byte) as (e & Ee & Hec).
  { destruct t as [|d t]; [exists nul; split; [by apply cchar_drop_end|done]|].
    exists d. split; [by eapply cchar_drop|]. intros ->. by apply Hh. }
  rewrite Ews in Hws. assert (length (drop (S (optind g)) (go_argv g)) = 0%nat) as Hl by by rewrite Hws.
  rewrite length_drop in Hl. pose proof (lookup_lt_Some _ _ _ Hw) as Hlt.
  set (g2 := set_charind 0 g1). set (g3 := set_optind (S (optind g)) g2).
  destruct (complain_Ret "%s: option requires an argument -- %c" c g3 Hargv) as [l Ec].
  assert (getopt_done (set_stderr l g3) = Ret tt (set_stderr l g3)) as Ed by (apply done_word; [done|simpl; lia]).
  exists (bs "?"), (set_stderr l g3). split; [|split; [split; [done|split; [simpl; lia|done]]|done]].
  unfold getopt_option. rewrite (bind_Ret _ _ g (optind g) g) by done.
  rewrite (bind_Ret _ _ g w g) by (by apply word_at). rewrite (bind_Ret _ _ g (charind g) g) by done.
  rewrite (bind_Ret _ _ g c g) by (by eapply cchar_drop). rewrite (bind_Ret _ _ g tt g1) by done.
  rewrite (bind_Ret _ _ g1 (bs "?", false) (set_stderr l g3)).
  - cbn [andb]. rewrite (bind_Ret _ _ _ (bs "?") (set_stderr l g3)) by done. by rewrite (bind_Ret _ _ _ _ _ Ed).
  - rewrite El. apply loop_inr. rewrite Eb. rewrite (bind_Ret _ _ _ _ _ (option_last Ecs)), byte_eqb_refl. cbn [negb].
    rewrite (bind_Ret _ _ _ _ _ Ee). rewrite byte_eqb_neq by done.
    rewrite (bind_Ret _ _ g1 tt g2), (bind_Ret _ _ g2 tt g3), (bind_Ret _ _ g3 (length (go_argv g)) g3) by done.
    rewrite bool_decide_eq_true_2 by lia. by rewrite (bind_Ret _ _ _ _ _ Ec).
Qed.

Lemma option_stepped : within opts (option_at opts c cs words).1 ->
  stepped (option_at opts c cs words).1 (option_at opts c cs words).2.
Proof using All.
  pose proof option_missing as Hmissing. pose proof option_separate as Hseparate.
  pose proof option_attached as Hattached. pose proof option_flag as Hflag. pose proof option_unknown as Hunknown.
  unfold option_at. destruct (find_opt opts c) as [[]|]; cbn [fst snd within].
  - destruct cs as [|d cs'], words as [|a rest]; intros Hr; eauto.
  - auto.
  - auto.
Qed.
End option_step.

Lemma plus_getopt opts self g : opts_ok opts = true ->
  getopt_body false ("+"%byte :: opts) self g =
  (let g := set_optarg None g in
   if bool_decide (charind g = 0%nat) then
     bind argc (fun n =>
       if bool_decide (n <= optind g)%nat then do* getopt_done in ret EOF
       else
         let* w := word (optind g) in
         if bytes_eqb w (str "--") then do* modify (set_optind (S (optind g))) in do* getopt_done in ret EOF
         else if negb (option_word w) then ret EOF
         else do* modify (set_charind 1) in getopt_option ("+"%byte :: opts) 1 false) g
   else getopt_option ("+"%byte :: opts) 1 false g).
Proof.
  intros Hok%opts_ok_head. unfold getopt_body.
  change (char_is ("+"%byte :: opts) 0 "+") with true. cbn [negb orb andb].
  assert (char_is ("+"%byte :: opts) 1 ":" = false) as ->.
  { destruct opts as [|d opts]; [done|]. apply byte_eqb_neq. intros ->. by apply Hok. }
  change (char_is ("+"%byte :: opts) 0 "-") with false. cbn [negb orb andb].
  rewrite (bind_Ret _ _ g tt (set_optarg None g)) by done.
  rewrite (bind_Ret _ _ _ (charind g) (set_optarg None g)) by done. cbn [charind set_optarg].
  case_bool_decide; [|done]. by rewrite (bind_Ret _ _ _ (optind g) (set_optarg None g)).
Qed.

Lemma option_word_no w : option_word w = false ->
  match w with d :: c :: cs => byte_eqb d "-" = false | _ => True end.
Proof. by destruct w as [|d [|c cs]]. Qed.

(** One call. *)
Lemma getopt_Ret opts g q : opts_ok opts = true -> argv_ok (go_argv g) -> at_point g q ->
  match getopt_next opts q with
  | inl (r, q') => within opts r ->
      exists v g', getopt false ("+"%byte :: opts) g = Ret v g' /\ at_point g' q' /\ go_argv g' = go_argv g /\
        v <> -1 /\ returned opts r v g'
  | inr operands =>
      exists g', getopt false ("+"%byte :: opts) g = Ret (-1) g' /\ drop (optind g') (go_argv g') = operands /\
        go_argv g' = go_argv g
  end.
Proof.
  intros Hok Hargv Hq. set (g0 := set_optarg None g). unfold getopt. rewrite plus_getopt by done. cbv zeta. fold g0.
  destruct q as [[|c cs] words].
  - destruct Hq as (Hk & Hi & Hws). rewrite bool_decide_eq_true_2 by done.
    rewrite (bind_Ret _ _ g0 (length (go_argv g)) g0) by done.
    destruct words as [|w words].
    { apply (f_equal length) in Hws. rewrite length_drop in Hws. simpl in Hws.
      rewrite bool_decide_eq_true_2 by (simpl; lia). exists g0. cbn [getopt_next].
      rewrite (bind_Ret _ _ _ _ _ (done_word g0 Hk Hi)). split; [done|]. split; [|done].
      apply nil_length_inv. rewrite length_drop. simpl. lia. }
    pose proof (drop_cons_lookup _ _ _ _ Hws) as Hw. pose proof (lookup_lt_Some _ _ _ Hw) as Hlt.
    rewrite bool_decide_eq_false_2 by (simpl; lia). rewrite (bind_Ret _ _ g0 w g0) by (by apply word_at).
    unfold getopt_next. destruct (bytes_eqb w (str "--")).
    { set (g1 := set_optind (S (optind g)) g0). exists g1. rewrite (bind_Ret _ _ g0 tt g1) by done.
      rewrite (bind_Ret _ _ _ _ _ (done_word g1 Hk ltac:(simpl; lia))). split; [done|]. split; [|done]. by eapply drop_tl. }
    destruct (option_word w) eqn:Eo; cbn [negb].
    + destruct w as [|d [|c cs]]; [done|done|]. cbn [option_word] in Eo. rewrite Eo.
      destruct (option_at opts c cs words) as [r q'] eqn:Eq. intros Hr.
      set (g1 := set_charind 1 g0). rewrite (bind_Ret _ _ g0 tt g1) by done.
      destruct (option_stepped opts Hok g1 c cs words (d :: c :: cs)) as (v & g' & E & H'); try done.
      * simpl. lia.
      * by eapply drop_tl.
      * by rewrite Eq.
      * exists v, g'. by rewrite Eq in H'.
    + apply option_word_no in Eo. destruct w as [|d [|c cs]]; [by exists g0|by exists g0|]. rewrite Eo. by exists g0.
  - destruct Hq as (w & Hk & Hw & Hd & Hws). rewrite bool_decide_eq_false_2 by (simpl; lia). cbn [getopt_next].
    destruct (option_at opts c cs words) as [r q'] eqn:Eq. intros Hr.
    destruct (option_stepped opts Hok g0 c cs words w) as (v & g' & E & H'); try done; [by rewrite Eq|].
    exists v, g'. by rewrite Eq in H'.
Qed.

(** * A program's loop *)

(** A bound on the number of calls. *)
Fixpoint argv_size (argv : list bytes) : nat :=
  match argv with [] => 0 | w :: argv => S (length w) + argv_size argv end.

Lemma calls_length opts q rs operands : calls opts q rs operands -> (length rs <= length q.1 + argv_size q.2)%nat.
Proof.
  induction 1 as [|[cs words] r q' rs operands Hq _ IH]; simpl; [lia|].
  assert (forall c cs words, (length (option_at opts c cs words).2.1 + argv_size (option_at opts c cs words).2.2 <=
    length cs + argv_size words)%nat) as Hat.
  { intros c cs0 ws. unfold option_at. destruct (find_opt opts c) as [[]|]; [|simpl; lia..].
    destruct cs0, ws; simpl; lia. }
  destruct cs as [|c cs]; simpl in Hq.
  - destruct words as [|w words]; [done|]. destruct (bytes_eqb _ _); [done|]. destruct w as [|d [|c cs]]; [done..|].
    destruct (byte_eqb d "-"); [|done]. injection Hq as Hq. specialize (Hat c cs words). rewrite Hq in Hat.
    simpl in *. lia.
  - injection Hq as Hq. specialize (Hat c cs words). rewrite Hq in Hat. simpl in *. lia.
Qed.

(** [while ((option = getopt(argc, argv, optstring)) != EOF)], keeping what
    each call gave. *)
Definition collect_body (optstring : bytes) (acc : list (Z * byte * option bytes))
    : G (list (Z * byte * option bytes) + list (Z * byte * option bytes)) :=
  let* v := getopt false optstring in
  let* c := gets optopt in
  let* a := gets optarg in
  ret (if v =? EOF then inr acc else inl (acc ++ [(v, c, a)])).

Definition getopt_collect (optstring : bytes) : G (list (Z * byte * option bytes)) :=
  let* argv := gets go_argv in
  loop (S (argv_size argv)) (collect_body optstring) [].

(** What one call gave, as the library describes it. *)
Definition gives (opts : bytes) (r : getopt_result) (v : Z * byte * option bytes) : Prop :=
  match r with
  | Opt c a => v.1 = (bs c, c) /\ (find_opt opts c = Some true -> v.2 = Some a)
  | OptBad c => v.1 = (bs "?", c)
  end.

Lemma collect_calls opts q rs operands : opts_ok opts = true -> calls opts q rs operands ->
  forall g acc fuel, argv_ok (go_argv g) -> at_point g q -> Forall (within opts) rs -> (length rs < fuel)%nat ->
  exists vs g', loop fuel (collect_body ("+"%byte :: opts)) acc g = Ret (acc ++ vs) g' /\ Forall2 (gives opts) rs vs /\
    drop (optind g') (go_argv g') = operands /\ go_argv g' = go_argv g.
Proof.
  intros Hok Hc. induction Hc as [q operands Hq|q r q' rs operands Hq _ IH]; intros g acc fuel Hargv Hat Hr Hf;
    (destruct fuel as [|fuel]; [simpl in Hf; lia|]); pose proof (getopt_Ret opts g q Hok Hargv Hat) as Hg; rewrite Hq in Hg.
  - destruct Hg as (g' & E & Ho & Ha). exists [], g'. rewrite app_nil_r. split; [|done].
    apply loop_inr. unfold collect_body. by rewrite (bind_Ret _ _ _ _ _ E).
  - apply Forall_cons_1 in Hr as [Hr Hrs]. destruct (Hg Hr) as (v & g1 & E & Hat1 & Ha1 & Hne & Hret).
    destruct (IH g1 (acc ++ [(v, optopt g1, optarg g1)]) fuel) as (vs & g' & E' & Hvs & Ho & Ha);
      [by rewrite Ha1|done|done|simpl in Hf; lia|].
    exists ((v, optopt g1, optarg g1) :: vs), g'. split.
    + rewrite (loop_inl _ _ _ _ (acc ++ [(v, optopt g1, optarg g1)]) g1).
      * by rewrite E', <- app_assoc.
      * unfold collect_body. rewrite (bind_Ret _ _ _ _ _ E). unfold EOF. by rewrite (proj2 (Z.eqb_neq _ _)).
    + split; [|split; [done|congruence]]. constructor; [|done].
      destruct r as [c a|c]; simpl in Hret; [destruct Hret as (-> & -> & ?)|destruct Hret as [-> ->]]; done.
Qed.

(** C11: the replacement [getopt] agrees with the C library's where it is
    asked to stop at the first operand.  For every vector of options the
    program's loop ends, each call gives the option and the argument that the
    library's does, and the operands are the same, as long as the loop over
    the option string is not led past its end. *)
Theorem getopt_equiv opts name words :
  opts_ok opts = true -> argv_ok (name :: words) -> Forall (within opts) (getopt_words true opts words).1 ->
  exists vs g, getopt_collect ("+"%byte :: opts) (getopt_init (name :: words)) = Ret vs g /\
    Forall2 (gives opts) (getopt_words true opts words).1 vs /\
    drop (optind g) (go_argv g) = (getopt_words true opts words).2.
Proof.
  intros Hok Hargv Hr. pose proof (calls_words opts words) as Hc. pose proof (calls_length _ _ _ _ Hc) as Hl.
  destruct (collect_calls _ _ _ _ Hok Hc (getopt_init (name :: words)) [] (S (argv_size (name :: words))))
    as (vs & g & E & Hvs & Ho & _); [done| |done|simpl in *; lia|].
  - split; [done|]. split; [simpl; lia|done].
  - by exists vs, g.
Qed.

(** The options of [client/remctl.c]. *)
Lemma getopt_equiv_witness : let opts := str "b:dhp:s:t:v" in
  let words := [str "-dt"; str "10"; str "-xp99"; str "host"; str "-v"] in
  exists vs g, getopt_collect ("+"%byte :: opts) (getopt_init (str "remctl" :: words)) = Ret vs g /\
    Forall2 (gives opts) [Opt "d" []; Opt "t" (str "10"); OptBad "x"; Opt "p" (str "99")] vs /\
    drop (optind g) (go_argv g) = [str "host"; str "-v"].
Proof.
  intros opts words. apply (getopt_equiv opts (str "remctl") words); [reflexivity| |].
  - split; [done|]. repeat constructor; set_solver.
  - repeat constructor; done.
Defined.

(** The loop over the option string passes its end at the last letter. *)
Example getopt_last_letter :
  getopt false (str "+b:dhp:s:t:v") (getopt_init [str "remctl"; str "-v"]) = Fault.
Proof. reflexivity. Qed.

(** With permutation, an argument that follows a group of letters is looked
    for after the operands have moved, so an operand is taken in its place. *)
Example getopt_group_argument :
  let argv := [str "prog"; str "operand"; str "-dc"; str "value"] in
  (exists g, getopt_collect (str "dc:x") (getopt_init argv) =
     Ret [(bs "d", "d"%byte, None); (bs "c", "c"%byte, Some (str "operand"))] g) /\
  getopt_all (str "dc:x") [str "operand"; str "-dc"; str "value"] =
    ([Opt "d" []; Opt "c" (str "value")], [str "operand"]).
Proof. split; [by eexists; vm_compute|reflexivity]. Qed.
