(* ===== verification/Net.v ===== *)
(** Network I/O: the kernel side of one connected socket, [util/xwrite.c],
    and the timed reads and writes of [util/network.c].

    The kernel is a script: what the next [read], [write] and [select] calls
    return and what [time] shows.  A script that has run out means end of
    file, a write accepted whole, and a ready descriptor. *)

From S2P Require Import Prelude Effects.

(** * The kernel *)

Definition EINTR : Z := 4.
Definition EAGAIN : Z := 11.
Definition ENOMEM : Z := 12.
Definition EINVAL : Z := 22.
Definition EPIPE : Z := 32.
Definition ECONNRESET : Z := 104.
Definition ETIMEDOUT : Z := 110.

Inductive rdres : Type := RdData (d : bytes) | RdErr (e : Z).
Inductive wrres : Type := WrOk (n : Z) | WrErr (e : Z).
Inductive selres : Type := SelReady | SelTimeout | SelErr (e : Z).

Record net : Type := Net {
  k_read : list rdres;       (* results of the next read calls *)
  k_write : list wrres;      (* results of the next write calls *)
  k_select : list selres;    (* results of the next select calls *)
  k_clock : list Z;          (* the next values of time(NULL); the last stays *)
  n_out : bytes;             (* what the kernel accepted for the peer *)
  n_errno : Z;               (* socket_errno *)
  n_nonblock : bool;         (* O_NONBLOCK on the descriptor *)
}.

Definition set_read k n := Net k (k_write n) (k_select n) (k_clock n) (n_out n) (n_errno n) (n_nonblock n).
Definition set_write k n := Net (k_read n) k (k_select n) (k_clock n) (n_out n) (n_errno n) (n_nonblock n).
Definition set_select k n := Net (k_read n) (k_write n) k (k_clock n) (n_out n) (n_errno n) (n_nonblock n).
Definition set_clock k n := Net (k_read n) (k_write n) (k_select n) k (n_out n) (n_errno n) (n_nonblock n).
Definition set_out o n := Net (k_read n) (k_write n) (k_select n) (k_clock n) o (n_errno n) (n_nonblock n).
Definition set_errno e n := Net (k_read n) (k_write n) (k_select n) (k_clock n) (n_out n) e (n_nonblock n).
Definition set_nonblock b n := Net (k_read n) (k_write n) (k_select n) (k_clock n) (n_out n) (n_errno n) b.

(** [read(fd, buf, n)]: the count and the bytes; what does not fit stays
    queued. *)
Definition sys_read (n : Z) : M net (Z * bytes) := fun s =>
  match k_read s with
  | [] => Ret (0, []) s
  | RdErr e :: k => Ret (-1, []) (set_errno e (set_read k s))
  | RdData d :: k =>
      let rest := zdrop n d in
      Ret (blen (ztake n d), ztake n d)
          (set_read (match rest with [] => k | _ => RdData rest :: k end) s)
  end.

(** [write(fd, buf, blen buf)]: the count accepted. *)
Definition sys_write (buf : bytes) : M net Z := fun s =>
  match k_write s with
  | [] => Ret (blen buf) (set_out (n_out s ++ buf) s)
  | WrErr e :: k => Ret (-1) (set_errno e (set_write k s))
  | WrOk n :: k =>
      let acc := ztake n buf in
      Ret (blen acc) (set_out (n_out s ++ acc) (set_write k s))
  end.

(** [FD_SET]: an [fd_set] has a bit for the descriptors below [FD_SETSIZE]
    only, and setting one it does not have writes outside the object. *)
Definition FD_SETSIZE : Z := 1024.
Definition FD_SET {S} (fd : Z) : M S unit :=
  if (0 <=? fd) && (fd <? FD_SETSIZE) then ret tt else fault.

(** [select] on the one descriptor: 1, 0 or -1. *)
Definition sys_select : M net Z := fun s =>
  match k_select s with
  | [] => Ret 1 s
  | SelReady :: k => Ret 1 (set_select k s)
  | SelTimeout :: k => Ret 0 (set_select k s)
  | SelErr e :: k => Ret (-1) (set_errno e (set_select k s))
  end.

Definition sys_time : M net Z := fun s =>
  match k_clock s with
  | [] => Ret 0 s
  | [t] => Ret t s
  | t :: k => Ret t (set_clock k s)
  end.

Definition socket_errno : M net Z := gets n_errno.
Definition socket_set_errno (e : Z) : M net unit := modify (set_errno e).
Definition fdflag_nonblocking (b : bool) : M net unit := modify (set_nonblock b).

(** * util/xwrite.c *)

Definition xwrite_body (buf : bytes) (st : Z * Z) : M net (Z * Z + Z) :=
  let '(total, count) := st in
  if total <? blen buf then
    let count := count + 1 in
    if 10 <? count then ret (inr total) else
    let* status := sys_write (zdrop total buf) in
    let count := if 0 <? status then 0 else count in
    if status <? 0 then
      let* err := socket_errno in
      if negb (err =? EINTR) then ret (inr total) else ret (inl (total, count))
    else ret (inl (total + status, count))
  else ret (inr total).

Definition write_fuel (buf : bytes) (s : net) : nat :=
  S (length (k_write s) + length (k_select s) + length buf).

Definition xwrite (buf : bytes) : M net Z :=
  if blen buf =? 0 then ret 0 else
  let* fuel := gets (write_fuel buf) in
  let* total := loop fuel (xwrite_body buf) (0, 0) in
  ret (if total <? blen buf then -1 else total).

(** * util/network.c *)

Definition socket_xread_body (size : Z) (st : bytes * Z) : M net (bytes * Z + Z * bytes) :=
  let '(got, count) := st in
  if blen got <? size then
    let count := count + 1 in
    if 100 <? count then ret (inr (0, got)) else
    let* (status, d) := sys_read (size - blen got) in
    if 0 <? status then ret (inl (got ++ d, 0))
    else if status =? 0 then ret (inr (0, got))
    else
      let* err := socket_errno in
      if negb (err =? EINTR) && negb (err =? EAGAIN) then ret (inr (status, got))
      else ret (inl (got, count))
  else ret (inr (1, got)).

Definition read_fuel (size : Z) (s : net) : nat :=
  S (length (k_read s) + length (k_select s) + Z.to_nat size).

(** The first component of the loop's result is [status] when it left the
    loop: 0 at end of file or after 100 tries, which sets [EPIPE]. *)
Definition socket_xread (size : Z) : M net (Z * bytes) :=
  let* fuel := gets (read_fuel size) in
  let* (status, got) := loop fuel (socket_xread_body size) ([], 0) in
  do* (if (status =? 0) && (blen got <? size) then socket_set_errno EPIPE else ret tt) in
  ret (if blen got <? size then -1 else blen got, got).

Definition network_read_body (fd total timeout start : Z) (st : bytes * Z)
    : M net (bytes * Z + bool * bytes) :=
  let '(got, now) := st in
  (* [continue] in a do-while loop goes to the loop condition. *)
  let next (st : bytes * Z) : M net (bytes * Z + bool * bytes) :=
    if st.2 - start <? timeout then ret (inl st)
    else do* socket_set_errno ETIMEDOUT in ret (inr (false, st.1)) in
  do* FD_SET fd in
  let* status := sys_select in
  if status <? 0 then
    let* err := socket_errno in
    if err =? EINTR then next (got, now) else ret (inr (false, got))
  else if status =? 0 then
    do* socket_set_errno ETIMEDOUT in ret (inr (false, got))
  else
    let* (status, d) := sys_read (total - blen got) in
    if status <? 0 then
      let* err := socket_errno in
      if err =? EINTR then next (got, now) else ret (inr (false, got))
    else if status =? 0 then
      do* socket_set_errno EPIPE in ret (inr (false, got))
    else
      let got := got ++ d in
      if blen got =? total then ret (inr (true, got))
      else
        let* now := sys_time in
        next (got, now).

Definition network_read (fd total timeout : Z) : M net (bool * bytes) :=
  if timeout =? 0 then
    let* (r, got) := socket_xread total in
    ret (0 <=? r, got)
  else
    let* start := sys_time in
    let* fuel := gets (read_fuel total) in
    loop fuel (network_read_body fd total timeout start) ([], start).

Definition network_write_body (fd : Z) (buf : bytes) (timeout start : Z) (st : Z * Z)
    : M net (Z * Z + bool) :=
  let '(sent, now) := st in
  let fail : M net (Z * Z + bool) :=
    let* err := socket_errno in
    do* fdflag_nonblocking false in
    do* socket_set_errno err in
    ret (inr false) in
  let next (st : Z * Z) : M net (Z * Z + bool) :=
    if st.2 - start <? timeout then ret (inl st)
    else do* socket_set_errno ETIMEDOUT in fail in
  do* FD_SET fd in
  let* status := sys_select in
  if status <? 0 then
    let* err := socket_errno in
    if err =? EINTR then next (sent, now) else fail
  else if status =? 0 then
    do* socket_set_errno ETIMEDOUT in fail
  else
    let* status := sys_write (zdrop sent buf) in
    if status <? 0 then
      let* err := socket_errno in
      if err =? EINTR then next (sent, now) else fail
    else
      let sent := sent + status in
      if sent =? blen buf then
        do* fdflag_nonblocking false in ret (inr true)
      else
        let* now := sys_time in
        next (sent, now).

Definition network_write (fd : Z) (buf : bytes) (timeout : Z) : M net bool :=
  if timeout =? 0 then
    let* r := xwrite buf in ret (0 <=? r)
  else
    do* fdflag_nonblocking true in
    let* start := sys_time in
    let* fuel := gets (write_fuel buf) in
    loop fuel (network_write_body fd buf timeout start) (0, start).

(** * Lemmas: the kernel *)

Definition rd_data (r : rdres) : bytes := match r with RdData d => d | RdErr _ => [] end.

(** Everything the peer has sent that is still to be read. *)
Definition rd_bytes (k : list rdres) : bytes := concat (map rd_data k).

(** [s'] is [s] up to the parts a read or a write may touch. *)
Definition same_write_side (s s' : net) : Prop :=
  k_write s' = k_write s /\ n_out s' = n_out s /\ n_nonblock s' = n_nonblock s.
Definition same_read_side (s s' : net) : Prop := k_read s' = k_read s.

Lemma same_write_side_refl s : same_write_side s s.
Proof. done. Qed.
Lemma same_write_side_trans a b c :
  same_write_side a b -> same_write_side b c -> same_write_side a c.
Proof. unfold same_write_side. naive_solver congruence. Qed.

(** The peer's data arrives without errors and without an end of file. *)
Definition rd_quiet (k : list rdres) : Prop :=
  Forall (fun r => match r with RdData (_ :: _) => True | _ => False end) k.

Lemma wp_sys_read n (Q : Z * bytes -> net -> Prop) E s :
  (k_read s = [] -> Q (0, []) s) ->
  (forall e k, k_read s = RdErr e :: k -> Q (-1, []) (set_errno e (set_read k s))) ->
  (forall d k', rd_bytes (k_read s) = d ++ rd_bytes k' -> blen d <= Z.max 0 n ->
     (length k' <= length (k_read s))%nat ->
     (0 < n -> d = [] -> (length k' < length (k_read s))%nat) ->
     (rd_quiet (k_read s) -> rd_quiet k' /\ (0 < n -> d <> [])) ->
     Q (blen d, d) (set_read k' s)) ->
  wp (sys_read n) Q E s.
Proof.
  intros Heof Herr Hdata. unfold wp, sys_read.
  destruct (k_read s) as [|[d|e] k] eqn:Ek; [by apply Heof| |by apply Herr].
  apply Hdata.
  - destruct (zdrop n d) as [|x rest] eqn:Er; unfold rd_bytes; simpl.
    + rewrite <- (ztake_zdrop n d) at 1. rewrite Er. by rewrite app_nil_r.
    + rewrite <- (ztake_zdrop n d) at 1. rewrite Er. by rewrite <- app_assoc.
  - rewrite blen_ztake. lia.
  - destruct (zdrop n d); simpl; lia.
  - intros Hn Hnil. destruct (zdrop n d) as [|x rest] eqn:Er; simpl; [lia|].
    destruct d as [|y d]; [by rewrite zdrop_nil in Er|].
    apply (f_equal blen) in Hnil. zlist.
  - intros Hq. apply Forall_cons_1 in Hq as [Hd Hq]. split.
    + destruct (zdrop n d); [done|]. by apply Forall_cons.
    + intros Hn Hnil%(f_equal blen). destruct d; [done|zlist].
Qed.

(** The kernel accepts some of every write. *)
Definition wr_quiet (k : list wrres) : Prop :=
  Forall (fun r => match r with WrOk n => 0 < n | _ => False end) k.

Lemma wp_sys_write buf (Q : Z -> net -> Prop) E s :
  (forall e k, k_write s = WrErr e :: k -> Q (-1) (set_errno e (set_write k s))) ->
  (forall acc rest k', buf = acc ++ rest -> (length k' <= length (k_write s))%nat ->
     (acc = [] -> buf <> [] -> (length k' < length (k_write s))%nat) ->
     (wr_quiet (k_write s) -> wr_quiet k' /\ (buf <> [] -> acc <> [])) ->
     Q (blen acc) (set_out (n_out s ++ acc) (set_write k' s))) ->
  wp (sys_write buf) Q E s.
Proof.
  intros Herr Hok. unfold wp, sys_write.
  destruct (k_write s) as [|[n|e] k] eqn:Ek; [| |by apply Herr].
  - specialize (Hok buf [] []). unfold set_write in Hok. rewrite <- Ek in Hok.
    destruct s; apply Hok; [by rewrite app_nil_r|simpl; lia|naive_solver|done].
  - apply (Hok _ (zdrop n buf)); simpl; [by rewrite ztake_zdrop|lia|lia|].
    intros [Hn Hq]%Forall_cons_1. split; [done|]. intros Hb Hnil%(f_equal blen).
    destruct buf; [done|]. zlist.
Qed.

Lemma wp_sys_select (Q : Z -> net -> Prop) E s :
  (k_select s = [] -> Q 1 s) ->
  (forall r k, k_select s = r :: k ->
     match r with
     | SelReady => Q 1 (set_select k s)
     | SelTimeout => Q 0 (set_select k s)
     | SelErr e => Q (-1) (set_errno e (set_select k s))
     end) ->
  wp sys_select Q E s.
Proof.
  intros H0 H1. unfold wp, sys_select.
  destruct (k_select s) as [|r k]; [by apply H0|].
  specialize (H1 r k eq_refl). by destruct r.
Qed.

(** What [time(NULL)] may still show. *)
Definition clock_vals (s : net) : list Z :=
  match k_clock s with [] => [0] | l => l end.

Lemma wp_sys_time (Q : Z -> net -> Prop) E s :
  (forall t clk, t ∈ clock_vals s -> clock_vals (set_clock clk s) ⊆ clock_vals s ->
     Q t (set_clock clk s)) ->
  wp sys_time Q E s.
Proof.
  intros H. unfold wp, sys_time. unfold clock_vals in H; simpl in H.
  destruct (k_clock s) as [|t [|u k]] eqn:Ek.
  - specialize (H 0 []). unfold set_clock in H. rewrite <- Ek in H.
    destruct s; simpl in *; apply H; set_solver.
  - specialize (H t [t]). unfold set_clock in H. rewrite <- Ek in H.
    destruct s; simpl in *; apply H; set_solver.
  - apply H; set_solver.
Qed.

(** With a timeout, the descriptor has to fit an [fd_set]. *)
Definition selectable (fd timeout : Z) : Prop := timeout = 0 \/ 0 <= fd < FD_SETSIZE.

#[export] Instance selectable_dec fd timeout : Decision (selectable fd timeout).
Proof. unfold selectable. apply _. Defined.

Lemma runs_FD_SET {S} fd (Q : unit -> S -> Prop) s : 0 <= fd < FD_SETSIZE -> Q tt s -> runs (FD_SET fd) Q s.
Proof.
  intros Hfd HQ. unfold FD_SET. rewrite (proj2 (Z.leb_le _ _)), (proj2 (Z.ltb_lt _ _)) by lia.
  by apply runs_ret.
Qed.

Lemma FD_SET_fault {S} fd (s : S) : ~ 0 <= fd < FD_SETSIZE -> FD_SET fd s = Fault.
Proof.
  intros Hfd. unfold FD_SET. destruct (Z.leb_spec 0 fd), (Z.ltb_spec fd FD_SETSIZE); try done. lia.
Qed.

(** * Lemmas: reading *)

(** What a read loop preserves: bytes come off the stream in order. *)
Definition read_inv (n : Z) (s0 : net) (got : bytes) (s : net) : Prop :=
  rd_bytes (k_read s0) = got ++ rd_bytes (k_read s) /\ blen got <= n /\
  same_write_side s0 s.

(** Reads and writes succeed, nothing times out. *)
Definition calm (timeout : Z) (s : net) : Prop :=
  rd_quiet (k_read s) /\ (Forall (fun r => r = SelReady) (k_select s) /\ wr_quiet (k_write s)) /\
  (timeout <> 0 -> 0 < timeout /\
     forall a b, a ∈ clock_vals s -> b ∈ clock_vals s -> b - a < timeout).

Lemma read_inv_step n s0 got s d k' :
  read_inv n s0 got s -> rd_bytes (k_read s) = d ++ rd_bytes k' ->
  blen d <= Z.max 0 (n - blen got) -> read_inv n s0 (got ++ d) (set_read k' s).
Proof.
  intros (Hb & Hn & Hs) E Hd. split; [|split].
  - rewrite Hb, E. by rewrite app_assoc.
  - rewrite blen_app. lia.
  - done.
Qed.

Definition read_post (n timeout : Z) (s0 : net) (r : bool * bytes) (s : net) : Prop :=
  read_inv n s0 r.2 s /\ (r.1 = true -> blen r.2 = n) /\
  (calm timeout s0 -> n <= blen (rd_bytes (k_read s0)) -> r.1 = true /\ calm timeout s).

Definition read_measure (n : Z) (got : bytes) (s : net) : nat :=
  (length (k_read s) + length (k_select s) + Z.to_nat (n - blen got))%nat.


Lemma calm_errno timeout e s : calm timeout s -> calm timeout (set_errno e s).
Proof. done. Qed.

Lemma calm_not_eof n timeout s0 got s :
  calm timeout s -> read_inv n s0 got s -> n <= blen (rd_bytes (k_read s0)) ->
  blen got < n -> k_read s <> [].
Proof.
  intros _ (Hb & _) Hn Hlt E. rewrite Hb, E in Hn. unfold rd_bytes in Hn. zlist.
Qed.

Lemma calm_not_err timeout s e k : calm timeout s -> k_read s <> RdErr e :: k.
Proof. intros [Hq _] E. rewrite E in Hq. by apply Forall_cons_1 in Hq as [? _]. Qed.

Lemma calm_read timeout s k' :
  calm timeout s -> (rd_quiet (k_read s) -> rd_quiet k') -> calm timeout (set_read k' s).
Proof. intros (Hq & Hs & Hc) H. split; [by apply H|done]. Qed.

Lemma calm_select timeout s r k :
  calm timeout s -> k_select s = r :: k -> r = SelReady /\ calm timeout (set_select k s).
Proof.
  intros (Hq & [Hs Hw] & Hc) E. rewrite E in Hs. apply Forall_cons_1 in Hs as [-> Hs]. done.
Qed.

Lemma calm_clock timeout s clk :
  calm timeout s -> clock_vals (set_clock clk s) ⊆ clock_vals s ->
  calm timeout (set_clock clk s).
Proof.
  intros (Hq & Hs & Hc) H. split; [done|]. split; [done|].
  intros [Ht Hab]%Hc. split; [done|]. intros a b Ha Hb. apply Hab; by apply H.
Qed.

(** The loop invariant of a read: the stream so far, and that a calm
    connection with enough data stays calm. *)
Definition read_calm (n timeout : Z) (s0 : net) : Prop :=
  calm timeout s0 /\ n <= blen (rd_bytes (k_read s0)).

Lemma read_inv_errno n s0 got s e k :
  read_inv n s0 got s -> rd_bytes (k_read s) = rd_bytes k ->
  read_inv n s0 got (set_errno e (set_read k s)).
Proof. intros (Hb & ? & ?) E. split; [by rewrite Hb, E|done]. Qed.

Lemma socket_xread_body_wp n timeout s0 got count s :
  read_inv n s0 got s -> (read_calm n timeout s0 -> calm timeout s /\ count = 0) ->
  runs (socket_xread_body n (got, count)) (fun r s' =>
    match r with
    | inl (got', count') =>
        (read_inv n s0 got' s' /\ (read_calm n timeout s0 -> calm timeout s' /\ count' = 0)) /\
        (read_measure n got' s' < read_measure n got s)%nat
    | inr (_, got') =>
        read_inv n s0 got' s' /\ (read_calm n timeout s0 -> calm timeout s' /\ blen got' = n)
    end) s.
Proof.
  intros Hinv Hok. unfold socket_xread_body.
  destruct (Z.ltb_spec (blen got) n); cycle 1.
  { apply runs_ret. split; [done|]. intros Ho. destruct Hinv as (_ & ? & _).
    split; [by apply Hok|lia]. }
  destruct (Z.ltb_spec 100 (count + 1)).
  { apply runs_ret. split; [done|]. intros Ho. apply Hok in Ho as [_ ->]. lia. }
  apply wp_bind, wp_sys_read.
  - intros E. apply wp_ret. split; [done|]. intros Ho. exfalso.
    exact (calm_not_eof _ _ _ _ _ (proj1 (Hok Ho)) Hinv (proj2 Ho) ltac:(lia) E).
  - intros e k E. assert (~ read_calm n timeout s0) as Hno.
    { intros Ho. exact (calm_not_err _ _ _ _ (proj1 (Hok Ho)) E). }
    assert (read_inv n s0 got (set_errno e (set_read k s)))
      by (apply read_inv_errno; [done|by rewrite E]).
    cbn. apply wp_bind, wp_gets. destruct (_ && _); apply wp_ret; [done|].
    split; [done|]. unfold read_measure. simpl. rewrite E. simpl. lia.
  - intros d k' Eb Hd Hlen Hdec Hq.
    pose proof (read_inv_step n s0 got s d k' Hinv Eb ltac:(lia)) as Hinv'.
    cbn. destruct (Z.ltb_spec 0 (blen d)).
    + apply wp_ret. split; [split; [done|]|].
      * intros Ho. split; [|done]. apply calm_read; [by apply Hok|apply Hq].
      * unfold read_measure. simpl. destruct Hinv' as (_ & ? & _). zlist.
    + assert (d = []) as -> by (apply blen_0; blia). cbn. apply wp_ret.
      rewrite app_nil_r in Hinv'. split; [done|]. intros Ho.
      destruct (Hok Ho) as [[Hc _] _]. exfalso. apply Hq; [done|lia|done].
Qed.

Lemma socket_xread_wp n timeout s0 :
  0 <= n -> runs (socket_xread n)
    (fun r s => read_post n timeout s0 (0 <=? r.1, r.2) s) s0.
Proof.
  intros Hn. unfold socket_xread. apply runs_bind, wp_gets, runs_bind.
  eapply runs_mono.
  { eapply loop_wp with
      (I := fun '(got, count) s => read_inv n s0 got s /\
              (read_calm n timeout s0 -> calm timeout s /\ count = 0))
      (mu := fun '(got, _) s => read_measure n got s)
      (Q := fun '(_, got) s => read_inv n s0 got s /\
              (read_calm n timeout s0 -> calm timeout s /\ blen got = n)).
    - intros [got count] s [Hinv Hok]. eapply runs_mono; [by apply socket_xread_body_wp|].
      intros [[got' count']|[st got']] s' Hr; exact Hr.
    - split; [|by intros [? _]]. split; [done|]. split; [zlist|done].
    - unfold read_measure, read_fuel. zlist. }
  intros [status got] s (Hinv & Hok). apply runs_bind.
  assert (blen got < n -> ~ read_calm n timeout s0) as Hlt
    by (intros ? Ho; destruct (Hok Ho); lia).
  assert (blen got <= n) as Hle by apply Hinv.
  destruct (Z.ltb_spec (blen got) n); rewrite ?andb_true_r, ?andb_false_r.
  - destruct (status =? 0); apply wp_modify || apply wp_ret; apply runs_ret.
    all: split; [destruct Hinv as (?&?&?); done|]; split; [done|].
    all: intros; exfalso; apply Hlt; [lia|done].
  - apply wp_ret, runs_ret. cbn. rewrite (proj2 (Z.leb_le _ _)) by blia.
    split; [done|]. split; [simpl; lia|]. intros Hc Ha. split; [done|].
    by apply (Hok (conj Hc Ha)).
Qed.

(** The invariant of the timed read loop. *)
Definition timed_inv (n timeout start : Z) (s0 : net) (st : bytes * Z) (s : net) : Prop :=
  read_inv n s0 st.1 s /\ blen st.1 < n /\ clock_vals s ⊆ clock_vals s0 /\
  (read_calm n timeout s0 -> calm timeout s /\ st.2 - start < timeout).

(** One iteration of the timed read loop either continues, with the invariant
    and less left to do, or leaves with the postcondition. *)
Definition timed_step (n timeout start : Z) (s0 : net) (mu : nat)
    (r : bytes * Z + bool * bytes) (s : net) : Prop :=
  match r with
  | inl st => timed_inv n timeout start s0 st s /\ (read_measure n st.1 s < mu)%nat
  | inr r => read_post n timeout s0 r s
  end.

Lemma read_post_fail n timeout s0 got s :
  read_inv n s0 got s -> ~ read_calm n timeout s0 -> read_post n timeout s0 (false, got) s.
Proof. intros H Hno. split; [done|]. split; [done|]. intros Hc Ha. by destruct Hno. Qed.

Lemma timed_next n timeout start s0 mu got now s :
  timed_inv n timeout start s0 (got, now) s -> (read_measure n got s < mu)%nat ->
  runs (if now - start <? timeout then ret (inl (got, now))
        else do* socket_set_errno ETIMEDOUT in ret (inr (false, got)))
    (timed_step n timeout start s0 mu) s.
Proof.
  intros Hinv Hmu. destruct (Z.ltb_spec (now - start) timeout).
  - by apply runs_ret.
  - apply wp_bind, wp_modify, wp_ret. apply read_post_fail; [apply Hinv|].
    intros Ho. destruct Hinv as (_ & _ & _ & [_ Hn]%(fun f => f Ho)). simpl in Hn. lia.
Qed.

Lemma network_read_recv_wp n timeout start s0 got now s mu :
  timed_inv n timeout start s0 (got, now) s -> (read_measure n got s <= mu)%nat ->
  start ∈ clock_vals s0 -> timeout <> 0 ->
  runs (let* (status, d) := sys_read (n - blen got) in
        if status <? 0 then
          let* err := socket_errno in
          if err =? EINTR then
            if now - start <? timeout then ret (inl (got, now))
            else do* socket_set_errno ETIMEDOUT in ret (inr (false, got))
          else ret (inr (false, got))
        else if status =? 0 then do* socket_set_errno EPIPE in ret (inr (false, got))
        else
          if blen (got ++ d) =? n then ret (inr (true, got ++ d))
          else let* now := sys_time in
               if now - start <? timeout then ret (inl (got ++ d, now))
               else do* socket_set_errno ETIMEDOUT in ret (inr (false, got ++ d)))
    (timed_step n timeout start s0 mu) s.
Proof.
  intros (Hinv & Hlt & Hclk & Hok) Hmu Hst Hnz. simpl in *. apply wp_bind, wp_sys_read.
  - intros E. cbn. apply read_post_fail; [apply Hinv|]. intros Ho.
    exact (calm_not_eof _ _ _ _ _ (proj1 (Hok Ho)) Hinv (proj2 Ho) Hlt E).
  - intros e k E. assert (~ read_calm n timeout s0) as Hno.
    { intros Ho. exact (calm_not_err _ _ _ _ (proj1 (Hok Ho)) E). }
    assert (read_inv n s0 got (set_errno e (set_read k s)))
      by (apply read_inv_errno; [done|by rewrite E]).
    cbn. apply wp_bind, wp_gets. destruct (_ =? EINTR); [|by apply wp_ret, read_post_fail].
    apply timed_next; [|unfold read_measure in *; simpl; rewrite E in *; simpl in *; lia].
    split; [done|]. split; [done|]. split; [done|]. by intros Ho%Hno.
  - intros d k' Eb Hd Hlen Hdec Hq. cbn.
    pose proof (read_inv_step n s0 got s d k' Hinv Eb ltac:(lia)) as Hinv'.
    pose proof (blen_nonneg d). rewrite (proj2 (Z.ltb_ge _ _)) by lia.
    destruct (Z.eqb_spec (blen d) 0) as [Hz|Hz].
    { apply wp_bind, wp_modify, wp_ret. apply blen_0 in Hz as ->.
      rewrite app_nil_r in Hinv'.
      apply read_post_fail; [done|]. intros Ho. apply Hq; [apply (Hok Ho)|lia|done]. }
    destruct (Z.eqb_spec (blen (got ++ d)) n) as [Hn|Hn].
    { apply wp_ret. split; [done|]. split; [done|]. intros Hc Ha. split; [done|].
      apply calm_read; [apply (Hok (conj Hc Ha))|apply Hq]. }
    apply wp_bind, wp_sys_time. intros t clk Ht Hclk'. simpl in Ht, Hclk'.
    assert (blen (got ++ d) < n) by (destruct Hinv' as (_ & ? & _); lia).
    apply timed_next; [|unfold read_measure in *; simpl; zlist].
    split; [done|]. split; [done|]. split; [set_solver|]. intros Ho. destruct Ho as [Hc Ha].
    destruct (Hok (conj Hc Ha)) as [Hcs Hnow]. split.
    + apply calm_clock; [|done]. apply calm_read; [done|apply Hq].
    + simpl. apply Hc; [done|done|set_solver].
Qed.

Lemma network_read_body_wp fd n timeout start s0 got now s : 0 <= fd < FD_SETSIZE ->
  timed_inv n timeout start s0 (got, now) s -> start ∈ clock_vals s0 -> timeout <> 0 ->
  runs (network_read_body fd n timeout start (got, now))
    (timed_step n timeout start s0 (read_measure n got s)) s.
Proof.
  intros Hfd Hti Hst Hnz. unfold network_read_body.
  pose proof Hti as (Hinv & Hlt & Hclk & Hok). simpl in *.
  apply runs_bind, runs_FD_SET; [done|].
  apply wp_bind, wp_sys_select.
  - intros E. cbn. by apply network_read_recv_wp.
  - intros r k E.
    assert (read_measure n got (set_select k s) < read_measure n got s)%nat as Hmu
      by (unfold read_measure; simpl; rewrite E; simpl; lia).
    assert (r <> SelReady -> ~ read_calm n timeout s0) as Hno
      by (intros Hr Ho; by eapply calm_select in E as [? _]; [|apply Hok]).
    assert (timed_inv n timeout start s0 (got, now) (set_select k s)) as Hti'.
    { split; [done|]. split; [done|]. split; [done|]. intros Ho. split; [|by apply Hok].
      eapply calm_select; [by apply Hok|done]. }
    destruct r as [| |e]; cbn.
    + apply network_read_recv_wp; [done|lia|done|done].
    + by apply read_post_fail; [|apply Hno].
    + apply wp_bind, wp_gets. destruct (_ =? EINTR); [|by apply wp_ret, read_post_fail, Hno].
      by apply timed_next.
Qed.

(** [network_read] takes bytes off the stream in order, never more than asked
    for; it returns true exactly with all of them, and on a calm connection
    with enough data it does return true. *)
Lemma network_read_wp fd n timeout s : selectable fd timeout ->
  0 < n -> runs (network_read fd n timeout) (read_post n timeout s) s.
Proof.
  intros Hfd Hn. unfold network_read. destruct (Z.eqb_spec timeout 0) as [->|Hnz]; [|destruct Hfd as [?|Hfd]; [done|]].
  - apply runs_bind. eapply runs_mono; [apply socket_xread_wp; lia|].
    intros [r got] s' H. exact H.
  - apply runs_bind, wp_sys_time. intros start clk Hst Hclk.
    set (s1 := set_clock clk s) in *. apply runs_bind, wp_gets.
    eapply loop_wp with (I := timed_inv n timeout start s)
      (mu := fun st s' => read_measure n st.1 s').
    + intros [got now] s' Hti. eapply runs_mono; [by apply network_read_body_wp|].
      intros [st|r] s'' Hs; exact Hs.
    + split; [|split; [zlist|]].
      * split; [done|]. split; [zlist|done].
      * split; [done|]. intros [Hc Ha]. split; [by apply calm_clock|]. simpl.
        pose proof (proj2 (proj2 Hc) Hnz) as [? _]. lia.
    + unfold read_measure, read_fuel. simpl. zlist.
Qed.

(** * Lemmas: writing *)

Definition write_inv (buf : bytes) (s0 : net) (total : Z) (s : net) : Prop :=
  0 <= total <= blen buf /\ n_out s = n_out s0 ++ ztake total buf /\ k_read s = k_read s0.

Definition write_measure (buf : bytes) (total : Z) (s : net) : nat :=
  (length (k_write s) + length (k_select s) + Z.to_nat (blen buf - total))%nat.

(** A prefix of the buffer reaches the kernel; all of it when the write
    reports success, as it does on a calm connection. *)
Definition write_post (buf : bytes) (timeout : Z) (s0 : net) (ok : bool) (s : net) : Prop :=
  (exists total, write_inv buf s0 total s) /\ (ok = true -> write_inv buf s0 (blen buf) s) /\
  (calm timeout s0 -> ok = true /\ calm timeout s).

Lemma ztake_snoc_prefix {A} total (buf acc rest : list A) :
  0 <= total <= blen buf -> zdrop total buf = acc ++ rest ->
  ztake (total + blen acc) buf = ztake total buf ++ acc.
Proof.
  intros Ht E. rewrite <- (ztake_zdrop total buf) at 1. rewrite E.
  assert (blen (ztake total buf) = total) as Hl by (rewrite blen_ztake; lia).
  rewrite ztake_app_r by (rewrite Hl; blia). rewrite Hl.
  replace (total + blen acc - total) with (blen acc) by lia. by rewrite ztake_blen_app.
Qed.

Lemma write_inv_step buf s0 total s acc rest k' :
  write_inv buf s0 total s -> zdrop total buf = acc ++ rest ->
  write_inv buf s0 (total + blen acc) (set_out (n_out s ++ acc) (set_write k' s)).
Proof.
  intros (Ht & Ho & Hr) E. split; [|split; [|done]].
  - apply (f_equal blen) in E. zlist.
  - simpl. rewrite Ho, <- app_assoc. f_equal. symmetry. by eapply ztake_snoc_prefix.
Qed.

Lemma calm_write timeout s o k' :
  calm timeout s -> (wr_quiet (k_write s) -> wr_quiet k') ->
  calm timeout (set_out o (set_write k' s)).
Proof. intros (Hq & [Hs Hw] & Hc) H. split; [done|]. split; [split; auto|done]. Qed.

Lemma calm_not_werr timeout s e k : calm timeout s -> k_write s <> WrErr e :: k.
Proof. intros (_ & [_ Hw] & _) E. rewrite E in Hw. by apply Forall_cons_1 in Hw as [? _]. Qed.

Lemma xwrite_body_wp buf timeout s0 total count s :
  write_inv buf s0 total s -> (calm timeout s0 -> calm timeout s /\ count = 0) ->
  runs (xwrite_body buf (total, count)) (fun r s' =>
    match r with
    | inl (total', count') =>
        (write_inv buf s0 total' s' /\ (calm timeout s0 -> calm timeout s' /\ count' = 0)) /\
        (write_measure buf total' s' < write_measure buf total s)%nat
    | inr total' =>
        write_inv buf s0 total' s' /\
        (calm timeout s0 -> calm timeout s' /\ total' = blen buf)
    end) s.
Proof.
  intros Hinv Hok. unfold xwrite_body. pose proof Hinv as (Ht & _ & _).
  destruct (Z.ltb_spec total (blen buf)); cycle 1.
  { apply runs_ret. split; [done|]. intros Hc. split; [by apply Hok|lia]. }
  destruct (Z.ltb_spec 10 (count + 1)).
  { apply runs_ret. split; [done|]. intros Hc. apply Hok in Hc as [_ ->]. lia. }
  apply wp_bind, wp_sys_write.
  - intros e k E. assert (~ calm timeout s0) as Hno
      by (intros Hc; exact (calm_not_werr _ _ _ _ (proj1 (Hok Hc)) E)).
    cbn. apply wp_bind, wp_gets. destruct (negb _); apply wp_ret; [done|].
    split; [done|]. unfold write_measure. simpl. rewrite E. simpl. lia.
  - intros acc rest k' E Hlen Hdec Hq. cbn.
    rewrite (proj2 (Z.ltb_ge _ _)) by blia. apply wp_ret.
    pose proof (write_inv_step _ _ _ _ _ _ k' Hinv E) as Hinv'.
    assert (zdrop total buf <> []) as Hne by (intros Hd%(f_equal blen); zlist).
    split; [split; [done|]|].
    + intros Hc. destruct (Hok Hc) as [Hcs _]. split.
      * apply calm_write; [done|apply Hq].
      * rewrite (proj2 (Z.ltb_lt _ _)); [done|].
        assert (acc <> []) by (apply Hq; [apply Hcs|done]). destruct acc; [done|zlist].
    + unfold write_measure. simpl. destruct Hinv' as (? & _ & _).
      destruct acc; [|zlist]. specialize (Hdec eq_refl Hne). zlist.
Qed.

Lemma write_post_done buf timeout s0 s :
  write_inv buf s0 (blen buf) s -> (calm timeout s0 -> calm timeout s) ->
  write_post buf timeout s0 true s.
Proof. intros Hinv Hc. split; [by eexists|]. split; [done|]. auto. Qed.

Lemma write_post_fail buf timeout s0 total s :
  write_inv buf s0 total s -> ~ calm timeout s0 -> write_post buf timeout s0 false s.
Proof. intros Hinv Hno. split; [by eexists|]. done. Qed.

Lemma xwrite_wp buf timeout s0 :
  runs (xwrite buf) (fun r s => write_post buf timeout s0 (0 <=? r) s) s0.
Proof.
  unfold xwrite. destruct (Z.eqb_spec (blen buf) 0) as [Hz|Hz].
  { apply wp_ret. apply write_post_done; [|done]. rewrite Hz. split; [lia|].
    rewrite ztake_0, app_nil_r by lia. done. }
  apply runs_bind, wp_gets, runs_bind. eapply runs_mono.
  { eapply loop_wp with
      (I := fun '(total, count) s => write_inv buf s0 total s /\
              (calm timeout s0 -> calm timeout s /\ count = 0))
      (mu := fun '(total, _) s => write_measure buf total s)
      (Q := fun total s => write_inv buf s0 total s /\
              (calm timeout s0 -> calm timeout s /\ total = blen buf)).
    - intros [total count] s [Hinv Hok]. eapply runs_mono; [by apply xwrite_body_wp|].
      intros [[? ?]|?] s' Hr; exact Hr.
    - split; [|done]. split; [blia|]. rewrite ztake_0, app_nil_r by lia. done.
    - unfold write_measure, write_fuel, blen. lia. }
  intros total s [Hinv Hok]. apply wp_ret.
  destruct (Z.ltb_spec total (blen buf)).
  - apply (write_post_fail _ _ _ total); [done|]. intros Hc. destruct (Hok Hc). lia.
  - pose proof Hinv as (? & _ & _). rewrite (proj2 (Z.leb_le _ _)) by lia.
    assert (total = blen buf) as -> by lia. apply write_post_done; [done|].
    intros Hc. apply (Hok Hc).
Qed.

Definition wtimed_inv (buf : bytes) (timeout start : Z) (s0 : net) (st : Z * Z) (s : net) : Prop :=
  write_inv buf s0 st.1 s /\ st.1 < blen buf /\ clock_vals s ⊆ clock_vals s0 /\
  (calm timeout s0 -> calm timeout s /\ st.2 - start < timeout).

Definition wtimed_step (buf : bytes) (timeout start : Z) (s0 : net) (mu : nat)
    (r : Z * Z + bool) (s : net) : Prop :=
  match r with
  | inl st => wtimed_inv buf timeout start s0 st s /\ (write_measure buf st.1 s < mu)%nat
  | inr ok => write_post buf timeout s0 ok s
  end.

Definition write_fail : M net (Z * Z + bool) :=
  let* err := socket_errno in
  do* fdflag_nonblocking false in
  do* socket_set_errno err in
  ret (inr false).

Lemma write_fail_wp buf timeout start s0 mu total s :
  write_inv buf s0 total s -> ~ calm timeout s0 ->
  runs write_fail (wtimed_step buf timeout start s0 mu) s.
Proof. intros. by apply (write_post_fail _ _ _ total). Qed.

Lemma wtimed_next buf timeout start s0 mu sent now s :
  wtimed_inv buf timeout start s0 (sent, now) s -> (write_measure buf sent s < mu)%nat ->
  runs (if now - start <? timeout then ret (inl (sent, now))
        else do* socket_set_errno ETIMEDOUT in write_fail)
    (wtimed_step buf timeout start s0 mu) s.
Proof.
  intros Hinv Hmu. destruct (Z.ltb_spec (now - start) timeout).
  - by apply runs_ret.
  - apply wp_bind, wp_modify. eapply (write_fail_wp buf timeout start s0 mu sent); [apply Hinv|].
    intros Ho. destruct Hinv as (_ & _ & _ & [_ Hn]%(fun f => f Ho)). simpl in Hn. lia.
Qed.

Lemma network_write_send_wp buf timeout start s0 sent now s mu :
  wtimed_inv buf timeout start s0 (sent, now) s -> (write_measure buf sent s <= mu)%nat ->
  start ∈ clock_vals s0 -> timeout <> 0 ->
  runs (let* status := sys_write (zdrop sent buf) in
        if status <? 0 then
          let* err := socket_errno in
          if err =? EINTR then
            if now - start <? timeout then ret (inl (sent, now))
            else do* socket_set_errno ETIMEDOUT in write_fail
          else write_fail
        else
          if sent + status =? blen buf then do* fdflag_nonblocking false in ret (inr true)
          else let* now := sys_time in
               if now - start <? timeout then ret (inl (sent + status, now))
               else do* socket_set_errno ETIMEDOUT in write_fail)
    (wtimed_step buf timeout start s0 mu) s.
Proof.
  intros (Hinv & Hlt & Hclk & Hok) Hmu Hst Hnz. simpl in *. apply wp_bind, wp_sys_write.
  - intros e k E. assert (~ calm timeout s0) as Hno
      by (intros Hc; exact (calm_not_werr _ _ _ _ (proj1 (Hok Hc)) E)).
    cbn. apply wp_bind, wp_gets.
    destruct (_ =? EINTR); [|by eapply (write_fail_wp buf timeout start s0 mu sent)].
    apply wtimed_next; [|unfold write_measure in *; simpl; rewrite E in *; simpl in *; lia].
    split; [done|]. split; [done|]. split; [done|]. by intros Ho%Hno.
  - intros acc rest k' E Hlen Hdec Hq. cbn. rewrite (proj2 (Z.ltb_ge _ _)) by blia.
    pose proof (write_inv_step _ _ _ _ _ _ k' Hinv E) as Hinv'.
    assert (zdrop sent buf <> []) as Hne.
    { intros Hd%(f_equal blen). destruct Hinv as (? & _ & _). zlist. }
    assert (calm timeout s0 -> calm timeout (set_out (n_out s ++ acc) (set_write k' s))) as Hc'
      by (intros Hc; apply calm_write; [by apply Hok|apply Hq]).
    destruct (Z.eqb_spec (sent + blen acc) (blen buf)) as [Heq|Heq].
    { apply wp_bind, wp_modify, wp_ret. apply write_post_done; [|exact Hc'].
      rewrite Heq in Hinv'. exact Hinv'. }
    apply wp_bind, wp_sys_time. intros t clk Ht Hclk'.
    assert (sent + blen acc < blen buf) by (destruct Hinv' as (? & _ & _); lia).
    apply wtimed_next.
    + split; [exact Hinv'|]. split; [done|]. split; [set_solver|]. intros Hc.
      split; [by apply calm_clock; [apply Hc'|]|]. simpl. apply Hc; [done|done|].
      unfold clock_vals in Ht, Hclk |- *. simpl in *. set_solver.
    + unfold write_measure in *. simpl.
      destruct acc; [|destruct Hinv' as (? & _ & _); zlist].
      specialize (Hdec eq_refl Hne). zlist.
Qed.

Lemma network_write_body_wp fd buf timeout start s0 sent now s : 0 <= fd < FD_SETSIZE ->
  wtimed_inv buf timeout start s0 (sent, now) s -> start ∈ clock_vals s0 -> timeout <> 0 ->
  runs (network_write_body fd buf timeout start (sent, now))
    (wtimed_step buf timeout start s0 (write_measure buf sent s)) s.
Proof.
  intros Hfd Hti Hst Hnz. unfold network_write_body. fold write_fail.
  pose proof Hti as (Hinv & Hlt & Hclk & Hok). simpl in *.
  apply runs_bind, runs_FD_SET; [done|].
  apply wp_bind, wp_sys_select.
  - intros E. cbn. by apply network_write_send_wp.
  - intros r k E.
    assert (write_measure buf sent (set_select k s) < write_measure buf sent s)%nat as Hmu
      by (unfold write_measure; simpl; rewrite E; simpl; lia).
    assert (r <> SelReady -> ~ calm timeout s0) as Hno
      by (intros Hr Ho; by eapply calm_select in E as [? _]; [|apply Hok]).
    assert (wtimed_inv buf timeout start s0 (sent, now) (set_select k s)) as Hti'.
    { split; [done|]. split; [done|]. split; [done|]. intros Ho. split; [|by apply Hok].
      eapply calm_select; [by apply Hok|done]. }
    destruct r as [| |e]; cbn.
    + apply network_write_send_wp; [done|lia|done|done].
    + eapply (write_fail_wp buf timeout start s0 (write_measure buf sent s) sent); [done|by apply Hno].
    + apply wp_bind, wp_gets.
      destruct (_ =? EINTR); [by apply wtimed_next|].
      eapply (write_fail_wp buf timeout start s0 (write_measure buf sent s) sent); [done|by apply Hno].
Qed.

(** [network_write] hands a prefix of the buffer to the kernel, all of it when
    it returns true, as it does on a calm connection. *)
Lemma network_write_wp fd buf timeout s : selectable fd timeout ->
  buf <> [] -> runs (network_write fd buf timeout) (write_post buf timeout s) s.
Proof.
  intros Hfd Hne. unfold network_write. destruct (Z.eqb_spec timeout 0) as [->|Hnz]; [|destruct Hfd as [?|Hfd]; [done|]].
  - apply runs_bind. eapply runs_mono; [apply xwrite_wp|]. intros r s' H. exact H.
  - apply runs_bind, wp_modify, runs_bind, wp_sys_time. intros start clk Hst Hclk.
    set (s1 := set_clock clk _) in *. apply runs_bind, wp_gets.
    eapply loop_wp with (I := wtimed_inv buf timeout start s)
      (mu := fun st s' => write_measure buf st.1 s').
    + intros [sent now] s' Hti. eapply runs_mono; [by apply network_write_body_wp|].
      intros [st|r] s'' Hs; exact Hs.
    + split; [|split; [|split]].
      * split; [simpl; blia|]. simpl. rewrite ztake_0, app_nil_r by lia. done.
      * simpl. destruct buf; [done|zlist].
      * done.
      * intros Hc. split; [by apply (calm_clock timeout (set_nonblock true s))|]. simpl.
        pose proof (proj2 (proj2 Hc) Hnz) as [? _]. lia.
    + unfold write_measure, write_fuel, blen. simpl. lia.
Qed.

(** Without a timeout there is no [fd_set]; with one, a descriptor that does
    not fit is undefined behaviour at the first [select]. *)
Lemma network_read_fault fd n timeout s : ~ selectable fd timeout -> network_read fd n timeout s = Fault.
Proof.
  unfold selectable. intros Hn. unfold network_read. destruct (Z.eqb_spec timeout 0); [by destruct Hn; left|].
  assert (~ 0 <= fd < FD_SETSIZE) as Hfd by tauto.
  unfold bind at 1, sys_time. destruct (k_clock s) as [|t [|u k]]; unfold bind, gets, read_fuel; cbn [loop];
    unfold network_read_body, bind; by rewrite FD_SET_fault.
Qed.

Lemma network_write_fault fd buf timeout s : ~ selectable fd timeout -> network_write fd buf timeout s = Fault.
Proof.
  unfold selectable. intros Hn. unfold network_write. destruct (Z.eqb_spec timeout 0); [by destruct Hn; left|].
  assert (~ 0 <= fd < FD_SETSIZE) as Hfd by tauto.
  unfold bind at 1, fdflag_nonblocking, modify. unfold bind at 1, sys_time.
  destruct (k_clock (set_nonblock true s)) as [|t [|u k]]; unfold bind, gets, write_fuel; cbn [loop];
    unfold network_write_body, bind; by rewrite FD_SET_fault.
Qed.

(** One descriptor that fits is as good as another. *)
Lemma FD_SET_0 {S} fd : 0 <= fd < FD_SETSIZE -> FD_SET (S:=S) fd = FD_SET 0.
Proof. intros Hfd. unfold FD_SET. by rewrite (proj2 (Z.leb_le _ _)), (proj2 (Z.ltb_lt _ _)) by lia. Qed.

Lemma network_read_below fd n timeout : below (network_read fd n timeout) (network_read 0 n timeout).
Proof.
  destruct (decide (selectable fd timeout)) as [[->|Hfd]|Hn]; [by right| |].
  - unfold network_read, network_read_body. rewrite (FD_SET_0 fd) by done. by right.
  - left. by apply network_read_fault.
Qed.

Lemma network_write_below fd buf timeout : below (network_write fd buf timeout) (network_write 0 buf timeout).
Proof.
  destruct (decide (selectable fd timeout)) as [[->|Hfd]|Hn]; [by right| |].
  - unfold network_write, network_write_body. rewrite (FD_SET_0 fd) by done. by right.
  - left. by apply network_write_fault.
Qed.
#[export] Hint Resolve network_read_below network_write_below : below.

#[global] Arguments wp : simpl never.
#[global] Arguments runs : simpl never.
#[global] Arguments bind : simpl never.
#[global] Arguments loop : simpl never.
