(* ===== verification/Xwrite.v ===== *)
(** Writing several buffers, and writing at an offset: the rest of
    [util/xwrite.c].

    An [iovec] is the bytes it points to, and an array of them a list.
    [writev] is the [write] of all bytes; a file for [pwrite] is its bytes,
    with the script of [Net] for what the calls accept. *)

From S2P Require Import Prelude Effects Net.

(** * The kernel *)

(** The most buffers one call takes. *)
Definition IOV_MAX : Z := 1024.

Definition sys_writev (iov : list bytes) : M net Z :=
  if (blen iov <? 1) || (IOV_MAX <? blen iov) then do* socket_set_errno EINVAL in ret (-1)
  else sys_write (concat iov).

Record file : Type := File { fl_net : net; fl_data : bytes }.

Definition put_fnet n f := File n (fl_data f).

(** [d] at [offset]; a gap is filled with zeros. *)
Definition place (offset : Z) (d data : bytes) : bytes :=
  match d with
  | [] => data
  | _ => ztake offset data ++ replicate (Z.to_nat (offset - blen data)) nul ++ d ++ zdrop (offset + blen d) data
  end.

Definition sys_pwrite (buf : bytes) (offset : Z) : M file Z :=
  let* status := zoom fl_net put_fnet (sys_write buf) in
  do* modify (fun f => File (fl_net f) (place offset (ztake status buf) (fl_data f))) in
  ret status.

(** * util/xwrite.c: xpwrite *)

Definition xpwrite_body (buf : bytes) (offset : Z) (st : Z * Z) : M file (Z * Z + Z) :=
  let '(total, count) := st in
  if total <? blen buf then
    let count := count + 1 in
    if 10 <? count then ret (inr total) else
    let* status := sys_pwrite (zdrop total buf) (offset + total) in
    let count := if 0 <? status then 0 else count in
    if status <? 0 then
      let* err := zoom fl_net put_fnet socket_errno in
      if negb (err =? EINTR) then ret (inr total) else ret (inl (total, count))
    else ret (inl (total + status, count))
  else ret (inr total).

Definition xpwrite (buf : bytes) (offset : Z) : M file Z :=
  if blen buf =? 0 then ret 0 else
  let* fuel := gets (fun f => write_fuel buf (fl_net f)) in
  let* total := loop fuel (xpwrite_body buf offset) (0, 0) in
  ret (if total <? blen buf then -1 else total).

(** * util/xwrite.c: xwritev *)

(** The first loop, over [count]; its result is the last [status]. *)
Definition writev_all_body (iov : list bytes) (st : Z * Z) : M net (Z * Z + Z * Z) :=
  let '(status, count) := st in
  let count := count + 1 in
  if 10 <? count then ret (inr (status, count)) else
  let* status := sys_writev iov in
  let count := if 0 <? status then 0 else count in
  let* err := socket_errno in
  if (status <? 0) && (err =? EINTR) then ret (inl (status, count)) else ret (inr (status, count)).

(** [for (i = 0; offset >= iov[i].iov_len; i++)]; [None] is an access past
    the array. *)
Fixpoint written_iov (iov : list bytes) (i : nat) (offset : Z) : option (nat * Z) :=
  match iov with
  | [] => None
  | v :: iov => if blen v <=? offset then written_iov iov (S i) (offset - blen v) else Some (i, offset)
  end.

(** [for (; offset >= tmpiov[i].iov_len && iovleft > 0; i++)], on the array
    from [i]. *)
Fixpoint skip_written (iov : list bytes) (iovleft : Z) (i : nat) (offset : Z) : option (nat * Z * Z) :=
  match iov with
  | [] => None
  | v :: iov =>
      if (blen v <=? offset) && (0 <? iovleft) then skip_written iov (iovleft - 1) (S i) (offset - blen v)
      else Some (i, iovleft, offset)
  end.

(** The variables of the second loop: [tmpiov], [i], [iovleft], [offset],
    [left], here [remaining], and [count]. *)
Abbreviation iov_state := (list bytes * nat * Z * Z * Z * Z)%type.

Definition writev_rest_body (st : iov_state) : M net (iov_state + Z) :=
  let '(tmpiov, i, iovleft, offset, remaining, count) := st in
  let count := count + 1 in
  if 10 <? count then ret (inr remaining) else
  match skip_written (skipn i tmpiov) iovleft i offset with
  | None => fault
  | Some (i, iovleft, offset) =>
      let* v := from_option_fault (tmpiov !! i) in
      let tmpiov := <[i := zdrop offset v]> tmpiov in
      let* status := sys_writev (ztake iovleft (skipn i tmpiov)) in
      let '(offset, remaining, count) := if status <=? 0 then (0, remaining, count) else (status, remaining - status, 0) in
      let* err := socket_errno in
      if (0 <? remaining) && ((0 <=? status) || (err =? EINTR)) then ret (inl (tmpiov, i, iovleft, offset, remaining, count))
      else ret (inr remaining)
  end.

Definition iov_total (iov : list bytes) : Z := foldl (fun total v => s64 (total + blen v)) 0 iov.

(** After the first loop. *)
Definition writev_finish (fuel : nat) (iov : list bytes) (iovcnt total status count : Z) : M net Z :=
  if status <? 0 then ret (-1)
  else if status =? total then ret total
  else
    let left := total - status in
    let* (i, offset) := from_option_fault (written_iov iov 0 status) in
    let iovleft := iovcnt - Z.of_nat i in
    do* massert (0 <? iovleft) in
    let tmpiov := ztake iovleft (skipn i iov) in
    let* left := loop fuel writev_rest_body (tmpiov, 0%nat, iovleft, offset, left, count) in
    ret (if left =? 0 then total else -1).

(** [iovcnt] counts the entries of [iov]. *)
Definition xwritev (iov : list bytes) (iovcnt : Z) : M net Z :=
  if iovcnt =? 0 then ret 0
  else if (iovcnt <? 0) || (SIZE_MAX / 16 <? iovcnt) then do* socket_set_errno EINVAL in ret (-1)
  else
    let total := iov_total iov in
    if total =? 0 then ret 0 else
    let* fuel := gets (write_fuel (concat iov)) in
    let* (status, count) := loop fuel (writev_all_body iov) (0, 0) in
    writev_finish fuel iov iovcnt total status count.

(** * Theorems *)

(** ** The offsets *)

Lemma zdrop_nonempty {A} n (l : list A) : 0 <= n -> n < blen l -> zdrop n l <> [].
Proof. intros Hn Hl E. assert (blen (zdrop n l) = 0) as H0 by (by rewrite E). zlist. Qed.

Lemma written_iov_spec iov : forall i offset, 0 <= offset < blen (concat iov) ->
  exists n v rest off, skipn n iov = v :: rest /\ written_iov iov i offset = Some ((i + n)%nat, off) /\
    0 <= off < blen v /\ zdrop off v ++ concat rest = zdrop offset (concat iov).
Proof.
  induction iov as [|v iov IH]; intros i offset Ho; [unfold blen in Ho; simpl in Ho; lia|].
  cbn [written_iov concat] in *. destruct (Z.leb_spec (blen v) offset) as [Hv|Hv].
  - destruct (IH (S i) (offset - blen v)) as (n & w & rest & off & Es & Ew & Hoff & Ed); [zlist|].
    exists (S n), w, rest, off. split; [done|]. split; [rewrite Ew; do 2 f_equal; lia|]. split; [done|].
    rewrite Ed, zdrop_app_r by done. done.
  - exists 0%nat, v, iov, offset. split; [done|]. split; [by rewrite Nat.add_0_r|]. split; [lia|].
    by rewrite zdrop_app_l by lia.
Qed.

Lemma skip_written_eq iov : forall i offset, 0 <= offset < blen (concat iov) ->
  skip_written iov (blen iov) i offset =
  (fun '(j, off) => (j, blen iov - Z.of_nat (j - i), off)) <$> written_iov iov i offset.
Proof.
  induction iov as [|v iov IH]; intros i offset Ho; [unfold blen in Ho; simpl in Ho; lia|].
  cbn [skip_written written_iov concat] in *. rewrite (proj2 (Z.ltb_lt 0 (blen (v :: iov)))) by (unfold blen; simpl; lia).
  rewrite andb_true_r. destruct (Z.leb_spec (blen v) offset) as [Hv|Hv].
  - replace (blen (v :: iov) - 1) with (blen iov) by zlist.
    assert (0 <= offset - blen v < blen (concat iov)) as Ho' by zlist. rewrite IH by done.
    destruct (written_iov_spec iov (S i) _ Ho') as (n & w & rest & off & _ & -> & _). simpl. do 2 f_equal.
    f_equal. zlist.
  - simpl. do 2 f_equal. f_equal. zlist.
Qed.

(** ** The loops *)

Lemma sys_writev_concat iov : 1 <= blen iov <= IOV_MAX -> sys_writev iov = sys_write (concat iov).
Proof.
  intros Hi. unfold sys_writev. rewrite (proj2 (Z.ltb_ge _ _)), (proj2 (Z.ltb_ge _ _)) by lia. done.
Qed.

(** A write uses up the script, or accepts everything. *)
Lemma sys_write_cases buf s : exists r s', sys_write buf s = Ret r s' /\ (r = -1 \/ 0 <= r <= blen buf) /\
  ((length (k_write s') < length (k_write s))%nat \/ r = blen buf /\ k_write s' = k_write s).
Proof.
  unfold sys_write. destruct (k_write s) as [|[n|e] k] eqn:Ek.
  - eexists _, _. split; [done|]. split; [right; zlist|right; by rewrite <- Ek].
  - eexists _, _. split; [done|]. split; [right; zlist|left; simpl; lia].
  - eexists _, _. split; [done|]. split; [by left|left; simpl; lia].
Qed.

Section xwritev_loops.
Context (buf : bytes).

Definition xrest (fuel : nat) (total count : Z) : M net Z :=
  let* total := loop fuel (xwrite_body buf) (total, count) in ret (if total <? blen buf then -1 else total).

Lemma xrest_done f count s : xrest (S f) (blen buf) count s = Ret (blen buf) s.
Proof.
  unfold xrest. erewrite bind_Ret; [by rewrite Z.ltb_irrefl|]. apply loop_inr. unfold xwrite_body.
  by rewrite Z.ltb_irrefl.
Qed.

Lemma xrest_tired f total count s : total < blen buf -> 10 < count + 1 -> xrest (S f) total count s = Ret (-1) s.
Proof.
  intros Ht Hc. unfold xrest. erewrite bind_Ret; [by rewrite (proj2 (Z.ltb_lt total (blen buf))) by done|].
  apply loop_inr. unfold xwrite_body. rewrite (proj2 (Z.ltb_lt total (blen buf))), (proj2 (Z.ltb_lt 10 _)) by done. done.
Qed.

Lemma xrest_step f total count s status s' : total < blen buf -> count + 1 <= 10 ->
  sys_write (zdrop total buf) s = Ret status s' ->
  xrest (S f) total count s =
  (if status <? 0 then if n_errno s' =? EINTR then xrest f total (count + 1) s' else Ret (-1) s'
   else xrest f (total + status) (if 0 <? status then 0 else count + 1) s').
Proof.
  intros Ht Hc E.
  assert (xwrite_body buf (total, count) s =
    if status <? 0 then if n_errno s' =? EINTR then Ret (inl (total, count + 1)) s' else Ret (inr total) s'
    else Ret (inl (total + status, if 0 <? status then 0 else count + 1)) s') as Eb.
  { unfold xwrite_body. rewrite (proj2 (Z.ltb_lt total (blen buf))), (proj2 (Z.ltb_ge 10 _)) by lia.
    rewrite (bind_Ret _ _ _ _ _ E). destruct (Z.ltb_spec status 0) as [Hs|Hs]; [|done].
    rewrite (proj2 (Z.ltb_ge 0 status)) by lia.
    rewrite (bind_Ret socket_errno _ s' (n_errno s') s') by done. by destruct (n_errno s' =? EINTR). }
  unfold xrest. destruct (status <? 0); [destruct (n_errno s' =? EINTR)|].
  - unfold bind. by rewrite (loop_inl _ _ _ _ _ _ Eb).
  - rewrite (bind_Ret _ _ _ _ _ (loop_inr _ _ _ _ _ _ Eb)). by rewrite (proj2 (Z.ltb_lt total (blen buf))) by done.
  - unfold bind. by rewrite (loop_inl _ _ _ _ _ _ Eb).
Qed.

(** The second loop of [xwritev] where [total] bytes have been written. *)
Definition vrest (fuel : nat) (st : iov_state) : M net Z :=
  let* remaining := loop fuel writev_rest_body st in ret (if remaining =? 0 then blen buf else -1).

Lemma vrest_inl f st s st' s' : writev_rest_body st s = Ret (inl st') s' -> vrest (S f) st s = vrest f st' s'.
Proof. intros E. unfold vrest, bind. by rewrite (loop_inl _ _ _ _ _ _ E). Qed.

Lemma vrest_inr f st s r s' : writev_rest_body st s = Ret (inr r) s' ->
  vrest (S f) st s = Ret (if r =? 0 then blen buf else -1) s'.
Proof. intros E. unfold vrest, bind. by rewrite (loop_inr _ _ _ _ _ _ E). Qed.

(** The bytes from [offset] in the array from [i] are those to be written. *)
Definition iov_inv (st : iov_state) (total count0 : Z) : Prop :=
  let '(tmpiov, i, iovleft, offset, remaining, count) := st in
  iovleft = blen (skipn i tmpiov) /\ blen tmpiov <= IOV_MAX /\ 0 <= offset /\ 0 <= total < blen buf /\
  remaining = blen buf - total /\ count = count0 /\ zdrop offset (concat (skipn i tmpiov)) = zdrop total buf.

(** Where a write that starts at [total] finds its first buffer, and what is
    left of the buffers once that one is cut. *)
Lemma rest_position tmp i il off rem c total count : iov_inv (tmp, i, il, off, rem, c) total count ->
  exists j v l off', skip_written (skipn i tmp) il i off = Some (j, l, off') /\ tmp !! j = Some v /\
    let tmp' := <[j := zdrop off' v]> tmp in
    l = blen (skipn j tmp') /\ 0 < l <= blen tmp' /\ blen tmp' = blen tmp /\ concat (skipn j tmp') = zdrop total buf.
Proof.
  intros (-> & Hmax & Hoff & Ht & -> & -> & Econc).
  assert (off < blen (concat (skipn i tmp))) as Hlt.
  { destruct (Z_lt_le_dec off (blen (concat (skipn i tmp)))) as [|Hge]; [done|].
    rewrite (zdrop_ge off) in Econc by done. symmetry in Econc. by apply zdrop_nonempty in Econc; [|lia..]. }
  destruct (written_iov_spec (skipn i tmp) i off) as (m & v & rest & off' & Es & Ew & Ho' & Ed); [lia|].
  exists (i + m)%nat, v, (blen (v :: rest)), off'. split.
  { rewrite skip_written_eq, Ew by lia. simpl. do 2 f_equal. f_equal. pose proof (f_equal length Es) as El. rewrite length_skipn in El.
    simpl in El. unfold blen. simpl. lia. }
  rewrite skipn_skipn, Nat.add_comm in Es.
  assert (tmp !! (i + m)%nat = Some v) as Elook.
  { rewrite <- (Nat.add_0_r (i + m)), <- lookup_drop. by rewrite Es. }
  split; [done|]. cbv zeta. assert (skipn (i + m) (<[(i + m)%nat := zdrop off' v]> tmp) = zdrop off' v :: rest) as ->.
  { rewrite (drop_insert_ge tmp (i + m) (i + m)) by lia. rewrite Es, Nat.sub_diag. done. }
  assert (blen (skipn (i + m) tmp) <= blen tmp) as Hlen by (unfold blen; rewrite length_skipn; lia). rewrite Es in Hlen.
  assert (blen (<[(i + m)%nat := zdrop off' v]> tmp) = blen tmp) as -> by (unfold blen; by rewrite length_insert).
  split; [done|]. split; [split; [rewrite blen_cons; pose proof (blen_nonneg rest); lia|done]|]. split; [done|]. simpl. congruence.
Qed.

(** One turn of the loop is one write of what is left. *)
Lemma rest_body_step tmp i il off rem c total count s status s' :
  iov_inv (tmp, i, il, off, rem, c) total count -> count + 1 <= 10 -> sys_write (zdrop total buf) s = Ret status s' ->
  exists tmp' j l, (forall r c, 0 <= r -> total + r < blen buf -> iov_inv (tmp', j, l, r, blen buf - total - r, c) (total + r) c) /\
    writev_rest_body (tmp, i, il, off, rem, c) s =
    (let '(offset, remaining, count) := if status <=? 0 then (0, blen buf - total, count + 1)
       else (status, blen buf - total - status, 0) in
     if (0 <? remaining) && ((0 <=? status) || (n_errno s' =? EINTR))
     then Ret (inl (tmp', j, l, offset, remaining, count)) s' else Ret (inr remaining) s').
Proof.
  intros Hi Hc E. destruct (rest_position _ _ _ _ _ _ _ _ Hi) as (j & v & l & off' & Esk & Elook & Hl & Hpos & Hlen & Econc).
  destruct Hi as (_ & Hmax & _ & Ht & -> & -> & _). exists (<[j := zdrop off' v]> tmp), j, l. split.
  { intros r c0 Hr Htr. split; [done|]. do 5 (split; [lia|]). rewrite Econc, zdrop_zdrop by lia. f_equal. lia. }
  unfold writev_rest_body. rewrite (proj2 (Z.ltb_ge 10 _)) by done. rewrite Esk, Elook.
  rewrite (bind_Ret _ _ _ v s) by done. rewrite Hl, ztake_ge by lia. rewrite sys_writev_concat, Econc by lia.
  rewrite (bind_Ret _ _ _ _ _ E). destruct (status <=? 0); cbv beta iota;
    rewrite (bind_Ret socket_errno _ s' (n_errno s') s') by done; by destruct (_ && _).
Qed.

Lemma vrest_equiv n : forall s f1 f2 st total count, (length (k_write s) <= n)%nat -> (n < f1)%nat -> (S n < f2)%nat ->
  iov_inv st total count -> vrest f1 st s = xrest f2 total count s.
Proof.
  induction n as [n IH] using lt_wf_ind. intros s f1 f2 [[[[[tmp i] il] off] rem] c] total count Hk H1 H2 Hi.
  destruct f1 as [|f1]; [lia|]. destruct f2 as [|f2]; [lia|].
  assert (0 <= total < blen buf) as Ht by apply Hi.
  destruct (Z_lt_le_dec 10 (count + 1)) as [Hc|Hc].
  { assert (rem = blen buf - total /\ c = count) as [-> ->] by (split; apply Hi). rewrite xrest_tired by lia.
    rewrite (vrest_inr f1 _ s (blen buf - total) s) by (unfold writev_rest_body; by rewrite (proj2 (Z.ltb_lt 10 _)) by done).
    by rewrite (proj2 (Z.eqb_neq _ _)) by lia. }
  destruct (sys_write_cases (zdrop total buf) s) as (status & s' & E & Hst & Hk').
  destruct (rest_body_step _ _ _ _ _ _ _ _ _ _ _ Hi Hc E) as (tmp' & j & l & Hinv & Ebody). clear Hi.
  rewrite (xrest_step _ _ _ _ _ _ (proj2 Ht) Hc E).
  assert (blen (zdrop total buf) = blen buf - total) as Hrest by zlist. rewrite Hrest in Hst, Hk'.
  destruct (Z.leb_spec status 0) as [Hs|Hs].
  - assert (length (k_write s') < length (k_write s))%nat as Hk2 by lia. specialize (Hinv 0 (count + 1)).
    rewrite Z.sub_0_r, Z.add_0_r in Hinv. rewrite (proj2 (Z.ltb_lt 0 (blen buf - total))) in Ebody by lia.
    destruct (Z.ltb_spec status 0) as [Hneg|Hpos].
    + rewrite (proj2 (Z.leb_gt 0 status)) in Ebody by lia. destruct (n_errno s' =? EINTR); cbn [orb andb] in Ebody.
      * rewrite (vrest_inl _ _ _ _ _ Ebody). eapply (IH (length (k_write s'))); [lia..|apply Hinv; lia].
      * rewrite (vrest_inr _ _ _ _ _ Ebody). by rewrite (proj2 (Z.eqb_neq (blen buf - total) 0)) by lia.
    + assert (status = 0) as -> by lia. cbn [orb andb Z.leb Z.compare] in Ebody. rewrite (vrest_inl _ _ _ _ _ Ebody), Z.add_0_r.
      eapply (IH (length (k_write s'))); [lia..|apply Hinv; lia].
  - rewrite (proj2 (Z.ltb_ge status 0)), (proj2 (Z.ltb_lt 0 status)) by lia.
    rewrite (proj2 (Z.leb_le 0 status)), andb_true_r in Ebody by lia.
    destruct (Z.ltb_spec 0 (blen buf - total - status)) as [Hmore|Hend].
    + rewrite (vrest_inl _ _ _ _ _ Ebody). destruct Hk' as [Hk'|[Hk' _]]; [|lia].
      eapply (IH (length (k_write s'))); [lia..|]. apply Hinv; lia.
    + rewrite (vrest_inr _ _ _ _ _ Ebody). assert (total + status = blen buf) as -> by lia.
      destruct f2 as [|f2]; [lia|]. rewrite xrest_done. by rewrite (proj2 (Z.eqb_eq _ 0)) by lia.
Qed.
End xwritev_loops.

(** The first loop, when nothing has been written. *)
Section xwritev_start.
Context (iov : list bytes) (fuel : nat).
Hypothesis (Hcnt : 1 <= blen iov <= IOV_MAX).
Abbreviation buf := (concat iov).

Definition vall (f : nat) (st : Z * Z) : M net Z :=
  let* (status, count) := loop f (writev_all_body iov) st in writev_finish fuel iov (blen iov) (blen buf) status count.

Lemma vall_inl f st s st' s' : writev_all_body iov st s = Ret (inl st') s' -> vall (S f) st s = vall f st' s'.
Proof. intros E. unfold vall, bind. by rewrite (loop_inl _ _ _ _ _ _ E). Qed.

Lemma vall_inr f st s status count s' : writev_all_body iov st s = Ret (inr (status, count)) s' ->
  vall (S f) st s = writev_finish fuel iov (blen iov) (blen buf) status count s'.
Proof. intros E. unfold vall, bind. by rewrite (loop_inr _ _ _ _ _ _ E). Qed.

Lemma writev_finish_equiv status count s f2 : 0 <= status < blen buf ->
  (length (k_write s) < fuel)%nat -> (S (length (k_write s)) < f2)%nat ->
  writev_finish fuel iov (blen iov) (blen buf) status count s = xrest buf f2 status count s.
Proof.
  intros Hst Hf Hf2. unfold writev_finish. rewrite (proj2 (Z.ltb_ge _ _)), (proj2 (Z.eqb_neq _ _)) by lia.
  destruct (written_iov_spec iov 0 status Hst) as (n & v & rest & off & Es & -> & Ho & Ed).
  rewrite (bind_Ret _ _ _ (n, off) s) by done. cbn [Nat.add].
  assert (blen iov - Z.of_nat n = blen (skipn n iov)) as ->.
  { pose proof (f_equal length Es) as El. rewrite length_skipn in El. simpl in El. unfold blen. rewrite length_skipn. lia. }
  rewrite (bind_Ret _ _ _ tt s) by (unfold massert; by rewrite Es, (proj2 (Z.ltb_lt 0 _)) by zlist).
  rewrite ztake_ge by done. apply (vrest_equiv buf (length (k_write s))); [done..|].
  split; [done|]. split; [unfold blen in *; rewrite length_skipn; lia|]. do 4 (split; [lia|]).
  change (skipn 0 (skipn n iov)) with (skipn n iov). rewrite Es, <- Ed. simpl. by rewrite zdrop_app_l by lia.
Qed.

Lemma vall_equiv n : forall s f1 f2 status count, (length (k_write s) <= n)%nat -> (n < f1)%nat -> (n < fuel)%nat ->
  (S n < f2)%nat -> 0 < blen buf -> (count = 0 \/ status < 0) ->
  vall f1 (status, count) s = xrest buf f2 0 count s.
Proof.
  induction n as [n IH] using lt_wf_ind. intros s f1 f2 status0 count Hk H1 Hf H2 Hbuf Hc.
  destruct f1 as [|f1]; [lia|]. destruct f2 as [|f2]; [lia|].
  destruct (Z_lt_le_dec 10 (count + 1)) as [Ht|Ht].
  { rewrite xrest_tired by lia. rewrite (vall_inr f1 _ s status0 (count + 1) s)
      by (unfold writev_all_body; by rewrite (proj2 (Z.ltb_lt 10 _)) by done).
    unfold writev_finish. by rewrite (proj2 (Z.ltb_lt status0 0)) by lia. }
  destruct (sys_write_cases buf s) as (status & s' & E & Hst & Hk').
  rewrite (xrest_step buf f2 0 count s status s' Hbuf Ht) by by rewrite zdrop_0.
  assert (writev_all_body iov (status0, count) s =
    (let count := if 0 <? status then 0 else count + 1 in
     if (status <? 0) && (n_errno s' =? EINTR) then Ret (inl (status, count)) s' else Ret (inr (status, count)) s')) as Eb.
  { unfold writev_all_body. rewrite (proj2 (Z.ltb_ge 10 _)) by done. rewrite sys_writev_concat by done.
    rewrite (bind_Ret _ _ _ _ _ E). rewrite (bind_Ret socket_errno _ s' (n_errno s') s') by done. by destruct (_ && _). }
  destruct (Z.ltb_spec status 0) as [Hneg|Hpos].
  - rewrite (proj2 (Z.ltb_ge 0 status)) in Eb by lia. destruct (n_errno s' =? EINTR); cbn [andb] in Eb.
    + rewrite (vall_inl _ _ _ _ _ Eb). eapply (IH (length (k_write s'))); lia.
    + rewrite (vall_inr _ _ _ _ _ _ Eb). unfold writev_finish. by rewrite (proj2 (Z.ltb_lt status 0)) by lia.
  - rewrite (vall_inr _ _ _ _ _ _ Eb). destruct (Z.eq_dec status (blen buf)) as [->|Hne].
    + unfold writev_finish. rewrite (proj2 (Z.ltb_ge _ 0)), Z.eqb_refl, (proj2 (Z.ltb_lt 0 _)) by lia.
      destruct f2 as [|f2]; [lia|]. by rewrite xrest_done.
    + apply writev_finish_equiv; lia.
Qed.
End xwritev_start.

Lemma iov_total_eq iov : blen (concat iov) < 2 ^ 63 -> iov_total iov = blen (concat iov).
Proof.
  intros Hb. unfold iov_total. assert (forall total, 0 <= total -> total + blen (concat iov) < 2 ^ 63 ->
    foldl (fun total v => s64 (total + blen v)) total iov = total + blen (concat iov)) as Hfold.
  { clear Hb. induction iov as [|v iov IH]; intros total Ht Hb; cbn [foldl concat] in *; [zlist|].
    rewrite blen_app in *. assert (s64 (total + blen v) = total + blen v) as ->.
    { unfold s64, swrap. rewrite Z.mod_small by blia. lia. }
    rewrite IH; blia. }
  rewrite Hfold by lia. lia.
Qed.

Lemma iov_count_ok n : n <= IOV_MAX -> (SIZE_MAX / 16 <? n) = false.
Proof. intros Hn. apply Z.ltb_ge. assert (IOV_MAX <= SIZE_MAX / 16) by by vm_compute. lia. Qed.

Lemma xwritev_vall iov s : 1 <= blen iov <= IOV_MAX -> 0 < blen (concat iov) < 2 ^ 63 ->
  xwritev iov (blen iov) s = vall iov (write_fuel (concat iov) s) (write_fuel (concat iov) s) (0, 0) s.
Proof.
  intros Hi Hb. unfold xwritev. rewrite (proj2 (Z.eqb_neq (blen iov) 0)) by lia.
  rewrite (proj2 (Z.ltb_ge (blen iov) 0)), iov_count_ok by lia. cbn [orb].
  rewrite iov_total_eq by lia. rewrite (proj2 (Z.eqb_neq (blen (concat iov)) 0)) by lia. reflexivity.
Qed.

Lemma xwrite_xrest buf s : 0 < blen buf -> xwrite buf s = xrest buf (write_fuel buf s) 0 0 s.
Proof. intros Hb. unfold xwrite. rewrite (proj2 (Z.eqb_neq (blen buf) 0)) by lia. reflexivity. Qed.

(** ** Writing at an offset *)

Lemma place_eq offset d data : 0 <= offset -> d <> [] -> exists head, blen head = offset /\
  head = ztake offset data ++ replicate (Z.to_nat (offset - blen data)) nul /\
  place offset d data = head ++ d ++ zdrop (offset + blen d) data.
Proof.
  intros Ho Hd. eexists. split; [|split; [done|]].
  - rewrite blen_app, blen_ztake. rewrite (eq_refl : blen (replicate _ nul) = Z.of_nat (length (replicate _ nul))).
    rewrite length_replicate. pose proof (blen_nonneg data). lia.
  - destruct d; [done|]. unfold place. by rewrite <- !app_assoc.
Qed.

Lemma place_app offset d1 d2 data : 0 <= offset ->
  place (offset + blen d1) d2 (place offset d1 data) = place offset (d1 ++ d2) data.
Proof.
  intros Ho. destruct (decide (d1 = [])) as [->|H1]; [by rewrite Z.add_0_r|].
  destruct (decide (d2 = [])) as [->|H2]; [by rewrite app_nil_r|].
  destruct (place_eq offset d1 data Ho H1) as (h & Eh & -> & Ep). rewrite Ep.
  set (h := ztake offset data ++ _) in *. set (data1 := h ++ _).
  destruct (place_eq offset (d1 ++ d2) data Ho) as (h' & _ & -> & ->); [by destruct d1|]. fold h.
  assert (0 <= offset + blen d1) as Ho1 by blia.
  destruct (place_eq (offset + blen d1) d2 data1 Ho1 H2) as (h2 & _ & -> & ->).
  assert (offset + blen d1 <= blen data1) as Hl by (unfold data1; zlist).
  assert (Z.to_nat (offset + blen d1 - blen data1) = 0%nat) as -> by lia. cbn [replicate]. rewrite app_nil_r.
  assert (ztake (offset + blen d1) data1 = h ++ d1) as ->.
  { unfold data1. rewrite (app_assoc h), <- Eh, <- blen_app. apply ztake_blen_app. }
  assert (zdrop (offset + blen d1 + blen d2) data1 = zdrop (offset + blen (d1 ++ d2)) data) as ->.
  { unfold data1. rewrite !zdrop_app_r by zlist. rewrite zdrop_zdrop by zlist. f_equal. zlist. }
  by rewrite <- !app_assoc.
Qed.

Section xpwrite.
Context (buf : bytes) (offset : Z).
Hypothesis (Hoff : 0 <= offset).

(** [n] with the first [total] bytes of [buf] at [offset] in [data]. *)
Definition placed (total : Z) (data : bytes) (n : net) : file := File n (place offset (ztake total buf) data).

Lemma xpwrite_loop data t n2 fuel : forall total count n, 0 <= total <= blen buf ->
  loop fuel (xwrite_body buf) (total, count) n = Ret t n2 ->
  loop fuel (xpwrite_body buf offset) (total, count) (placed total data n) = Ret t (placed t data n2).
Proof.
  induction fuel as [|fuel IH]; intros total count n Ht El; [done|].
  assert (forall d n', d = ztake (blen d) (zdrop total buf) ->
    File n' (place (offset + total) d (place offset (ztake total buf) data)) = placed (total + blen d) data n') as Hp.
  { intros d n' Ed. unfold placed. f_equal.
    assert (ztake (total + blen d) buf = ztake total buf ++ d) as ->.
    { rewrite <- (ztake_zdrop total buf) at 1. rewrite ztake_app_r by zlist. f_equal. rewrite Ed at 2. f_equal. zlist. }
    rewrite <- place_app by done. f_equal. rewrite blen_ztake. lia. }
  destruct (Z_lt_le_dec total (blen buf)) as [Hlt|Hge].
  2: { rewrite (loop_inr _ _ _ n total n) in El by (unfold xwrite_body; by rewrite (proj2 (Z.ltb_ge _ _))).
       injection El as <- <-. apply loop_inr. unfold xpwrite_body. by rewrite (proj2 (Z.ltb_ge _ _)). }
  destruct (Z_lt_le_dec 10 (count + 1)) as [Hc|Hc].
  { rewrite (loop_inr _ _ _ n total n) in El
      by (unfold xwrite_body; by rewrite (proj2 (Z.ltb_lt _ _) Hlt), (proj2 (Z.ltb_lt _ _) Hc)).
    injection El as <- <-. apply loop_inr. unfold xpwrite_body. by rewrite (proj2 (Z.ltb_lt _ _) Hlt), (proj2 (Z.ltb_lt _ _) Hc). }
  destruct (sys_write_cases (zdrop total buf) n) as (status & n' & E & Hst & _).
  set (next := if 0 <? status then 0 else count + 1). set (total' := if status <? 0 then total else total + status).
  assert (sys_pwrite (zdrop total buf) (offset + total) (placed total data n) = Ret status (placed total' data n')) as Ep.
  { unfold sys_pwrite, bind, zoom, placed at 1. cbn [fl_net]. rewrite E. unfold modify. cbn [fl_net fl_data put_fnet]. f_equal.
    unfold total'. destruct (Z.ltb_spec status 0) as [Hneg|Hpos]; [by rewrite ztake_0 by lia|].
    assert (blen (ztake status (zdrop total buf)) = status) as Eb by zlist.
    rewrite Hp by by rewrite Eb. by rewrite Eb. }
  assert (xpwrite_body buf offset (total, count) (placed total data n) =
    if (status <? 0) && negb (n_errno n' =? EINTR) then Ret (inr total') (placed total' data n')
    else Ret (inl (total', next)) (placed total' data n')) as Eb1.
  { unfold xpwrite_body. rewrite (proj2 (Z.ltb_lt _ _) Hlt), (proj2 (Z.ltb_ge _ _) Hc). rewrite (bind_Ret _ _ _ _ _ Ep).
    fold next. unfold total'. destruct (status <? 0); [|done].
    rewrite (bind_Ret (zoom fl_net put_fnet socket_errno) _ _ (n_errno n') (placed total data n')) by done.
    cbn [andb]. by destruct (n_errno n' =? EINTR). }
  assert (xwrite_body buf (total, count) n =
    if (status <? 0) && negb (n_errno n' =? EINTR) then Ret (inr total') n' else Ret (inl (total', next)) n') as Eb2.
  { unfold xwrite_body. rewrite (proj2 (Z.ltb_lt _ _) Hlt), (proj2 (Z.ltb_ge _ _) Hc). rewrite (bind_Ret _ _ _ _ _ E).
    fold next. unfold total'. destruct (status <? 0); [|done].
    rewrite (bind_Ret socket_errno _ _ (n_errno n') n') by done. cbn [andb]. by destruct (n_errno n' =? EINTR). }
  destruct ((status <? 0) && _).
  - rewrite (loop_inr _ _ _ _ _ _ Eb2) in El. injection El as <- <-. by apply loop_inr.
  - rewrite (loop_inl _ _ _ _ _ _ Eb2) in El. rewrite (loop_inl _ _ _ _ _ _ Eb1). apply IH; [|done].
    unfold total'. destruct (Z.ltb_spec status 0); zlist.
Qed.

(** [xpwrite] returns what [xwrite] returns, and what [xwrite] would send,
    the whole of [buf] if it succeeds, is at [offset]. *)
Lemma xpwrite_places data n : exists total n',
  xwrite buf n = Ret (if total <? blen buf then -1 else total) n' /\
  xpwrite buf offset (File n data) = Ret (if total <? blen buf then -1 else total) (File n' (place offset (ztake total buf) data)).
Proof.
  destruct (Z.eq_dec (blen buf) 0) as [E|E].
  { apply blen_0 in E as Eb. exists 0, n. unfold xwrite, xpwrite. by rewrite E, Eb. }
  destruct (xwrite buf n) as [r n'| | |] eqn:Ex.
  2-4: by pose proof (xwrite_wp buf 0 n) as Hw; unfold runs, wp in Hw; rewrite Ex in Hw.
  unfold xwrite in Ex. rewrite (proj2 (Z.eqb_neq _ _) E), (bind_Ret _ _ _ (write_fuel buf n) n) in Ex by done.
  apply bind_Ret_inv in Ex as (t & n2 & El & Er). injection Er as <- <-. exists t, n2. split; [done|].
  unfold xpwrite. rewrite (proj2 (Z.eqb_neq _ _) E), (bind_Ret _ _ _ (write_fuel buf n) (File n data)) by done.
  change (File n data) with (placed 0 data n).
  by rewrite (bind_Ret _ _ _ _ _ (xpwrite_loop data t n2 _ 0 0 n ltac:(blia) El)).
Qed.
End xpwrite.

(** C17: [xwritev] is [xwrite] of the concatenation.  For at most [IOV_MAX]
    buffers of less than 2^63 bytes in all, whatever each call of the kernel
    accepts or refuses, it gives the same result, writes the same bytes and
    leaves the same [errno], and never leaves its arrays. *)
Theorem xwritev_equiv iov s : blen iov <= IOV_MAX -> blen (concat iov) < 2 ^ 63 ->
  xwritev iov (blen iov) s = xwrite (concat iov) s.
Proof.
  intros Hi Hb. destruct (decide (concat iov = [])) as [E|E].
  - unfold xwritev, xwrite. rewrite iov_total_eq, E by done. destruct (Z.eqb_spec (blen iov) 0); [done|].
    by rewrite (proj2 (Z.ltb_ge (blen iov) 0)), iov_count_ok by blia.
  - assert (0 < blen (concat iov)) as Hpos.
    { destruct (Z_lt_le_dec 0 (blen (concat iov))) as [|H0]; [done|]. destruct E. apply blen_0. blia. }
    assert (1 <= blen iov <= IOV_MAX) as Hcnt.
    { split; [|done]. destruct iov; [done|]. zlist. }
    rewrite xwritev_vall, xwrite_xrest by done.
    apply (vall_equiv iov _ Hcnt (length (k_write s))); [unfold write_fuel, blen in *; lia..|done|by left].
Qed.

Lemma xwritev_equiv_witness :
  let s := Net [] [WrOk 4; WrErr EINTR; WrOk 0] [] [] [] 0 false in
  exists s', xwritev [str "one"; []; str "two"; str "three"] 4 s = Ret 11 s' /\ n_out s' = str "onetwothree".
Proof.
  intros s. exists (Net [] [] [] [] (str "onetwothree") EINTR false).
  pose proof (xwritev_equiv [str "one"; []; str "two"; str "three"] s) as E.
  split; [|done]. change 4 with (blen [str "one"; []; str "two"; str "three"]). rewrite E by (vm_compute; done). by vm_compute.
Defined.
