(* ===== verification/Buffer.v ===== *)
(** Counted buffers: [util/buffer.c].

    The allocated memory is a list of cells, [None] for a byte never written;
    reading or writing outside it is [None] of the operation.  [realloc] of
    size 0 frees a block and returns [NULL].  What a format renders is an
    argument of the operations that print; [vsnprintf] fails for more than
    [INT_MAX] bytes. *)

From S2P Require Import Prelude Effects Net.

(** * Data *)

Abbreviation cell := (option byte).

Record buffer : Type := Buffer {
  b_size : Z;
  b_used : Z;
  b_left : Z;
  b_data : option (list cell);   (* NULL is None *)
}.

(** * Operations *)

Definition buffer_new : buffer := Buffer 0 0 0 None.

(** The cells of a block, none behind [NULL]. *)
Definition cells (b : buffer) : list cell := default [] (b_data b).

(** Writing bytes into memory. *)
Definition poke (off : Z) (d : list cell) (mem : list cell) : option (list cell) :=
  if bool_decide (0 <= off /\ off + blen d <= blen mem)
  then Some (ztake off mem ++ d ++ zdrop (off + blen d) mem) else None.

(** Reading bytes that have been written. *)
Definition peek (off n : Z) (mem : list cell) : option bytes := zsub off n mem ≫= mapM id.

Definition buffer_resize (b : buffer) (size : Z) : buffer :=
  if size <? b_size b then b
  else
    let size := Z.land (u64 (size + 1023)) (Z.lnot 1023) in
    Buffer size (b_used b) (b_left b)
      (if size =? 0 then match b_data b with None => Some [] | Some _ => None end
       else Some (ztake size (cells b) ++ replicate (Z.to_nat (size - blen (cells b))) None)).

Definition with_data (m : option (list cell)) (b : buffer) : option buffer :=
  m ← m; Some (Buffer (b_size b) (b_used b) (b_left b) (Some m)).

Definition buffer_compact (b : buffer) : option buffer :=
  if b_used b =? 0 then Some b
  else
    b ← (if negb (b_left b =? 0) then
           moved ← zsub (b_used b) (b_left b) (cells b);
           with_data (poke 0 moved (cells b)) b
         else Some b);
    Some (Buffer (b_size b) 0 (b_left b) (b_data b)).

Definition buffer_set (b : buffer) (data : bytes) : option buffer :=
  b ← (if 0 <? blen data then
         let b := buffer_resize b (blen data) in
         with_data (poke 0 (map Some data) (cells b)) b
       else Some b);
  Some (Buffer (b_size b) 0 (blen data) (b_data b)).

Definition buffer_append (b : buffer) (data : bytes) : option buffer :=
  if blen data =? 0 then Some b
  else
    let total := b_used b + b_left b in
    let b := buffer_resize b (u64 (total + blen data)) in
    let b := Buffer (b_size b) (b_used b) (b_left b + blen data) (b_data b) in
    with_data (poke total (map Some data) (cells b)) b.

(** [vsnprintf] at offset [off] with room for [avail] bytes: its result is an
    [int], so it fails for a longer text. *)
Definition vsnprintf (off avail : Z) (text : bytes) (b : buffer) : option (Z * buffer) :=
  b ← (if avail =? 0 then Some b
       else with_data (poke off (map Some (ztake (avail - 1) text ++ [nul])) (cells b)) b);
  Some (if INT_MAX <? blen text then -1 else blen text, b).

(** [text] is what the format renders. *)
Definition buffer_append_vsprintf (b : buffer) (text : bytes) : option buffer :=
  let total := b_used b + b_left b in
  let avail := b_size b - total in
  '(status, b) ← vsnprintf total avail text b;
  if status <? 0 then Some b
  else if status <? avail then Some (Buffer (b_size b) (b_used b) (b_left b + status) (b_data b))
  else
    let b := buffer_resize b (u64 (total + status + 1)) in
    let avail := b_size b - total in
    '(status, b) ← vsnprintf total avail text b;
    if (status <? 0) || (avail <=? status) then Some b
    else Some (Buffer (b_size b) (b_used b) (b_left b + status) (b_data b)).

Definition buffer_vsprintf (b : buffer) (text : bytes) : option buffer :=
  b ← buffer_set b []; buffer_append_vsprintf b text.

Definition buffer_swap (bs : buffer * buffer) : buffer * buffer := (bs.2, bs.1).

(** [memchr]: the offset of the first [c]. *)
Fixpoint memchr (c : byte) (l : bytes) : option Z :=
  match l with
  | [] => None
  | x :: l => if byte_eqb x c then Some 0 else Z.succ <$> memchr c l
  end.

(** [Some (Some offset)] when found, [None] when memory is overrun. *)
Fixpoint find_string_loop (fuel : nat) (b : buffer) (string : bytes) (start : Z) : option (option Z) :=
  match fuel with
  | O => None
  | S fuel =>
      d ← peek (b_used b + start) (u64 (b_left b - start)) (cells b);
      match memchr (default nul (head string)) d with
      | None => Some None
      | Some i =>
          let start := start + i in
          if b_left b - start <? blen string then Some None
          else
            d ← peek (b_used b + start) (blen string) (cells b);
            if bytes_eqb d string then Some (Some start)
            else find_string_loop fuel b string (start + 1)
      end
  end.

(** [string] is a C string. *)
Definition buffer_find_string (b : buffer) (string : bytes) (start : Z) : option (option Z) :=
  match b_data b with
  | None => Some None
  | Some _ => find_string_loop (S (Z.to_nat (b_left b))) b string start
  end.

Definition buffer_read_body (b : buffer) (_ : unit) : M net (unit + Z * buffer) :=
  let used := b_used b + b_left b in
  let* (count, d) := sys_read (b_size b - used) in
  let* err := socket_errno in
  if (count =? -1) && ((err =? EAGAIN) || (err =? EINTR)) then ret (inl tt)
  else if 0 <? count then
    let* b := from_option_fault (with_data (poke used (map Some d) (cells b)) b) in
    ret (inr (count, Buffer (b_size b) (b_used b) (b_left b + count) (b_data b)))
  else ret (inr (count, b)).

Definition buffer_read (b : buffer) : M net (Z * buffer) :=
  let* fuel := gets (fun s => S (length (k_read s))) in
  loop fuel (buffer_read_body b) tt.

Definition read_all_body (b : buffer) : M net (buffer + bool * buffer) :=
  let used := b_used b + b_left b in
  let b := if b_size b <=? used then buffer_resize b (u64 (b_size b * 2)) else b in
  let* (count, b) := buffer_read b in
  if 0 <? count then ret (inl b) else ret (inr (count =? 0, b)).

Definition buffer_read_all (b : buffer) : M net (bool * buffer) :=
  let b := if b_size b =? 0 then buffer_resize b 1024 else b in
  let* fuel := gets (fun s => S (length (rd_bytes (k_read s)))) in
  loop fuel read_all_body b.

(** [st_size] is what [fstat] reports, if it succeeds. *)
Definition buffer_read_file (b : buffer) (st_size : option Z) : M net (bool * buffer) :=
  match st_size with
  | None => ret (false, b)
  | Some st_size => buffer_read_all (buffer_resize b (u64 (st_size + (b_used b + b_left b))))
  end.

(** * Contents

    A buffer holds the bytes [d]: they are the cells from [used] on, [left]
    of them, and the block has [size] cells. *)

Definition holds (b : buffer) (d : bytes) : Prop :=
  exists pre post, cells b = pre ++ map Some d ++ post /\
    b_used b = blen pre /\ b_left b = blen d /\ b_size b = blen (cells b).

Lemma buffer_new_holds : holds buffer_new [].
Proof. by exists [], []. Qed.

Lemma holds_bounds b d : holds b d -> 0 <= b_used b /\ b_left b = blen d /\ b_used b + blen d <= b_size b.
Proof.
  intros (pre & post & E & -> & -> & ->). rewrite E, !blen_app.
  unfold blen. rewrite length_map. lia.
Qed.

Lemma blen_map {A B} (f : A -> B) l : blen (map f l) = blen l.
Proof. unfold blen. by rewrite length_map. Qed.

Lemma blen_replicate {A} n (x : A) : blen (replicate n x) = Z.of_nat n.
Proof. unfold blen. by rewrite length_replicate. Qed.

Lemma mapM_id_map (d : bytes) : mapM id (map Some d) = Some d.
Proof. induction d as [|c d IH]; simpl; [done|by rewrite IH]. Qed.

Lemma peek_app (pre : list cell) d post off n :
  off = blen pre -> n = blen d -> peek off n (pre ++ map Some d ++ post) = Some d.
Proof.
  intros -> ->. unfold peek. pose proof (blen_nonneg pre). pose proof (blen_nonneg d). pose proof (blen_nonneg post).
  rewrite zsub_Some by (rewrite ?blen_app, ?blen_map; lia). simpl.
  rewrite zdrop_blen_app, <- (blen_map Some d), ztake_blen_app. apply mapM_id_map.
Qed.

Lemma poke_app (pre q post d : list cell) off : off = blen pre -> blen d = blen q ->
  poke off d (pre ++ q ++ post) = Some (pre ++ d ++ post).
Proof.
  intros -> E. unfold poke. pose proof (blen_nonneg pre). pose proof (blen_nonneg post).
  rewrite bool_decide_eq_true_2 by (rewrite !blen_app; lia).
  rewrite ztake_blen_app, E, (app_assoc pre q post), <- blen_app, zdrop_blen_app. done.
Qed.

(** The first [n] free cells. *)
Lemma split_free (post : list cell) n : 0 <= n <= blen post -> exists q post', post = q ++ post' /\ blen q = n.
Proof.
  intros H. exists (ztake n post), (zdrop n post). rewrite ztake_zdrop, blen_ztake. split; [done|lia].
Qed.

Lemma align_spec n : 0 <= n -> exists k, Z.land n (Z.lnot 1023) = 1024 * k /\ n - 1023 <= 1024 * k <= n.
Proof.
  intros Hn. exists (n / 1024).
  assert (Z.land n (Z.lnot 1023) = 1024 * (n / 1024)) as ->.
  { change 1023 with (Z.ones 10). rewrite <- Z.ldiff_land, Z.ldiff_ones_r by lia.
    rewrite Z.shiftr_div_pow2, Z.shiftl_mul_pow2 by lia. change (2 ^ 10) with 1024. lia. }
  split; [done|]. pose proof (Z.div_mod n 1024 ltac:(lia)). pose proof (Z.mod_pos_bound n 1024 ltac:(lia)). lia.
Qed.

(** Growing keeps the contents and makes room. *)
Lemma resize_holds b d size : holds b d -> 0 <= size -> size + 1023 < 2 ^ 64 ->
  let b' := buffer_resize b size in
  holds b' d /\ b_used b' = b_used b /\ size <= b_size b' /\
  b_size b <= b_size b' <= Z.max (b_size b) (size + 1023).
Proof.
  intros Hok Hs Hb. pose proof (holds_bounds b d Hok) as (Hu & Hl & Hr).
  destruct Hok as (pre & post & E & Ep & El & Ec). unfold buffer_resize.
  destruct (Z.ltb_spec size (b_size b)) as [|Hge]; [split; [by exists pre, post|lia]|].
  rewrite u64_small by lia. destruct (align_spec (size + 1023)) as (k & -> & Hk); [lia|]. cbv zeta.
  cbn [b_used b_size]. split; [|lia].
  destruct (Z.eqb_spec (1024 * k) 0) as [Hz|Hz].
  - pose proof (blen_nonneg d). assert (cells b = []) as Hnil by (apply blen_0; lia). rewrite Hnil in E.
    symmetry in E. apply app_nil in E as [-> E]. apply app_nil in E as [E ->]. apply map_eq_nil in E as ->.
    rewrite Hz. exists [], []. unfold cells. cbn [b_data b_used b_left b_size].
    destruct (b_data b); simpl; repeat split; done || lia.
  - exists pre, (post ++ replicate (Z.to_nat (1024 * k - blen (cells b))) None).
    unfold cells at 1 3. cbn [b_used b_left b_data b_size default]. rewrite ztake_ge by lia.
    split; [rewrite E at 1; by rewrite <- !app_assoc|]. split; [lia|]. split; [lia|].
    unfold cells at 1. cbn [b_data default]. unfold id. rewrite blen_app, blen_replicate. lia.
Qed.

Lemma with_data_poke b off q : with_data (poke off q (cells b)) b =
  (m ← poke off q (cells b); Some (Buffer (b_size b) (b_used b) (b_left b) (Some m))).
Proof. done. Qed.

(** Writing behind the data, and then counting the first [n] bytes written. *)
Lemma write_behind b d w n : holds b d -> b_used b + b_left b + blen w <= b_size b -> 0 <= n <= blen w ->
  exists b', with_data (poke (b_used b + b_left b) (map Some w) (cells b)) b = Some b' /\ holds b' d /\
    b_size b' = b_size b /\ b_used b' = b_used b /\ b_left b' = b_left b /\
    holds (Buffer (b_size b') (b_used b') (b_left b' + n) (b_data b')) (d ++ ztake n w).
Proof.
  intros (pre & post & E & Ep & El & Ec) Hr Hn.
  destruct (split_free post (blen w)) as (q & post' & -> & Hq).
  { pose proof (blen_nonneg w). rewrite Ec, E, !blen_app, blen_map in Hr. lia. }
  assert (poke (b_used b + b_left b) (map Some w) (cells b) = Some (pre ++ map Some d ++ map Some w ++ post')) as Ew.
  { rewrite E, (app_assoc pre), (app_assoc pre). apply poke_app; [|by rewrite blen_map].
    rewrite blen_app, blen_map. lia. }
  rewrite Ew. simpl. eexists. split; [reflexivity|]. simpl.
  assert (blen (pre ++ map Some d ++ map Some w ++ post') = b_size b) as Es.
  { rewrite Ec, E, !blen_app, !blen_map. lia. }
  repeat split; [by exists pre, (map Some w ++ post')|].
  exists pre, (map Some (zdrop n w) ++ post'). unfold cells. cbn [b_used b_left b_data b_size default].
  repeat split; [|done| |by rewrite <- Es].
  - unfold id. f_equal. rewrite map_app, <- app_assoc. f_equal. rewrite app_assoc, <- map_app. by rewrite ztake_zdrop.
  - rewrite blen_app, blen_ztake. lia.
Qed.

Lemma append_holds b d w : holds b d -> b_used b + blen d + blen w + 1023 < 2 ^ 64 ->
  exists b', buffer_append b w = Some b' /\ holds b' (d ++ w) /\ b_used b' = b_used b /\
    b_size b <= b_size b' <= Z.max (b_size b) (b_used b + blen d + blen w + 1023).
Proof.
  intros Hb Hw. unfold buffer_append. pose proof (holds_bounds b d Hb) as (Hu & Hl & Hr).
  pose proof (blen_nonneg d). pose proof (blen_nonneg w).
  destruct (Z.eqb_spec (blen w) 0) as [Hz|Hz].
  { apply blen_0 in Hz as ->. exists b. rewrite app_nil_r. repeat split; [done|lia|lia]. }
  rewrite u64_small by lia.
  destruct (resize_holds b d (b_used b + b_left b + blen w) Hb) as (Hb1 & Eu & Hs & Hs'); [lia..|].
  set (b1 := buffer_resize b _) in *. pose proof (holds_bounds b1 d Hb1) as (_ & Hl1 & _).
  destruct (write_behind b1 d w (blen w) Hb1) as (b2 & E2 & _ & Es & Eu2 & El2 & Hb2); [lia..|].
  rewrite ztake_ge in Hb2 by lia.
  assert (b_used b + b_left b = b_used b1 + b_left b1) as -> by lia.
  unfold with_data in *. unfold cells in *. cbn [b_data]. revert E2.
  destruct (poke _ _ _) as [m|]; [|done]. simpl. intros [= <-]. simpl in *.
  eexists. split; [reflexivity|]. simpl. split; [exact Hb2|]. lia.
Qed.

(** What is in the block does not matter for the empty contents. *)
Lemma holds_empty b d : holds b d -> holds (Buffer (b_size b) 0 0 (b_data b)) [].
Proof.
  intros (pre & post & E & _ & _ & Ec). exists [], (cells b). repeat split. exact Ec.
Qed.

Lemma set_holds b d w : holds b d -> blen w + 1023 < 2 ^ 64 ->
  exists b', buffer_set b w = Some b' /\ holds b' w /\ b_used b' = 0 /\
    b_size b <= b_size b' <= Z.max (b_size b) (blen w + 1023).
Proof.
  intros Hb Hw. unfold buffer_set. pose proof (blen_nonneg w). destruct (Z.ltb_spec 0 (blen w)) as [Hz|Hz].
  - destruct (resize_holds b d (blen w) Hb) as (Hb1 & Eu & Hs & Hs'); [lia..|].
    set (b1 := buffer_resize b _) in *. pose proof (holds_empty b1 d Hb1) as He.
    destruct (write_behind _ [] w (blen w) He) as (b2 & E2 & _ & Es & Eu2 & El2 & Hb2); [simpl; lia..|].
    rewrite ztake_ge in Hb2 by lia. unfold with_data in *. unfold cells in *. cbn [b_data b_used b_left] in *.
    rewrite Z.add_0_r in E2. destruct (poke _ _ _) as [m|]; [|done]. simpl in *. injection E2 as <-. simpl in *.
    eexists. split; [reflexivity|]. simpl. split; [exact Hb2|]. lia.
  - assert (blen w = 0) as Hw0 by lia. rewrite (blen_0 w Hw0) in *. simpl. eexists. split; [reflexivity|].
    simpl. split; [by eapply holds_empty|]. rewrite blen_nil in *. pose proof (holds_bounds b d Hb). lia.
Qed.

Lemma compact_holds b d : holds b d ->
  exists b', buffer_compact b = Some b' /\ holds b' d /\ b_used b' = 0 /\ b_size b' = b_size b.
Proof.
  intros Hb. pose proof Hb as (pre & post & E & Ep & El & Ec). unfold buffer_compact.
  pose proof (blen_nonneg pre). pose proof (blen_nonneg d). pose proof (blen_nonneg post).
  destruct (Z.eqb_spec (b_used b) 0) as [Hz|Hz]; [by exists b|].
  destruct (Z.eqb_spec (b_left b) 0) as [Hl|Hl]; cbn [negb].
  - assert (d = []) as -> by (apply blen_0; lia). eexists. split; [reflexivity|]. simpl. rewrite Hl.
    split; [by eapply holds_empty|done].
  - rewrite zsub_Some by (rewrite ?E, ?blen_app, ?blen_map; lia).
    assert (ztake (b_left b) (zdrop (b_used b) (cells b)) = map Some d) as ->.
    { by rewrite E, Ep, zdrop_blen_app, El, <- (blen_map Some d), ztake_blen_app. }
    assert (exists rest, poke 0 (map Some d) (cells b) = Some (map Some d ++ rest) /\
      blen (map Some d ++ rest) = b_size b) as (rest & Ew & Er).
    { destruct (split_free (cells b) (blen d)) as (q & rest & E' & Eq).
      { rewrite E, !blen_app, blen_map. lia. }
      exists rest. rewrite E'. split; [apply (poke_app []); [done|by rewrite blen_map]|].
      rewrite Ec, E', !blen_app, blen_map. lia. }
    cbn [mbind option_bind]. rewrite Ew. simpl. eexists. split; [reflexivity|]. simpl.
    repeat split. exists [], rest. unfold cells. simpl. repeat split; [done|by rewrite <- Er].
Qed.

(** A bounded print behind the data keeps it, and adds the text if it fits. *)
Lemma vsnprintf_holds c d w total : holds c d -> total = b_used c + b_left c -> exists c',
  vsnprintf total (b_size c - total) w c = Some (if INT_MAX <? blen w then -1 else blen w, c') /\ holds c' d /\ b_size c' = b_size c /\
  b_used c' = b_used c /\
  (blen w < b_size c - total -> holds (Buffer (b_size c') (b_used c') (b_left c' + blen w) (b_data c')) (d ++ w)).
Proof.
  intros Hc ->. pose proof (holds_bounds c d Hc) as (_ & Hcl & Hcr). unfold vsnprintf.
  set (avail := b_size c - (b_used c + b_left c)). pose proof (blen_nonneg w).
  destruct (Z.eqb_spec avail 0) as [Hz|Hz]; [exists c; repeat split; done || lia|].
  set (out := ztake (avail - 1) w ++ [nul]).
  assert (blen out = Z.min (avail - 1) (blen w) + 1) as Hlen.
  { unfold out. rewrite blen_app, blen_ztake. change (blen [nul]) with 1. lia. }
  destruct (write_behind c d out (Z.min (avail - 1) (blen w)) Hc) as (c' & Ec' & Hc' & Es & Eu' & _ & Hc''); [lia..|].
  exists c'. rewrite Ec'. repeat split; [exact Hc'|done|done|].
  intros Hlt. rewrite Z.min_r in Hc'' by lia. revert Hc''. unfold out.
  rewrite (ztake_ge _ w) by lia. by rewrite ztake_blen_app.
Qed.

(** What is printed: nothing if [vsnprintf] fails. *)
Definition printed (text : bytes) : bytes := if INT_MAX <? blen text then [] else text.

Lemma vsprintf_holds b d w : holds b d -> b_used b + blen d + blen (printed w) + 1024 < 2 ^ 64 ->
  exists b', buffer_append_vsprintf b w = Some b' /\ holds b' (d ++ printed w) /\ b_used b' = b_used b /\
    b_size b <= b_size b' <= Z.max (b_size b) (b_used b + blen d + blen (printed w) + 1024).
Proof.
  unfold printed. intros Hb Hw. unfold buffer_append_vsprintf. pose proof (holds_bounds b d Hb) as (Hu & Hl & Hr).
  pose proof (blen_nonneg d). pose proof (blen_nonneg w). set (total := b_used b + b_left b).
  destruct (vsnprintf_holds b d w total Hb eq_refl) as (b1 & -> & Hb1 & Es1 & Eu1 & Hdone). cbn [mbind option_bind].
  destruct (INT_MAX <? blen w) eqn:Ei; [rewrite app_nil_r; exists b1; split; [done|split; [done|lia]]|].
  rewrite (proj2 (Z.ltb_ge (blen w) 0)) by done.
  destruct (Z.ltb_spec (blen w) (b_size b - total)) as [Hlt|Hge].
  { eexists. split; [reflexivity|]. simpl. split; [|lia].
    revert Hdone. by rewrite Es1, Eu1, (proj1 (proj2 (holds_bounds b1 d Hb1))), <- Hl; auto. }
  rewrite u64_small by lia.
  destruct (resize_holds b1 d (total + blen w + 1) Hb1) as (Hb2 & Eu2 & Hs & Hs'); [lia..|].
  set (b2 := buffer_resize b1 _) in *. pose proof (holds_bounds b2 d Hb2) as (_ & Hl2 & _).
  destruct (vsnprintf_holds b2 d w total Hb2) as (b3 & -> & Hb3 & Es3 & Eu3 & Hdone3); [lia|].
  cbn [mbind option_bind]. rewrite Ei, (proj2 (Z.ltb_ge (blen w) 0)) by done. cbn [orb].
  destruct (Z.leb_spec (b_size b2 - total) (blen w)); [lia|].
  eexists. split; [reflexivity|]. simpl. split; [apply Hdone3; lia|]. lia.
Qed.

(** * Searching *)

Lemma memchr_spec c l :
  match memchr c l with
  | Some i => 0 <= i < blen l /\ head (zdrop i l) = Some c /\
      forall j, 0 <= j < i -> head (zdrop j l) <> Some c
  | None => forall j, 0 <= j -> head (zdrop j l) <> Some c
  end.
Proof.
  assert (forall (x : byte) l j, 0 < j -> zdrop j (x :: l) = zdrop (j - 1) l) as Hd.
  { intros x k j Hj. unfold zdrop. replace (Z.to_nat j) with (S (Z.to_nat (j - 1))) by lia. done. }
  induction l as [|x l IH]; simpl.
  - intros j _. by rewrite zdrop_nil.
  - rewrite blen_cons. pose proof (blen_nonneg l). unfold byte_eqb. case_bool_decide as Hx.
    { rewrite zdrop_0 by lia. subst. split; [lia|]. split; [done|]. intros j Hj. lia. }
    destruct (memchr c l) as [i|]; simpl.
    + destruct IH as (Hi & Hh & Hf). rewrite Hd by lia. replace (Z.succ i - 1) with i by lia.
      split; [lia|]. split; [done|]. intros j Hj. destruct (decide (j = 0)) as [->|].
      * rewrite zdrop_0 by lia. simpl. congruence.
      * rewrite Hd by lia. apply Hf. lia.
    + intros j Hj. destruct (decide (j = 0)) as [->|].
      * rewrite zdrop_0 by lia. simpl. congruence.
      * rewrite Hd by lia. apply IH. lia.
Qed.

(** [str] occurs in [d] at [i]. *)
Definition occurs (str d : bytes) (i : Z) : Prop := ztake (blen str) (zdrop i d) = str.

Lemma occurs_head c str d i : occurs (c :: str) d i -> head (zdrop i d) = Some c.
Proof.
  unfold occurs. intros E. apply (f_equal head) in E. simpl in E. rewrite <- E.
  unfold ztake. rewrite blen_cons. replace (Z.to_nat _) with (S (length str)) by (unfold blen; lia).
  by destruct (zdrop i d).
Qed.

Lemma occurs_room str d i : occurs str d i -> str <> [] -> i + blen str <= blen d.
Proof.
  unfold occurs. intros E Hs. apply (f_equal blen) in E. rewrite blen_ztake, blen_zdrop in E.
  destruct str as [|c str]; [done|]. rewrite blen_cons in *. pose proof (blen_nonneg str). lia.
Qed.

Lemma holds_peek b d off n : holds b d -> 0 <= off -> 0 <= n -> off + n <= blen d ->
  peek (b_used b + off) n (cells b) = Some (ztake n (zdrop off d)).
Proof.
  intros (pre & post & -> & -> & _ & _) Ho Hn Hr.
  rewrite <- (ztake_zdrop off d) at 1. rewrite <- (ztake_zdrop n (zdrop off d)) at 1.
  rewrite !map_app, <- !app_assoc, (app_assoc pre). apply peek_app.
  - rewrite blen_app, blen_map, blen_ztake. lia.
  - rewrite blen_ztake, blen_zdrop. lia.
Qed.

(** What a search from [start] answers. *)
Definition first_occurrence (str d : bytes) (start : Z) (r : option Z) : Prop :=
  match r with
  | Some i => start <= i /\ occurs str d i /\ forall j, start <= j < i -> ~ occurs str d j
  | None => forall j, start <= j -> ~ occurs str d j
  end.

Lemma first_occurrence_later str d start start' r : start <= start' ->
  (forall j, start <= j < start' -> ~ occurs str d j) ->
  first_occurrence str d start' r -> first_occurrence str d start r.
Proof.
  intros Hle Hno. destruct r as [i|]; simpl.
  - intros (Hi & Ho & Hf). split; [lia|]. split; [done|]. intros j Hj.
    destruct (decide (j < start')); [apply Hno|apply Hf]; lia.
  - intros Hf j Hj. destruct (decide (j < start')); [apply Hno|apply Hf]; lia.
Qed.

Lemma find_string_loop_spec b d c str fuel start : holds b d -> blen d < 2 ^ 64 ->
  0 <= start <= blen d -> (Z.to_nat (blen d - start) < fuel)%nat ->
  exists r, find_string_loop fuel b (c :: str) start = Some r /\ first_occurrence (c :: str) d start r.
Proof.
  intros Hb H64. pose proof (holds_bounds b d Hb) as (_ & Hl & _). revert start.
  induction fuel as [|fuel IH]; intros start Hs Hf; [lia|]. simpl.
  rewrite u64_small by lia. rewrite (holds_peek b d) by (done || lia). rewrite Hl.
  rewrite (ztake_ge _ (zdrop start d)) by (rewrite blen_zdrop; lia). cbn [mbind option_bind].
  pose proof (memchr_spec c (zdrop start d)) as Hm. destruct (memchr c (zdrop start d)) as [i|]; cycle 1.
  { eexists. split; [done|]. intros j Hj Ho. apply (Hm (j - start)); [lia|].
    rewrite zdrop_zdrop by lia. replace (j - start + start) with j by lia. by eapply occurs_head. }
  destruct Hm as ((Hi0 & Hi) & Hh & Hno). rewrite blen_zdrop in Hi.
  assert (forall j, start <= j < start + i -> ~ occurs (c :: str) d j) as Hskip.
  { intros j Hj Ho%occurs_head. apply (Hno (j - start)); [lia|].
    rewrite zdrop_zdrop by lia. by replace (j - start + start) with j by lia. }
  destruct (Z.ltb_spec (blen d - (start + i)) (blen (c :: str))) as [Hsh|Hroom].
  { eexists. split; [done|]. intros j Hj Ho. pose proof (occurs_room _ _ _ Ho ltac:(done)).
    apply (Hskip j); [lia|done]. }
  pose proof (blen_nonneg str). rewrite blen_cons in *.
  rewrite (holds_peek b d) by (done || lia). cbn [mbind option_bind].
  destruct (bytes_eqb _ _) eqn:Eb.
  { apply bytes_eqb_true in Eb. eexists. split; [done|]. split; [lia|]. split; [|exact Hskip].
    unfold occurs. by rewrite blen_cons. }
  apply bytes_eqb_false in Eb. destruct (IH (start + i + 1)) as (r & -> & Hr); [lia..|].
  exists r. split; [done|]. apply (first_occurrence_later _ _ _ (start + i + 1)); [lia| |exact Hr]. intros j Hj.
  destruct (decide (j = start + i)) as [->|]; [unfold occurs; by rewrite blen_cons|apply Hskip; lia].
Qed.

(** * Reading a file *)

Definition retried (e : Z) : bool := (e =? EAGAIN) || (e =? EINTR).

(** What [read] delivers until it reports the end of file (and whether it
    did): interrupted calls are retried. *)
Fixpoint stream (k : list rdres) : bool * bytes :=
  match k with
  | [] => (true, [])
  | RdErr e :: k => if retried e then stream k else (false, [])
  | RdData [] :: _ => (true, [])
  | RdData d :: k => ((stream k).1, d ++ (stream k).2)
  end.

Lemma stream_bytes k : (length (stream k).2 <= length (rd_bytes k))%nat.
Proof.
  unfold rd_bytes. induction k as [|[[|c d]|e] k IH]; simpl; [lia|lia| |].
  - rewrite !length_app. lia.
  - destruct (retried e); simpl; lia.
Qed.

(** One successful, final or failed read. *)
Definition read_step (b : buffer) (d : bytes) (k : list rdres) (r : Z * buffer) (k' : list rdres) : Prop :=
  (r = (0, b) /\ stream k = (true, [])) \/ (r = (-1, b) /\ stream k = (false, [])) \/
  exists w, w <> [] /\ r.1 = blen w /\ stream k = ((stream k').1, w ++ (stream k').2) /\
    holds r.2 (d ++ w) /\ b_size r.2 = b_size b /\ b_used r.2 = b_used b.

Lemma stream_data d k : d <> [] -> stream (RdData d :: k) = ((stream k).1, d ++ (stream k).2).
Proof. by destruct d. Qed.

Lemma sys_read_stream n s : 0 < n ->
  (exists s', sys_read n s = Ret (0, []) s' /\ stream (k_read s) = (true, [])) \/
  (exists e k s', sys_read n s = Ret (-1, []) s' /\ n_errno s' = e /\ k_read s' = k /\ k_read s = RdErr e :: k) \/
  (exists w s', sys_read n s = Ret (blen w, w) s' /\ 0 < blen w <= n /\
    stream (k_read s) = ((stream (k_read s')).1, w ++ (stream (k_read s')).2)).
Proof.
  intros Hn. unfold sys_read. destruct (k_read s) as [|[[|c x]|e] k]; [by left; eexists| | |].
  - left. rewrite zdrop_nil, ztake_nil. by eexists.
  - right. right. exists (ztake n (c :: x)). eexists. split; [reflexivity|].
    pose proof (blen_nonneg x). rewrite blen_ztake, blen_cons. split; [lia|].
    rewrite stream_data by done. pose proof (ztake_zdrop n (c :: x)) as E.
    destruct (zdrop n (c :: x)) as [|y rest]; cbn [k_read set_read].
    + rewrite app_nil_r in E. by rewrite E.
    + rewrite stream_data by done. cbn [fst snd]. by rewrite app_assoc, E.
  - right. left. by do 3 eexists.
Qed.

Lemma buffer_read_wp b d s : holds b d -> b_used b + blen d < b_size b ->
  runs (buffer_read b) (fun r s' => read_step b d (k_read s) r (k_read s')) s.
Proof.
  intros Hb Hroom. pose proof (holds_bounds b d Hb) as (Hu & Hl & _). unfold buffer_read. apply wp_bind, wp_gets.
  apply (loop_wp (fun _ s' => stream (k_read s') = stream (k_read s)) (fun _ s' => length (k_read s')));
    [|done|lia].
  intros [] s1 E. unfold read_step. rewrite <- E. unfold wp, buffer_read_body.
  destruct (sys_read_stream (b_size b - (b_used b + b_left b)) s1) as
    [(s2 & E2 & Es)|[(e & k & s2 & E2 & Ee & <- & Es)|(w & s2 & E2 & Hw & Es)]]; [lia|..];
    rewrite (bind_Ret _ _ _ _ _ E2); unfold bind, socket_errno, gets; simpl.
  - left. done.
  - rewrite Ee, Es. simpl. fold (retried e). destruct (retried e) eqn:Er; simpl; [split; [done|lia]|].
    right. left. done.
  - destruct (Z.eqb_spec (blen w) (-1)); [lia|]. cbn [andb]. destruct (Z.ltb_spec 0 (blen w)) as [_|]; [|lia].
    destruct (write_behind b d w (blen w) Hb) as (b2 & -> & _ & Es2 & Eu & El & H2); [lia..|].
    rewrite ztake_ge in H2 by lia. simpl. right. right. exists w.
    split; [intros ->; change (0 < 0 <= b_size b - (b_used b + b_left b)) in Hw; lia|]. done.
Qed.

(** * The specification: a buffer is a string of unconsumed bytes *)

Inductive bufop : Type :=
  | Resize (size : Z)
  | Compact
  | Set_ (data : bytes)
  | Append (data : bytes)
  | AppendPrintf (text : bytes)
  | Printf (text : bytes).

Definition buffer_op (op : bufop) (b : buffer) : option buffer :=
  match op with
  | Resize size => Some (buffer_resize b size)
  | Compact => buffer_compact b
  | Set_ data => buffer_set b data
  | Append data => buffer_append b data
  | AppendPrintf text => buffer_append_vsprintf b text
  | Printf text => buffer_vsprintf b text
  end.

Definition string_op (op : bufop) (d : bytes) : bytes :=
  match op with
  | Resize _ | Compact => d
  | Set_ data => data
  | Append data => d ++ data
  | AppendPrintf text => d ++ printed text
  | Printf text => printed text
  end.

(** The bytes an operation can ask for. *)
Definition op_cost (op : bufop) : Z :=
  match op with
  | Resize size => size
  | Compact => 0
  | Set_ w | Append w => blen w
  | AppendPrintf w | Printf w => blen (printed w)
  end.
Definition ops_cost (ops : list bufop) : Z := foldr (fun op n => op_cost op + n) 0 ops.

Definition run_ops (ops : list bufop) (b : buffer) : option buffer :=
  foldl (fun b op => b ← b; buffer_op op b) (Some b) ops.
Definition string_ops (ops : list bufop) (d : bytes) : bytes := foldl (fun d op => string_op op d) d ops.

Definition op_valid (op : bufop) : Prop := match op with Resize size => 0 <= size | _ => True end.

Lemma op_cost_nonneg op : op_valid op -> 0 <= op_cost op.
Proof. destruct op; simpl; intros; try done; apply blen_nonneg. Qed.
Lemma ops_cost_nonneg ops : Forall op_valid ops -> 0 <= ops_cost ops.
Proof. induction 1 as [|op ops Hop _ IH]; simpl; [done|]. pose proof (op_cost_nonneg op Hop). lia. Qed.

(** One operation: the data follow, and the block stays within the bytes asked for so far. *)
Lemma op_holds op b d n : holds b d -> op_valid op -> b_used b + blen d <= n -> b_size b <= n + 1024 ->
  n + op_cost op + 1024 < 2 ^ 64 ->
  exists b', buffer_op op b = Some b' /\ holds b' (string_op op d) /\
    b_used b' + blen (string_op op d) <= n + op_cost op /\ b_size b' <= n + op_cost op + 1024.
Proof.
  intros Hb Hv Hn Hs H64. pose proof (holds_bounds b d Hb) as (Hu & Hl & Hr). pose proof (op_cost_nonneg op Hv).
  pose proof (blen_nonneg d). destruct op as [size| |w|w|w|w]; simpl in *.
  - destruct (resize_holds b d size Hb) as (Hb' & Eu & Hsz & Hmax); [lia..|]. eexists. split; [done|]. split; [done|]. lia.
  - destruct (compact_holds b d Hb) as (b' & -> & Hb' & Eu & Es). exists b'. split; [done|]. split; [done|]. lia.
  - destruct (set_holds b d w Hb) as (b' & -> & Hb' & Eu & Es); [lia|]. exists b'. split; [done|]. split; [done|]. lia.
  - destruct (append_holds b d w Hb) as (b' & -> & Hb' & Eu & Es); [lia|]. exists b'. split; [done|]. split; [done|].
    rewrite blen_app. lia.
  - destruct (vsprintf_holds b d w Hb) as (b' & -> & Hb' & Eu & Es); [lia|]. exists b'. split; [done|]. split; [done|].
    rewrite blen_app. lia.
  - unfold buffer_vsprintf. destruct (set_holds b d [] Hb) as (b1 & -> & Hb1 & Eu1 & Es1); [done|].
    change (blen []) with 0 in Es1. cbn [mbind option_bind].
    destruct (vsprintf_holds b1 [] w Hb1) as (b' & -> & Hb' & Eu & Es); change (blen (@nil byte)) with 0 in *; [lia|].
    exists b'. split; [done|]. split; [done|]. lia.
Qed.

Lemma ops_hold ops : forall b d n, holds b d -> Forall op_valid ops -> b_used b + blen d <= n ->
  b_size b <= n + 1024 -> n + ops_cost ops + 1024 < 2 ^ 64 ->
  exists b', run_ops ops b = Some b' /\ holds b' (string_ops ops d) /\ b_size b' <= n + ops_cost ops + 1024.
Proof.
  induction ops as [|op ops IH]; intros b d n Hb Hv Hn Hs H64; simpl in *; [exists b; repeat split; done || lia|].
  apply Forall_cons_1 in Hv as [Hop Hv]. pose proof (ops_cost_nonneg ops Hv).
  destruct (op_holds op b d n Hb Hop Hn Hs) as (b1 & E & Hb1 & Hn1 & Hs1); [lia|].
  destruct (IH b1 _ (n + op_cost op) Hb1 Hv Hn1 Hs1) as (b2 & E2 & Hb2 & Hs2); [lia|].
  unfold run_ops in *. simpl. rewrite E. exists b2. split; [done|]. split; [done|]. lia.
Qed.

(** C29: refinement of the byte-string specification by [util/buffer.c]: any sequence of resizing, compacting,
    setting, appending and printing on a new buffer whose requests stay below the address space runs
    without leaving the allocated block, and the buffer then holds exactly the bytes the same sequence
    of string operations produces, where a text of more than [INT_MAX] bytes is not printed; the block is
    at most 1 kB larger than all that was asked for. *)
Theorem buffer_refines_string ops : Forall op_valid ops -> ops_cost ops + 1024 < 2 ^ 64 ->
  exists b, run_ops ops buffer_new = Some b /\ holds b (string_ops ops []) /\ b_size b <= ops_cost ops + 1024.
Proof.
  intros Hv H64. exact (ops_hold ops buffer_new [] 0 buffer_new_holds Hv ltac:(done) ltac:(done) H64).
Qed.

Definition demo_ops : list bufop :=
  [Append (str "abc"); AppendPrintf (str "def"); Resize 2000; Compact; Append (str "g")].

Lemma buffer_refines_string_witness :
  exists b, run_ops demo_ops buffer_new = Some b /\ holds b (str "abcdefg") /\ b_size b <= 3031.
Proof.
  refine (buffer_refines_string demo_ops _ _); [repeat constructor; done|reflexivity].
Defined.

(** [buffer_find_string] finds the first occurrence at or after its starting point, and answers
    false exactly when there is none; it never reads outside the buffer's data. *)
Lemma find_string_first b d string start : holds b d -> is_Some (b_data b) -> blen d < 2 ^ 64 ->
  string <> [] -> 0 <= start <= blen d ->
  exists r, buffer_find_string b string start = Some r /\ first_occurrence string d start r.
Proof.
  intros Hb [m Em] H64 Hs Hst. unfold buffer_find_string. rewrite Em. destruct string as [|c string]; [done|].
  apply find_string_loop_spec; [done..|]. pose proof (holds_bounds b d Hb) as (_ & -> & _). lia.
Qed.

Definition demo_text : buffer :=
  default buffer_new (run_ops [Append (str "GET / HTTP"); Append [x0d; x0d; x0a; x0d; x0a]] buffer_new).

Lemma find_string_first_witness :
  exists r, buffer_find_string demo_text [x0d; x0a] 0 = Some r /\
    first_occurrence [x0d; x0a] (str "GET / HTTP" ++ [x0d; x0d; x0a; x0d; x0a]) 0 r.
Proof.
  refine (find_string_first demo_text _ _ 0 _ _ _ _ _); [|by vm_compute; eexists|done|done|done].
  exists [], (replicate 1009 None). vm_compute. done.
Defined.

(** C40: [buffer_read_all] terminates with everything there was to read.  Whatever chunks the kernel delivers
    and however often reads are interrupted, the buffer afterwards holds what it held before followed by the
    bytes up to the end of the file or the first real error, and the result says which it was; as long
    as the data stay below 2^60 bytes the growing buffer never overflows its size. *)
Theorem buffer_read_all_stream b d s : holds b d -> blen d < 2 ^ 60 -> b_used b < 2 ^ 60 -> b_size b < 2 ^ 63 ->
  blen (rd_bytes (k_read s)) < 2 ^ 60 ->
  runs (buffer_read_all b) (fun r _ => r.1 = (stream (k_read s)).1 /\
    holds r.2 (d ++ (stream (k_read s)).2) /\ b_used r.2 = b_used b) s.
Proof.
  intros Hb Hd Hu Hs Hr. pose proof (holds_bounds b d Hb) as (Hu0 & Hl & Hroom). unfold buffer_read_all.
  set (b1 := if b_size b =? 0 then buffer_resize b 1024 else b). apply wp_bind, wp_gets.
  assert (holds b1 d /\ b_used b1 = b_used b /\ 0 < b_size b1 < 2 ^ 63) as (Hb1 & Eu1 & Hs1).
  { unfold b1. destruct (Z.eqb_spec (b_size b) 0) as [Hz|Hz]; [|pose proof (blen_nonneg d); repeat split; done || lia].
    destruct (resize_holds b d 1024 Hb) as (? & ? & ? & ?); [lia..|]. repeat split; done || lia. }
  pose proof (stream_bytes (k_read s)) as Hsb.
  apply (loop_wp (fun c s' => exists w, holds c (d ++ w) /\ b_used c = b_used b /\ 0 < b_size c < 2 ^ 63 /\
      stream (k_read s) = ((stream (k_read s')).1, w ++ (stream (k_read s')).2))
    (fun _ s' => length (stream (k_read s')).2)); [| |lia].
  2:{ exists []. rewrite app_nil_r. repeat split; try done || lia. by destruct (stream (k_read s)). }
  intros c s1 (w & Hc & Euc & Hsc & Est). unfold read_all_body. apply wp_bind.
  pose proof (holds_bounds c _ Hc) as (Hu1 & Hlc & Hrc). rewrite blen_app in *.
  assert (blen w < 2 ^ 60) as Hw.
  { rewrite Est in Hsb. simpl in Hsb. rewrite length_app in Hsb. unfold blen in *. lia. }
  set (c1 := if b_size c <=? b_used c + b_left c then _ else c).
  assert (holds c1 (d ++ w) /\ b_used c1 = b_used b /\ b_used c1 + blen (d ++ w) < b_size c1 < 2 ^ 63) as (Hc1 & Eu2 & Hsc1).
  { unfold c1. rewrite blen_app. destruct (Z.leb_spec (b_size c) (b_used c + b_left c)); [|repeat split; done || lia].
    rewrite u64_small by lia. destruct (resize_holds c (d ++ w) (b_size c * 2) Hc) as (? & ? & ? & ?); [lia..|].
    repeat split; done || lia. }
  eapply runs_mono; [exact (buffer_read_wp c1 _ s1 Hc1 (proj1 Hsc1))|].
  intros [count c2] s2 [[[= -> ->] E]|[[[= -> ->] E]|(x & Hx & Ex & E & Hc2 & Es & Eu3)]]; simpl in *.
  - rewrite Est, E. simpl. rewrite app_nil_r. done.
  - rewrite Est, E. simpl. rewrite app_nil_r. done.
  - destruct (Z.ltb_spec 0 count); [|destruct x; [done|rewrite blen_cons in Ex; pose proof (blen_nonneg x); lia]].
    rewrite E. simpl. split.
    + exists (w ++ x). rewrite app_assoc. pose proof (blen_nonneg (d ++ w)).
      split; [done|]. split; [congruence|]. split; [lia|]. rewrite Est, E. simpl. by rewrite app_assoc.
    + rewrite length_app. destruct x; [done|simpl; lia].
Qed.

Lemma buffer_read_all_stream_witness :
  let k := [RdData (str "one "); RdErr EINTR; RdData (str "two"); RdData []; RdData (str "unread")] in
  let s := Net k [] [] [] [] 0 false in
  runs (buffer_read_all buffer_new) (fun r _ => r.1 = true /\ holds r.2 (str "one two") /\ b_used r.2 = 0) s.
Proof. intros k s. refine (buffer_read_all_stream buffer_new [] s buffer_new_holds _ _ _ _); done. Defined.
