(* ===== verification/Tokens.v ===== *)
(** Tokens: [util/protocol.h], [util/tokens.c] and [util/gss-tokens.c].

    A token is a flag byte, a four byte length and the data.  The GSS-API
    mechanism is a class: its operations act on an abstract context, and
    [GssLaws] is what RFC 2743 promises about two ends of one context. *)

From S2P Require Import Prelude Effects Net.

(** * util/protocol.h, util/tokens.h *)

Definition MESSAGE_COMMAND : Z := 1.
Definition MESSAGE_QUIT : Z := 2.
Definition MESSAGE_OUTPUT : Z := 3.
Definition MESSAGE_STATUS : Z := 4.
Definition MESSAGE_ERROR : Z := 5.
Definition MESSAGE_VERSION : Z := 6.
Definition MESSAGE_NOOP : Z := 7.

Definition TOKEN_MAX_LENGTH : Z := 1024 * 1024.
Definition TOKEN_MAX_DATA : Z := 64 * 1024.
Definition TOKEN_MAX_OUTPUT : Z := TOKEN_MAX_DATA - 1 - 1 - 1 - 4.
Definition TOKEN_MAX_OUTPUT_V1 : Z := TOKEN_MAX_DATA - 4 - 4.

Inductive error_codes : Type :=
  | ERROR_INTERNAL | ERROR_BAD_TOKEN | ERROR_UNKNOWN_MESSAGE | ERROR_BAD_COMMAND
  | ERROR_UNKNOWN_COMMAND | ERROR_ACCESS | ERROR_TOOMANY_ARGS | ERROR_TOOMUCH_DATA
  | ERROR_UNEXPECTED_MESSAGE | ERROR_NO_HELP.

Definition error_num (c : error_codes) : Z :=
  match c with
  | ERROR_INTERNAL => 1 | ERROR_BAD_TOKEN => 2 | ERROR_UNKNOWN_MESSAGE => 3
  | ERROR_BAD_COMMAND => 4 | ERROR_UNKNOWN_COMMAND => 5 | ERROR_ACCESS => 6
  | ERROR_TOOMANY_ARGS => 7 | ERROR_TOOMUCH_DATA => 8
  | ERROR_UNEXPECTED_MESSAGE => 9 | ERROR_NO_HELP => 10
  end.

#[export] Instance error_codes_eq_dec : EqDecision error_codes.
Proof. solve_decision. Defined.

Definition TOKEN_NOOP : Z := Z.shiftl 1 0.
Definition TOKEN_CONTEXT : Z := Z.shiftl 1 1.
Definition TOKEN_DATA : Z := Z.shiftl 1 2.
Definition TOKEN_MIC : Z := Z.shiftl 1 3.
Definition TOKEN_CONTEXT_NEXT : Z := Z.shiftl 1 4.
Definition TOKEN_SEND_MIC : Z := Z.shiftl 1 5.
Definition TOKEN_PROTOCOL : Z := Z.shiftl 1 6.

(** The flags of every protocol two token. *)
Definition v2_flags : Z := Z.lor TOKEN_DATA TOKEN_PROTOCOL.

(** The flags of a context token in protocol [p]. *)
Definition context_flags (p : Z) : Z := if 1 <? p then Z.lor TOKEN_CONTEXT TOKEN_PROTOCOL else TOKEN_CONTEXT.

Inductive token_status : Type :=
  | TOKEN_OK | TOKEN_FAIL_SYSTEM | TOKEN_FAIL_SOCKET | TOKEN_FAIL_INVALID
  | TOKEN_FAIL_LARGE | TOKEN_FAIL_EOF | TOKEN_FAIL_GSSAPI | TOKEN_FAIL_TIMEOUT.

#[export] Instance token_status_eq_dec : EqDecision token_status.
Proof. solve_decision. Defined.

Definition status_ok (st : token_status) : bool := bool_decide (st = TOKEN_OK).

(** * util/tokens.c *)

Definition map_socket_error (err : Z) : token_status :=
  if err =? EPIPE then TOKEN_FAIL_EOF
  else if err =? ECONNRESET then TOKEN_FAIL_EOF
  else if err =? ETIMEDOUT then TOKEN_FAIL_TIMEOUT
  else TOKEN_FAIL_SOCKET.

(** The message written by [token_send]. *)
Definition token_wire (flags : Z) (tok : bytes) : bytes :=
  [bz flags] ++ be32 (blen tok) ++ tok.

Definition token_send (fd flags : Z) (tok : bytes) (timeout : Z) : M net token_status :=
  if UINT32_MAX - 1 - 4 <? blen tok then
    do* socket_set_errno ENOMEM in
    ret TOKEN_FAIL_SYSTEM
  else
    let* okay := network_write fd (token_wire flags tok) timeout in
    if (okay : bool) then ret TOKEN_OK
    else
      let* err := socket_errno in
      ret (map_socket_error err).

(** The status with the flags and the token read so far. *)
Definition token_recv (fd max timeout : Z) : M net (token_status * Z * bytes) :=
  let* (ok, char_flags) := network_read fd 1 timeout in
  if negb ok then let* err := socket_errno in ret (map_socket_error err, 0, [])
  else
  let flags := bu (default nul (head char_flags)) in
  let* (ok, len) := network_read fd 4 timeout in
  if negb ok then let* err := socket_errno in ret (map_socket_error err, flags, [])
  else
  let length := of_be32 len in
  if max <? length then ret (TOKEN_FAIL_LARGE, flags, [])
  else if length =? 0 then ret (TOKEN_OK, flags, [])
  else
  let* (ok, value) := network_read fd length timeout in
  if negb ok then let* err := socket_errno in ret (map_socket_error err, flags, [])
  else ret (TOKEN_OK, flags, value).

(** * util/gss-tokens.c *)

Definition GSS_S_COMPLETE : Z := 0.
Definition GSS_S_CONTINUE_NEEDED : Z := 1.

(** The flags of a context, and those protocol two requires. *)
Definition GSS_C_MUTUAL_FLAG : Z := 2.
Definition GSS_C_REPLAY_FLAG : Z := 4.
Definition GSS_C_SEQUENCE_FLAG : Z := 8.
Definition GSS_C_CONF_FLAG : Z := 16.
Definition GSS_C_INTEG_FLAG : Z := 32.

Definition req_gss_flags : Z :=
  Z.lor GSS_C_MUTUAL_FLAG (Z.lor GSS_C_CONF_FLAG GSS_C_INTEG_FLAG).

(** Whether the negotiated flags are acceptable to protocol two. *)
Definition flags_acceptable (flags : Z) : bool := Z.land flags req_gss_flags =? req_gss_flags.

(** The GSS-API calls: each gives the major status, its output and the context
    after the call. *)
Class GssMech (C : Type) : Type := {
  gss_wrap : C -> bytes -> Z * bytes * C;
  gss_unwrap : C -> bytes -> Z * bytes * C;
  gss_get_mic : C -> bytes -> Z * bytes * C;
  gss_verify_mic : C -> bytes -> bytes -> Z * C;
}.

(** The two ends [a] and [b] of an established context agree. *)
Class GssLaws (C : Type) `{GssMech C} : Type := {
  gss_sync : C -> C -> Prop;
  gss_unwrap_wrap : forall a b m c a', gss_sync a b ->
    gss_wrap a m = (GSS_S_COMPLETE, c, a') ->
    exists b', gss_unwrap b c = (GSS_S_COMPLETE, m, b') /\ gss_sync a' b';
  gss_verify_get_mic : forall a b m c b', gss_sync a b ->
    gss_get_mic b m = (GSS_S_COMPLETE, c, b') ->
    exists a', gss_verify_mic a m c = (GSS_S_COMPLETE, a') /\ gss_sync a' b';
}.

(** One end of a connection.  [ch_sent] is a history variable: the flags and
    payloads [token_send_priv] has put on the wire, oldest first. *)
Record chan (C : Type) : Type := Chan {
  ch_net : net;
  ch_ctx : C;
  ch_sent : list (Z * bytes);
}.
Arguments Chan {C}.
Arguments ch_net {C}.
Arguments ch_ctx {C}.
Arguments ch_sent {C}.

Section gss_tokens.
Context {C : Type} `{GssMech C}.

Definition on_net {A} (m : M net A) : M (chan C) A :=
  zoom ch_net (fun n c => Chan n (ch_ctx c) (ch_sent c)) m.

Definition on_ctx {A} (f : C -> A * C) : M (chan C) A := fun c =>
  let '(a, ctx) := f (ch_ctx c) in Ret a (Chan (ch_net c) ctx (ch_sent c)).

Definition record_sent (flags : Z) (tok : bytes) : M (chan C) unit :=
  modify (fun c => Chan (ch_net c) (ch_ctx c) (ch_sent c ++ [(flags, tok)])).

(** [flags & TOKEN_SEND_MIC && !(flags & TOKEN_PROTOCOL)]. *)
Definition wants_mic (flags : Z) : bool :=
  negb (Z.land flags TOKEN_SEND_MIC =? 0) && (Z.land flags TOKEN_PROTOCOL =? 0).

Definition token_send_priv (fd flags : Z) (tok : bytes) (timeout : Z)
    : M (chan C) token_status :=
  if TOKEN_MAX_DATA <? blen tok then ret TOKEN_FAIL_LARGE else
  let* (major, out) := on_ctx (fun ctx => gss_wrap ctx tok) in
  if negb (major =? GSS_S_COMPLETE) then ret TOKEN_FAIL_GSSAPI else
  let* status := on_net (token_send fd flags out timeout) in
  if negb (status_ok status) then ret status else
  do* record_sent flags tok in
  if wants_mic flags then
    let* (status, micflags, mic) := on_net (token_recv fd (10 * 1024) timeout) in
    if negb (status_ok status) then ret status
    else if negb (micflags =? TOKEN_MIC) then ret TOKEN_FAIL_INVALID
    else
      let* major := on_ctx (fun ctx => gss_verify_mic ctx tok mic) in
      if negb (major =? GSS_S_COMPLETE) then ret TOKEN_FAIL_GSSAPI
      else ret TOKEN_OK
  else ret TOKEN_OK.

Definition token_recv_priv (fd max timeout : Z) : M (chan C) (token_status * Z * bytes) :=
  let* (status, flags, inb) := on_net (token_recv fd max timeout) in
  if negb (status_ok status) then ret (status, flags, []) else
  let* (major, tok) := on_ctx (fun ctx => gss_unwrap ctx inb) in
  if negb (major =? GSS_S_COMPLETE) then ret (TOKEN_FAIL_GSSAPI, flags, []) else
  if wants_mic flags then
    let* (major, mic) := on_ctx (fun ctx => gss_get_mic ctx tok) in
    if negb (major =? GSS_S_COMPLETE) then ret (TOKEN_FAIL_GSSAPI, flags, []) else
    let* status := on_net (token_send fd TOKEN_MIC mic timeout) in
    if negb (status_ok status) then ret (status, flags, [])
    else ret (TOKEN_OK, Z.land flags (Z.lnot TOKEN_SEND_MIC), tok)
  else ret (TOKEN_OK, flags, tok).
End gss_tokens.

(** * Lemmas *)

#[global] Arguments token_wire : simpl never.

(** Only the check of [FD_SET] depends on the descriptor. *)
Ltac below := repeat (intros; match goal with
  | |- below (let '(_, _) := ?x in _) _ => destruct x
  | |- below _ _ => first [solve [auto with below] | apply below_bind | apply below_if | apply below_zoom]
  end).

Lemma token_send_below fd flags tok timeout : below (token_send fd flags tok timeout) (token_send 0 flags tok timeout).
Proof. unfold token_send. below. Qed.
Lemma token_recv_below fd max timeout : below (token_recv fd max timeout) (token_recv 0 max timeout).
Proof. unfold token_recv. below. Qed.
#[export] Hint Resolve token_send_below token_recv_below : below.

Lemma blen_token_wire flags tok : blen (token_wire flags tok) = 5 + blen tok.
Proof. unfold token_wire. rewrite !blen_app, blen_be32, blen_cons, blen_nil. lia. Qed.

Lemma token_send_wp fd flags tok timeout s0 : selectable fd timeout ->
  runs (token_send fd flags tok timeout) (fun st s =>
    (exists total, write_inv (token_wire flags tok) s0 total s) /\
    (st = TOKEN_OK -> n_out s = n_out s0 ++ token_wire flags tok) /\
    (calm timeout s0 -> blen tok <= UINT32_MAX - 5 -> st = TOKEN_OK /\ calm timeout s)) s0.
Proof.
  intros Hfd. unfold token_send. destruct (Z.ltb_spec (UINT32_MAX - 1 - 4) (blen tok)).
  - apply runs_bind, wp_modify, runs_ret. split; [|split; [done|intros _ ?; exfalso; lia]].
    exists 0. split; [blia|]. rewrite ztake_0, app_nil_r by lia. done.
  - apply runs_bind. eapply runs_mono; [by apply network_write_wp|].
    intros ok s (Hex & Hok & Hcalm). destruct ok.
    + apply runs_ret. split; [done|]. split; [|intros Hc _; by destruct (Hcalm Hc)].
      intros _. destruct (Hok eq_refl) as (_ & -> & _). by rewrite ztake_ge.
    + apply runs_bind, wp_gets, runs_ret. split; [done|]. split.
      * unfold map_socket_error. repeat destruct (_ =? _); done.
      * intros Hc. by destruct (Hcalm Hc).
Qed.

(** A token that went out whole has a length that fits its field. *)
Lemma token_send_wire fd flags tok timeout s0 : selectable fd timeout ->
  runs (token_send fd flags tok timeout) (fun st s => k_read s = k_read s0 /\
    (st = TOKEN_OK -> n_out s = n_out s0 ++ token_wire flags tok /\ blen tok < 2 ^ 32)) s0.
Proof.
  intros Hfd. pose proof (token_send_wp fd flags tok timeout s0 Hfd) as Hr. unfold runs, wp in *.
  destruct (token_send fd flags tok timeout s0) as [st s| | |] eqn:E; [|done..].
  destruct Hr as ((total & _ & _ & Hk) & Hok & _). split; [done|]. intros ->. split; [by apply Hok|].
  unfold token_send in E. destruct (Z.ltb_spec (UINT32_MAX - 1 - 4) (blen tok)); [|unfold UINT32_MAX in *; lia].
  by apply bind_Ret_inv in E as (? & ? & _ & ?).
Qed.

Lemma map_socket_error_not_ok e : map_socket_error e <> TOKEN_OK.
Proof. unfold map_socket_error. by repeat destruct (_ =? _). Qed.

(** Reading [n] bytes whose value the stream fixes. *)
Lemma network_read_exact fd n timeout s a rest : selectable fd timeout ->
  0 < n -> blen a = n -> rd_bytes (k_read s) = a ++ rest -> calm timeout s ->
  runs (network_read fd n timeout)
    (fun r s' => r = (true, a) /\ rd_bytes (k_read s') = rest /\ calm timeout s' /\
                 same_write_side s s') s.
Proof.
  intros Hfd Hn Ha Hrd Hc. eapply runs_mono; [by apply network_read_wp|].
  intros [ok got] s' ((Hb & Hle & Hw) & Hok & Hcalm); simpl in *.
  destruct (Hcalm Hc) as [-> Hc']; [rewrite Hrd; zlist|].
  rewrite Hrd in Hb. apply app_inj_1 in Hb as [-> ->]; [done|].
  specialize (Hok eq_refl). unfold blen in *. lia.
Qed.

(** However the network splits it, a token that arrives is received whole. *)
Lemma token_recv_wire fd flags tok rest max timeout s : selectable fd timeout ->
  0 <= flags < 256 -> blen tok <= max -> blen tok < 2 ^ 32 -> calm timeout s ->
  rd_bytes (k_read s) = token_wire flags tok ++ rest ->
  runs (token_recv fd max timeout) (fun r s' =>
    r = (TOKEN_OK, flags, tok) /\ rd_bytes (k_read s') = rest /\ calm timeout s' /\
    same_write_side s s') s.
Proof.
  intros Hfd Hf Hmax Hlen Hc Hrd. unfold token_wire in Hrd. rewrite <- !app_assoc in Hrd.
  unfold token_recv. apply runs_bind.
  eapply runs_mono; [by eapply (network_read_exact fd 1 _ _ [bz flags])|].
  intros ? s1 (-> & Hrd1 & Hc1 & Hw1). cbn. apply runs_bind.
  eapply runs_mono; [by eapply (network_read_exact fd 4 _ _ (be32 (blen tok)))|].
  intros ? s2 (-> & Hrd2 & Hc2 & Hw2). cbn.
  rewrite of_be32_be32, u32_small by (pose proof (blen_nonneg tok); lia).
  rewrite bu_bz. unfold u8. rewrite Z.mod_small by done.
  rewrite (proj2 (Z.ltb_ge _ _)) by done.
  pose proof (same_write_side_trans _ _ _ Hw1 Hw2) as Hw.
  destruct (Z.eqb_spec (blen tok) 0) as [Hz|Hz].
  { apply runs_ret. apply blen_0 in Hz as ->. done. }
  apply runs_bind. eapply runs_mono; [eapply (network_read_exact fd (blen tok) _ _ tok); (done || blia)|].
  intros ? s3 (-> & Hrd3 & Hc3 & Hw3). cbn. apply runs_ret.
  pose proof (same_write_side_trans _ _ _ Hw Hw3). done.
Qed.

(** Whatever the kernel does, [token_recv] never takes more off the stream
    than one token, and never reads a token longer than [max]. *)
Lemma token_recv_sound fd max timeout s : selectable fd timeout ->
  runs (token_recv fd max timeout) (fun '(st, flags, tok) s' =>
    same_write_side s s' /\
    (exists got, rd_bytes (k_read s) = got ++ rd_bytes (k_read s') /\ blen got <= 5 + Z.max 0 max) /\
    (st = TOKEN_OK -> 0 <= flags < 256 /\ blen tok <= max /\ blen tok < 2 ^ 32 /\
       rd_bytes (k_read s) = token_wire flags tok ++ rd_bytes (k_read s'))) s.
Proof.
  intros Hfd. unfold token_recv. apply runs_bind.
  eapply runs_mono; [by apply network_read_wp|].
  intros [ok c] s1 ((Hb1 & Hl1 & Hw1) & Hok1 & _); simpl in *.
  destruct ok; cbn; cycle 1.
  { apply runs_bind, wp_gets, runs_ret. split; [done|]. split; [exists c; split; [done|lia]|].
    by intros ?%map_socket_error_not_ok. }
  specialize (Hok1 eq_refl). destruct c as [|c [|]]; [done| |zlist]. simpl.
  apply runs_bind. eapply runs_mono; [by apply network_read_wp|].
  intros [ok l] s2 ((Hb2 & Hl2 & Hw2) & Hok2 & _); simpl in *.
  pose proof (same_write_side_trans _ _ _ Hw1 Hw2) as Hw. rewrite Hb2 in Hb1.
  destruct ok; cbn; cycle 1.
  { apply runs_bind, wp_gets, runs_ret. split; [done|].
    split; [exists ([c] ++ l); split; [done|zlist]|].
    by intros ?%map_socket_error_not_ok. }
  specialize (Hok2 eq_refl).
  assert (length l = 4%nat) as Hl4 by (unfold blen in *; lia).
  pose proof (of_be32_range l Hl4) as Hr.
  destruct (Z.ltb_spec max (of_be32 l)).
  { apply runs_ret. split; [done|]. split; [exists ([c] ++ l); split; [done|zlist]|done]. }
  pose proof (bu_range c).
  destruct (Z.eqb_spec (of_be32 l) 0) as [Hz|Hz].
  { apply runs_ret. split; [done|]. split; [exists ([c] ++ l); split; [done|zlist]|].
    intros _. split; [done|]. split; [zlist|]. split; [zlist|].
    unfold token_wire. rewrite bz_bu. rewrite <- (be32_of_be32 l Hl4), Hz in Hb1.
    exact Hb1. }
  apply runs_bind. eapply runs_mono; [apply network_read_wp; [done|lia]|].
  intros [ok v] s3 ((Hb3 & Hl3 & Hw3) & Hok3 & _); simpl in *. rewrite Hb3 in Hb1.
  pose proof (same_write_side_trans _ _ _ Hw Hw3) as Hw'.
  assert (exists got, rd_bytes (k_read s) = got ++ rd_bytes (k_read s3) /\
            blen got <= 5 + Z.max 0 max) as Hgot.
  { exists ([c] ++ l ++ v). split; [by rewrite Hb1, !app_assoc|zlist]. }
  destruct ok; cbn.
  - apply runs_ret. split; [done|]. split; [done|]. intros _. specialize (Hok3 eq_refl).
    split; [done|]. split; [lia|]. split; [lia|]. unfold token_wire.
    rewrite bz_bu. rewrite <- (be32_of_be32 l Hl4), <- Hok3 in Hb1. exact Hb1.
  - apply runs_bind, wp_gets, runs_ret. split; [done|]. split; [done|].
    by intros ?%map_socket_error_not_ok.
Qed.

(** How much of the stream is still to be read. *)
Definition to_read (n : net) : nat := length (rd_bytes (k_read n)).

Section gss_tokens_lemmas.
Context {C : Type} `{GssMech C}.

Lemma runs_on_net {A} (m : M net A) (Q : A -> chan C -> Prop) c :
  runs m (fun a n => Q a (Chan n (ch_ctx c) (ch_sent c))) (ch_net c) ->
  runs (on_net m) Q c.
Proof. unfold runs, wp, on_net, zoom. by destruct (m (ch_net c)). Qed.

Lemma runs_on_ctx {A} (f : C -> A * C) (Q : A -> chan C -> Prop) c a ctx :
  f (ch_ctx c) = (a, ctx) -> Q a (Chan (ch_net c) ctx (ch_sent c)) -> runs (on_ctx f) Q c.
Proof. intros E HQ. unfold runs, wp, on_ctx. by rewrite E. Qed.

Lemma token_send_priv_below fd flags tok timeout :
  below (token_send_priv fd flags tok timeout) (token_send_priv 0 flags tok timeout).
Proof. unfold token_send_priv, on_net. below. Qed.
Lemma token_recv_priv_below fd max timeout : below (token_recv_priv fd max timeout) (token_recv_priv 0 max timeout).
Proof. unfold token_recv_priv, on_net. below. Qed.
Lemma selectable_0 timeout : selectable 0 timeout.
Proof. by right. Qed.

(** [token_send_priv] always returns; a success has recorded its token, and
    an oversized payload is refused before anything happens. *)
Lemma token_send_priv_wp fd flags tok timeout c : selectable fd timeout ->
  runs (token_send_priv fd flags tok timeout) (fun st c' =>
    (st = TOKEN_OK -> ch_sent c' = ch_sent c ++ [(flags, tok)]) /\
    (ch_sent c' = ch_sent c \/ ch_sent c' = ch_sent c ++ [(flags, tok)]) /\
    (TOKEN_MAX_DATA < blen tok -> st = TOKEN_FAIL_LARGE /\ c' = c)) c.
Proof.
  intros Hfd. unfold token_send_priv. destruct (Z.ltb_spec TOKEN_MAX_DATA (blen tok)).
  { apply runs_ret. split; [done|]. auto. }
  apply runs_bind. destruct (gss_wrap (ch_ctx c) tok) as [[major out] ctx] eqn:Ew.
  eapply runs_on_ctx; [done|]. simpl.
  destruct (negb (major =? _)); [apply runs_ret; split; [done|split; [by left|lia]]|].
  apply runs_bind, runs_on_net. eapply runs_mono; [by apply token_send_wp|].
  intros st n _. simpl.
  destruct st; simpl; try (apply runs_ret; split; [done|split; [by left|lia]]).
  apply runs_bind, wp_modify. simpl.
  destruct (wants_mic flags); [|apply runs_ret; split; [done|split; [by right|lia]]].
  apply runs_bind, runs_on_net. eapply runs_mono; [by apply token_recv_sound|].
  intros [[st micflags] mic] n' _. simpl.
  destruct st; simpl; try (apply runs_ret; split; [done|split; [by right|lia]]).
  destruct (micflags =? TOKEN_MIC); simpl;
    [|apply runs_ret; split; [done|split; [by right|lia]]].
  apply runs_bind. destruct (gss_verify_mic ctx tok mic) as [major' ctx'] eqn:Ev.
  eapply runs_on_ctx; [done|]. simpl.
  destruct (negb _); apply runs_ret; (split; [done|split; [by right|lia]]).
Qed.

Lemma token_send_priv_returns fd flags tok timeout c :
  token_send_priv fd flags tok timeout c = Fault \/
  runs (token_send_priv fd flags tok timeout) (fun st c' =>
    (st = TOKEN_OK -> ch_sent c' = ch_sent c ++ [(flags, tok)]) /\
    (ch_sent c' = ch_sent c \/ ch_sent c' = ch_sent c ++ [(flags, tok)]) /\
    (TOKEN_MAX_DATA < blen tok -> st = TOKEN_FAIL_LARGE /\ c' = c)) c.
Proof. eapply below_runs; [apply token_send_priv_below|apply token_send_priv_wp, selectable_0]. Qed.

(** The success path of a send that waits for no MIC. *)
Lemma token_send_priv_ok fd flags tok timeout c c' :
  wants_mic flags = false ->
  token_send_priv fd flags tok timeout c = Ret TOKEN_OK c' ->
  blen tok <= TOKEN_MAX_DATA /\ exists out,
    gss_wrap (ch_ctx c) tok = (GSS_S_COMPLETE, out, ch_ctx c') /\
    n_out (ch_net c') = n_out (ch_net c) ++ token_wire flags out.
Proof.
  intros Hmic E.
  assert (runs (token_send_priv 0 flags tok timeout) (fun st c' => st = TOKEN_OK ->
    blen tok <= TOKEN_MAX_DATA /\ exists out,
    gss_wrap (ch_ctx c) tok = (GSS_S_COMPLETE, out, ch_ctx c') /\
    n_out (ch_net c') = n_out (ch_net c) ++ token_wire flags out) c) as Hr.
  { assert (selectable 0 timeout) as Hfd by (by right).
    unfold token_send_priv. destruct (Z.ltb_spec TOKEN_MAX_DATA (blen tok)); [by apply runs_ret|].
    apply runs_bind. destruct (gss_wrap (ch_ctx c) tok) as [[major out] ctx] eqn:Ew.
    eapply runs_on_ctx; [done|]. simpl.
    destruct (Z.eqb_spec major GSS_S_COMPLETE) as [->|]; simpl; [|by apply runs_ret].
    apply runs_bind, runs_on_net. eapply runs_mono; [by apply token_send_wp|].
    intros st n (_ & Hok & _). simpl. destruct st; simpl; try by apply runs_ret.
    apply runs_bind, wp_modify. rewrite Hmic. apply runs_ret. simpl. intros _.
    split; [lia|]. exists out. split; [done|]. by apply Hok. }
  apply (below_runs _ _ _ _ (token_send_priv_below fd flags tok timeout)) in Hr.
  unfold runs, wp in Hr. rewrite E in Hr. by destruct Hr as [|Hr]; [|apply Hr].
Qed.

(** Receiving sends nothing. *)
Definition unwritten (c c' : chan C) : Prop :=
  ch_sent c' = ch_sent c /\ n_out (ch_net c') = n_out (ch_net c).

Lemma unwritten_trans c1 c2 c3 : unwritten c1 c2 -> unwritten c2 c3 -> unwritten c1 c3.
Proof. intros [E1 F1] [E2 F2]. split; congruence. Qed.

(** The receiving side of a token whose cleartext is [tok]. *)
Lemma token_recv_priv_wire `{!GssLaws C} fd flags tok out a a' c max timeout rest : selectable fd timeout ->
  gss_sync a (ch_ctx c) -> gss_wrap a tok = (GSS_S_COMPLETE, out, a') ->
  wants_mic flags = false -> 0 <= flags < 256 -> blen out <= max -> blen out < 2 ^ 32 ->
  calm timeout (ch_net c) -> rd_bytes (k_read (ch_net c)) = token_wire flags out ++ rest ->
  runs (token_recv_priv fd max timeout) (fun r c' =>
    r = (TOKEN_OK, flags, tok) /\ gss_sync a' (ch_ctx c') /\
    rd_bytes (k_read (ch_net c')) = rest /\ calm timeout (ch_net c') /\
    unwritten c c') c.
Proof.
  intros Hfd Hs Hw Hmic Hf Hmax Hlen Hc Hrd.
  edestruct gss_unwrap_wrap as (b' & Hu & Hs'); [exact Hs|exact Hw|].
  unfold token_recv_priv. apply runs_bind, runs_on_net.
  eapply runs_mono; [by eapply token_recv_wire|]. intros ? n (-> & Hn & Hc' & _ & Hout & _). simpl.
  apply runs_bind. eapply runs_on_ctx; [exact Hu|]. simpl. rewrite Hmic. by apply runs_ret.
Qed.

(** ** How much is left to read *)

Lemma token_recv_reads fd max timeout s : selectable fd timeout ->
  runs (token_recv fd max timeout) (fun '(st, _, _) s' =>
    (to_read s' <= to_read s)%nat /\ (st = TOKEN_OK -> (to_read s' + 5 <= to_read s)%nat)) s.
Proof.
  intros Hfd. eapply runs_mono; [by apply token_recv_sound|]. intros [[st flags] tok] s' (_ & (got & E & _) & Hok).
  unfold to_read. split; [rewrite E, length_app; lia|]. intros ->. destruct (Hok eq_refl) as (_ & _ & _ & ->).
  rewrite length_app. pose proof (blen_token_wire flags tok). pose proof (blen_nonneg tok). unfold blen in *. lia.
Qed.

Lemma token_send_reads fd flags tok timeout s : selectable fd timeout ->
  runs (token_send fd flags tok timeout) (fun _ s' => k_read s' = k_read s) s.
Proof. intros Hfd. eapply runs_mono; [by apply token_send_wp|]. intros st s' ((total & _ & _ & E) & _). exact E. Qed.

Lemma token_recv_priv_reads fd max timeout c : selectable fd timeout ->
  runs (token_recv_priv fd max timeout) (fun '(st, _, _) c' =>
    (to_read (ch_net c') <= to_read (ch_net c))%nat /\
    (st = TOKEN_OK -> (to_read (ch_net c') + 5 <= to_read (ch_net c))%nat)) c.
Proof.
  intros Hfd. unfold token_recv_priv. apply runs_bind, runs_on_net. eapply runs_mono; [by apply token_recv_reads|].
  intros [[st flags] inb] n [Hle Hlt]; simpl. destruct st; simpl; try by apply runs_ret.
  specialize (Hlt eq_refl). apply runs_bind. destruct (gss_unwrap (ch_ctx c) inb) as [[major tok] ctx] eqn:Eu.
  eapply runs_on_ctx; [done|]. simpl. destruct (negb _); [by apply runs_ret|].
  destruct (wants_mic flags); [|by apply runs_ret].
  apply runs_bind. destruct (gss_get_mic ctx tok) as [[major' mic] ctx'] eqn:Em.
  eapply runs_on_ctx; [done|]. simpl. destruct (negb _); [by apply runs_ret|].
  apply runs_bind, runs_on_net. eapply runs_mono; [by apply token_send_reads|]. intros st n' En. simpl in *.
  unfold to_read in *. destruct st; apply runs_ret; simpl; rewrite En; split; (done || lia).
Qed.

Lemma token_send_priv_reads fd flags tok timeout c : selectable fd timeout ->
  runs (token_send_priv fd flags tok timeout) (fun _ c' => (to_read (ch_net c') <= to_read (ch_net c))%nat) c.
Proof.
  intros Hfd. unfold token_send_priv. destruct (_ <? _); [by apply runs_ret|].
  apply runs_bind. destruct (gss_wrap (ch_ctx c) tok) as [[major out] ctx] eqn:Ew.
  eapply runs_on_ctx; [done|]. simpl. destruct (negb _); [by apply runs_ret|].
  apply runs_bind, runs_on_net. eapply runs_mono; [by apply token_send_reads|]. intros st n En. simpl in *.
  assert (to_read n <= to_read (ch_net c))%nat as Hn by (unfold to_read; rewrite En; lia).
  destruct st; simpl; try by apply runs_ret.
  apply runs_bind, wp_modify. simpl. destruct (wants_mic flags); [|by apply runs_ret].
  apply runs_bind, runs_on_net. eapply runs_mono; [by apply token_recv_reads|].
  intros [[st micflags] mic] n' [Hle _]. simpl in *.
  destruct st; simpl; try (apply runs_ret; simpl; lia).
  destruct (micflags =? TOKEN_MIC); simpl; [|apply runs_ret; simpl; lia].
  apply runs_bind. destruct (gss_verify_mic ctx tok mic) as [major' ctx'] eqn:Ev.
  eapply runs_on_ctx; [done|]. simpl. destruct (negb _); apply runs_ret; simpl; lia.
Qed.
End gss_tokens_lemmas.

(** * A concrete mechanism

    The identity mechanism on a one-point context satisfies the laws, so the
    theorems that assume a mechanism are not vacuous; the witnesses use it. *)
Definition null_mech : GssMech unit := {|
  gss_wrap c m := (GSS_S_COMPLETE, m, c);
  gss_unwrap c m := (GSS_S_COMPLETE, m, c);
  gss_get_mic c m := (GSS_S_COMPLETE, [], c);
  gss_verify_mic c m mic := (GSS_S_COMPLETE, c);
|}.

Definition null_laws : @GssLaws unit null_mech.
Proof.
  refine {| gss_sync := fun _ _ : unit => True |}; intros.
  - injection H0 as <- <-. by exists b.
  - by exists a.
Defined.

(** A connection with an empty script, which accepts every write. *)
Definition null_net : net := Net [] [] [] [] [] 0 false.
Definition null_chan : chan unit := Chan null_net tt [].
