(* ===== verification/Connect.v ===== *)
(** Making sockets: the part of [util/network.c] that creates, binds and
    connects them.

    The kernel gives each [socket] call the next [attempt] of a script: how
    the call and the later calls on that socket end, and the connection it
    becomes.  A new descriptor is the lowest that is not open.  Name lookup
    and the parsing of addresses are the class [Inet]. *)

From S2P Require Import Prelude Effects CLib Net Tokens.

(** * The kernel *)

Definition EMFILE : Z := 24.
Definition EAFNOSUPPORT : Z := 97.
Definition EPROTONOSUPPORT : Z := 93.
Definition EINPROGRESS : Z := 115.
Definition AF_INET : Z := 2.
Definition AF_INET6 : Z := 10.
Definition SOCK_STREAM : Z := 1.
Definition IPPROTO_TCP : Z := 6.

Record addrinfo : Type := AI {
  ai_family : Z;
  ai_socktype : Z;
  ai_protocol : Z;
  ai_addr : bytes;
}.

(** [inet_aton] gives the four bytes of a [struct in_addr], [inet_pton] on
    [AF_INET6] the sixteen of a [struct in6_addr]; [getaddrinfo] may answer each lookup
    differently, so it sees the earlier ones. *)
Class Inet : Type := {
  inet_aton : bytes -> option bytes;
  inet_pton6 : bytes -> option bytes;
  getaddrinfo : list (bytes * bytes) -> bytes -> bytes -> Z + list addrinfo;
}.

(** One socket: the errno of each call that fails, the answers to [select]
    while it connects, [SO_ERROR] ([inl] when [getsockopt] fails), and the
    connection. *)
Record attempt (C : Type) : Type := Attempt {
  at_socket : option Z;
  at_options : list (option Z);
  at_bind : option Z;
  at_connect : option Z;
  at_select : list selres;
  at_error : Z + Z;
  at_chan : chan C;
}.
Arguments Attempt {C}.
Arguments at_socket {C}.
Arguments at_options {C}.
Arguments at_bind {C}.
Arguments at_connect {C}.
Arguments at_select {C}.
Arguments at_error {C}.
Arguments at_chan {C}.

Record kern (C : Type) : Type := Kern {
  kn_next : list (attempt C);        (* what the next socket calls get *)
  kn_socks : gmap Z (attempt C);     (* the sockets made, by descriptor *)
  kn_fds : gset Z;                   (* the open descriptors *)
  kn_errno : Z;
  kn_lookups : list (bytes * bytes); (* the lookups made *)
  kn_log : logs;
}.
Arguments Kern {C}.
Arguments kn_next {C}.
Arguments kn_socks {C}.
Arguments kn_fds {C}.
Arguments kn_errno {C}.
Arguments kn_lookups {C}.
Arguments kn_log {C}.

(** The lowest descriptor that is not open. *)
Definition lowest_free (fds : gset Z) : Z :=
  default 0 (list_find (fun fd => fd ∉ fds) (seqZ 0 (Z.of_nat (size fds) + 1)) ≫= fun p => Some p.2).

Lemma lowest_free_spec fds : lowest_free fds ∉ fds /\ forall fd, 0 <= fd < lowest_free fds -> fd ∈ fds.
Proof.
  unfold lowest_free. destruct (list_find _ _) as [[i fd]|] eqn:E; cbn.
  - apply list_find_Some in E as (Hi & Hn & Hl). split; [done|]. intros f Hf.
    apply lookup_seqZ in Hi as [-> Hi]. destruct (decide (f ∈ fds)) as [|Hf']; [done|]. exfalso.
    apply (Hl (Z.to_nat f) f); [|lia|done]. apply lookup_seqZ. lia.
  - exfalso. apply list_find_None in E.
    assert (list_to_set (seqZ 0 (Z.of_nat (size fds) + 1)) ⊆ fds) as Hsub.
    { intros x Hx%elem_of_list_to_set. eapply Forall_forall in E; [|exact Hx]. by destruct (decide (x ∈ fds)). }
    apply subseteq_size in Hsub. rewrite size_list_to_set in Hsub by apply NoDup_seqZ.
    rewrite length_seqZ in Hsub. lia.
Qed.

(** It is at most the number of descriptors that are. *)
Lemma lowest_free_range fds : 0 <= lowest_free fds <= Z.of_nat (size fds).
Proof.
  unfold lowest_free. destruct (list_find _ _) as [[i fd]|] eqn:E; cbn; [|lia].
  apply list_find_Some in E as (Hi & _). apply lookup_seqZ in Hi. lia.
Qed.

#[global] Arguments lowest_free : simpl never.

(** With a timeout, a new descriptor fits an [fd_set] if the process has few
    enough open. *)
Definition fd_room (fds : gset Z) (timeout : Z) : Prop := timeout = 0 \/ Z.of_nat (size fds) < FD_SETSIZE.

Lemma fd_room_selectable fds timeout : fd_room fds timeout -> selectable (lowest_free fds) timeout.
Proof. pose proof (lowest_free_range fds). intros [?|?]; [by left|right; lia]. Qed.

Section connect.
Context {C : Type} `{Inet}.
Implicit Types k : kern C.

Definition put_errno e k : kern C := Kern (kn_next k) (kn_socks k) (kn_fds k) e (kn_lookups k) (kn_log k).
Definition put_next n k : kern C := Kern n (kn_socks k) (kn_fds k) (kn_errno k) (kn_lookups k) (kn_log k).
Definition put_socks m k : kern C := Kern (kn_next k) m (kn_fds k) (kn_errno k) (kn_lookups k) (kn_log k).
Definition put_fds f k : kern C := Kern (kn_next k) (kn_socks k) f (kn_errno k) (kn_lookups k) (kn_log k).
Definition put_lookups l k : kern C := Kern (kn_next k) (kn_socks k) (kn_fds k) (kn_errno k) l (kn_log k).
Definition put_klog l k : kern C := Kern (kn_next k) (kn_socks k) (kn_fds k) (kn_errno k) (kn_lookups k) l.

#[export] Instance kern_HasLog : HasLog (kern C) := fun l k => put_klog (kn_log k ++ [l]) k.

Definition get_errno : M (kern C) Z := gets kn_errno.
Definition set_errno_to (e : Z) : M (kern C) unit := modify (put_errno e).

(** A call that fails with an errno or returns 0. *)
Definition sys_result (r : option Z) : M (kern C) Z :=
  match r with
  | Some e => do* set_errno_to e in ret (-1)
  | None => ret 0
  end.

Definition sys_socket (domain type protocol : Z) : M (kern C) (option Z) :=
  let* next := gets kn_next in
  match next with
  | [] => do* set_errno_to EMFILE in ret None
  | a :: next =>
      do* modify (put_next next) in
      match at_socket a with
      | Some e => do* set_errno_to e in ret None
      | None =>
          let* fds := gets kn_fds in
          let fd := lowest_free fds in
          do* modify (put_fds ({[fd]} ∪ fds)) in
          do* modify (fun k => put_socks (<[fd := a]> (kn_socks k)) k) in
          ret (Some fd)
      end
  end.

(** A socket made by [sys_socket] that is still open. *)
Definition sock (fd : Z) : M (kern C) (attempt C) :=
  let* socks := gets kn_socks in from_option_fault (socks !! fd).
Definition put_sock (fd : Z) (a : attempt C) : M (kern C) unit :=
  modify (fun k => put_socks (<[fd := a]> (kn_socks k)) k).

Definition sys_close (fd : Z) : M (kern C) unit :=
  modify (fun k => put_socks (delete fd (kn_socks k)) (put_fds (kn_fds k ∖ {[fd]}) k)).

Definition sys_bind (fd : Z) : M (kern C) Z :=
  let* a := sock fd in sys_result (at_bind a).
Definition sys_connect (fd : Z) : M (kern C) Z :=
  let* a := sock fd in sys_result (at_connect a).

(** [setsockopt] answers from the script, then with success. *)
Definition sys_setsockopt (fd : Z) : M (kern C) Z :=
  let* a := sock fd in
  match at_options a with
  | [] => ret 0
  | r :: rest =>
      do* put_sock fd (Attempt (at_socket a) rest (at_bind a) (at_connect a) (at_select a)
                               (at_error a) (at_chan a)) in
      sys_result r
  end.

(** [select] for writing on the one descriptor: the result, and whether the
    descriptor is in the set afterwards. *)
Definition sys_select_fd (fd : Z) : M (kern C) (Z * bool) :=
  do* FD_SET fd in
  let* a := sock fd in
  let put rest := put_sock fd (Attempt (at_socket a) (at_options a) (at_bind a) (at_connect a) rest
                                       (at_error a) (at_chan a)) in
  match at_select a with
  | [] => ret (1, true)
  | SelReady :: rest => do* put rest in ret (1, true)
  | SelTimeout :: rest => do* put rest in ret (0, false)
  | SelErr e :: rest => do* put rest in do* set_errno_to e in ret (-1, true)
  end.

(** [fdflag_nonblocking], util/fdflag.c, on a socket, whose [fcntl] calls
    succeed. *)
Definition fd_nonblocking (fd : Z) (flag : bool) : M (kern C) unit :=
  let* a := sock fd in
  let ch := at_chan a in
  put_sock fd (Attempt (at_socket a) (at_options a) (at_bind a) (at_connect a) (at_select a) (at_error a)
                       (Chan (set_nonblock flag (ch_net ch)) (ch_ctx ch) (ch_sent ch))).

(** * util/network.c *)

Definition any_address (s : bytes) : bool := bool_decide (s = str "all") || bool_decide (s = str "any").

Definition network_source (fd family : Z) (source : option bytes) : M (kern C) bool :=
  match source with
  | None => ret true
  | Some source =>
      if any_address source then ret true
      else if family =? AF_INET then
        match inet_aton source with
        | None => do* set_errno_to EINVAL in ret false
        | Some saddr => let* r := sys_bind fd in ret (r =? 0)
        end
      else if family =? AF_INET6 then
        match inet_pton6 source with
        | None => do* set_errno_to EINVAL in ret false
        | Some saddr => let* r := sys_bind fd in ret (r =? 0)
        end
      else do* set_errno_to EAFNOSUPPORT in ret false
  end.

Definition select_body (fd : Z) (_ : unit) : M (kern C) (unit + Z * bool) :=
  let* r := sys_select_fd fd in
  let* err := get_errno in
  if (r.1 <? 0) && (err =? EINTR) then ret (inl tt) else ret (inr r).

Definition connect_wait (fd timeout : Z) : M (kern C) Z :=
  let* a := sock fd in
  let* (status, isset) := loop (Datatypes.S (Datatypes.S (length (at_select a)))) (select_body fd) tt in
  if (status =? 0) && negb isset then
    do* set_errno_to ETIMEDOUT in ret (-1)
  else if (0 <? status) && isset then
    let* a := sock fd in
    match at_error a with
    | inl e => do* set_errno_to e in ret (-1)
    | inr err => do* set_errno_to err in ret (if err =? 0 then 0 else -1)
    end
  else ret status.

(** The [connect] of one address, with or without a timeout. *)
Definition connect_one (fd timeout : Z) : M (kern C) Z :=
  if timeout =? 0 then sys_connect fd
  else
    do* fd_nonblocking fd true in
    let* status := sys_connect fd in
    let* err := get_errno in
    let* status := if (status <? 0) && (err =? EINPROGRESS) then connect_wait fd timeout
                   else ret status in
    let* oerrno := get_errno in
    do* fd_nonblocking fd false in
    do* set_errno_to oerrno in
    ret status.

Fixpoint connect_loop (ai : list addrinfo) (source : option bytes) (timeout : Z)
    (fd : option Z) (status : Z) : M (kern C) (option Z * Z) :=
  match ai with
  | [] => ret (fd, status)
  | a :: rest =>
      if status =? 0 then ret (fd, status)
      else
        do* match fd with Some fd => sys_close fd | None => ret tt end in
        let* fd := sys_socket (ai_family a) (ai_socktype a) (ai_protocol a) in
        match fd with
        | None => connect_loop rest source timeout None status
        | Some s =>
            let* ok := network_source s (ai_family a) source in
            if negb ok then connect_loop rest source timeout fd status
            else
              let* status := connect_one s timeout in
              connect_loop rest source timeout fd status
        end
  end.

Definition network_connect (ai : list addrinfo) (source : option bytes) (timeout : Z)
    : M (kern C) (option Z) :=
  let* (fd, status) := connect_loop ai source timeout None (-1) in
  if status =? 0 then ret fd
  else
    match fd with
    | Some s =>
        let* oerrno := get_errno in
        do* sys_close s in
        do* set_errno_to oerrno in
        ret None
    | None => ret None
    end.

(** [getaddrinfo] for a host and the decimal port. *)
Definition lookup_host (host : bytes) (port : Z) : M (kern C) (Z + list addrinfo) :=
  let* seen := gets kn_lookups in
  let portbuf := decimal (u16 port) in
  do* modify (put_lookups (seen ++ [(host, portbuf)])) in
  ret (getaddrinfo seen host portbuf).

Definition network_connect_host (host : bytes) (port : Z) (source : option bytes) (timeout : Z)
    : M (kern C) (option Z) :=
  let* ai := lookup_host host port in
  match ai with
  | inl _ => ret None
  | inr ai =>
      let* fd := network_connect ai source timeout in
      let* oerrno := get_errno in
      do* set_errno_to oerrno in
      ret fd
  end.

Definition network_client_create (domain type : Z) (source : option bytes) : M (kern C) (option Z) :=
  let* fd := sys_socket domain type 0 in
  match fd with
  | None => ret None
  | Some s =>
      let* ok := network_source s domain source in
      if negb ok then
        let* oerrno := get_errno in
        do* sys_close s in
        do* set_errno_to oerrno in
        ret None
      else ret fd
  end.
End connect.

(** * Lemmas *)

Section connect_lemmas.
Context {C : Type} `{Inet}.
Implicit Types k : kern C.

(** The channel in blocking mode. *)
Definition blocking (ch : chan C) : chan C := Chan (set_nonblock false (ch_net ch)) (ch_ctx ch) (ch_sent ch).

(** [a'] is the socket [a] after some calls that do not connect it. *)
Definition same_sock (a a' : attempt C) : Prop :=
  at_connect a' = at_connect a /\ at_error a' = at_error a /\ blocking (at_chan a') = blocking (at_chan a).

(** [k'] differs from [k] only in the socket [fd] and [errno]. *)
Definition touches (fd : Z) k k' : Prop :=
  kn_next k' = kn_next k /\ kn_fds k' = kn_fds k /\ kn_lookups k' = kn_lookups k /\ kn_log k' = kn_log k /\
  forall a, kn_socks k !! fd = Some a ->
    exists a', kn_socks k' = <[fd := a']> (kn_socks k) /\ same_sock a a'.

Lemma touches_refl fd k : touches fd k k.
Proof. repeat split; try done. intros a Ha. exists a. by rewrite insert_id. Qed.

Lemma touches_trans fd a b c : touches fd a b -> touches fd b c -> touches fd a c.
Proof.
  intros (N1 & F1 & U1 & L1 & S1) (N2 & F2 & U2 & L2 & S2).
  repeat split; try congruence. intros x Hx.
  destruct (S1 x Hx) as (y & Ey & Hy & He & Hb). destruct (S2 y) as (z & Ez & Hz & He' & Hb').
  { rewrite Ey. apply lookup_insert_eq. }
  exists z. split; [by rewrite Ez, Ey, insert_insert_eq|]. repeat split; congruence.
Qed.

Lemma touches_errno fd e k : touches fd k (put_errno e k).
Proof. repeat split; try done. intros a Ha. exists a. simpl. by rewrite insert_id. Qed.

Lemma touches_put fd a a' k : kn_socks k !! fd = Some a -> same_sock a a' ->
  touches fd k (put_socks (<[fd := a']> (kn_socks k)) k).
Proof. intros Ha Hs. repeat split; try done. intros b Hb. simplify_eq. by exists a'. Qed.

Lemma touches_lookup fd k k' a : touches fd k k' -> kn_socks k !! fd = Some a ->
  exists a', kn_socks k' !! fd = Some a' /\ same_sock a a'.
Proof. intros (_ & _ & _ & _ & S) Ha. destruct (S a Ha) as (a' & -> & Hs). exists a'. by rewrite lookup_insert_eq. Qed.

Lemma runs_sock fd a k (Q : attempt C -> kern C -> Prop) :
  kn_socks k !! fd = Some a -> Q a k -> runs (sock fd) Q k.
Proof. intros E HQ. unfold sock. apply runs_bind, runs_gets. by rewrite E. Qed.

Lemma sys_result_runs r fd k :
  runs (sys_result r) (fun x k' => touches fd k k' /\ kn_socks k' = kn_socks k /\
    match r with None => x = 0 | Some e => x = -1 /\ kn_errno k' = e end) k.
Proof.
  destruct r as [e|]; [|by apply runs_ret; split; [apply touches_refl|]].
  apply runs_bind, runs_modify, runs_ret. split; [apply touches_errno|done].
Qed.

Lemma network_source_runs fd family source a k : kn_socks k !! fd = Some a ->
  runs (network_source fd family source) (fun _ k' => touches fd k k' /\ kn_socks k' = kn_socks k) k.
Proof.
  intros Ha. pose proof (touches_refl fd k) as Hk.
  unfold network_source. destruct source as [s|]; [|by apply runs_ret].
  destruct (any_address s); [by apply runs_ret|].
  assert (forall A (x : option A) (b : A), runs (match x with
      | None => do* set_errno_to EINVAL in ret false
      | Some _ => let* r := sys_bind fd in ret (r =? 0) end)
      (fun _ k' => touches fd k k' /\ kn_socks k' = kn_socks k) k) as Hb.
  { intros A [x|] _; [|by apply runs_bind, runs_modify, runs_ret; split; [apply touches_errno|]].
    apply runs_bind. unfold sys_bind. apply runs_bind. eapply runs_sock; [done|].
    eapply runs_mono; [apply (sys_result_runs _ fd)|]. intros ? k' (Ht & Hs & _). by apply runs_ret. }
  destruct (family =? AF_INET); [by apply Hb; constructor|].
  destruct (family =? AF_INET6); [by apply Hb; constructor|].
  apply runs_bind, runs_modify, runs_ret. split; [apply touches_errno|done].
Qed.

Lemma select_fd_runs fd a k : 0 <= fd < FD_SETSIZE -> kn_socks k !! fd = Some a ->
  runs (sys_select_fd fd) (fun '(status, isset) k' => touches fd k k' /\
    (status < 0 -> (exists a', kn_socks k' !! fd = Some a' /\
                     (length (at_select a') < length (at_select a))%nat)) /\
    (status = 0 <-> isset = false)) k.
Proof.
  intros Hfd Ha. unfold sys_select_fd. apply runs_bind, runs_FD_SET; [done|]. apply runs_bind. eapply runs_sock; [done|].
  assert (forall rest, same_sock a (Attempt (at_socket a) (at_options a) (at_bind a) (at_connect a) rest
    (at_error a) (at_chan a))) as Hs by done.
  destruct (at_select a) as [|[| |e] rest] eqn:E.
  - apply runs_ret. split; [apply touches_refl|]. split; [lia|done].
  - apply runs_bind, runs_modify, runs_ret. split; [by eapply touches_put|]. split; [lia|done].
  - apply runs_bind, runs_modify, runs_ret. split; [by eapply touches_put|]. split; [lia|done].
  - apply runs_bind, runs_modify, runs_bind, runs_modify, runs_ret.
    split; [by eapply touches_trans; [eapply touches_put|apply touches_errno]|].
    split; [|done]. intros _. eexists. simpl. rewrite lookup_insert_eq. split; [done|]. simpl. lia.
Qed.

(** Waiting for a connection ends, and succeeds only without [SO_ERROR]. *)
Lemma connect_wait_runs fd timeout a k : 0 <= fd < FD_SETSIZE -> kn_socks k !! fd = Some a ->
  runs (connect_wait fd timeout) (fun x k' => touches fd k k' /\ (x = 0 -> at_error a = inr 0)) k.
Proof.
  intros Hfd Ha. unfold connect_wait. apply runs_bind. eapply runs_sock; [done|]. apply runs_bind.
  eapply runs_mono.
  { apply (loop_wp (fun _ k' => touches fd k k')
      (fun _ k' => match kn_socks k' !! fd with Some a' => length (at_select a') | None => 0%nat end)
      (select_body fd) (fun r k' => touches fd k k' /\ (r.1 = 0 <-> r.2 = false))).
    - intros [] k1 Ht. destruct (touches_lookup _ _ _ _ Ht Ha) as (a1 & Ha1 & Hs1). rewrite Ha1.
      unfold select_body. apply runs_bind. eapply runs_mono; [by eapply select_fd_runs|].
      intros [status isset] k2 (Ht2 & Hlt & Hset). apply runs_bind, runs_gets.
      pose proof (touches_trans _ _ _ _ Ht Ht2) as Ht'. simpl.
      destruct ((status <? 0) && (kn_errno k2 =? EINTR)) eqn:E; apply runs_ret; [|done].
      apply andb_true_iff in E as [E%Z.ltb_lt _]. destruct (Hlt E) as (a2 & -> & ?). done.
    - apply touches_refl.
    - rewrite Ha. lia. }
  intros [status isset] k1 [Ht Hset]; simpl in Hset. destruct (touches_lookup _ _ _ _ Ht Ha) as (a1 & Ha1 & Hs1).
  destruct ((status =? 0) && negb isset) eqn:E0.
  { apply runs_bind, runs_modify, runs_ret. split; [by eapply touches_trans; [|apply touches_errno]|lia]. }
  destruct ((0 <? status) && isset) eqn:E1.
  - apply runs_bind. eapply runs_sock; [done|]. destruct Hs1 as (_ & He & _). rewrite He.
    destruct (at_error a) as [e|err]; apply runs_bind, runs_modify, runs_ret;
      (split; [by eapply touches_trans; [|apply touches_errno]|]).
    + lia.
    + destruct (Z.eqb_spec err 0); [by subst|lia].
  - apply runs_ret. split; [done|]. intros ->. destruct isset; [|done]. by destruct Hset as [Hset _]; specialize (Hset eq_refl).
Qed.

Lemma nonblocking_runs fd flag a k : kn_socks k !! fd = Some a ->
  runs (fd_nonblocking fd flag) (fun _ k' => touches fd k k' /\ exists a', kn_socks k' !! fd = Some a' /\
    at_chan a' = Chan (set_nonblock flag (ch_net (at_chan a))) (ch_ctx (at_chan a)) (ch_sent (at_chan a))) k.
Proof.
  intros Ha. apply runs_bind. eapply runs_sock; [done|]. apply runs_modify.
  split; [by eapply touches_put|]. eexists. simpl. by rewrite lookup_insert_eq.
Qed.

Lemma sys_connect_runs fd a k : kn_socks k !! fd = Some a ->
  runs (sys_connect fd) (fun x k' => touches fd k k' /\ kn_socks k' = kn_socks k /\
    match at_connect a with None => x = 0 | Some e => x = -1 /\ kn_errno k' = e end) k.
Proof.
  intros Ha. unfold sys_connect. apply runs_bind. eapply runs_sock; [done|].
  destruct (at_connect a) as [e|]; [|by apply runs_ret; split; [apply touches_refl|]].
  apply runs_bind, runs_modify, runs_ret. split; [apply touches_errno|done].
Qed.

(** The script made this socket connect. *)
Definition socket_up (a : attempt C) : Prop :=
  at_connect a = None \/ (at_connect a = Some EINPROGRESS /\ at_error a = inr 0).

Lemma connect_one_runs fd timeout a k : selectable fd timeout -> kn_socks k !! fd = Some a ->
  runs (connect_one fd timeout) (fun x k' => touches fd k k' /\ (x = 0 -> socket_up a) /\
    exists a', kn_socks k' !! fd = Some a' /\
      (at_chan a' = at_chan a \/ at_chan a' = blocking (at_chan a))) k.
Proof.
  intros Hfd Ha. unfold connect_one. destruct (Z.eqb_spec timeout 0); [|destruct Hfd as [?|Hfd]; [done|]].
  { eapply runs_mono; [by eapply sys_connect_runs|]. intros x k' (Ht & Hs & Hx). split; [done|].
    split; [intros ->; destruct (at_connect a) eqn:E; [lia|by left]|]. exists a. rewrite Hs. auto. }
  apply runs_bind. eapply runs_mono; [by eapply nonblocking_runs|].
  intros _ k1 (Ht1 & a1 & Ha1 & Hc1). destruct (touches_lookup _ _ _ _ Ht1 Ha) as (b1 & Hb1 & Hs1).
  rewrite Ha1 in Hb1. simplify_eq. destruct Hs1 as (Hn1 & He1 & Hbl1).
  apply runs_bind. eapply runs_mono; [by eapply sys_connect_runs|].
  intros status k2 (Ht2 & Hs2 & Hx). rewrite Hn1 in Hx. apply runs_bind, runs_gets.
  assert (kn_socks k2 !! fd = Some b1) as Hb2 by by rewrite Hs2.
  apply runs_bind. eapply runs_mono with (Q := fun x k3 => touches fd k2 k3 /\ (x = 0 -> socket_up a)).
  { destruct ((status <? 0) && (kn_errno k2 =? EINPROGRESS)) eqn:E.
    - apply andb_true_iff in E as [E1%Z.ltb_lt E2%Z.eqb_eq].
      eapply runs_mono; [by eapply connect_wait_runs|]. intros x k3 [Ht3 H0]. split; [done|].
      intros ->. right. rewrite <- He1. split; [|by apply H0].
      destruct (at_connect a); [f_equal; destruct Hx; congruence|lia].
    - apply runs_ret. split; [apply touches_refl|]. intros ->. left. destruct (at_connect a); [lia|done]. }
  intros x k3 (Ht3 & Hup). apply runs_bind, runs_gets.
  pose proof (touches_trans _ _ _ _ (touches_trans _ _ _ _ Ht1 Ht2) Ht3) as Ht.
  destruct (touches_lookup _ _ _ _ Ht Ha) as (a3 & Ha3 & (_ & _ & Hb3)).
  apply runs_bind. eapply runs_mono; [by eapply nonblocking_runs|].
  intros _ k4 (Ht4 & a4 & Ha4 & Hc4). apply runs_bind, runs_modify, runs_ret. split.
  { eapply touches_trans; [exact Ht|]. eapply touches_trans; [exact Ht4|apply touches_errno]. }
  split; [done|]. exists a4. split; [done|]. right. rewrite Hc4. exact Hb3.
Qed.

(** ** The loop over addresses *)

(** Descriptors of sockets are open. *)
Definition kern_ok k : Prop := forall fd a, kn_socks k !! fd = Some a -> fd ∈ kn_fds k.

(** The connection [ch] is one the script had for [k]. *)
Definition from_script k (ch : chan C) : Prop :=
  exists b, b ∈ kn_next k /\ (ch = at_chan b \/ ch = blocking (at_chan b)).

(** [k] is [k0] with at most one socket more, [fd]. *)
Definition one_socket k0 (fd : option Z) (up : Prop) k : Prop :=
  (kn_next k ⊆ kn_next k0 /\ kn_lookups k = kn_lookups k0 /\ kn_log k = kn_log k0) /\
  match fd with
  | None => kn_fds k = kn_fds k0 /\ kn_socks k = kn_socks k0
  | Some f => f = lowest_free (kn_fds k0) /\ kn_fds k = {[f]} ∪ kn_fds k0 /\
      exists a, kn_socks k = <[f := a]> (kn_socks k0) /\ from_script k0 (at_chan a) /\ (up -> socket_up a)
  end.

Lemma one_socket_close k0 f up k : kern_ok k0 -> one_socket k0 (Some f) up k ->
  runs (sys_close f) (fun _ k' => one_socket k0 None False k') k.
Proof.
  intros Hok (Hn & Hf & Hfds & a & Hs & _). apply runs_modify. split; [done|]. simpl.
  split; [pose proof (proj1 (lowest_free_spec (kn_fds k0))); subst f; set_solver|].
  rewrite Hs, delete_insert_eq, delete_id; [done|]. destruct (kn_socks k0 !! f) eqn:E; [|done].
  exfalso. subst f. by eapply (proj1 (lowest_free_spec (kn_fds k0))), Hok.
Qed.

Lemma one_socket_socket k0 k d t p : one_socket k0 None False k ->
  runs (sys_socket d t p) (fun fd k' => one_socket k0 fd False k') k.
Proof.
  intros ((Hn & Hl & Hg) & Hfds & Hs). unfold sys_socket. apply runs_bind, runs_gets.
  destruct (kn_next k) as [|a next] eqn:En.
  { apply runs_bind, runs_modify, runs_ret. split; [simpl; rewrite En; done|done]. }
  apply runs_bind, runs_modify.
  assert (kn_next (put_next next k) ⊆ kn_next k0) as Hn' by (simpl; set_solver).
  destruct (at_socket a); [by apply runs_bind, runs_modify, runs_ret|].
  apply runs_bind, runs_gets, runs_bind, runs_modify, runs_bind, runs_modify, runs_ret. simpl.
  rewrite Hfds. split; [done|]. split; [done|]. split; [done|].
  exists a. rewrite Hs. split; [done|]. split; [|done]. exists a. split; [set_solver|by left].
Qed.

Lemma one_socket_touches k0 f up (up' : Prop) k k' a a' : one_socket k0 (Some f) up k -> touches f k k' ->
  kn_socks k !! f = Some a -> kn_socks k' !! f = Some a' ->
  at_chan a' = at_chan a \/ at_chan a' = blocking (at_chan a) -> (up' -> socket_up a) ->
  one_socket k0 (Some f) up' k'.
Proof.
  intros ((Hn & Hl & Hg) & Hf & Hfds & b & Hs & Hfrom & _) (N & F & L & G & S) Ha Ha' Hc Hup.
  rewrite Hs, lookup_insert_eq in Ha. simplify_eq. destruct (S a) as (c & Hc' & Hsame).
  { by rewrite Hs, lookup_insert_eq. }
  split; [split; [by rewrite N|split; congruence]|]. split; [done|]. split; [congruence|]. exists c.
  rewrite Hc', lookup_insert_eq in Ha'. simplify_eq. split; [by rewrite Hc', Hs, insert_insert_eq|].
  split.
  - destruct Hfrom as (x & Hx & Hxa). exists x. split; [done|].
    destruct Hc as [->| ->], Hxa as [->| ->]; auto.
  - intros Hu. destruct (Hup Hu) as [?|[? ?]]; [left|right]; destruct Hsame as (? & ? & _); split_and?; congruence.
Qed.

Lemma connect_loop_runs source timeout k0 : kern_ok k0 -> fd_room (kn_fds k0) timeout -> forall ai fd status k,
  one_socket k0 fd (status = 0) k -> (status = 0 -> fd <> None) ->
  runs (connect_loop ai source timeout fd status)
    (fun '(fd, status) k' => one_socket k0 fd (status = 0) k' /\ (status = 0 -> fd <> None)) k.
Proof.
  intros Hok Hroom%fd_room_selectable. induction ai as [|a ai IH]; intros fd status k Hk Hfd; [by apply runs_ret|].
  cbn [connect_loop]. destruct (Z.eqb_spec status 0) as [Hst|Hst]; [by apply runs_ret|].
  apply runs_bind. eapply runs_mono with (Q := fun _ k' => one_socket k0 None False k').
  { destruct fd as [f|]; [by eapply one_socket_close|]. by apply runs_ret. }
  intros _ k1 H1. apply runs_bind. eapply runs_mono; [by apply one_socket_socket|].
  intros [f|] k2 H2; [|by apply IH; [|done]]. destruct H2 as (Hm & Hf & Hfds & b & Hs & Hfrom & Hup).
  assert (one_socket k0 (Some f) False k2) as H2 by (split; [done|]; eauto 10).
  assert (kn_socks k2 !! f = Some b) as Hb by by rewrite Hs, lookup_insert_eq.
  apply runs_bind. eapply runs_mono; [by eapply network_source_runs|]. intros ok k3 [Ht3 Hs3].
  assert (one_socket k0 (Some f) False k3) as H3.
  { eapply one_socket_touches; [exact H2|exact Ht3|exact Hb|by rewrite Hs3|by left|done]. }
  destruct ok; cbn [negb]; [|apply IH; [|done]].
  - apply runs_bind. eapply runs_mono; [eapply connect_one_runs; [by rewrite Hf|by rewrite Hs3]|].
    intros x k4 (Ht4 & Hx & a4 & Ha4 & Hc4). apply IH; [|done].
    eapply one_socket_touches; [exact H3|exact Ht4|by rewrite Hs3|done|done|done].
  - destruct H3 as (? & ? & ? & c & ? & ? & _). split; [done|]. split; [done|]. split; [done|].
    exists c. by repeat split.
Qed.

(** [network_connect] always ends.  It gives a new descriptor on a connected
    socket, or leaves the descriptors as they were. *)
Lemma network_connect_runs ai source timeout k : kern_ok k -> fd_room (kn_fds k) timeout ->
  runs (network_connect ai source timeout) (fun fd k' => one_socket k fd True k') k.
Proof.
  intros Hok Hroom. unfold network_connect. apply runs_bind. eapply runs_mono.
  { apply (connect_loop_runs source timeout k Hok Hroom ai None (-1)); [|done]. split; [|done]. done. }
  intros [fd status] k1 [H1 Hfd]. destruct (Z.eqb_spec status 0) as [Hst|Hst].
  { apply runs_ret. destruct fd as [f|]; [|by destruct Hfd].
    destruct H1 as (? & ? & ? & a & ? & ? & Hup). split; [done|]. split; [done|]. split; [done|].
    exists a. split; [done|]. auto. }
  destruct fd as [f|]; [|by apply runs_ret].
  apply runs_bind, runs_gets, runs_bind. eapply runs_mono; [by eapply one_socket_close|].
  intros [] k2 H2. by apply runs_bind, runs_modify, runs_ret.
Qed.
End connect_lemmas.
