(* ===== verification/NetAddr.v ===== *)
(** Addresses: the part of [util/network.c] that compares and prints them,
    and the replacements for [inet_aton], [inet_ntoa] and [inet_ntop] in
    [portable/].

    A [struct in_addr], like every 32-bit number in network byte order, is the
    four bytes it occupies; [&] and [==] on such numbers act on the bytes. *)

From S2P Require Import Prelude Effects CLib Connect.

(** * Socket addresses *)

Inductive sockaddr : Type :=
  | SaInet (addr : bytes) (port : bytes)      (* struct sockaddr_in *)
  | SaInet6 (addr : bytes) (port : bytes)     (* struct sockaddr_in6 *)
  | SaOther (family : Z).

(** [IN6_IS_ADDR_V4MAPPED]. *)
Definition v4mapped_prefix : bytes := replicate 10 nul ++ [xff; xff].
Definition is_v4mapped (a6 : bytes) : bool := bool_decide (take 12 a6 = v4mapped_prefix).

(** [inet_ntop] on the bytes of an address and a buffer size. *)
Class InetPrint : Type := { inet_ntop : Z -> bytes -> Z -> option bytes }.

Definition network_sockaddr_sprint `{InetPrint} (size : Z) (addr : sockaddr) : option bytes :=
  match addr with
  | SaInet6 a6 _ =>
      if is_v4mapped a6 then inet_ntop AF_INET (drop 12 a6) size else inet_ntop AF_INET6 a6 size
  | SaInet a4 _ => inet_ntop AF_INET a4 size
  | SaOther _ => None
  end.

(** After the exchange, [a] is the IPv6 address if there is one. *)
Definition network_sockaddr_equal (a b : sockaddr) : bool :=
  let '(a, b) := match a, b with SaInet _ _, SaInet6 _ _ => (b, a) | _, _ => (a, b) end in
  match a with
  | SaInet6 a6 _ =>
      match b with
      | SaInet6 b6 _ => bytes_eqb a6 b6
      | SaInet b4 _ => if negb (is_v4mapped a6) then false else bytes_eqb (drop 12 a6) b4
      | SaOther _ => false
      end
  | SaInet a4 _ =>
      match b with
      | SaInet b4 _ => bytes_eqb a4 b4
      | _ => false
      end
  | SaOther _ => false
  end.

(** [htons] of the port's bytes. *)
Definition network_sockaddr_port (a : sockaddr) : Z :=
  match a with
  | SaInet6 _ [p0; p1] | SaInet _ [p0; p1] => 256 * bu p0 + bu p1
  | _ => 0
  end.

(** * network_addr_match *)

(** [bits |= 1U << (31 - i)] for [i < cidr]. *)
Fixpoint cidr_bits (cidr : nat) : Z :=
  match cidr with
  | O => 0
  | S i => Z.lor (cidr_bits i) (Z.shiftl 1 (31 - Z.of_nat i))
  end.

(** [addr_mask |= 1U << (7 - bits)] for [bits < n]. *)
Fixpoint byte_mask (n : nat) : Z :=
  match n with
  | O => 0
  | S b => Z.lor (byte_mask b) (Z.shiftl 1 (7 - Z.of_nat b))
  end.

Definition bytes_and (a m : bytes) : list Z := zip_with (fun x y => Z.land (bu x) (bu y)) a m.

(** The loop over the bytes of two IPv6 addresses from [i] on; [None] is an
    access past the end. *)
Fixpoint match_bytes (a b : bytes) (i cidr : Z) : option bool :=
  if i * 8 <? cidr then
    match a, b with
    | x :: a, y :: b =>
        if (i + 1) * 8 <=? cidr then
          if negb (byte_eqb x y) then Some false else match_bytes a b (i + 1) cidr
        else
          let addr_mask := byte_mask (Z.to_nat (cidr mod 8)) in
          if negb (Z.land (bu x) addr_mask =? Z.land (bu y) addr_mask) then Some false
          else match_bytes a b (i + 1) cidr
    | _, _ => None
    end
  else Some true.

(** The mask of an IPv4 comparison; [None] is a syntax error. *)
Definition v4_mask `{Inet} (mask : option bytes) : option bytes :=
  match mask with
  | None => Some (be32 4294967295)
  | Some m =>
      if negb (has_byte "." m) then
        let '(cidr, rest) := strtoul m in
        if (32 <? cidr) || negb (bytes_eqb rest []) then None
        else Some (be32 (cidr_bits (Z.to_nat cidr)))
      else inet_aton m
  end.

(** The prefix length of an IPv6 comparison. *)
Definition v6_cidr (mask : option bytes) : option Z :=
  match mask with
  | None => Some 128
  | Some m =>
      let '(cidr, rest) := strtoul m in
      if (128 <? cidr) || negb (bytes_eqb rest []) then None else Some cidr
  end.

Definition network_addr_match `{Inet} (a b : bytes) (mask : option bytes) : option bool :=
  match a, b with
  | [], _ | _, [] => Some false
  | _, _ =>
      match inet_aton a, inet_aton b with
      | Some a4, Some b4 =>
          match v4_mask mask with
          | None => Some false
          | Some addr_mask => Some (bool_decide (bytes_and a4 addr_mask = bytes_and b4 addr_mask))
          end
      | _, _ =>
          match inet_pton6 a, inet_pton6 b with
          | Some a6, Some b6 =>
              match v6_cidr mask with
              | None => Some false
              | Some cidr => match_bytes a6 b6 0 cidr
              end
          | _, _ => Some false
          end
      end
  end.

(** * portable/inet_aton.c, inet_ntoa.c and inet_ntop.c *)

Definition digit_value (c : byte) : option Z :=
  if is_digit c then Some (bu c - 48)
  else if (65 <=? bu c) && (bu c <=? 70) then Some (bu c - 55)
  else if (97 <=? bu c) && (bu c <=? 102) then Some (bu c - 87)
  else None.

(** The digits of one part; [octet] is an [unsigned int]. *)
Fixpoint aton_digits (p : bytes) (base octet : Z) : option (Z * bytes) :=
  match p with
  | [] => Some (octet, [])
  | c :: p' =>
      if byte_eqb c "." then Some (octet, p)
      else if 4294967295 / base <? octet then None
      else
        match digit_value c with
        | None => None
        | Some i => if base <=? i then None else aton_digits p' base (u32 (octet * base + i))
        end
  end.

(** The base of a part, and where its digits begin. *)
Definition aton_base (p : bytes) : Z * bytes :=
  match p with
  | c :: p' =>
      if byte_eqb c "0" then
        match p' with
        | d :: p'' => if byte_eqb d "x" then (16, p'') else (8, p')
        | [] => (8, p')
        end
      else (10, p)
  | [] => (10, p)
  end.

(** The parts of the address, in order; each takes a character. *)
Fixpoint aton_parts (fuel : nat) (p : bytes) (octets : list Z) : option (list Z) :=
  match p with
  | [] => Some octets
  | _ =>
      match fuel with
      | O => None
      | S fuel =>
          if 3 <? blen octets then None
          else
            let '(base, p) := aton_base p in
            if match p with c :: _ => byte_eqb c "." | [] => false end && negb (base =? 8) then None
            else
              match aton_digits p base 0 with
              | None => None
              | Some (octet, []) => Some (octets ++ [octet])
              | Some (octet, [_]) => None
              | Some (octet, _ :: p) => aton_parts fuel p (octets ++ [octet])
              end
      end
  end.

(** Putting the parts together: [i] is the index of the part. *)
Fixpoint aton_address (octets : list Z) (i : Z) (address : Z) : option Z :=
  match octets with
  | [] => None
  | [last] =>
      if Z.shiftr 4294967295 (i * 8) <? last then None else Some (Z.lor address last)
  | o :: rest =>
      if 255 <? o then None
      else aton_address rest (i + 1) (Z.lor address (u32 (Z.shiftl o (8 * (3 - i)))))
  end.

(** The result is the four bytes of [htonl(address)]. *)
Definition portable_inet_aton (s : bytes) : option bytes :=
  match aton_parts (length s) s [] with
  | None => None
  | Some octets => be32 <$> aton_address octets 0 0
  end.

Definition portable_inet_ntoa (a : bytes) : bytes :=
  match a with
  | [p0; p1; p2; p3] =>
      decimal (bu p0) ++ str "." ++ decimal (bu p1) ++ str "." ++ decimal (bu p2) ++ str "." ++ decimal (bu p3)
  | _ => []
  end.

Definition INET_ADDRSTRLEN : Z := 16.

Definition portable_inet_ntop (af : Z) (src : bytes) (size : Z) : option bytes :=
  if negb (af =? AF_INET) then None
  else if size <? INET_ADDRSTRLEN then None
  else
    let dst := portable_inet_ntoa src in
    if size <=? blen dst then None else Some dst.

(** * Prefixes

    The bits of an address, the most significant first. *)
Definition byte_bits (x : byte) : list bool := map (fun i => Z.testbit (bu x) i) [7; 6; 5; 4; 3; 2; 1; 0].
Definition addr_bits (a : bytes) : list bool := concat (map byte_bits a).

(** Whether two addresses agree on the first [n] bits. *)
Definition same_prefix (n : Z) (a b : bytes) : bool := bool_decide (ztake n (addr_bits a) = ztake n (addr_bits b)).

(** The bytes of an address under a mask of [n] bits. *)
Fixpoint masked (n : nat) (a : bytes) : list Z :=
  match a with
  | [] => []
  | x :: a => Z.land (bu x) (byte_mask (n `min` 8)) :: masked (n - 8) a
  end.

Lemma byte_mask_land k x y : (k <= 8)%nat ->
  Z.land (bu x) (byte_mask k) = Z.land (bu y) (byte_mask k) <-> take k (byte_bits x) = take k (byte_bits y).
Proof.
  intros Hk.
  assert (forall i, Z.testbit (byte_mask k) i = (8 - Z.of_nat k <=? i) && (i <? 8)) as Hm.
  { intros i. destruct (Z.ltb_spec i 0).
    { rewrite Z.testbit_neg_r by done. destruct (Z.leb_spec (8 - Z.of_nat k) i); [lia|done]. }
    assert (Z.of_nat k <= 8) as Hk' by lia. clear Hk. revert Hk'. induction k as [|k IH]; intros Hk.
    - cbn [byte_mask]. rewrite Z.bits_0. destruct (Z.leb_spec (8 - Z.of_nat 0) i), (Z.ltb_spec i 8); simpl; (done || lia).
    - cbn [byte_mask]. rewrite Z.lor_spec, IH by lia. rewrite Z.shiftl_1_l, Z.pow2_bits_eqb by lia.
      destruct (Z.leb_spec (8 - Z.of_nat k) i), (Z.ltb_spec i 8), (Z.eqb_spec (7 - Z.of_nat k) i),
        (Z.leb_spec (8 - Z.of_nat (S k)) i); simpl; try done; lia. }
  assert (forall x i, (i < 8)%nat -> byte_bits x !! i = Some (Z.testbit (bu x) (7 - Z.of_nat i))) as Hb.
  { intros z i Hi. do 8 (destruct i as [|i]; [done|]). lia. }
  split; intros E.
  - apply list_eq. intros i. destruct (decide (i < k)%nat); [|rewrite !lookup_take_ge by lia; done].
    rewrite !lookup_take_lt, !Hb by lia. f_equal. apply (f_equal (fun z => Z.testbit z (7 - Z.of_nat i))) in E.
    rewrite !Z.land_spec, Hm in E. destruct (Z.leb_spec (8 - Z.of_nat k) (7 - Z.of_nat i)), (Z.ltb_spec (7 - Z.of_nat i) 8); try lia.
    by rewrite !andb_true_r in E.
  - apply Z.bits_inj'. intros j Hj. rewrite !Z.land_spec, Hm.
    destruct (Z.leb_spec (8 - Z.of_nat k) j), (Z.ltb_spec j 8); simpl; rewrite ?andb_false_r; try done.
    rewrite !andb_true_r. apply (f_equal (fun l => l !! Z.to_nat (7 - j))) in E.
    rewrite !lookup_take_lt, !Hb in E by lia. injection E as E. by replace (7 - Z.of_nat (Z.to_nat (7 - j))) with j in E by lia.
Qed.

Lemma masked_prefix n : forall a b, length a = length b ->
  masked n a = masked n b <-> take n (addr_bits a) = take n (addr_bits b).
Proof.
  intros a. revert n. induction a as [|x a IH]; intros n [|y b] Hl; try done. injection Hl as Hl.
  change (addr_bits (x :: a)) with (byte_bits x ++ addr_bits a). change (addr_bits (y :: b)) with (byte_bits y ++ addr_bits b).
  cbn [masked]. rewrite !take_app. change (length (byte_bits x)) with 8%nat. change (length (byte_bits y)) with 8%nat.
  assert (forall z, take n (byte_bits z) = take (n `min` 8) (byte_bits z)) as Ht.
  { intros z. destruct (decide (n <= 8)%nat); [by rewrite Nat.min_l|]. rewrite Nat.min_r, !take_ge by (simpl; lia). done. }
  rewrite !Ht. split.
  - intros E. injection E as E1 E2. apply byte_mask_land in E1; [|lia]. apply IH in E2; [|done]. congruence.
  - intros E. apply app_inj_1 in E as [E1 E2]; [|rewrite !length_take; done].
    f_equal; [apply byte_mask_land; [lia|done]|by apply IH].
Qed.

Lemma masked_same n a b : length a = length b ->
  bool_decide (masked (Z.to_nat n) a = masked (Z.to_nat n) b) = same_prefix n a b.
Proof. intros Hl. apply bool_decide_ext. by apply masked_prefix. Qed.

(** The mask of [n] bits in network byte order, byte for byte. *)
Lemma cidr_mask n : 0 <= n <= 32 ->
  map bu (be32 (cidr_bits (Z.to_nat n))) =
  map (fun k => byte_mask ((Z.to_nat n - k) `min` 8)) [0%nat; 8%nat; 16%nat; 24%nat].
Proof.
  intros Hn. assert (forallb (fun k => bool_decide (map bu (be32 (cidr_bits k)) =
    map (fun j => byte_mask ((k - j) `min` 8)) [0%nat; 8%nat; 16%nat; 24%nat])) (seq 0 33) = true) as H by by vm_compute.
  rewrite forallb_forall in H. specialize (H (Z.to_nat n)). apply bool_decide_eq_true in H; [done|].
  apply in_seq. lia.
Qed.

Lemma bytes_and_masked n a : 0 <= n <= 32 -> length a = 4%nat ->
  bytes_and a (be32 (cidr_bits (Z.to_nat n))) = masked (Z.to_nat n) a.
Proof.
  intros Hn Ha. unfold bytes_and. pose proof (cidr_mask n Hn) as Hm.
  destruct (be32 (cidr_bits (Z.to_nat n))) as [|m0 [|m1 [|m2 [|m3 [|]]]]]; try done.
  destruct a as [|a0 [|a1 [|a2 [|a3 [|]]]]]; try done. simpl in Hm. injection Hm as E0 E1 E2 E3.
  cbn [zip_with masked]. rewrite E0, E1, E2, E3. rewrite Nat.sub_0_r, <- !Nat.sub_add_distr. done.
Qed.

(** The loop over bytes compares a prefix, and stays within the arrays. *)
Lemma match_bytes_masked a : forall b i n, length a = length b -> 0 <= i -> i * 8 + blen a * 8 >= n -> 0 <= n ->
  match_bytes a b i n = Some (bool_decide (masked (Z.to_nat (n - i * 8)) a = masked (Z.to_nat (n - i * 8)) b)).
Proof.
  induction a as [|x a IH]; intros [|y b] i n Hl Hi Hb Hn; try done; cbn [match_bytes]; destruct (Z.ltb_spec (i * 8) n) as [Hlt|Hge].
  - change (blen (@nil byte)) with 0 in Hb. lia.
  - by rewrite bool_decide_eq_true_2.
  - injection Hl as Hl. rewrite blen_cons in Hb. cbn [masked].
    assert ((Z.to_nat (n - i * 8) - 8)%nat = Z.to_nat (n - (i + 1) * 8)) as -> by lia.
    destruct (Z.leb_spec ((i + 1) * 8) n) as [Hfull|Hpart].
    + rewrite Nat.min_r by lia. rewrite IH by (done || lia).
      assert (Z.land (bu x) (byte_mask 8) = Z.land (bu y) (byte_mask 8) <-> x = y) as Hxy.
      { assert (forall z, Z.land (bu z) (byte_mask 8) = bu z) as E by (by intros []). rewrite !E. split; [apply bu_inj|congruence]. }
      unfold byte_eqb. case_bool_decide as Exy; cbn [negb].
      * f_equal. apply bool_decide_ext. rewrite <- Hxy in Exy. rewrite Exy. split; congruence.
      * f_equal. symmetry. apply bool_decide_eq_false. intros E. injection E as E _. tauto.
    + assert (Z.to_nat (n mod 8) = (Z.to_nat (n - i * 8) `min` 8)%nat) as ->.
      { rewrite Nat.min_l by lia. f_equal. symmetry. apply Z.mod_unique with i; lia. }
      destruct (Z.eqb_spec (Z.land (bu x) (byte_mask (Z.to_nat (n - i * 8) `min` 8)))
        (Z.land (bu y) (byte_mask (Z.to_nat (n - i * 8) `min` 8)))) as [E|E]; cbn [negb].
      * rewrite IH by (done || lia). rewrite E. f_equal. apply bool_decide_ext. split; congruence.
      * f_equal. symmetry. apply bool_decide_eq_false. congruence.
  - injection Hl as Hl. f_equal. symmetry. apply bool_decide_eq_true. rewrite Z2Nat.nonpos by lia.
    apply masked_prefix; [by simpl; f_equal|done].
Qed.

(** ** Masks as text *)

Lemma strtoul_nonneg s : 0 <= (strtoul s).1.
Proof.
  unfold strtoul. destruct (match skip_space s with [] => _ | _ => _ end) as [sign p].
  destruct (digits p 0 0) as [[v n] rest]. destruct n; [done|]. destruct (_ <? _); simpl; [unfold ULONG_MAX; lia|].
  unfold u64. apply Z.mod_pos_bound. lia.
Qed.

Lemma decimal_no_nul_slash n : 0 <= n -> Forall (fun c => is_digit c = true) (decimal n).
Proof. intros. by apply dec_go_digits. Qed.

Lemma strtoul_decimal n : 0 <= n <= ULONG_MAX -> strtoul (decimal n) = (n, []).
Proof.
  unfold ULONG_MAX. intros Hn. destruct (digits_dec 20 n []) as (k & Hk & E); [simpl; lia|lia|]. fold (decimal n) in E.
  pose proof (decimal_no_nul_slash n ltac:(lia)) as Hd. unfold strtoul.
  destruct (decimal n) as [|c s] eqn:Ed; [simpl in E; destruct k; [lia|done]|].
  apply Forall_cons_1 in Hd as [Hc _]. destruct (digit_plain c Hc) as (Hs & Hm & Hp & _).
  cbn [skip_space]. rewrite Hs. rewrite (byte_eqb_neq c "-"), (byte_eqb_neq c "+") by done.
  rewrite E. simpl digits. destruct k; [lia|]. rewrite Z.mul_1_l. unfold ULONG_MAX.
  destruct (Z.ltb_spec 18446744073709551615 n); [lia|]. unfold u64. rewrite Z.mod_small by lia. done.
Qed.

Lemma decimal_no_dot n : 0 <= n -> has_byte "." (decimal n) = false.
Proof.
  intros Hn. apply bool_decide_eq_false. intros Hin. pose proof (decimal_no_nul_slash n Hn) as Hd.
  rewrite Forall_forall in Hd. by specialize (Hd _ Hin).
Qed.

(** The C library's addresses have their sizes. *)
Class InetLaws `{Inet} : Prop := {
  inet_aton_size : forall s a, inet_aton s = Some a -> length a = 4%nat;
  inet_pton6_size : forall s a, inet_pton6 s = Some a -> length a = 16%nat;
}.

Section addr_match.
Context `{HL : InetLaws}.

Lemma match_v4 a b a4 b4 mask n : a <> [] -> b <> [] -> inet_aton a = Some a4 -> inet_aton b = Some b4 -> 0 <= n <= 32 ->
  v4_mask mask = Some (be32 (cidr_bits (Z.to_nat n))) -> network_addr_match a b mask = Some (same_prefix n a4 b4).
Proof.
  intros Ha Hb Ea Eb Hn Hm. pose proof (inet_aton_size _ _ Ea) as La. pose proof (inet_aton_size _ _ Eb) as Lb.
  unfold network_addr_match. destruct a as [|c a]; [done|]. destruct b as [|d b]; [done|].
  rewrite Ea, Eb, Hm. f_equal. rewrite !bytes_and_masked by done. apply masked_same. congruence.
Qed.

Lemma match_v6 a b a6 b6 mask n : a <> [] -> b <> [] -> inet_aton a = None \/ inet_aton b = None ->
  inet_pton6 a = Some a6 -> inet_pton6 b = Some b6 -> 0 <= n <= 128 ->
  v6_cidr mask = Some n -> network_addr_match a b mask = Some (same_prefix n a6 b6).
Proof.
  intros Ha Hb Hv4 Ea Eb Hn Hm. pose proof (inet_pton6_size _ _ Ea) as La. pose proof (inet_pton6_size _ _ Eb) as Lb.
  unfold network_addr_match. destruct a as [|c a]; [done|]. destruct b as [|d b]; [done|].
  assert (match_bytes a6 b6 0 n = Some (same_prefix n a6 b6)) as Hmb.
  { rewrite match_bytes_masked by (congruence || unfold blen; lia).
    rewrite Z.mul_0_l, Z.sub_0_r. f_equal. apply masked_same. congruence. }
  rewrite Ea, Eb, Hm. destruct Hv4 as [-> | ->]; [exact Hmb|]. by destruct (inet_aton _).
Qed.

Lemma match_defined a b mask : is_Some (network_addr_match a b mask).
Proof.
  unfold network_addr_match. destruct a as [|c a]; [by eexists|]. destruct b as [|d b]; [by eexists|].
  assert (is_Some match inet_pton6 (c :: a), inet_pton6 (d :: b) with
    | Some a6, Some b6 => match v6_cidr mask with None => Some false | Some cidr => match_bytes a6 b6 0 cidr end
    | _, _ => Some false end) as H6.
  { destruct (inet_pton6 (c :: a)) as [a6|] eqn:Ea; [|by eexists]. destruct (inet_pton6 (d :: b)) as [b6|] eqn:Eb; [|by eexists].
    pose proof (inet_pton6_size _ _ Ea) as La. pose proof (inet_pton6_size _ _ Eb) as Lb.
    destruct (v6_cidr mask) as [n|] eqn:En; [|by eexists]. assert (0 <= n <= 128) as Hn.
    { unfold v6_cidr in En. destruct mask as [m|]; [|injection En as <-; lia]. pose proof (strtoul_nonneg m).
      destruct (strtoul m) as [cidr rest]. destruct (Z.ltb_spec 128 cidr); [done|]. simpl in *.
      destruct (negb _); [done|]. injection En as <-. lia. }
    rewrite match_bytes_masked by (congruence || unfold blen; lia). by eexists. }
  destruct (inet_aton (c :: a)); [|exact H6]. destruct (inet_aton (d :: b)); [|exact H6].
  destruct (v4_mask mask); by eexists.
Qed.
End addr_match.

(** C36: comparing addresses under a mask.  For two non-empty strings
    [network_addr_match] never leaves its arrays; two IPv4 addresses, or
    otherwise two IPv6 addresses, match without a mask exactly if all their
    bits are equal, and with the mask [n] in decimal exactly if the first [n]
    are. *)
Theorem network_addr_match_prefix `{HL : InetLaws} a b :
  a <> [] -> b <> [] ->
  (forall a4 b4, inet_aton a = Some a4 -> inet_aton b = Some b4 ->
     network_addr_match a b None = Some (same_prefix 32 a4 b4) /\
     forall n, 0 <= n <= 32 -> network_addr_match a b (Some (decimal n)) = Some (same_prefix n a4 b4)) /\
  (forall a6 b6, inet_aton a = None \/ inet_aton b = None -> inet_pton6 a = Some a6 -> inet_pton6 b = Some b6 ->
     network_addr_match a b None = Some (same_prefix 128 a6 b6) /\
     forall n, 0 <= n <= 128 -> network_addr_match a b (Some (decimal n)) = Some (same_prefix n a6 b6)) /\
  (forall mask, is_Some (network_addr_match a b mask)).
Proof.
  intros Ha Hb. split; [|split; [|intros mask; apply match_defined]].
  - intros a4 b4 Ea Eb. split; [by apply match_v4|]. intros n Hn. apply match_v4; [done..|].
    unfold v4_mask. rewrite decimal_no_dot, strtoul_decimal by (unfold ULONG_MAX; lia). cbn [negb orb].
    by destruct (Z.ltb_spec 32 n); [lia|].
  - intros a6 b6 Hv Ea Eb. split; [by apply match_v6|]. intros n Hn. apply match_v6; [done..|].
    unfold v6_cidr. rewrite strtoul_decimal by (unfold ULONG_MAX; lia). by destruct (Z.ltb_spec 128 n); [lia|].
Qed.

(** * The portable functions *)

(** A decimal octet, as [inet_ntoa] prints it, is read back. *)
Lemma aton_octet x rest : rest = [] \/ (exists r, rest = "."%byte :: r) ->
  let '(base, p) := aton_base (decimal (bu x) ++ rest) in
  match p with c :: _ => byte_eqb c "." | [] => false end && negb (base =? 8) = false /\
  aton_digits p base 0 = Some (bu x, rest).
Proof. intros [-> | [r ->]]; destruct x; split; reflexivity. Qed.

Lemma aton_part fuel x rest octets : blen octets <= 3 -> rest = [] \/ (exists c r, rest = "."%byte :: c :: r) ->
  aton_parts (S fuel) (decimal (bu x) ++ rest) octets =
  match rest with
  | [] => Some (octets ++ [bu x])
  | _ :: p => aton_parts fuel p (octets ++ [bu x])
  end.
Proof.
  intros Hl Hr. pose proof (aton_octet x rest) as Ho. cbn [aton_parts].
  destruct (decimal (bu x) ++ rest) as [|c p] eqn:E; [by destruct x|].
  rewrite (proj2 (Z.ltb_ge _ _)) by lia. destruct (aton_base (c :: p)) as [base q].
  destruct Ho as [-> ->]; [destruct Hr as [->|(d & r & ->)]; [by left|right; by eexists]|].
  destruct Hr as [->|(d & r & ->)]; done.
Qed.

Lemma aton_address_octets a b c d : aton_address [bu a; bu b; bu c; bu d] 0 0 = Some (of_be32 [a; b; c; d]).
Proof.
  pose proof (bu_range a); pose proof (bu_range b); pose proof (bu_range c); pose proof (bu_range d).
  cbn [aton_address]. rewrite !(proj2 (Z.ltb_ge _ _)) by (change (Z.shiftr 4294967295 ((0 + 1 + 1 + 1) * 8)) with 255; lia).
  f_equal. assert (forall x k, 0 <= x < 256 -> k = 24 \/ k = 16 \/ k = 8 -> u32 (Z.shiftl x k) = Z.shiftl x k) as Hu.
  { intros x k Hx Hk. apply u32_small. rewrite Z.shiftl_mul_pow2 by lia. destruct Hk as [->|[->| ->]]; lia. }
  rewrite !Hu by (done || auto). unfold of_be32. cbn [fold_left]. rewrite !Z.shiftl_lor, !Z.shiftl_shiftl, Z.shiftl_0_l by lia.
  done.
Qed.

(** The functions in [portable/] agree: what [inet_ntoa] and [inet_ntop]
    print, [inet_aton] reads. *)
Lemma inet_aton_ntoa a : length a = 4%nat -> portable_inet_aton (portable_inet_ntoa a) = Some a.
Proof.
  destruct a as [|p0 [|p1 [|p2 [|p3 [|]]]]]; try done. intros _. unfold portable_inet_aton.
  unfold portable_inet_ntoa. change (str ".") with ["."%byte]. cbn [app].
  assert (forall x, exists c r, decimal (bu x) = c :: r) as Hd by (intros []; by eexists _, _).
  set (s := decimal (bu p0) ++ _).
  assert (exists f, length s = S (S (S (S f)))) as [f ->].
  { exists (length s - 4)%nat. unfold s. destruct (Hd p0) as (? & ? & ->), (Hd p1) as (? & ? & ->), (Hd p2) as (? & ? & ->),
      (Hd p3) as (? & ? & ->). simpl. rewrite !length_app. simpl. rewrite !length_app. simpl. rewrite !length_app. simpl. lia. }
  unfold s. destruct (Hd p1) as (c1 & r1 & E1), (Hd p2) as (c2 & r2 & E2), (Hd p3) as (c3 & r3 & E3).
  rewrite aton_part; [|done|right; rewrite E1; by eexists _, _].
  rewrite aton_part; [|done|right; rewrite E2; by eexists _, _].
  rewrite aton_part; [|done|right; rewrite E3; by eexists _, _].
  rewrite <- (app_nil_r (decimal (bu p3))), aton_part; [|done|by left].
  cbn [app]. rewrite aton_address_octets. simpl. f_equal. by apply be32_of_be32.
Qed.

(** The overflow check does not count the digit that is added. *)
Example inet_aton_wraps : portable_inet_aton (str "4294967299") = Some (be32 3).
Proof. by vm_compute. Qed.

(** The portable parser, and one IPv6 address. *)
Definition portable_inet : Inet := {|
  inet_aton := portable_inet_aton;
  inet_pton6 s := if bytes_eqb s (str "::1") then Some (replicate 15 nul ++ [x01]) else None;
  getaddrinfo _ _ _ := inl 1;
|}.

Lemma portable_laws : @InetLaws portable_inet.
Proof.
  split; simpl; intros s a E.
  - unfold portable_inet_aton in E. destruct (aton_parts _ _ _) as [o|]; [|done]. simpl in E.
    destruct (aton_address o 0 0); [|done]. by injection E as <-.
  - destruct (bytes_eqb _ _); [|done]. by injection E as <-.
Qed.

Lemma network_addr_match_prefix_witness :
  let _ := portable_inet in
  let a := str "10.1.2.3" in let b := str "10.1.255.255" in
  let a4 := [x0a; x01; x02; x03] in let b4 := [x0a; x01; xff; xff] in
  inet_aton a = Some a4 /\ inet_aton b = Some b4 /\
  network_addr_match a b None = Some (same_prefix 32 a4 b4) /\
  network_addr_match a b (Some (decimal 16)) = Some (same_prefix 16 a4 b4) /\
  same_prefix 16 a4 b4 = true /\ same_prefix 17 a4 b4 = false.
Proof.
  intros inet a b a4 b4.
  destruct (@network_addr_match_prefix portable_inet portable_laws a b ltac:(done) ltac:(done)) as (H4 & _ & _).
  assert (inet_aton a = Some a4) as Ea by (by vm_compute).
  assert (inet_aton b = Some b4) as Eb by (by vm_compute).
  destruct (H4 a4 b4 Ea Eb) as [Hn Hm].
  split; [exact Ea|]. split; [exact Eb|]. split; [exact Hn|]. split; [apply (Hm 16); lia|]. by vm_compute.
Defined.
