(* ===== verification/AddrInfo.v ===== *)
(** Names and addresses: the replacements in [portable/getaddrinfo.c] and
    [portable/getnameinfo.c].

    The result of [getaddrinfo] is a linked list on the heap, so the model has
    one: an object for each allocation, and pointers that are its keys, [None]
    for [NULL].  A script says which allocations succeed; beyond it all do. *)

From S2P Require Import Prelude Effects CLib Net Connect NetAddr.

(** * Constants *)

Definition SOCK_DGRAM : Z := 2.
Definition IPPROTO_UDP : Z := 17.
Definition ERANGE : Z := 34.

Definition AI_PASSIVE : Z := 1.
Definition AI_CANONNAME : Z := 2.
Definition AI_NUMERICHOST : Z := 4.
Definition AI_NUMERICSERV : Z := 8.
Definition AI_INTERNAL_ALL : Z := 127.

Definition EAI_AGAIN : Z := 1.
Definition EAI_BADFLAGS : Z := 2.
Definition EAI_FAIL : Z := 3.
Definition EAI_FAMILY : Z := 4.
Definition EAI_MEMORY : Z := 5.
Definition EAI_NONAME : Z := 6.
Definition EAI_SERVICE : Z := 7.
Definition EAI_SOCKTYPE : Z := 8.
Definition EAI_SYSTEM : Z := 9.
Definition EAI_OVERFLOW : Z := 10.

Definition HOST_NOT_FOUND : Z := 1.
Definition TRY_AGAIN : Z := 2.
Definition NO_RECOVERY : Z := 3.
Definition NO_DATA : Z := 4.

Definition NI_NUMERICHOST : Z := 2.
Definition NI_NAMEREQD : Z := 4.
Definition NI_NUMERICSERV : Z := 8.
Definition NI_DGRAM : Z := 16.

(** [flags & f], as a truth value. *)
Definition flag (flags f : Z) : bool := negb (Z.land flags f =? 0).

(** [htons] and [ntohs] on a little-endian machine, and the two bytes of a
    number in network byte order. *)
Definition htons (z : Z) : Z := u16 z mod 256 * 256 + u16 z / 256.
Definition be16 (z : Z) : bytes := [bz (z / 256); bz z].
Definition of_be16 (l : bytes) : Z := match l with [a; b] => 256 * bu a + bu b | _ => 0 end.

Definition gai_errors : list string := [
  "Host name lookup failure"; "Invalid flag value"; "Unknown server error"; "Unsupported address family";
  "Memory allocation failure"; "Host unknown or not given"; "Service not supported for socket";
  "Unsupported socket type"; "System error"; "Supplied buffer too small"]%string.

Definition portable_gai_strerror (ecode : Z) : bytes :=
  if (ecode <? 1) || (blen gai_errors <? ecode) then str "Unknown error"
  else match gai_errors !! Z.to_nat (ecode - 1) with Some s => str s | None => [] end.

(** * The databases of the C library *)

Record hostent : Type := Hostent {
  h_name : option bytes;
  h_aliases : list bytes;
  h_length : Z;
  h_addr_list : list bytes;
}.

(** [s_port] is in network byte order. *)
Record servent : Type := Servent {
  s_name : bytes;
  s_port : Z;
  s_proto : bytes;
}.

(** [gethostbyname] gives the value of [h_errno] when it fails. *)
Class Netdb : Type := {
  netdb_aton : bytes -> option bytes;
  netdb_ntoa : bytes -> bytes;
  gethostbyname : bytes -> Z + hostent;
  gethostbyaddr : bytes -> option hostent;
  getservbyname : bytes -> option bytes -> option servent;
  getservbyport : Z -> bytes -> option servent;
}.

(** * The heap *)

Record sockaddr_in : Type := SockaddrIn {
  sin_family : Z;
  sin_addr : bytes;
  sin_port : bytes;
}.

Record ainfo : Type := Ainfo {
  gi_flags : Z;
  gi_family : Z;
  gi_socktype : Z;
  gi_protocol : Z;
  gi_addrlen : Z;
  gi_canonname : option Z;
  gi_addr : option Z;
  gi_next : option Z;
}.

(** What an allocation holds; [OUninit] is what [malloc] gives. *)
Inductive object : Type :=
  | OUninit
  | OInfo (ai : ainfo)
  | OSockaddr (sin : sockaddr_in)
  | OString (s : bytes).

Record gai : Type := Gai {
  g_heap : gmap Z object;
  g_fresh : Z;
  g_allocs : list bool;
  g_errno : Z;
}.

Definition put_gheap h g := Gai h (g_fresh g) (g_allocs g) (g_errno g).
Definition put_gerrno e g := Gai (g_heap g) (g_fresh g) (g_allocs g) e.

(** [malloc], [calloc] or [strdup] of an object. *)
Definition alloc (o : object) : M gai (option Z) := fun g =>
  match g_allocs g with
  | false :: rest => Ret None (Gai (g_heap g) (g_fresh g) rest ENOMEM)
  | rest => Ret (Some (g_fresh g)) (Gai (<[g_fresh g := o]> (g_heap g)) (g_fresh g + 1) (tail rest) (g_errno g))
  end.

Definition free_ptr (p : option Z) : M gai unit := fun g =>
  match p with
  | None => Ret tt g
  | Some p => match g_heap g !! p with Some _ => Ret tt (put_gheap (delete p (g_heap g)) g) | None => Fault end
  end.

Definition load_info (p : Z) : M gai ainfo := fun g =>
  match g_heap g !! p with Some (OInfo ai) => Ret ai g | _ => Fault end.

(** An assignment through a pointer. *)
Definition store_obj (p : Z) (o : object) : M gai unit := fun g =>
  match g_heap g !! p with Some _ => Ret tt (put_gheap (<[p := o]> (g_heap g)) g) | None => Fault end.

Definition set_next (p : Z) (next : option Z) : M gai unit :=
  let* ai := load_info p in
  store_obj p (OInfo (Ainfo (gi_flags ai) (gi_family ai) (gi_socktype ai) (gi_protocol ai) (gi_addrlen ai)
                        (gi_canonname ai) (gi_addr ai) next)).

(** * getaddrinfo.c *)

Definition freeaddrinfo_body (ai : option Z) : M gai (option Z + unit) :=
  match ai with
  | None => ret (inr tt)
  | Some p =>
      let* info := load_info p in
      let next := gi_next info in
      do* free_ptr (gi_addr info) in
      do* free_ptr (gi_canonname info) in
      do* free_ptr (Some p) in
      ret (inl next)
  end.

(** Each pass frees an object. *)
Definition portable_freeaddrinfo (ai : option Z) : M gai unit := fun g =>
  loop (S (size (g_heap g))) freeaddrinfo_body ai g.

Definition convert_service (string : bytes) : M gai (option Z) :=
  match string with
  | [] => ret None
  | _ =>
      do* modify (put_gerrno 0) in
      let '(value, range, rest) := strtol string in
      do* (if range then modify (put_gerrno ERANGE) else ret tt) in
      let* errno := gets g_errno in
      if negb (errno =? 0) || negb (bytes_eqb rest []) || (value <? 0) then ret None else ret (Some value)
  end.

Definition gai_addrinfo_new (socktype : Z) (canonical : option bytes) (addr : bytes) (port : Z) : M gai (option Z) :=
  let* ai := alloc OUninit in
  match ai with
  | None => ret None
  | Some ai =>
      let* sin := alloc (OSockaddr (SockaddrIn 0 (replicate 4 nul) (replicate 2 nul))) in
      match sin with
      | None => do* free_ptr (Some ai) in ret None
      | Some sin =>
          let finish canonname :=
            do* store_obj sin (OSockaddr (SockaddrIn AF_INET addr (be16 port))) in
            do* store_obj ai (OInfo (Ainfo 0 AF_INET socktype
              (if socktype =? SOCK_DGRAM then IPPROTO_UDP else IPPROTO_TCP) 16 canonname (Some sin) None)) in
            ret (Some ai) in
          match canonical with
          | None => finish None
          | Some canonical =>
              let* canonname := alloc (OString canonical) in
              match canonname with
              | None => do* free_ptr (Some sin) in do* free_ptr (Some ai) in ret None
              | Some _ => finish canonname
              end
          end
      end
  end.

Section netdb.
Context `{Netdb}.

(** [inl] is the error; [inr] has the socket type and the port. *)
Definition gai_service (servname : bytes) (flags type : Z) : M gai (Z + Z * Z) :=
  let* value := convert_service servname in
  match value with
  | Some value => if 65535 <? value then ret (inl EAI_SERVICE) else ret (inr (type, u16 value))
  | None =>
      if flag flags AI_NUMERICSERV then ret (inl EAI_NONAME)
      else
        let protocol := if negb (type =? 0) then Some (if type =? SOCK_DGRAM then str "udp" else str "tcp") else None in
        match getservbyname servname protocol with
        | None => ret (inl EAI_NONAME)
        | Some servent =>
            let finish type :=
              if 65535 <? s_port servent then ret (inl EAI_SERVICE)
              else ret (inr (type, htons (s_port servent))) in
            if bytes_eqb (s_proto servent) (str "udp") then finish SOCK_DGRAM
            else if bytes_eqb (s_proto servent) (str "tcp") then finish SOCK_STREAM
            else ret (inl EAI_SERVICE)
        end
  end.

Definition herrno_status (h_errno : Z) : Z :=
  if h_errno =? HOST_NOT_FOUND then EAI_NONAME
  else if (h_errno =? TRY_AGAIN) || (h_errno =? NO_DATA) then EAI_AGAIN
  else if h_errno =? NO_RECOVERY then EAI_FAIL
  else EAI_SYSTEM.

(** The loop over [h_addr_list]; [inl] is the error, [inr] the head of the list. *)
Fixpoint lookup_loop (socktype : Z) (canonical : option bytes) (port h_len : Z) (addrs : list bytes)
    (first prev : option Z) : M gai (Z + option Z) :=
  match addrs with
  | [] => ret (inr first)
  | a :: addrs =>
      if negb (h_len =? 4) then do* portable_freeaddrinfo first in ret (inl EAI_FAIL)
      else
        let* addr := (if blen a <? 4 then fault else ret (ztake 4 a)) in
        let* ai := gai_addrinfo_new socktype canonical addr port in
        match ai with
        | None => do* portable_freeaddrinfo first in ret (inl EAI_MEMORY)
        | Some ai =>
            match first with
            | None => lookup_loop socktype canonical port h_len addrs (Some ai) (Some ai)
            | Some _ =>
                let* prev := from_option_fault prev in
                do* set_next prev (Some ai) in
                lookup_loop socktype canonical port h_len addrs first (Some ai)
            end
        end
  end.

(** The status, and what is stored in [*res]. *)
Definition gai_lookup (nodename : bytes) (flags socktype port : Z) : M gai (Z * option Z) :=
  match netdb_aton nodename with
  | Some addr =>
      let canonical := if flag flags AI_CANONNAME then Some nodename else None in
      let* ai := gai_addrinfo_new socktype canonical addr port in
      match ai with
      | None => ret (EAI_MEMORY, None)
      | Some _ => ret (0, ai)
      end
  | None =>
      if flag flags AI_NUMERICHOST then ret (EAI_NONAME, None)
      else
        match gethostbyname nodename with
        | inl h_errno => ret (herrno_status h_errno, None)
        | inr host =>
            match h_addr_list host with
            | [] => ret (EAI_FAIL, None)
            | _ =>
                let canonical :=
                  if flag flags AI_CANONNAME then Some (match h_name host with Some name => name | None => nodename end)
                  else None in
                let* r := lookup_loop socktype canonical port (h_length host) (h_addr_list host) None None in
                match r with
                | inl status => ret (status, None)
                | inr first => ret (0, first)
                end
            end
        end
  end.

Record hints : Type := Hints {
  hi_flags : Z;
  hi_family : Z;
  hi_socktype : Z;
  hi_protocol : Z;
}.

Definition AF_UNSPEC : Z := 0.

(** The checks of the hints: the error, or the flags and the socket type. *)
Definition check_hints (h : option hints) : Z + Z * Z :=
  match h with
  | None => inr (0, 0)
  | Some h =>
      let flags := hi_flags h in
      let socktype := hi_socktype h in
      if negb (Z.land flags AI_INTERNAL_ALL =? flags) then inl EAI_BADFLAGS
      else if negb (hi_family h =? AF_UNSPEC) && negb (hi_family h =? AF_INET) then inl EAI_FAMILY
      else if negb (socktype =? 0) && negb (socktype =? SOCK_STREAM) && negb (socktype =? SOCK_DGRAM) then inl EAI_SOCKTYPE
      else if negb (hi_protocol h =? 0) && (negb (hi_protocol h =? IPPROTO_TCP) && negb (hi_protocol h =? IPPROTO_UDP))
      then inl EAI_SOCKTYPE
      else inr (flags, socktype)
  end.

Definition INADDR_ANY : bytes := be32 0.
Definition INADDR_LOOPBACK : bytes := be32 2130706433.

Definition portable_getaddrinfo (nodename servname : option bytes) (h : option hints) : M gai (Z * option Z) :=
  match check_hints h with
  | inl status => ret (status, None)
  | inr (flags, socktype) =>
      let* service := (match servname with
                       | None => ret (inr (socktype, 0))
                       | Some servname => gai_service servname flags socktype
                       end) in
      match service with
      | inl status => ret (status, None)
      | inr (socktype, port) =>
          match nodename with
          | Some nodename => gai_lookup nodename flags socktype port
          | None =>
              match servname with
              | None => ret (EAI_NONAME, None)
              | Some _ =>
                  let addr := if Z.land flags AI_PASSIVE =? AI_PASSIVE then INADDR_ANY else INADDR_LOOPBACK in
                  let* ai := gai_addrinfo_new socktype None addr port in
                  match ai with
                  | None => ret (EAI_MEMORY, None)
                  | Some _ => ret (0, ai)
                  end
              end
          end
      end
  end.

(** * getnameinfo.c *)

(** The buffers of the caller; [None] is [NULL]. *)
Record names : Type := Names {
  nm_node : option bytes;
  nm_service : option bytes;
}.

Definition copy_to (dst : option bytes) (src : bytes) : option bytes :=
  d ← dst; if blen src <=? blen d then Some (src ++ zdrop (blen src) d) else None.

(** [memcpy] to the start of a buffer. *)
Definition copy_node (src : bytes) : M names unit := fun n =>
  match copy_to (nm_node n) src with Some d => Ret tt (Names (Some d) (nm_service n)) | None => Fault end.
Definition copy_service (src : bytes) : M names unit := fun n =>
  match copy_to (nm_service n) src with Some d => Ret tt (Names (nm_node n) (Some d)) | None => Fault end.

(** [None]: not a qualified name; otherwise the status. *)
Definition try_name (name : bytes) (nodelen : Z) : M names (option Z) :=
  if negb (has_byte "." name) then ret None
  else
    let found_nondigit := existsb (fun c => negb (is_digit c) && negb (byte_eqb c ".")) name in
    if negb found_nondigit then ret None
    else
      let namelen := blen name in
      if nodelen <? namelen + 1 then ret (Some EAI_OVERFLOW)
      else do* copy_node (name ++ [nul]) in ret (Some 0).

(** The loop over the aliases. *)
Fixpoint try_names (aliases : list bytes) (nodelen : Z) : M names (option Z) :=
  match aliases with
  | [] => ret None
  | alias :: aliases =>
      let* r := try_name alias nodelen in
      match r with
      | Some status => ret (Some status)
      | None => try_names aliases nodelen
      end
  end.

Definition numeric_name (addr : bytes) (nodelen : Z) : M names Z :=
  let name := netdb_ntoa addr in
  let namelen := blen name in
  if nodelen <? namelen + 1 then ret EAI_OVERFLOW
  else do* copy_node (name ++ [nul]) in ret 0.

Definition lookup_name (addr : bytes) (nodelen flags : Z) : M names Z :=
  if negb (flag flags NI_NUMERICHOST) then
    let unqualified := if flag flags NI_NAMEREQD then ret EAI_NONAME else numeric_name addr nodelen in
    match gethostbyaddr addr with
    | None => if flag flags NI_NAMEREQD then ret EAI_NONAME else unqualified
    | Some host =>
        let* name := from_option_fault (h_name host) in
        let* r := try_name name nodelen in
        match r with
        | Some status => ret status
        | None =>
            let* r := try_names (h_aliases host) nodelen in
            match r with
            | Some status => ret status
            | None => unqualified
            end
        end
    end
  else numeric_name addr nodelen.

(** [snprintf] writes what fits, and a nul. *)
Definition lookup_service (port servicelen flags : Z) : M names Z :=
  let numeric :=
    let text := decimal port in
    do* copy_service (ztake (servicelen - 1) text ++ [nul]) in
    if servicelen <=? blen text then ret EAI_OVERFLOW else ret 0 in
  if negb (flag flags NI_NUMERICSERV) then
    let protocol := if flag flags NI_DGRAM then str "udp" else str "tcp" in
    match getservbyport (htons port) protocol with
    | Some srv =>
        let namelen := blen (s_name srv) in
        if servicelen <? namelen + 1 then ret EAI_OVERFLOW
        else do* copy_service (s_name srv ++ [nul]) in ret 0
    | None => numeric
    end
  else numeric.

Definition portable_getnameinfo (sa : sockaddr_in) (nodelen servicelen flags : Z) : M names Z :=
  let* node := gets nm_node in
  let* service := gets nm_service in
  let no_node := bool_decide (node = None) || (nodelen <=? 0) in
  let no_service := bool_decide (service = None) || (servicelen <=? 0) in
  if no_node && no_service then ret EAI_NONAME
  else if negb (sin_family sa =? AF_INET) then ret EAI_FAMILY
  else
    let* status := (if no_node then ret 0 else lookup_name (sin_addr sa) nodelen flags) in
    if negb (status =? 0) then ret status
    else if no_service then ret 0
    else
      let port := of_be16 (sin_port sa) in
      lookup_service port servicelen flags.
End netdb.

(** * The list on the heap *)

(** What one [struct addrinfo] says. *)
Record entry : Type := Entry {
  en_socktype : Z;
  en_canon : option bytes;
  en_addr : bytes;
  en_port : Z;
}.

(** The objects of one element of the list: the structure, its address and
    its name. *)
Definition canon_heap (canon : option bytes) (p : option Z) (h : gmap Z object) : Prop :=
  match canon with
  | None => p = None /\ h = ∅
  | Some s => exists c, p = Some c /\ h = {[c := OString s]}
  end.

Definition info_of (x : entry) (canon sin next : option Z) : ainfo :=
  Ainfo 0 AF_INET (en_socktype x) (if en_socktype x =? SOCK_DGRAM then IPPROTO_UDP else IPPROTO_TCP) 16 canon sin next.
Definition sockaddr_of (x : entry) : sockaddr_in := SockaddrIn AF_INET (en_addr x) (be16 (en_port x)).

Definition node (a : Z) (next : option Z) (x : entry) (h : gmap Z object) : Prop :=
  exists sin canon hc, canon_heap (en_canon x) canon hc /\ a <> sin /\ hc !! a = None /\ hc !! sin = None /\
    h = <[a := OInfo (info_of x canon (Some sin) next)]> (<[sin := OSockaddr (sockaddr_of x)]> hc).

(** From [p] to [q], the list [l] occupies the heap [h]. *)
Fixpoint lseg (p q : option Z) (l : list entry) (h : gmap Z object) : Prop :=
  match l with
  | [] => p = q /\ h = ∅
  | x :: l => exists a next hn hr, p = Some a /\ node a next x hn /\ hn ##ₘ hr /\ h = hn ∪ hr /\ lseg next q l hr
  end.

Definition fresh_ok (g : gai) : Prop := forall k, g_fresh g <= k -> g_heap g !! k = None.

(** [g] owns [h] beside [h0]. *)
Definition owns (h h0 : gmap Z object) (g : gai) : Prop := h ##ₘ h0 /\ g_heap g = h ∪ h0.

Lemma lseg_snoc l : forall p a next x h1 h2, lseg p (Some a) l h1 -> node a next x h2 -> h1 ##ₘ h2 ->
  lseg p next (l ++ [x]) (h1 ∪ h2).
Proof.
  induction l as [|y l IH]; intros p a next x h1 h2 Hl Hn Hd; cbn [app lseg] in *.
  - destruct Hl as [-> ->]. exists a, next, h2, ∅. rewrite (left_id_L ∅ (∪)), (right_id_L ∅ (∪)).
    repeat split; [done|apply map_disjoint_empty_r].
  - destruct Hl as (b & n & hn & hr & -> & Hb & Hdb & -> & Hl). apply map_disjoint_union_l in Hd as [Hd1 Hd2].
    exists b, n, hn, (hr ∪ h2). repeat split; [done|by apply map_disjoint_union_r|by rewrite (assoc_L (∪))|].
    by eapply IH.
Qed.

Lemma node_in a next x h : node a next x h -> is_Some (h !! a).
Proof. intros (sin & c & hc & _ & _ & _ & _ & ->). rewrite lookup_insert_eq. by eexists. Qed.

Lemma node_size a next x h : node a next x h -> (0 < size h)%nat.
Proof.
  intros Hn. destruct (node_in _ _ _ _ Hn) as [o E]. assert (size h <> 0%nat); [|lia].
  intros H0. apply map_size_empty_inv in H0. subst h. by rewrite lookup_empty in E.
Qed.

Lemma lseg_size l : forall p q h, lseg p q l h -> (length l <= size h)%nat.
Proof.
  induction l as [|x l IH]; intros p q h Hl; cbn [lseg length] in *; [lia|].
  destruct Hl as (a & n & hn & hr & -> & Hn & Hd & -> & Hl). rewrite map_size_disj_union by done.
  pose proof (node_size _ _ _ _ Hn). pose proof (IH _ _ _ Hl). lia.
Qed.

Lemma free_ptr_at p o g : g_heap g !! p = Some o -> free_ptr (Some p) g = Ret tt (put_gheap (delete p (g_heap g)) g).
Proof. intros E. unfold free_ptr. by rewrite E. Qed.

(** One pass of [freeaddrinfo] frees one element. *)
Lemma free_node a next x h h0 g : node a next x h -> owns h h0 g ->
  freeaddrinfo_body (Some a) g = Ret (inl next) (put_gheap h0 g).
Proof.
  intros (sin & canon & hc & Hc & Hne & Ha & Hs & ->) [Hd Eg].
  apply map_disjoint_insert_l in Hd as [H0a Hd]. apply map_disjoint_insert_l in Hd as [H0s Hd].
  destruct g as [hp fr al er]. cbn in Eg. subst hp. cbn [freeaddrinfo_body].
  rewrite <- !insert_union_l. unfold load_info, bind. cbn [g_heap]. rewrite lookup_insert_eq. cbn [gi_next gi_addr gi_canonname info_of].
  rewrite (free_ptr_at sin (OSockaddr (sockaddr_of x))) by (cbn; by rewrite lookup_insert_ne, lookup_insert_eq).
  cbn [put_gheap g_heap g_fresh g_allocs g_errno].
  rewrite delete_insert_ne, delete_insert_id by (done || (apply lookup_union_None; done)).
  assert (forall o, free_ptr canon (Gai (<[a:=o]> (hc ∪ h0)) fr al er) = Ret tt (Gai (<[a:=o]> h0) fr al er)) as E.
  { intros o. destruct (en_canon x) as [s|]; cbn [canon_heap] in Hc.
    - destruct Hc as (c & -> & ->). assert (a <> c) as Hac by (intros ->; by rewrite lookup_singleton_eq in Ha).
      apply map_disjoint_singleton_l in Hd. cbn [free_ptr put_gheap g_heap].
      rewrite lookup_insert_ne by done. rewrite (lookup_union_Some_l _ _ _ (OString s)) by by rewrite lookup_singleton_eq.
      rewrite delete_insert_ne by done. by rewrite <- insert_union_singleton_l, delete_insert_id.
    - destruct Hc as [-> ->]. by rewrite (left_id_L ∅ (∪)). }
  unfold put_gheap. cbn [g_heap g_fresh g_allocs g_errno]. rewrite E.
  rewrite (free_ptr_at a _ _ (lookup_insert_eq _ _ _)). cbn [g_heap]. unfold put_gheap. cbn.
  by rewrite delete_insert_id.
Qed.

(** [freeaddrinfo] frees the list and nothing else. *)
Lemma freeaddrinfo_frees l : forall p h h0 g, lseg p None l h -> owns h h0 g ->
  portable_freeaddrinfo p g = Ret tt (put_gheap h0 g).
Proof.
  assert (forall fuel p h h0 g, lseg p None l h -> owns h h0 g -> (length l < fuel)%nat ->
    loop fuel freeaddrinfo_body p g = Ret tt (put_gheap h0 g)) as Hloop.
  { induction l as [|x l IH]; intros [|fuel] p h h0 g Hl Ho Hf; cbn [lseg length] in *; try lia.
    - destruct Hl as [-> ->]. destruct Ho as [_ E]. rewrite (left_id_L ∅ (∪)) in E. destruct g; cbn in E; by subst.
    - destruct Hl as (a & n & hn & hr & -> & Hn & Hd & -> & Hl). destruct Ho as [Hd0 E].
      apply map_disjoint_union_l in Hd0 as [Hdn Hdr].
      rewrite (loop_inl fuel freeaddrinfo_body (Some a) g n (put_gheap (hr ∪ h0) g)).
      + by rewrite (IH fuel n hr h0) by (done || lia).
      + apply (free_node a n x hn); [done|]. split; [by apply map_disjoint_union_r|]. by rewrite (assoc_L (∪)). }
  intros p h h0 g Hl Ho. apply (Hloop _ p h h0 g Hl Ho).
  destruct Ho as [Hd ->]. rewrite map_size_disj_union by done. pose proof (lseg_size _ _ _ _ Hl). lia.
Qed.

Lemma set_next_node a next next' x h h0 g : node a next x h -> owns h h0 g ->
  exists h', node a next' x h' /\ dom h' = dom h /\ owns h' h0 (put_gheap (h' ∪ h0) g) /\
    set_next a next' g = Ret tt (put_gheap (h' ∪ h0) g).
Proof.
  intros (sin & canon & hc & Hc & Hne & Ha & Hs & ->) [Hd Eg].
  set (h' := <[a := OInfo (info_of x canon (Some sin) next')]> (<[sin := OSockaddr (sockaddr_of x)]> hc)).
  assert (dom h' = dom (<[a := OInfo (info_of x canon (Some sin) next)]> (<[sin := OSockaddr (sockaddr_of x)]> hc))) as Edom.
  { unfold h'. by rewrite !dom_insert_L. }
  exists h'. split; [by exists sin, canon, hc|]. split; [exact Edom|]. split.
  { split; [|done]. apply map_disjoint_dom. rewrite Edom. by apply map_disjoint_dom. }
  unfold set_next, load_info, store_obj, bind. rewrite Eg, <- insert_union_l, lookup_insert_eq.
  rewrite Eg, <- insert_union_l, lookup_insert_eq, insert_insert_eq. unfold h'. by rewrite <- !insert_union_l.
Qed.

(** * Making an element *)

(** What holds after allocations began in [g]: new pointers are still fresh,
    and no failure is invented. *)
Definition after (g g' : gai) : Prop :=
  fresh_ok g' /\ (false ∈ g_allocs g' -> false ∈ g_allocs g).

Lemma after_refl g : fresh_ok g -> after g g.
Proof. done. Qed.
Lemma after_trans g1 g2 g3 : after g1 g2 -> after g2 g3 -> after g1 g3.
Proof. unfold after. tauto. Qed.

Lemma alloc_cases o g : fresh_ok g ->
  (exists g', alloc o g = Ret None g' /\ after g g' /\ g_heap g' = g_heap g /\ g_fresh g' = g_fresh g /\ false ∈ g_allocs g) \/
  (exists g', alloc o g = Ret (Some (g_fresh g)) g' /\ after g g' /\ g_heap g' = <[g_fresh g := o]> (g_heap g) /\
    g_fresh g < g_fresh g').
Proof.
  intros Hf. assert (fresh_ok (Gai (<[g_fresh g:=o]> (g_heap g)) (g_fresh g + 1) (tail (g_allocs g)) (g_errno g))) as Hf'.
  { intros k Hk. cbn in *. rewrite lookup_insert_ne by lia. apply Hf. lia. }
  unfold alloc. destruct (g_allocs g) as [|[] r] eqn:E.
  - right. eexists. split; [done|]. split; [split; [exact Hf'|]; cbn; by rewrite E|]. cbn. split; [done|lia].
  - right. eexists. split; [done|]. split; [split; [exact Hf'|]; cbn; rewrite E; set_solver|]. cbn. split; [done|lia].
  - left. eexists. split; [done|]. split; [split; [exact Hf|]; cbn; rewrite E; set_solver|]. cbn. repeat split; set_solver.
Qed.

Lemma after_heap g g' h : after g g' -> (forall k, g_fresh g' <= k -> h !! k = None) -> after g (put_gheap h g').
Proof. intros [_ Ha] Hh. by split. Qed.

(** Freeing what was allocated last gives the heap before. *)
Lemma free_last (p : Z) o g h : g_heap g = <[p := o]> h -> h !! p = None ->
  free_ptr (Some p) g = Ret tt (put_gheap h g).
Proof. intros E Hp. rewrite (free_ptr_at p o) by by rewrite E, lookup_insert_eq. by rewrite E, delete_insert_id. Qed.

(** The assignments at the end of [gai_addrinfo_new]. *)
Definition fill (a sin : Z) (x : entry) (canonname : option Z) : M gai (option Z) :=
  do* store_obj sin (OSockaddr (sockaddr_of x)) in
  do* store_obj a (OInfo (info_of x canonname (Some sin) None)) in
  ret (Some a).

Lemma fill_node a sin x cp hc h0 g o1 o2 :
  canon_heap (en_canon x) cp hc -> a <> sin -> h0 !! a = None -> h0 !! sin = None -> hc !! a = None -> hc !! sin = None ->
  hc ##ₘ h0 -> g_heap g = <[sin := o1]> (<[a := o2]> (hc ∪ h0)) ->
  exists h, node a None x h /\ h ##ₘ h0 /\ fill a sin x cp g = Ret (Some a) (put_gheap (h ∪ h0) g) /\
    forall k, g_heap g !! k = None -> (h ∪ h0) !! k = None.
Proof.
  intros Hc Hne H0a H0s Hca Hcs Hd E.
  exists (<[a := OInfo (info_of x cp (Some sin) None)]> (<[sin := OSockaddr (sockaddr_of x)]> hc)).
  split; [by exists sin, cp, hc|]. split; [by do 2 (apply map_disjoint_insert_l_2; [done|])|].
  rewrite <- !insert_union_l. split.
  - unfold fill, store_obj, bind. rewrite E, lookup_insert_eq. cbn [put_gheap g_heap].
    rewrite insert_insert_eq, lookup_insert_ne, lookup_insert_eq by done.
    by rewrite (insert_insert_ne _ sin a), insert_insert_eq by done.
  - intros k. rewrite E. destruct (decide (k = a)) as [->|Hka]; [by rewrite lookup_insert_ne, lookup_insert_eq by done|].
    destruct (decide (k = sin)) as [->|Hks]; [by rewrite lookup_insert_eq|]. by rewrite !lookup_insert_ne by done.
Qed.

(** An element is made, or nothing is left behind. *)
Definition made_entry (x : entry) (g : gai) (r : option Z) (g' : gai) : Prop :=
  after g g' /\
  match r with
  | Some a => exists h, node a None x h /\ owns h (g_heap g) g'
  | None => g_heap g' = g_heap g /\ false ∈ g_allocs g
  end.

Lemma after_back g g' : fresh_ok g -> after g g' -> g_fresh g <= g_fresh g' -> after g (put_gheap (g_heap g) g').
Proof. intros Hf A Hl. apply after_heap; [done|]. intros k Hk. apply Hf. lia. Qed.

Lemma addrinfo_new_spec st canon addr port g : fresh_ok g ->
  runs (gai_addrinfo_new st canon addr port) (made_entry (Entry st canon addr port) g) g.
Proof.
  intros Hf. unfold gai_addrinfo_new. apply runs_bind.
  destruct (alloc_cases OUninit g Hf) as [(g1 & E1 & A1 & H1 & F1 & N1) | (g1 & E1 & A1 & H1 & L1)];
    unfold runs at 1, wp; rewrite E1; [by apply runs_ret|].
  set (a := g_fresh g) in *. pose proof (Hf a ltac:(unfold a; lia)) as Ha. apply runs_bind.
  destruct (alloc_cases (OSockaddr (SockaddrIn 0 (replicate 4 nul) (replicate 2 nul))) g1 (proj1 A1))
    as [(g2 & E2 & A2 & H2 & F2 & N2) | (g2 & E2 & A2 & H2 & L2)]; unfold runs at 1, wp; rewrite E2.
  { rewrite H1 in H2. apply runs_elim. eexists _, _. rewrite (bind_Ret _ _ _ _ _ (free_last _ _ _ _ H2 Ha)).
    split; [done|]. split; [|by split; [|apply A1]]. apply after_back; [done|by eapply after_trans|lia]. }
  set (sin := g_fresh g1) in *. pose proof (Hf sin ltac:(unfold sin, a in *; lia)) as Hs.
  assert (a <> sin) as Hne by lia.
  assert (forall cp hc g3, after g2 g3 -> canon_heap canon cp hc -> hc !! a = None -> hc !! sin = None -> hc ##ₘ g_heap g ->
    g_heap g3 = hc ∪ g_heap g2 -> runs (fill a sin (Entry st canon addr port) cp) (made_entry (Entry st canon addr port) g) g3) as Hfin.
  { intros cp hc g3 A3 Hc Hca Hcs Hd H3. rewrite H2, H1 in H3. rewrite <- !insert_union_r in H3 by done.
    destruct (fill_node a sin (Entry st canon addr port) cp hc (g_heap g) g3 _ _ Hc Hne Ha Hs Hca Hcs Hd H3)
      as (h & Hn & Hdh & E & Hk).
    apply runs_elim. eexists _, _. split; [exact E|]. split; [|by exists h].
    apply after_heap; [by do 2 (eapply after_trans; [done|])|]. intros k Hkf. apply Hk. by apply A3. }
  destruct canon as [s|].
  - apply runs_bind. destruct (alloc_cases (OString s) g2 (proj1 A2)) as [(g3 & E3 & A3 & H3 & F3 & N3) | (g3 & E3 & A3 & H3 & L3)];
      unfold runs at 1, wp; rewrite E3.
    + rewrite H2 in H3. apply runs_elim. eexists _, _.
      rewrite (bind_Ret _ _ _ _ _ (free_last sin _ _ (<[a := OUninit]> (g_heap g)) ltac:(by rewrite H3, H1)
        ltac:(by rewrite lookup_insert_ne))).
      rewrite (bind_Ret _ _ _ _ _ (free_last a OUninit (put_gheap _ g3) (g_heap g) eq_refl Ha)).
      split; [done|]. split; [|split; [done|]; by apply A1, A2].
      apply (after_back _ g3); [done|by do 2 (eapply after_trans; [done|])|lia].
    + apply (Hfin _ {[g_fresh g2 := OString s]}); [done|by eexists|rewrite ?lookup_singleton_ne by lia; done..| |].
      * apply map_disjoint_singleton_l. apply Hf. lia.
      * by rewrite H3, insert_union_singleton_l.
  - apply (Hfin None ∅); [by apply after_refl, A2|done..|apply map_disjoint_empty_l|by rewrite (left_id_L ∅ (∪))].
Qed.

(** * The answer of getaddrinfo *)

(** The C library's addresses have their lengths, its hosts a name, and the
    text of an address is read back. *)
Class NetdbLaws `{Netdb} : Prop := {
  gethostbyname_sizes : forall name host, gethostbyname name = inr host -> Forall (fun a => blen a = h_length host) (h_addr_list host);
  gethostbyaddr_named : forall addr host, gethostbyaddr addr = Some host -> is_Some (h_name host);
  netdb_aton_ntoa : forall a, length a = 4%nat -> netdb_aton (netdb_ntoa a) = Some a;
  netdb_ntoa_no_nul : forall a, no_nul (netdb_ntoa a);
}.

Section answer.
Context `{HL : NetdbLaws}.

(** The value of a numeric service. *)
Definition service_number (s : bytes) : option Z :=
  match s with
  | [] => None
  | _ => let '(value, range, rest) := strtol s in
         if range || negb (bytes_eqb rest []) || (value <? 0) then None else Some value
  end.

(** The socket type and the port of a service. *)
Definition service_answer (servname : option bytes) (flags type : Z) : Z + Z * Z :=
  match servname with
  | None => inr (type, 0)
  | Some s =>
      match service_number s with
      | Some v => if v <=? 65535 then inr (type, v) else inl EAI_SERVICE
      | None =>
          if flag flags AI_NUMERICSERV then inl EAI_NONAME
          else match getservbyname s (if type =? 0 then None else Some (if type =? SOCK_DGRAM then str "udp" else str "tcp")) with
               | None => inl EAI_NONAME
               | Some e =>
                   if negb (bytes_eqb (s_proto e) (str "udp") || bytes_eqb (s_proto e) (str "tcp")) || (65535 <? s_port e)
                   then inl EAI_SERVICE
                   else inr (if bytes_eqb (s_proto e) (str "udp") then SOCK_DGRAM else SOCK_STREAM, htons (s_port e))
               end
      end
  end.

(** The canonical name and the addresses of a host. *)
Definition host_answer (nodename servname : option bytes) (flags : Z) : Z + option bytes * list bytes :=
  let named name := if flag flags AI_CANONNAME then Some name else None in
  match nodename with
  | None =>
      match servname with
      | None => inl EAI_NONAME
      | Some _ => inr (None, [if flag flags AI_PASSIVE then INADDR_ANY else INADDR_LOOPBACK])
      end
  | Some n =>
      match netdb_aton n with
      | Some a => inr (named n, [a])
      | None =>
          if flag flags AI_NUMERICHOST then inl EAI_NONAME
          else match gethostbyname n with
               | inl e => inl (herrno_status e)
               | inr h => if bool_decide (h_addr_list h = []) || negb (h_length h =? 4) then inl EAI_FAIL
                          else inr (named (default n (h_name h)), h_addr_list h)
               end
      end
  end.

(** The hints: none, or flags of the seven there are, no protocol family but
    IPv4's, and a socket type and protocol of streams or datagrams. *)
Definition hints_answer (h : option hints) : Z + Z * Z :=
  match h with
  | None => inr (0, 0)
  | Some h =>
      if decide (0 <= hi_flags h < 128) then
        if decide (hi_family h ∈ [AF_UNSPEC; AF_INET]) then
          if decide (hi_socktype h ∈ [0; SOCK_STREAM; SOCK_DGRAM] /\ hi_protocol h ∈ [0; IPPROTO_TCP; IPPROTO_UDP])
          then inr (hi_flags h, hi_socktype h)
          else inl EAI_SOCKTYPE
        else inl EAI_FAMILY
      else inl EAI_BADFLAGS
  end.

Lemma one_of_cons x a (l : list Z) : bool_decide (x ∈ a :: l) = (x =? a) || bool_decide (x ∈ l).
Proof.
  destruct (Z.eqb_spec x a) as [->|Hne]; [by apply bool_decide_eq_true_2; left|].
  apply bool_decide_ext. rewrite elem_of_cons. tauto.
Qed.

Lemma one_of_nil (x : Z) : bool_decide (x ∈ []) = false.
Proof. apply bool_decide_eq_false_2, not_elem_of_nil. Qed.

Lemma check_hints_spec h : check_hints h = hints_answer h.
Proof.
  destruct h as [h|]; [|done]. unfold check_hints, hints_answer.
  assert ((Z.land (hi_flags h) AI_INTERNAL_ALL =? hi_flags h) = bool_decide (0 <= hi_flags h < 128)) as ->.
  { change AI_INTERNAL_ALL with (Z.ones 7). rewrite Z.land_ones by done. change (2 ^ 7) with 128.
    case_bool_decide as Hf; [by rewrite Z.mod_small, Z.eqb_refl|]. apply Z.eqb_neq. intros E. apply Hf.
    rewrite <- E. by apply Z.mod_pos_bound. }
  case_bool_decide; [rewrite decide_True by done|by rewrite decide_False]. cbn [negb].
  assert (negb (hi_family h =? AF_UNSPEC) && negb (hi_family h =? AF_INET) =
    negb (bool_decide (hi_family h ∈ [AF_UNSPEC; AF_INET]))) as ->.
  { by rewrite !one_of_cons, one_of_nil, orb_false_r, negb_orb. }
  assert (negb (hi_socktype h =? 0) && negb (hi_socktype h =? SOCK_STREAM) && negb (hi_socktype h =? SOCK_DGRAM) =
    negb (bool_decide (hi_socktype h ∈ [0; SOCK_STREAM; SOCK_DGRAM]))) as ->.
  { by rewrite !one_of_cons, one_of_nil, orb_false_r, !negb_orb, andb_assoc. }
  assert (negb (hi_protocol h =? 0) && (negb (hi_protocol h =? IPPROTO_TCP) && negb (hi_protocol h =? IPPROTO_UDP)) =
    negb (bool_decide (hi_protocol h ∈ [0; IPPROTO_TCP; IPPROTO_UDP]))) as ->.
  { by rewrite !one_of_cons, one_of_nil, orb_false_r, !negb_orb. }
  case_bool_decide as Hfam; [|by rewrite decide_False]. rewrite decide_True by done. cbn [negb].
  case_bool_decide as Ht; [case_bool_decide as Hp; [by rewrite decide_True by done|]|]; by rewrite decide_False by tauto.
Qed.

Definition answer (nodename servname : option bytes) (h : option hints) : Z + list entry :=
  match hints_answer h with
  | inl e => inl e
  | inr (flags, type) =>
      match service_answer servname flags type with
      | inl e => inl e
      | inr (type, port) =>
          match host_answer nodename servname flags with
          | inl e => inl e
          | inr (canon, addrs) => inr (map (fun a => Entry type canon a port) addrs)
          end
      end
  end.

(** What a call leaves: the list beside the old heap, or the old heap. *)
Definition delivers (ans : Z + list entry) (g : gai) (r : Z * option Z) (g' : gai) : Prop :=
  after g g' /\
  match ans with
  | inl e => r = (e, None) /\ g_heap g' = g_heap g
  | inr l =>
      (exists p h, r = (0, Some p) /\ lseg (Some p) None l h /\ owns h (g_heap g) g') \/
      (r = (EAI_MEMORY, None) /\ g_heap g' = g_heap g /\ false ∈ g_allocs g)
  end.

Lemma lseg_one a x h : node a None x h -> lseg (Some a) None [x] h.
Proof.
  intros Hn. exists a, None, h, ∅. rewrite (right_id_L ∅ (∪)). by repeat split; [|apply map_disjoint_empty_r].
Qed.

(** The answers with a single element. *)
Lemma single_delivers st canon addr port g : fresh_ok g ->
  runs (let* ai := gai_addrinfo_new st canon addr port in
        match ai with None => ret (EAI_MEMORY, None) | Some _ => ret (0, ai) end)
    (delivers (inr [Entry st canon addr port]) g) g.
Proof.
  intros Hf. apply runs_bind. eapply runs_mono; [by apply addrinfo_new_spec|].
  intros [a|] g' [HA Hr]; apply runs_ret; (split; [done|]).
  - left. destruct Hr as (h & Hn & Ho). exists a, h. split; [done|]. split; [by apply lseg_one|done].
  - right. by destruct Hr.
Qed.

(** What the loop over the addresses has built: a list whose last element it
    remembers. *)
Definition built (first prev : option Z) (l : list entry) (h : gmap Z object) : Prop :=
  match l with
  | [] => first = None /\ h = ∅
  | _ => exists f p x l' hs hn, first = Some f /\ prev = Some p /\ l = l' ++ [x] /\ lseg (Some f) (Some p) l' hs /\
      node p None x hn /\ hs ##ₘ hn /\ h = hs ∪ hn
  end.

Lemma built_lseg first prev l h : built first prev l h -> lseg first None l h.
Proof.
  destruct l as [|y l]; cbn [built]; [done|].
  intros (f & p & x & l' & hs & hn & -> & -> & El & Hs & Hn & Hd & ->). rewrite El. by eapply lseg_snoc.
Qed.

Lemma built_first first prev l h : built first prev l h -> l <> [] -> is_Some first.
Proof. destruct l; [done|]. intros (f & _ & _ & _ & _ & _ & -> & _) _. by eexists. Qed.

Lemma owns_fresh h h0 g : fresh_ok g -> owns h h0 g -> forall k, g_fresh g <= k -> h0 !! k = None.
Proof. intros Hf [Hd E] k Hk. specialize (Hf k Hk). rewrite E in Hf. by apply lookup_union_None in Hf as [_ ?]. Qed.

(** [prev->ai_next = ai]. *)
Lemma built_link first prev l h a x hn h0 g : built first prev l h -> l <> [] -> node a None x hn ->
  owns (hn ∪ h) h0 g -> hn ##ₘ h ->
  exists p h', prev = Some p /\ built first (Some a) (l ++ [x]) h' /\ owns h' h0 (put_gheap (h' ∪ h0) g) /\
    set_next p (Some a) g = Ret tt (put_gheap (h' ∪ h0) g) /\
    forall k, g_heap g !! k = None -> (h' ∪ h0) !! k = None.
Proof.
  intros Hb Hl Hn [Hd0 Eg] Hd. destruct l as [|y l]; [done|]. destruct Hb as (f & p & z & l' & hs & hp & -> & -> & El & Hs & Hp & Hsp & ->).
  apply map_disjoint_union_r in Hd as [Hns Hnp]. apply map_disjoint_union_l in Hd0 as [Hn0 Hd0].
  apply map_disjoint_union_l in Hd0 as [Hs0 Hp0].
  assert (g_heap g = hp ∪ (hs ∪ hn ∪ h0)) as Eg'.
  { rewrite Eg, (map_union_comm hn) by by apply map_disjoint_union_r. rewrite (map_union_comm hs hp) by done.
    by rewrite !(assoc_L (∪)). }
  destruct (set_next_node p None (Some a) z hp (hs ∪ hn ∪ h0) g Hp) as (hp' & Hp' & Edom & [Hd' _] & Eset).
  { split; [|done]. by repeat apply map_disjoint_union_r_2. }
  apply map_disjoint_union_r in Hd' as [Hd' Hp0']. apply map_disjoint_union_r in Hd' as [Hps' Hpn'].
  exists p, (hs ∪ hp' ∪ hn). split; [done|].
  assert (hp' ∪ (hs ∪ hn ∪ h0) = hs ∪ hp' ∪ hn ∪ h0) as Eh.
  { rewrite (map_union_comm hs hp') by done. by rewrite !(assoc_L (∪)). }
  split.
  { cbn [app built]. exists f, a, x, (y :: l), (hs ∪ hp'), hn. split; [done|]. split; [done|]. split; [done|]. split.
    - rewrite El. by eapply lseg_snoc.
    - split; [done|]. split; [by apply map_disjoint_union_l_2|done]. }
  split; [split; [by repeat apply map_disjoint_union_l_2|done]|]. split; [by rewrite Eset, Eh|].
  intros k Hk. rewrite <- Eh. rewrite Eg' in Hk. apply lookup_union_None in Hk as [Hk1 Hk2]. apply lookup_union_None. split; [|done].
  apply not_elem_of_dom. rewrite Edom. by apply not_elem_of_dom.
Qed.

Lemma lookup_loop_spec st canon port addrs : Forall (fun a => blen a = 4) addrs ->
  forall first prev l h g0 g, built first prev l h -> owns h (g_heap g0) g -> after g0 g ->
  runs (lookup_loop st canon port 4 addrs first prev) (fun r g' => after g0 g' /\
    match r with
    | inl e => e = EAI_MEMORY /\ g_heap g' = g_heap g0 /\ false ∈ g_allocs g0
    | inr p => exists h', lseg p None (l ++ map (fun a => Entry st canon a port) addrs) h' /\ owns h' (g_heap g0) g'
    end) g.
Proof.
  induction 1 as [|a addrs Ha Hall IH]; intros first prev l h g0 g Hb Ho HA; cbn [lookup_loop map].
  - apply runs_ret. split; [done|]. exists h. rewrite app_nil_r. by split; [eapply built_lseg|].
  - change (negb (4 =? 4)) with false. cbn [negb]. apply runs_bind. rewrite Ha, ztake_ge by lia. apply runs_ret.
    apply runs_bind. eapply runs_mono; [apply (addrinfo_new_spec st canon a port g), HA|].
    intros [p|] g1 [A1 Hr].
    + destruct Hr as (hn & Hn & [Hd1 E1]). destruct Ho as [Hd0 E0]. rewrite E0 in Hd1, E1. pose proof (after_trans _ _ _ HA A1) as A01.
      apply map_disjoint_union_r in Hd1 as [Hnh Hn0].
      destruct (decide (l = [])) as [->|Hl].
      * destruct Hb as [-> ->]. rewrite (left_id_L ∅ (∪)) in E1.
        apply (IH (Some p) (Some p) [Entry st canon a port] hn); [|done|done].
        exists p, p, (Entry st canon a port), [], ∅, hn. rewrite (left_id_L ∅ (∪)).
        by repeat split; [|apply map_disjoint_empty_l].
      * destruct (built_first _ _ _ _ Hb Hl) as [f ->].
        destruct (built_link _ _ _ _ p (Entry st canon a port) hn (g_heap g0) g1 Hb Hl Hn) as (q & h' & -> & Hb' & Ho' & Eset & Hk); [|done|].
        { split; [by apply map_disjoint_union_l_2|]. by rewrite E1, (assoc_L (∪)). }
        apply runs_bind, runs_ret. apply runs_bind. apply runs_elim. eexists _, _. split; [exact Eset|].
        replace (l ++ Entry st canon a port :: map (fun b => Entry st canon b port) addrs)
          with ((l ++ [Entry st canon a port]) ++ map (fun b => Entry st canon b port) addrs) by by rewrite <- app_assoc.
        eapply IH; [done|done|]. apply after_heap; [done|]. intros k Hkf. apply Hk. by apply A01.
    + destruct Hr as [E1 Hfail]. assert (owns h (g_heap g0) g1) as Ho1 by (destruct Ho as [? ?]; split; [done|congruence]).
      pose proof (after_trans _ _ _ HA A1) as A01. apply runs_bind, runs_elim. eexists _, _.
      split; [eapply freeaddrinfo_frees; [by eapply built_lseg|exact Ho1]|]. apply runs_ret. split.
      * apply after_heap; [done|]. by eapply owns_fresh; [apply A01|].
      * split; [done|]. split; [done|]. by apply HA.
Qed.

(** [errno] is all that looking up a service changes. *)
Lemma convert_service_number s g : exists e, convert_service s g = Ret (service_number s) (put_gerrno e g).
Proof.
  unfold convert_service, service_number. destruct s as [|c s]; [exists (g_errno g); by destruct g|].
  destruct (strtol (c :: s)) as [[v range] rest]. destruct range; (eexists; unfold bind, modify, gets, ret; cbn [g_errno put_gerrno]).
  - change (ERANGE =? 0) with false. cbn [negb orb]. reflexivity.
  - change (0 =? 0) with true. cbn [negb orb]. by destruct (_ || _).
Qed.

Lemma service_number_nonneg s v : service_number s = Some v -> 0 <= v.
Proof.
  unfold service_number. destruct s as [|c s]; [done|]. destruct (strtol (c :: s)) as [[w range] rest].
  destruct (Z.ltb_spec w 0); [by rewrite orb_true_r|]. destruct (_ || _); [done|]. intros [= <-]. done.
Qed.

Lemma service_spec servname flags type g : exists e,
  (match servname with None => ret (inr (type, 0)) | Some s => gai_service s flags type end) g =
  Ret (service_answer servname flags type) (put_gerrno e g).
Proof.
  destruct servname as [s|]; [|exists (g_errno g); by destruct g].
  destruct (convert_service_number s g) as [e E]. exists e. unfold gai_service, service_answer.
  rewrite (bind_Ret _ _ _ _ _ E). destruct (service_number s) as [v|] eqn:Ev.
  - apply service_number_nonneg in Ev. destruct (Z.ltb_spec 65535 v), (Z.leb_spec v 65535); try lia; [done|].
    unfold u16. by rewrite Z.mod_small by lia.
  - destruct (flag flags AI_NUMERICSERV); [done|].
    replace (if negb (type =? 0) then Some (if type =? SOCK_DGRAM then str "udp" else str "tcp") else None)
      with (if type =? 0 then None else Some (if type =? SOCK_DGRAM then str "udp" else str "tcp")) by by destruct (type =? 0).
    destruct (getservbyname s _) as [srv|]; [|done]. destruct (bytes_eqb (s_proto srv) (str "udp")); cbn [orb negb].
    + by destruct (65535 <? s_port srv).
    + destruct (bytes_eqb (s_proto srv) (str "tcp")); cbn [orb negb]; [|done]. by destruct (65535 <? s_port srv).
Qed.

Lemma lookup_spec n servname flags type port g : fresh_ok g ->
  runs (gai_lookup n flags type port)
    (delivers (match host_answer (Some n) servname flags with
               | inl e => inl e
               | inr (canon, addrs) => inr (map (fun a => Entry type canon a port) addrs)
               end) g) g.
Proof.
  intros Hf. unfold gai_lookup, host_answer. destruct (netdb_aton n) as [a|]; [by apply single_delivers|].
  destruct (flag flags AI_NUMERICHOST); [by apply runs_ret|].
  destruct (gethostbyname n) as [e|host] eqn:Eh; [by apply runs_ret|].
  pose proof (gethostbyname_sizes _ _ Eh) as Hsz. rewrite bool_decide_decide.
  destruct (decide (h_addr_list host = [])) as [E|E]; cbn [orb]; [rewrite E; by apply runs_ret|].
  set (canon := if flag flags AI_CANONNAME then Some match h_name host with Some name => name | None => n end else None).
  replace (if flag flags AI_CANONNAME then Some (default n (h_name host)) else None) with canon
    by (unfold canon; by destruct (h_name host)).
  destruct (h_addr_list host) as [|a l] eqn:El; [done|]. rewrite <- El in *. apply runs_bind.
  destruct (Z.eqb_spec (h_length host) 4) as [E4|E4]; cbn [negb].
  - rewrite E4 in Hsz |- *.
    eapply runs_mono; [apply (lookup_loop_spec type canon port (h_addr_list host) Hsz None None [] ∅ g g)|].
    + done.
    + split; [apply map_disjoint_empty_l|by rewrite (left_id_L ∅ (∪))].
    + by apply after_refl.
    + intros [e|p] g' [HA Hr]; apply runs_ret; (split; [done|]).
      * right. by destruct Hr as (-> & ? & ?).
      * left. destruct Hr as (h & Hl & Ho). rewrite El in Hl |- *. cbn [app map] in *.
        destruct p as [p|]; [by exists p, h|]. by destruct Hl as (? & ? & ? & ? & ? & _).
  - rewrite El. cbn [lookup_loop]. rewrite (proj2 (Z.eqb_neq _ _) E4). cbn [negb].
    apply runs_elim. eexists (inl EAI_FAIL), g. split; [reflexivity|]. by apply runs_ret.
Qed.

Lemma getaddrinfo_delivers nodename servname h g : fresh_ok g ->
  runs (portable_getaddrinfo nodename servname h) (delivers (answer nodename servname h) g) g.
Proof.
  intros Hf.
  unfold portable_getaddrinfo, answer. rewrite check_hints_spec. destruct (hints_answer h) as [e|[flags type]]; [by apply runs_ret|].
  apply runs_bind, runs_elim. destruct (service_spec servname flags type g) as [er ->]. eexists _, _. split; [done|].
  destruct (service_answer servname flags type) as [e|[type' port]]; [by apply runs_ret|].
  set (g1 := put_gerrno er g). assert (fresh_ok g1) as Hf1 by exact Hf.
  destruct nodename as [n|]; [exact (lookup_spec n servname flags type' port g1 Hf1)|]. cbn [host_answer].
  destruct servname as [s|]; [|by apply runs_ret].
  replace (Z.land flags AI_PASSIVE =? AI_PASSIVE) with (flag flags AI_PASSIVE); [exact (single_delivers type' None _ port g1 Hf1)|].
  unfold flag, AI_PASSIVE. change 1 with (Z.ones 1). rewrite Z.land_ones by done. change (2 ^ 1) with 2.
  pose proof (Z.mod_pos_bound flags 2 ltac:(lia)). assert (flags mod 2 = 0 \/ flags mod 2 = 1) as [-> | ->] by lia; done.
Qed.

(** C19: the list that getaddrinfo builds.  Whatever allocations fail, a call
    returns; on success the list at [*res] says exactly what the hints, the
    service and the host stand for, in the order of the host's addresses, and
    occupies memory of its own; on an error, also in the middle of the list,
    [*res] is not set and nothing stays allocated.  [EAI_MEMORY] comes only
    from an allocation that failed, and [freeaddrinfo] frees the list and
    nothing else. *)
Theorem getaddrinfo_builds nodename servname h g :
  fresh_ok g ->
  runs (portable_getaddrinfo nodename servname h) (fun r g' =>
    after g g' /\
    match answer nodename servname h with
    | inl e => r = (e, None) /\ g_heap g' = g_heap g
    | inr l =>
        (exists p hp, r = (0, Some p) /\ lseg (Some p) None l hp /\ owns hp (g_heap g) g' /\
           portable_freeaddrinfo (Some p) g' = Ret tt (put_gheap (g_heap g) g')) \/
        (r = (EAI_MEMORY, None) /\ g_heap g' = g_heap g /\ false ∈ g_allocs g)
    end) g.
Proof.
  intros Hf. apply runs_mono with (delivers (answer nodename servname h) g).
  2: { intros r g' [HA Hr]. split; [done|]. destruct (answer _ _ _) as [e|l]; [done|].
       destruct Hr as [(p & hp & -> & Hl & Ho)|Hr]; [left|by right]. exists p, hp. repeat split; [done|apply Ho..|].
       by eapply freeaddrinfo_frees. }
  by apply getaddrinfo_delivers.
Qed.

(** * The texts of getnameinfo *)

(** A name that stands for a host, not a converted address. *)
Definition qualified (name : bytes) : bool :=
  has_byte "." name && existsb (fun c => negb (is_digit c) && negb (byte_eqb c ".")) name.

(** The text for an address; [None] if a name is required and there is none. *)
Definition name_text (addr : bytes) (flags : Z) : option bytes :=
  if flag flags NI_NUMERICHOST then Some (netdb_ntoa addr)
  else
    let names := match gethostbyaddr addr with Some h => default [] (h_name h) :: h_aliases h | None => [] end in
    match List.filter qualified names with
    | name :: _ => Some name
    | [] => if flag flags NI_NAMEREQD then None else Some (netdb_ntoa addr)
    end.

Definition service_text (port flags : Z) : bytes :=
  if flag flags NI_NUMERICSERV then decimal port
  else match getservbyport (htons port) (if flag flags NI_DGRAM then str "udp" else str "tcp") with
       | Some srv => s_name srv
       | None => decimal port
       end.

(** [text] and a nul at the start of a buffer that keeps its length. *)
Definition holds (text d d' : bytes) : Prop := exists rest, d' = text ++ nul :: rest /\ blen d' = blen d.

(** How writing [text] to a buffer of [size] ends. *)
Definition fits (text : bytes) (size : Z) (d d' : bytes) (status : Z) : Prop :=
  if size <? blen text + 1 then status = EAI_OVERFLOW /\ blen d' = blen d else status = 0 /\ holds text d d'.

Lemma copy_holds text d : blen text + 1 <= blen d ->
  exists d', copy_to (Some d) (text ++ [nul]) = Some d' /\ holds text d d'.
Proof.
  intros Hl. cbn [copy_to mbind option_bind]. assert (blen (text ++ [nul]) = blen text + 1) as E by (rewrite blen_app; done).
  rewrite (proj2 (Z.leb_le _ _)) by lia. eexists. split; [done|].
  exists (zdrop (blen (text ++ [nul])) d). rewrite <- app_assoc. split; [done|]. zlist.
Qed.

Lemma put_node text size d srv : size <= blen d ->
  runs (if size <? blen text + 1 then ret EAI_OVERFLOW else do* copy_node (text ++ [nul]) in ret 0)
    (fun status n' => exists d', n' = Names (Some d') srv /\ fits text size d d' status) (Names (Some d) srv).
Proof.
  intros Hd. unfold fits. destruct (Z.ltb_spec size (blen text + 1)); [apply runs_ret; by exists d|].
  destruct (copy_holds text d) as (d' & E & Hh); [lia|]. apply runs_bind. unfold runs at 1, wp, copy_node. cbn [nm_node nm_service].
  rewrite E. apply runs_ret. by exists d'.
Qed.

Lemma try_name_spec name size d srv : size <= blen d ->
  runs (try_name name size) (fun r n' => if qualified name
      then exists status d', r = Some status /\ n' = Names (Some d') srv /\ fits name size d d' status
      else r = None /\ n' = Names (Some d) srv) (Names (Some d) srv).
Proof.
  intros Hd. unfold try_name, qualified. destruct (has_byte "." name); cbn [negb andb]; [|by apply runs_ret].
  destruct (existsb _ name); cbn [negb]; [|by apply runs_ret].
  pose proof (put_node name size d srv Hd) as Hp. unfold runs, wp, bind in *. destruct (size <? blen name + 1).
  - cbn in *. destruct Hp as (d' & E & Hf). by exists EAI_OVERFLOW, d'.
  - destruct (copy_node (name ++ [nul]) (Names (Some d) srv)); try done. cbn in *. destruct Hp as (d' & E & Hf). by exists 0, d'.
Qed.

Lemma try_names_spec names size d srv : size <= blen d ->
  runs (try_names names size) (fun r n' => match List.filter qualified names with
      | name :: _ => exists status d', r = Some status /\ n' = Names (Some d') srv /\ fits name size d d' status
      | [] => r = None /\ n' = Names (Some d) srv
      end) (Names (Some d) srv).
Proof.
  intros Hd. induction names as [|name names IH]; cbn [try_names List.filter]; [by apply runs_ret|].
  apply runs_bind. eapply runs_mono; [by apply try_name_spec|]. intros r n' Hr. destruct (qualified name).
  - destruct Hr as (status & d' & -> & -> & Hf). apply runs_ret. by exists status, d'.
  - destruct Hr as [-> ->]. exact IH.
Qed.

Lemma lookup_name_spec addr size flags d srv : size <= blen d ->
  runs (lookup_name addr size flags) (fun status n' => exists d', n' = Names (Some d') srv /\
      match name_text addr flags with
      | None => status = EAI_NONAME
      | Some text => fits text size d d' status
      end) (Names (Some d) srv).
Proof.
  intros Hd. unfold lookup_name, name_text.
  destruct (flag flags NI_NUMERICHOST); cbn [negb]; [by apply put_node|].
  assert (runs (if flag flags NI_NAMEREQD then ret EAI_NONAME else numeric_name addr size)
    (fun status n' => exists d', n' = Names (Some d') srv /\
      match (if flag flags NI_NAMEREQD then None else Some (netdb_ntoa addr)) with
      | None => status = EAI_NONAME
      | Some text => fits text size d d' status
      end) (Names (Some d) srv)) as Hnum.
  { destruct (flag flags NI_NAMEREQD); [apply runs_ret; by exists d|by apply put_node]. }
  destruct (gethostbyaddr addr) as [host|] eqn:Eh.
  - destruct (gethostbyaddr_named _ _ Eh) as [name En]. rewrite En. cbn [default List.filter].
    apply runs_bind, runs_ret. apply runs_bind. eapply runs_mono; [by apply try_name_spec|]. intros r n' Hr.
    change (id name) with name.
    destruct (qualified name).
    + destruct Hr as (status & d' & -> & -> & Hf). apply runs_ret. by exists d'.
    + destruct Hr as [-> ->]. apply runs_bind. eapply runs_mono; [by apply try_names_spec|]. intros r n' Hr.
      destruct (List.filter qualified (h_aliases host)) as [|alias l].
      * destruct Hr as [-> ->]. exact Hnum.
      * destruct Hr as (status & d' & -> & -> & Hf). apply runs_ret. by exists d'.
  - destruct (flag flags NI_NAMEREQD); exact Hnum.
Qed.

Lemma copy_service_holds text nd d : blen text + 1 <= blen d ->
  exists d', copy_service (text ++ [nul]) (Names nd (Some d)) = Ret tt (Names nd (Some d')) /\ holds text d d'.
Proof.
  intros Hl. destruct (copy_holds text d Hl) as (d' & E & Hh). exists d'. unfold copy_service. cbn [nm_node nm_service].
  by rewrite E.
Qed.

Lemma lookup_service_spec port size flags nd d : 0 < size <= blen d ->
  runs (lookup_service port size flags) (fun status n' => exists d', n' = Names nd (Some d') /\
    fits (service_text port flags) size d d' status) (Names nd (Some d)).
Proof.
  intros Hd. unfold lookup_service, service_text.
  assert (runs (do* copy_service (ztake (size - 1) (decimal port) ++ [nul]) in
                if size <=? blen (decimal port) then ret EAI_OVERFLOW else ret 0)
    (fun status n' => exists d', n' = Names nd (Some d') /\ fits (decimal port) size d d' status) (Names nd (Some d))) as Hnum.
  { destruct (copy_service_holds (ztake (size - 1) (decimal port)) nd d) as (d' & E & Hh); [rewrite blen_ztake by lia; lia|].
    apply runs_elim. rewrite (bind_Ret _ _ _ _ _ E). unfold fits.
    destruct (Z.leb_spec size (blen (decimal port))), (Z.ltb_spec size (blen (decimal port) + 1)); try lia;
      eexists _, _; (split; [done|]); exists d'; split; try done.
    - split; [done|]. by destruct Hh as (? & _ & ?).
    - rewrite ztake_ge in Hh by lia. done. }
  destruct (flag flags NI_NUMERICSERV); cbn [negb]; [exact Hnum|].
  destruct (getservbyport _ _) as [srv|]; [|exact Hnum]. unfold fits.
  destruct (Z.ltb_spec size (blen (s_name srv) + 1)); [apply runs_ret; by exists d|].
  destruct (copy_service_holds (s_name srv) nd d) as (d' & E & Hh); [lia|].
  apply runs_elim. rewrite (bind_Ret _ _ _ _ _ E). eexists _, _. split; [done|]. by exists d'.
Qed.

(** [getnameinfo] stays within the buffers, and says whether the texts fit. *)
Lemma getnameinfo_texts sa nodelen servicelen flags d e : sin_family sa = AF_INET ->
  0 < nodelen <= blen d -> 0 < servicelen <= blen e ->
  runs (portable_getnameinfo sa nodelen servicelen flags) (fun status n' =>
    exists d' e', n' = Names (Some d') (Some e') /\
      match name_text (sin_addr sa) flags with
      | None => status = EAI_NONAME
      | Some name => exists status', fits name nodelen d d' status' /\
          if status' =? 0 then fits (service_text (of_be16 (sin_port sa)) flags) servicelen e e' status else status = status'
      end) (Names (Some d) (Some e)).
Proof.
  intros Hfam Hd He. unfold portable_getnameinfo. apply runs_bind, runs_gets. apply runs_bind, runs_gets. cbn [nm_node nm_service].
  rewrite !(bool_decide_eq_false_2 (Some _ = None)) by done. rewrite (proj2 (Z.leb_gt nodelen 0)), (proj2 (Z.leb_gt servicelen 0)) by lia.
  cbn [orb andb]. rewrite Hfam, Z.eqb_refl. cbn [negb]. apply runs_bind.
  eapply runs_mono; [apply (lookup_name_spec _ nodelen flags d (Some e)); lia|]. intros status n' (d' & -> & Hr).
  destruct (name_text (sin_addr sa) flags) as [name|].
  - destruct (Z.eqb_spec status 0) as [->|Hne]; cbn [negb].
    + eapply runs_mono; [by apply lookup_service_spec|]. intros status n' (e' & -> & Hs). exists d', e'. split; [done|]. by exists 0.
    + apply runs_ret. exists d', e. split; [done|]. exists status. by rewrite (proj2 (Z.eqb_neq _ _) Hne).
  - subst status. apply runs_ret. by exists d', e.
Qed.

Lemma of_be16_be16 p : 0 <= p <= 65535 -> of_be16 (be16 p) = p.
Proof.
  intros Hp. unfold of_be16, be16. rewrite !bu_bz. unfold u8. change (2 ^ 8) with 256.
  rewrite (Z.mod_small (p / 256)) by (split; [apply Z.div_pos; lia|apply Z.div_lt_upper_bound; lia]).
  pose proof (Z.div_mod p 256 ltac:(lia)). lia.
Qed.

Lemma holds_cstr text d d' : no_nul text -> holds text d d' -> cstr d' = text.
Proof. intros Hn (rest & -> & _). rewrite cstr_app_no_nul by done. apply app_nil_r. Qed.

Lemma service_number_decimal n : 0 <= n <= LONG_MAX -> service_number (decimal n) = Some n.
Proof.
  unfold LONG_MAX. intros Hn. destruct (digits_dec 20 n []) as (k & Hk & E); [simpl; lia|lia|]. fold (decimal n) in E.
  pose proof (decimal_no_nul_slash n ltac:(lia)) as Hd. unfold service_number, strtol.
  destruct (decimal n) as [|c s] eqn:Ed; [simpl in E; destruct k; [lia|done]|].
  apply Forall_cons_1 in Hd as [Hc _]. destruct (digit_plain c Hc) as (Hs & Hm & Hp & _).
  cbn [skip_space]. rewrite Hs. rewrite (byte_eqb_neq c "-"), (byte_eqb_neq c "+") by done.
  rewrite E. simpl digits. destruct k; [lia|]. rewrite Z.mul_1_l. unfold LONG_MAX, LONG_MIN.
  rewrite !(proj2 (Z.ltb_ge _ _)) by lia. done.
Qed.

Lemma decimal_no_nul n : 0 <= n -> no_nul (decimal n).
Proof.
  intros Hn Hin. pose proof (decimal_no_nul_slash n Hn) as Hd. rewrite Forall_forall in Hd. by specialize (Hd _ Hin).
Qed.

Lemma fits_holds text size d d' status : blen text < size -> fits text size d d' status -> status = 0 /\ holds text d d'.
Proof. intros Hl. unfold fits. by rewrite (proj2 (Z.ltb_ge _ _)) by lia. Qed.

(** C20: the two replacements are inverse.  For every IPv4 address [a] and port
    [p], getaddrinfo of their texts, under any hints it accepts, makes a list
    of one element with [a] and [p], unless an allocation fails; and
    getnameinfo of that element's address, asked for numbers and given large
    enough buffers, writes the two texts again and nothing outside the
    buffers. *)
Theorem nameinfo_roundtrip a p h flags type g d e nodelen servicelen :
  length a = 4%nat -> 0 <= p <= 65535 -> check_hints h = inr (flags, type) -> fresh_ok g ->
  blen (netdb_ntoa a) < nodelen <= blen d -> blen (decimal p) < servicelen <= blen e ->
  runs (portable_getaddrinfo (Some (netdb_ntoa a)) (Some (decimal p)) h) (fun r g' =>
    (r.1 = EAI_MEMORY /\ g_heap g' = g_heap g /\ false ∈ g_allocs g) \/
    exists ptr sin ai, r = (0, Some ptr) /\
      g_heap g' !! ptr = Some (OInfo ai) /\ gi_next ai = None /\ gi_socktype ai = type /\
      gi_addr ai = Some sin /\ g_heap g' !! sin = Some (OSockaddr (SockaddrIn AF_INET a (be16 p))) /\
      runs (portable_getnameinfo (SockaddrIn AF_INET a (be16 p)) nodelen servicelen (Z.lor NI_NUMERICHOST NI_NUMERICSERV))
        (fun status n => status = 0 /\ exists d' e', n = Names (Some d') (Some e') /\
           blen d' = blen d /\ cstr d' = netdb_ntoa a /\ blen e' = blen e /\ cstr e' = decimal p)
        (Names (Some d) (Some e))) g.
Proof.
  intros Ha Hp Hh Hf Hd He. eapply runs_mono; [by apply getaddrinfo_delivers|]. intros r g' [_ Hr].
  unfold answer, service_answer, host_answer in Hr. rewrite <- check_hints_spec, Hh, service_number_decimal, netdb_aton_ntoa in Hr by (unfold LONG_MAX; lia || done).
  rewrite (proj2 (Z.leb_le p 65535)) in Hr by lia. cbn [map] in Hr. destruct Hr as [(ptr & hp & -> & Hl & Hdj & Eg)|(-> & Hr)]; [right|by left].
  destruct Hl as (? & next & hn & hr & [= <-] & (sin & cp & hc & Hc & Hne & Hca & Hcs & ->) & _ & -> & -> & ->).
  rewrite (right_id_L ∅ (∪)) in Eg. exists ptr, sin, (info_of (Entry type (if flag flags AI_CANONNAME then Some (netdb_ntoa a) else None) a p) cp (Some sin) None).
  rewrite Eg, <- !insert_union_l, lookup_insert_eq, lookup_insert_ne, lookup_insert_eq by done. do 6 (split; [done|]).
  pose proof (blen_nonneg (netdb_ntoa a)). pose proof (blen_nonneg (decimal p)).
  eapply runs_mono; [apply getnameinfo_texts; [done|lia..]|]. intros status n (d' & e' & -> & Hn). cbn [sin_addr sin_port] in Hn.
  change (name_text a (Z.lor NI_NUMERICHOST NI_NUMERICSERV)) with (Some (netdb_ntoa a)) in Hn.
  rewrite of_be16_be16 in Hn by done. change (service_text p (Z.lor NI_NUMERICHOST NI_NUMERICSERV)) with (decimal p) in Hn.
  destruct Hn as (s1 & Hn1 & Hn2). apply fits_holds in Hn1 as [-> Hnode]; [|lia]. rewrite Z.eqb_refl in Hn2. apply fits_holds in Hn2 as [-> Hsrv]; [|lia].
  split; [done|]. exists d', e'. split; [done|]. split; [by destruct Hnode as (? & _ & ?)|]. split; [eapply holds_cstr; [apply netdb_ntoa_no_nul|done]|].
  split; [by destruct Hsrv as (? & _ & ?)|]. eapply holds_cstr; [apply decimal_no_nul; lia|done].
Qed.
End answer.

(** * Witnesses *)

(** The portable conversions and a small database. *)
Definition small_netdb : Netdb := {|
  netdb_aton := portable_inet_aton;
  netdb_ntoa := portable_inet_ntoa;
  gethostbyname name :=
    if bytes_eqb name (str "example.org")
    then inr (Hostent (Some (str "www.example.org")) [] 4 [be32 1; be32 2])
    else inl HOST_NOT_FOUND;
  gethostbyaddr _ := None;
  getservbyname _ _ := None;
  getservbyport _ _ := None;
|}.

Lemma small_netdb_laws : @NetdbLaws small_netdb.
Proof.
  split; cbn.
  - intros name host. destruct (bytes_eqb _ _); [|done]. intros [= <-]. repeat constructor.
  - done.
  - apply inet_aton_ntoa.
  - intros a. unfold portable_inet_ntoa. destruct a as [|a [|b [|c [|d [|]]]]]; try (intros Hin; by apply elem_of_nil in Hin).
    unfold no_nul. rewrite !elem_of_app. assert (forall x, nul ∉ decimal (bu x)) as Hx.
    { intros x. apply decimal_no_nul, bu_range. }
    assert (nul ∉ str ".") as Hdot by (apply (bool_decide_eq_true (nul ∉ str ".")); by vm_compute).
    pose proof (Hx a); pose proof (Hx b); pose proof (Hx c); pose proof (Hx d). tauto.
Qed.

Definition no_gai (allocs : list bool) : gai := Gai ∅ 1 allocs 0.

Lemma no_gai_fresh allocs : fresh_ok (no_gai allocs).
Proof. intros k _. apply lookup_empty. Qed.

(** Two addresses, and an allocation that fails in the second element. *)
Lemma getaddrinfo_builds_witness :
  let _ := small_netdb in
  let host := Some (str "example.org") in let port := Some (str "80") in
  let h := Some (Hints AI_CANONNAME 0 SOCK_STREAM 0) in
  let entry a := Entry SOCK_STREAM (Some (str "www.example.org")) (be32 a) 80 in
  (exists p hp g', portable_getaddrinfo host port h (no_gai []) = Ret (0, Some p) g' /\
    lseg (Some p) None [entry 1; entry 2] hp /\ g_heap g' = hp ∪ ∅ /\
    portable_freeaddrinfo (Some p) g' = Ret tt (put_gheap ∅ g')) /\
  (exists g', portable_getaddrinfo host port h (no_gai [true; true; true; true; false]) = Ret (EAI_MEMORY, None) g' /\ g_heap g' = ∅).
Proof.
  intros db host port h entry.
  assert (@answer small_netdb host port h = inr [entry 1; entry 2]) as E by (by vm_compute). split.
  - destruct (proj1 (runs_elim _ _ _) (@getaddrinfo_builds small_netdb small_netdb_laws host port h _ (no_gai_fresh []))) as (r & g' & Er & _ & Hr).
    rewrite E in Hr. destruct Hr as [(p & hp & -> & Hl & [_ Ho] & Hfree)|(_ & _ & Hn)]; [|by apply elem_of_nil in Hn].
    exists p, hp, g'. exact (conj Er (conj Hl (conj Ho Hfree))).
  - destruct (proj1 (runs_elim _ _ _) (@getaddrinfo_builds small_netdb small_netdb_laws host port h _
      (no_gai_fresh [true; true; true; true; false]))) as (r & g' & Er & _ & Hr).
    rewrite E in Hr. exists g'. destruct Hr as [(p & hp & -> & _)|(-> & Hh & _)]; [|by split].
    assert (match @portable_getaddrinfo small_netdb host port h (no_gai [true; true; true; true; false]) with Ret r _ => r.1 =? EAI_MEMORY | _ => false end = true) as Hc
      by (by vm_compute). by rewrite Er in Hc.
Defined.

Lemma nameinfo_roundtrip_witness :
  let _ := small_netdb in
  let a := be32 3232235777 in let buffer := replicate 20 x01 in
  exists g' ptr sin ai, portable_getaddrinfo (Some (netdb_ntoa a)) (Some (decimal 4373)) None (no_gai []) = Ret (0, Some ptr) g' /\
    gi_addr ai = Some sin /\ g_heap g' !! ptr = Some (OInfo ai) /\
    g_heap g' !! sin = Some (OSockaddr (SockaddrIn AF_INET a (be16 4373))) /\
    exists d' e', portable_getnameinfo (SockaddrIn AF_INET a (be16 4373)) 20 6 (Z.lor NI_NUMERICHOST NI_NUMERICSERV)
        (Names (Some buffer) (Some buffer)) = Ret 0 (Names (Some d') (Some e')) /\
      cstr d' = str "192.168.1.1" /\ cstr e' = str "4373".
Proof.
  intros db a buffer.
  destruct (proj1 (runs_elim _ _ _) (@nameinfo_roundtrip small_netdb small_netdb_laws a 4373 None 0 0 (no_gai []) buffer buffer 20 6
    eq_refl ltac:(lia) eq_refl (no_gai_fresh _) ltac:(by vm_compute) ltac:(by vm_compute))) as (r & g' & Er & Hr).
  destruct Hr as [(_ & _ & Hn)|(ptr & sin & ai & -> & Hp & _ & _ & Hs & Hsin & Hn)]; [by apply elem_of_nil in Hn|].
  exists g', ptr, sin, ai. do 4 (split; [assumption|]).
  apply runs_elim in Hn as (status & n & En & -> & d' & e' & -> & _ & Hd & _ & He). exists d', e'. split; [exact En|].
  rewrite Hd, He. by split; vm_compute.
Defined.
