(* ===== verification/Listen.v ===== *)
(** Listening sockets: the part of [util/network.c] that binds them and
    accepts connections.

    The kernel of [Connect] answers the calls on single sockets.  [listener]
    adds what sockets are bound to, which of them listen, and the script of
    the calls of [select] and [accept] that wait for a connection. *)

From S2P Require Import Prelude Effects CLib Net Tokens Connect NetAddr.

(** What a call of [select] for reading gives: the errno, or the descriptors
    that are ready. *)
Abbreviation wait_result := (Z + list Z)%type.

(** What a call of [accept] gives: the errno, or the connection with the
    address of its peer. *)
Abbreviation accept_result C := (Z + chan C * sockaddr)%type.

(** An address that a socket is bound to: the family, the bytes of the
    address and the port. *)
Abbreviation bind_addr := (Z * bytes * Z)%type.

Record listener (C : Type) : Type := Listener {
  li_kern : kern C;
  li_bound : gmap Z bind_addr;
  li_listen : gset Z;
  li_waits : list wait_result;
  li_accepts : list (accept_result C);
}.
Arguments Listener {C}.
Arguments li_kern {C}.
Arguments li_bound {C}.
Arguments li_listen {C}.
Arguments li_waits {C}.
Arguments li_accepts {C}.

(** [getaddrinfo] without a host and with [AI_PASSIVE], for a socket type and
    a service. *)
Class Passive : Type := { getaddrinfo_passive : Z -> bytes -> Z + list sockaddr }.

Definition INET6_ADDRSTRLEN : Z := 46.

Section listen.
Context {C : Type} `{Inet} `{InetPrint} `{Passive}.
Implicit Types l : listener C.

Definition put_lkern k l : listener C := Listener k (li_bound l) (li_listen l) (li_waits l) (li_accepts l).
Definition put_bound b l : listener C := Listener (li_kern l) b (li_listen l) (li_waits l) (li_accepts l).
Definition put_listen s l : listener C := Listener (li_kern l) (li_bound l) s (li_waits l) (li_accepts l).
Definition put_waits ws l : listener C := Listener (li_kern l) (li_bound l) (li_listen l) ws (li_accepts l).
Definition put_accepts a l : listener C := Listener (li_kern l) (li_bound l) (li_listen l) (li_waits l) a.

#[export] Instance listener_HasLog : HasLog (listener C) := fun m l => put_lkern (add_log m (li_kern l)) l.

Definition on_lkern {A} (m : M (kern C) A) : M (listener C) A := zoom li_kern put_lkern m.

(** [bind], [listen] and [close]. *)
Definition bind_to (fd : Z) (addr : bind_addr) : M (listener C) Z :=
  let* r := on_lkern (sys_bind fd) in
  do* (if r =? 0 then modify (fun l => put_bound (<[fd := addr]> (li_bound l)) l) else ret tt) in
  ret r.

Definition listen_on (fd : Z) : M (listener C) Z :=
  let* bound := gets li_bound in
  match bound !! fd with
  | None => do* on_lkern (set_errno_to EINVAL) in ret (-1)
  | Some _ => do* modify (fun l => put_listen ({[fd]} ∪ li_listen l) l) in ret 0
  end.

Definition close_socket (fd : Z) : M (listener C) unit :=
  do* modify (fun l => put_bound (delete fd (li_bound l)) (put_listen (li_listen l ∖ {[fd]}) l)) in
  on_lkern (sys_close fd).

(** ** Options *)

Definition network_set_reuseaddr (fd : Z) : M (listener C) unit :=
  let* r := on_lkern (sys_setsockopt fd) in
  if r <? 0 then syswarn "cannot mark bind address reusable" [] else ret tt.

Definition network_set_v6only (fd : Z) : M (listener C) unit :=
  let* r := on_lkern (sys_setsockopt fd) in
  if r <? 0 then syswarn "cannot set IPv6 socket to v6only" [] else ret tt.

Definition network_set_freebind (fd : Z) : M (listener C) unit :=
  let* r := on_lkern (sys_setsockopt fd) in
  if r <? 0 then syswarn "cannot set IPv6 socket to free binding" [] else ret tt.

(** ** Binding *)

(** From [inet_aton] or [inet_pton] to the end of the function. *)
Definition bind_parsed (invalid : string) (fd family : Z) (address : bytes) (port : Z) (addr : option bytes)
    : M (listener C) (option Z) :=
  match addr with
  | None =>
      do* warn invalid [AStr address] in
      do* on_lkern (set_errno_to EINVAL) in
      ret None
  | Some addr =>
      let* r := bind_to fd (family, addr, u16 port) in
      if r <? 0 then
        do* syswarn "cannot bind socket for %s, port %hu" [AStr address; AInt port] in
        do* close_socket fd in
        ret None
      else ret (Some fd)
  end.

Definition network_bind_ipv4 (type : Z) (address : bytes) (port : Z) : M (listener C) (option Z) :=
  let* fd := on_lkern (sys_socket AF_INET type 0) in
  match fd with
  | None =>
      do* syswarn "cannot create IPv4 socket for %s, port %hu" [AStr address; AInt port] in
      ret None
  | Some fd =>
      do* network_set_reuseaddr fd in
      let address := if any_address address then str "0.0.0.0" else address in
      bind_parsed "invalid IPv4 address %s" fd AF_INET address port (inet_aton address)
  end.

Definition network_bind_ipv6 (type : Z) (address : bytes) (port : Z) : M (listener C) (option Z) :=
  let* fd := on_lkern (sys_socket AF_INET6 type 0) in
  match fd with
  | None =>
      let* errno := on_lkern get_errno in
      do* (if negb (errno =? EAFNOSUPPORT) && negb (errno =? EPROTONOSUPPORT)
           then syswarn "cannot create IPv6 socket for %s, port %hu" [AStr address; AInt port] else ret tt) in
      ret None
  | Some fd =>
      do* network_set_reuseaddr fd in
      do* network_set_v6only fd in
      let address := if any_address address then str "::" else address in
      do* (if negb (bytes_eqb address (str "::")) then network_set_freebind fd else ret tt) in
      bind_parsed "invalid IPv6 address %s" fd AF_INET6 address port (inet_pton6 address)
  end.

(** [*fds] and [*count] with the entries allocated: storing past them is
    undefined. *)
Definition store_fd (size : Z) (fds : list Z) (fd : Z) : M (listener C) (Z * list Z) :=
  let size := if size <=? blen fds then size + 2 else size in
  if blen fds <? size then ret (size, fds ++ [fd]) else fault.

(** The loop over the addresses; a name that could not be printed is not
    initialized. *)
Fixpoint bind_all_loop (type port : Z) (addrs : list sockaddr) (size : Z) (fds : list Z)
    : M (listener C) (list Z) :=
  match addrs with
  | [] => ret fds
  | addr :: addrs =>
      let name := network_sockaddr_sprint INET6_ADDRSTRLEN addr in
      let* fd :=
        match addr with
        | SaInet _ _ => let* name := from_option_fault name in network_bind_ipv4 type name port
        | SaInet6 _ _ => let* name := from_option_fault name in network_bind_ipv6 type name port
        | SaOther _ => ret None
        end in
      match fd with
      | None => bind_all_loop type port addrs size fds
      | Some fd =>
          let* (size, fds) := store_fd size fds fd in
          bind_all_loop type port addrs size fds
      end
  end.

(** The service's buffer has room for any port.  A positive error of
    [getaddrinfo] leaves the list uninitialized. *)
Definition network_bind_all (type port : Z) : M (listener C) (bool * list Z) :=
  let service := decimal (u16 port) in
  match getaddrinfo_passive type service with
  | inl status =>
      if status <? 0 then
        do* warn "getaddrinfo for %s failed: %s" [AStr service; AGai status] in
        do* on_lkern (set_errno_to EINVAL) in
        ret (false, [])
      else fault
  | inr addrs =>
      let* fds := bind_all_loop type port addrs 2 [] in
      ret (0 <? blen fds, fds)
  end.

(** ** Accepting *)

(** [FD_SET] of every socket; a call of [select] beyond the script does not
    return. *)
Fixpoint FD_SETS {S} (fds : list Z) : M S unit :=
  match fds with
  | [] => ret tt
  | fd :: fds => do* FD_SET fd in FD_SETS fds
  end.

Definition network_wait_any (fds : list Z) : M (listener C) (option Z) :=
  do* FD_SETS fds in
  let* waits := gets li_waits in
  match waits with
  | [] => fun _ => NoFuel
  | inl e :: waits =>
      do* modify (put_waits waits) in
      do* on_lkern (set_errno_to e) in
      ret None
  | inr ready :: waits =>
      do* modify (put_waits waits) in
      ret (snd <$> list_find (fun fd => fd ∈ ready) fds)
  end.

(** [accept]: the connection becomes a socket of its own. *)
Definition sys_accept (fd : Z) : M (listener C) (option (Z * sockaddr)) :=
  let* accepts := gets li_accepts in
  match accepts with
  | [] => fun _ => NoFuel
  | inl e :: accepts =>
      do* modify (put_accepts accepts) in
      do* on_lkern (set_errno_to e) in
      ret None
  | inr (ch, peer) :: accepts =>
      do* modify (put_accepts accepts) in
      let* fds := on_lkern (gets kn_fds) in
      let s := lowest_free fds in
      do* on_lkern (modify (put_fds ({[s]} ∪ fds))) in
      do* on_lkern (put_sock s (Attempt None [] None None [] (inr 0) ch)) in
      ret (Some (s, peer))
  end.

Definition network_accept_any (fds : list Z) : M (listener C) (option (Z * sockaddr)) :=
  let* fd := network_wait_any fds in
  match fd with
  | None => ret None
  | Some fd => sys_accept fd
  end.
End listen.

(** * Lemmas *)

Section listen_lemmas.
Context {C : Type} `{HI : Inet} `{HP : InetPrint} `{HA : Passive}.
Implicit Types l : listener C.

Abbreviation lfds l := (kn_fds (li_kern l)).
Abbreviation lsocks l := (kn_socks (li_kern l)).

(** [select] can wait for the sockets. *)
Definition fit_fd_set (fds : list Z) : Prop := Forall (fun fd => 0 <= fd < FD_SETSIZE) fds.

Lemma FD_SETS_runs {S} fds (Q : unit -> S -> Prop) s : fit_fd_set fds -> Q tt s -> runs (FD_SETS fds) Q s.
Proof.
  induction fds as [|fd fds IH]; intros Hf HQ; cbn [FD_SETS]; [by apply runs_ret|].
  apply Forall_cons in Hf as [Hfd Hf]. apply runs_bind, runs_FD_SET; [done|]. by apply IH.
Qed.

(** Sockets, bound addresses and listening sockets are open descriptors. *)
Definition lis_ok l : Prop :=
  (forall fd, is_Some (lsocks l !! fd) -> fd ∈ lfds l) /\ (forall fd, is_Some (li_bound l !! fd) -> fd ∈ lfds l) /\
  li_listen l ⊆ lfds l.

(** From [l] to [l'] the descriptors [S] were opened, and none closed. *)
Definition grows (S : gset Z) l l' : Prop :=
  lis_ok l' /\ lfds l' = S ∪ lfds l /\ li_listen l' = li_listen l /\ li_waits l' = li_waits l /\
  li_accepts l' = li_accepts l /\ (forall fd, is_Some (lsocks l !! fd) -> is_Some (lsocks l' !! fd)).

Lemma grows_refl l : lis_ok l -> grows ∅ l l.
Proof. intros Hl. split; [done|]. split; [set_solver|done]. Qed.

Lemma grows_trans S1 S2 l l1 l2 : grows S1 l l1 -> grows S2 l1 l2 -> grows (S2 ∪ S1) l l2.
Proof.
  intros (O1 & F1 & L1 & W1 & A1 & K1) (O2 & F2 & L2 & W2 & A2 & K2). split; [done|].
  split; [rewrite F2, F1; set_solver|]. repeat (split; [congruence|]). auto.
Qed.

Lemma grows_weaken S S' l l' : grows S l l' -> S = S' -> grows S' l l'.
Proof. by intros ? <-. Qed.

Lemma grows_step S l l1 l2 : grows S l l1 -> grows ∅ l1 l2 -> grows S l l2.
Proof. intros H1 H2. eapply grows_weaken; [exact (grows_trans _ _ _ _ _ H1 H2)|set_solver]. Qed.

Lemma runs_on_lkern {A} (m : M (kern C) A) (Q : A -> listener C -> Prop) l :
  runs m (fun a k => Q a (put_lkern k l)) (li_kern l) -> runs (on_lkern m) Q l.
Proof. unfold runs, wp, on_lkern, zoom. by destruct (m (li_kern l)). Qed.

(** Messages and [errno]. *)
Definition talk l l' : Prop :=
  lfds l' = lfds l /\ lsocks l' = lsocks l /\ li_bound l' = li_bound l /\ li_listen l' = li_listen l /\
  li_waits l' = li_waits l /\ li_accepts l' = li_accepts l.

Lemma talk_grows l l' : lis_ok l -> talk l l' -> grows ∅ l l'.
Proof.
  intros (O1 & O2 & O3) (F & K & B & L & W & A). unfold grows, lis_ok. rewrite F, K, B, L, W, A.
  split; [done|]. split; [set_solver|done].
Qed.

Lemma runs_syswarn f a (Q : unit -> listener C -> Prop) l : (forall l', talk l l' -> Q tt l') -> runs (syswarn f a) Q l.
Proof. intros HQ. by apply runs_modify, HQ. Qed.
Lemma runs_warn f a (Q : unit -> listener C -> Prop) l : (forall l', talk l l' -> Q tt l') -> runs (warn f a) Q l.
Proof. intros HQ. by apply runs_modify, HQ. Qed.
Lemma runs_errno e (Q : unit -> listener C -> Prop) l :
  (forall l', talk l l' -> Q tt l') -> runs (on_lkern (set_errno_to e)) Q l.
Proof. intros HQ. by apply runs_on_lkern, runs_modify, HQ. Qed.

(** ** Sockets *)

Lemma socket_runs d t p l : lis_ok l ->
  runs (on_lkern (sys_socket d t p)) (fun r l' => li_bound l' = li_bound l /\
    match r with
    | Some fd => fd ∉ lfds l /\ grows {[fd]} l l' /\ is_Some (lsocks l' !! fd)
    | None => grows ∅ l l'
    end) l.
Proof.
  intros Hl. apply runs_on_lkern. unfold sys_socket. apply runs_bind, runs_gets.
  destruct (kn_next (li_kern l)) as [|a next].
  { apply runs_bind, runs_modify, runs_ret. split; [done|]. by apply talk_grows. }
  apply runs_bind, runs_modify. destruct (at_socket a).
  { apply runs_bind, runs_modify, runs_ret. split; [done|]. by apply talk_grows. }
  apply runs_bind, runs_gets, runs_bind, runs_modify, runs_bind, runs_modify, runs_ret. simpl.
  set (fd := lowest_free _). split; [done|]. split; [apply lowest_free_spec|]. destruct Hl as (O1 & O2 & O3).
  split; [|rewrite lookup_insert_eq; by eexists]. split; [|split; [done|split; [done|split; [done|split; [done|]]]]].
  - split; [|split]; simpl.
    + intros f Hf. destruct (decide (f = fd)) as [->|Hne]; [set_solver|]. rewrite lookup_insert_ne in Hf by done.
      pose proof (O1 f Hf). set_solver.
    + intros f Hf. pose proof (O2 f Hf). set_solver.
    + set_solver.
  - simpl. intros f Hf. destruct (decide (f = fd)) as [->|Hne]; [rewrite lookup_insert_eq; by eexists|].
    by rewrite lookup_insert_ne.
Qed.

Lemma setsockopt_runs fd (msg : string) l : lis_ok l -> is_Some (lsocks l !! fd) ->
  runs (let* r := on_lkern (sys_setsockopt fd) in if r <? 0 then syswarn msg [] else ret tt)
    (fun _ l' => li_bound l' = li_bound l /\ grows ∅ l l') l.
Proof.
  intros Hl [a Ha]. apply runs_bind, runs_on_lkern, runs_bind. eapply runs_sock; [exact Ha|].
  assert (forall x l1, li_bound l1 = li_bound l /\ grows ∅ l l1 ->
    runs (if x <? 0 then syswarn msg [] else ret tt) (fun _ l' => li_bound l' = li_bound l /\ grows ∅ l l') l1) as Hend.
  { intros x l1 [B1 G1]. destruct (x <? 0); [|by apply runs_ret]. apply runs_syswarn. intros l2 T2.
    split; [destruct T2 as (_ & _ & -> & _); done|]. eapply grows_step; [exact G1|]. apply talk_grows; [apply G1|done]. }
  destruct (at_options a) as [|r rest]; [by apply runs_ret, Hend; split; [|destruct l; apply grows_refl]|].
  set (a' := Attempt _ _ _ _ _ _ _). apply runs_bind, runs_modify.
  assert (forall e, li_bound (put_lkern (put_errno e (put_socks (<[fd:=a']> (lsocks l)) (li_kern l))) l) = li_bound l /\
    grows ∅ l (put_lkern (put_errno e (put_socks (<[fd:=a']> (lsocks l)) (li_kern l))) l)) as Hput.
  { intros e. split; [done|]. destruct Hl as (O1 & O2 & O3).
    split; [|split; [simpl; set_solver|split; [done|split; [done|split; [done|]]]]].
    - split; [|done]. simpl. intros f Hf. destruct (decide (f = fd)) as [->|Hne]; [apply O1; by eexists|].
      rewrite lookup_insert_ne in Hf by done. by apply O1.
    - simpl. intros f Hf. destruct (decide (f = fd)) as [->|Hne]; [rewrite lookup_insert_eq; by eexists|].
      by rewrite lookup_insert_ne. }
  destruct r as [e|].
  - apply runs_bind, runs_modify, runs_ret, Hend, Hput.
  - apply runs_ret, Hend. pose proof (Hput (kn_errno (li_kern l))) as Hput0. by destruct (li_kern l).
Qed.

(** What binding to the parsed address [addr] does. *)
Definition bind_result family port (addr : option bytes) l (r : option Z) l' : Prop :=
  match r with
  | Some fd => fd ∉ lfds l /\ grows {[fd]} l l' /\
      exists a, addr = Some a /\ li_bound l' = <[fd := (family, a, u16 port)]> (li_bound l)
  | None => li_bound l' = li_bound l /\
      (grows ∅ l l' \/ (addr = None /\ exists fd, fd ∉ lfds l /\ grows {[fd]} l l'))
  end.

(** A socket that was made for the address. *)
Definition made fd l l' : Prop :=
  fd ∉ lfds l /\ grows {[fd]} l l' /\ li_bound l' = li_bound l /\ is_Some (lsocks l' !! fd).

Lemma made_step fd l l1 l2 : made fd l l1 -> li_bound l2 = li_bound l1 -> grows ∅ l1 l2 -> made fd l l2.
Proof.
  intros (Hn & G & B & K) B2 G2. split; [done|]. split; [by eapply grows_step|]. split; [congruence|]. by apply G2.
Qed.

Lemma close_made fd l l1 : made fd l l1 -> lis_ok l ->
  runs (close_socket fd) (fun _ l' => li_bound l' = li_bound l /\ grows ∅ l l') l1.
Proof.
  intros (Hn & (O1 & F1 & L1 & W1 & A1 & K1) & B & _) Hl. destruct Hl as (P1 & P2 & P3). destruct O1 as (Q1 & Q2 & Q3).
  assert (li_bound l !! fd = None) as Hb by (apply eq_None_not_Some; intros Hs; by apply Hn, P2).
  assert (delete fd (li_bound l1) = li_bound l) as Eb by (by rewrite B, delete_id).
  assert (li_listen l1 ∖ {[fd]} = li_listen l) as El by (rewrite L1; set_solver).
  assert (lfds l1 ∖ {[fd]} = lfds l) as Ef by (rewrite F1; set_solver).
  apply runs_bind, runs_modify, runs_on_lkern, runs_modify. split; [exact Eb|].
  split; [|split; [simpl; rewrite Ef; set_solver|split; [exact El|split; [done|split; [done|]]]]].
  - unfold lis_ok. simpl. rewrite Eb, El, Ef. split; [|done]. intros f [a Ha].
    destruct (decide (f = fd)) as [->|Hne]; [by rewrite lookup_delete_eq in Ha|].
    rewrite lookup_delete_ne in Ha by done.
    assert (f ∈ lfds l1) as Hf by (apply Q1; by eexists). rewrite F1 in Hf. set_solver.
  - simpl. intros f Hf. assert (f <> fd) by (intros ->; by apply Hn, P1). rewrite lookup_delete_ne by done. by apply K1.
Qed.

Lemma bind_parsed_runs invalid fd family address port addr l l1 : lis_ok l -> made fd l l1 ->
  runs (bind_parsed invalid fd family address port addr) (bind_result family port addr l) l1.
Proof.
  intros Hl Hm. unfold bind_parsed. destruct addr as [a|].
  - pose proof Hm as (Hn & G & B & [x Hx]). apply runs_bind, runs_bind, runs_on_lkern, runs_bind. eapply runs_sock; [exact Hx|].
    destruct (at_bind x) as [e|]; simpl.
    + apply runs_bind, runs_modify, runs_ret, runs_bind. apply runs_ret, runs_ret.
      apply runs_bind, runs_syswarn. intros l2 T2. apply runs_bind.
      eapply runs_mono; [apply (close_made fd l); [|done]|].
      * set (l1' := put_lkern _ l1) in *. assert (grows ∅ l1 l1') as G1 by (apply talk_grows; [apply G|done]).
        apply (made_step fd l l1'); [by apply (made_step fd l l1)|by destruct T2 as (_ & _ & -> & _)|].
        apply talk_grows; [apply G1|done].
      * intros [] l3 [B3 G3]. apply runs_ret. split; [done|by left].
    + apply runs_ret, runs_bind, runs_modify, runs_ret, runs_ret. split; [done|].
      split; [|exists a; split; [done|simpl; by rewrite B]]. destruct G as ((P1 & P2 & P3) & G). split; [|exact G].
      split; [exact P1|]. split; [|exact P3]. simpl. intros f Hf. destruct (decide (f = fd)) as [->|Hne].
      * apply P1. by eexists.
      * rewrite lookup_insert_ne in Hf by done. by apply P2.
  - apply runs_bind, runs_warn. intros l2 T2. apply runs_bind, runs_errno. intros l3 T3. apply runs_ret.
    pose proof Hm as (Hn & G & B & _). assert (grows ∅ l1 l2) as G2 by (apply talk_grows; [apply G|done]).
    assert (grows ∅ l2 l3) as G3 by (apply talk_grows; [apply G2|done]).
    split; [destruct T3 as (_ & _ & -> & _), T2 as (_ & _ & -> & _); done|]. right. split; [done|]. exists fd.
    split; [done|]. eapply grows_step; [by eapply grows_step|done].
Qed.

(** The address that is bound to. *)
Definition address4 (address : bytes) : bytes := if any_address address then str "0.0.0.0" else address.
Definition address6 (address : bytes) : bytes := if any_address address then str "::" else address.

Lemma bind_ipv4_runs type address port l : lis_ok l ->
  runs (network_bind_ipv4 type address port) (bind_result AF_INET port (inet_aton (address4 address)) l) l.
Proof.
  intros Hl. unfold network_bind_ipv4. apply runs_bind. eapply runs_mono; [by apply socket_runs|].
  intros [fd|] l1 [B1 H1].
  - destruct H1 as (Hn & G1 & K1). assert (made fd l l1) as M1 by done. apply runs_bind.
    eapply runs_mono; [apply setsockopt_runs; [apply G1|done]|]. intros [] l2 [B2 G2].
    apply bind_parsed_runs; [done|]. by eapply made_step.
  - apply runs_bind, runs_syswarn. intros l2 T2. apply runs_ret.
    split; [destruct T2 as (_ & _ & -> & _); done|]. left. eapply grows_step; [exact H1|]. apply talk_grows; [apply H1|done].
Qed.

Lemma bind_ipv6_runs type address port l : lis_ok l ->
  runs (network_bind_ipv6 type address port) (bind_result AF_INET6 port (inet_pton6 (address6 address)) l) l.
Proof.
  intros Hl. unfold network_bind_ipv6. apply runs_bind. eapply runs_mono; [by apply socket_runs|].
  intros [fd|] l1 [B1 H1].
  - destruct H1 as (Hn & G1 & K1). assert (made fd l l1) as M1 by done. apply runs_bind.
    eapply runs_mono; [apply setsockopt_runs; [apply G1|done]|]. intros [] l2 [B2 G2].
    assert (made fd l l2) as M2 by by eapply made_step. apply runs_bind.
    eapply runs_mono; [apply setsockopt_runs; [apply G2|apply M2]|]. intros [] l3 [B3 G3].
    assert (made fd l l3) as M3 by by eapply made_step. apply runs_bind.
    eapply runs_mono with (Q := fun _ l' => made fd l l').
    + destruct (negb _); [|by apply runs_ret]. eapply runs_mono; [apply setsockopt_runs; [apply G3|apply M3]|].
      intros [] l4 [B4 G4]. by eapply made_step.
    + intros [] l4 M4. by apply bind_parsed_runs.
  - apply runs_bind, runs_on_lkern, runs_gets, runs_bind.
    replace (put_lkern (li_kern l1) l1) with l1 by by destruct l1.
    destruct (_ && _); [apply runs_syswarn; intros l2 T2|apply runs_ret]; apply runs_ret.
    + split; [destruct T2 as (_ & _ & -> & _); done|]. left. eapply grows_step; [exact H1|]. apply talk_grows; [apply H1|done].
    + split; [done|]. by left.
Qed.

(** ** All local addresses *)

(** An address as [getaddrinfo] gives it.  An IPv4-mapped address would be
    printed as the IPv4 address. *)
Definition sockaddr_ok (sa : sockaddr) : Prop :=
  match sa with
  | SaInet a _ => length a = 4%nat
  | SaInet6 a _ => length a = 16%nat /\ is_v4mapped a = false
  | SaOther _ => True
  end.

Definition wanted (port : Z) (addrs : list sockaddr) : list bind_addr :=
  omap (fun sa => match sa with
    | SaInet a _ => Some (AF_INET, a, u16 port)
    | SaInet6 a _ => Some (AF_INET6, a, u16 port)
    | SaOther _ => None end) addrs.

(** The sockets [fds] were opened since [l0] and are bound to [bound]. *)
Definition binds l0 (fds : list Z) (bound : list bind_addr) l : Prop :=
  grows (list_to_set fds) l0 l /\ NoDup fds /\ (forall fd, fd ∈ fds -> fd ∉ lfds l0) /\
  Forall2 (fun fd a => li_bound l !! fd = Some a) fds bound /\
  (forall fd, fd ∉ fds -> li_bound l !! fd = li_bound l0 !! fd).

Lemma bound_insert (m : gmap Z bind_addr) fd a fds bound : fd ∉ fds ->
  Forall2 (fun f b => m !! f = Some b) fds bound -> Forall2 (fun f b => <[fd := a]> m !! f = Some b) fds bound.
Proof.
  intros Hn H2. induction H2 as [|f b fds bound Hf _ IH]; constructor.
  - rewrite lookup_insert_ne; [done|set_solver].
  - apply IH. set_solver.
Qed.

Lemma binds_snoc l0 fds bound l fd a l' : binds l0 fds bound l ->
  fd ∉ lfds l -> grows {[fd]} l l' -> li_bound l' = <[fd := a]> (li_bound l) -> binds l0 (fds ++ [fd]) (bound ++ [a]) l'.
Proof.
  intros (G & N & D & B & R) Hn G' B'. pose proof G as (_ & EF & _).
  assert (fd ∉ fds) as Hfd by set_solver.
  split; [|split; [|split; [|split]]].
  - eapply grows_weaken; [exact (grows_trans _ _ _ _ _ G G')|]. rewrite list_to_set_app_L. set_solver.
  - apply NoDup_app. split; [done|]. split; [|apply NoDup_singleton]. set_solver.
  - set_solver.
  - rewrite B'. apply Forall2_app; [by apply bound_insert|]. constructor; [|done]. apply lookup_insert_eq.
  - intros f Hf. rewrite B', lookup_insert_ne by set_solver. apply R. set_solver.
Qed.

Lemma binds_step l0 fds bound l l' : binds l0 fds bound l -> grows ∅ l l' -> li_bound l' = li_bound l -> binds l0 fds bound l'.
Proof.
  intros (G & N & D & B & R) G' B'. split; [by eapply grows_step|]. by rewrite B'.
Qed.

Lemma store_fd_runs size fds fd l (Q : Z * list Z -> listener C -> Prop) : blen fds <= size ->
  (forall size', blen (fds ++ [fd]) <= size' -> Q (size', fds ++ [fd]) l) -> runs (store_fd size fds fd) Q l.
Proof.
  intros Hs HQ. unfold store_fd. assert (blen fds < if size <=? blen fds then size + 2 else size) as Hlt
    by (destruct (Z.leb_spec size (blen fds)); lia).
  rewrite (proj2 (Z.ltb_lt _ _) Hlt). apply runs_ret, HQ. zlist.
Qed.

(** A printed address reads back as itself; this is what [inet_ntop] and
    [inet_aton] or [inet_pton] promise each other. *)
Class PrintLaws : Prop := {
  print4 : forall a, length a = 4%nat -> exists s, inet_ntop AF_INET a INET6_ADDRSTRLEN = Some s /\
    any_address s = false /\ inet_aton s = Some a;
  print6 : forall a, length a = 16%nat -> exists s, inet_ntop AF_INET6 a INET6_ADDRSTRLEN = Some s /\
    any_address s = false /\ inet_pton6 s = Some a;
}.

Context `{HPL : PrintLaws}.

(** One address: a socket bound to it, or nothing. *)
Lemma bind_addr_runs type port sa l0 fds bound l : sockaddr_ok sa -> binds l0 fds bound l ->
  runs (match sa with
        | SaInet _ _ => let* name := from_option_fault (network_sockaddr_sprint INET6_ADDRSTRLEN sa) in network_bind_ipv4 type name port
        | SaInet6 _ _ => let* name := from_option_fault (network_sockaddr_sprint INET6_ADDRSTRLEN sa) in network_bind_ipv6 type name port
        | SaOther _ => ret None
        end)
    (fun r l' => match r with
      | Some fd => exists a, wanted port [sa] = [a] /\ binds l0 (fds ++ [fd]) (bound ++ [a]) l'
      | None => binds l0 fds bound l'
      end) l.
Proof.
  intros Hok Hb. pose proof Hb as ((Ol & _) & _).
  assert (forall family a x r l', bind_result family port x l r l' -> x = Some a ->
    match r with Some fd => binds l0 (fds ++ [fd]) (bound ++ [(family, a, u16 port)]) l' | None => binds l0 fds bound l' end) as Hres.
  { intros family a x [fd|] l' Hr ->; simpl in Hr.
    - destruct Hr as (Hn & G & a' & Ea & B). injection Ea as <-. by eapply binds_snoc.
    - destruct Hr as [B [G|[? _]]]; [|done]. by eapply binds_step. }
  destruct sa as [a p|a p|f]; simpl in Hok; cbn [network_sockaddr_sprint].
  - destruct (print4 a Hok) as (s & -> & Hany & Es). apply runs_bind, runs_ret.
    eapply runs_mono; [by apply bind_ipv4_runs|]. intros r l' Hr. unfold address4 in Hr. rewrite Hany in Hr.
    pose proof (Hres _ _ _ _ _ Hr Es). destruct r; [|done]. by eexists.
  - destruct Hok as [Hlen ->]. destruct (print6 a Hlen) as (s & -> & Hany & Es). apply runs_bind, runs_ret.
    eapply runs_mono; [by apply bind_ipv6_runs|]. intros r l' Hr. unfold address6 in Hr. rewrite Hany in Hr.
    pose proof (Hres _ _ _ _ _ Hr Es). destruct r; [|done]. by eexists.
  - by apply runs_ret.
Qed.

Lemma bind_all_loop_runs type port l0 : forall addrs size fds bound l, Forall sockaddr_ok addrs ->
  binds l0 fds bound l -> blen fds <= size ->
  runs (bind_all_loop type port addrs size fds)
    (fun fds' l' => exists bound', sublist bound' (wanted port addrs) /\ binds l0 fds' (bound ++ bound') l') l.
Proof.
  induction addrs as [|sa addrs IH]; intros size fds bound l Hok Hb Hsize.
  { apply runs_ret. exists []. split; [done|]. by rewrite app_nil_r. }
  apply Forall_cons_1 in Hok as [Hsa Hok]. cbn [bind_all_loop]. apply runs_bind.
  eapply runs_mono; [by apply bind_addr_runs|]. intros [fd|] l1 H1.
  - destruct H1 as (a & Ea & Hb1). apply runs_bind, store_fd_runs; [done|]. intros size' Hsize'.
    eapply runs_mono; [by apply IH|]. intros fds' l' (bound' & Hsub & Hb'). exists (a :: bound').
    rewrite <- app_assoc in Hb'. split; [|done].
    change (wanted port (sa :: addrs)) with (wanted port ([sa] ++ addrs)). unfold wanted. rewrite omap_app.
    change (omap _ [sa]) with (wanted port [sa]). rewrite Ea. by constructor.
  - eapply runs_mono; [by apply IH|]. intros fds' l' (bound' & Hsub & Hb'). exists bound'. split; [|done].
    change (wanted port (sa :: addrs)) with (wanted port ([sa] ++ addrs)). unfold wanted. rewrite omap_app.
    by apply sublist_inserts_l.
Qed.
End listen_lemmas.

(** C15: [network_bind_all] binds what it says.  It always ends, without
    storing past the array it grows, and gives distinct new descriptors, each
    bound to its own local address in the order of [getaddrinfo], and no
    other descriptor stays open; it is true exactly if there is one.  The
    printed form of an address has to read back as the address. *)
Theorem network_bind_all_sockets {C} `{HI : Inet} `{HP : InetPrint} `{HA : Passive} {HPL : PrintLaws}
    type port addrs (l : listener C) :
  lis_ok l -> getaddrinfo_passive type (decimal (u16 port)) = inr addrs -> Forall sockaddr_ok addrs ->
  exists fds bound l', network_bind_all type port l = Ret (bool_decide (fds <> []), fds) l' /\
    NoDup fds /\ (forall fd, fd ∈ fds -> fd ∉ kn_fds (li_kern l)) /\
    kn_fds (li_kern l') = list_to_set fds ∪ kn_fds (li_kern l) /\
    sublist bound (wanted port addrs) /\ Forall2 (fun fd a => li_bound l' !! fd = Some a) fds bound.
Proof.
  intros Hl Ea Hok. pose proof (bind_all_loop_runs type port l addrs 2 [] [] l Hok) as Hr.
  assert (binds l [] [] l) as Hb.
  { split; [by apply grows_refl|]. split; [apply NoDup_nil_2|]. split; [by intros fd Hfd%elem_of_nil|]. by split. }
  destruct (proj1 (runs_elim _ _ _) (Hr Hb ltac:(by vm_compute))) as (fds & l' & E & bound & Hsub & (G & N & D & B & _)).
  exists fds, bound, l'. unfold network_bind_all. rewrite Ea, (bind_Ret _ _ _ _ _ E).
  split; [|split; [done|split; [done|split; [apply G|done]]]]. unfold ret. do 2 f_equal.
  destruct fds; [done|]. rewrite bool_decide_eq_true_2 by done. rewrite blen_cons. pose proof (blen_nonneg fds).
  apply Z.ltb_lt. lia.
Qed.

(** A concrete resolver, whose IPv6 addresses are printed as their bytes after
    a letter, on a host with the two wildcard addresses. *)
Definition plain_inet : Inet := {|
  inet_aton := portable_inet_aton;
  inet_pton6 s := match s with c :: a => if byte_eqb c "x" then Some a else None | [] => None end;
  getaddrinfo _ _ _ := inl 1;
|}.

Definition plain_print : InetPrint := {|
  inet_ntop family a size := Some (if family =? AF_INET then portable_inet_ntoa a else "x"%byte :: a);
|}.

Definition plain_passive : Passive := {|
  getaddrinfo_passive _ _ := inr [SaInet6 (replicate 16 nul) []; SaOther 1; SaInet (replicate 4 nul) []];
|}.

Lemma plain_laws : @PrintLaws plain_inet plain_print.
Proof.
  split; simpl; intros a Ha.
  - eexists. split; [done|]. split; [|by apply inet_aton_ntoa].
    destruct a as [|c a]; [done|]. unfold any_address, portable_inet_ntoa.
    destruct a as [|c1 [|c2 [|c3 [|]]]]; try done.
    assert (exists d r, decimal (bu c) = d :: r /\ is_digit d = true) as (d & r & -> & Hd) by (destruct c; by eexists _, _).
    cbn [app]. rewrite !bool_decide_eq_false_2; [done| |]; intros E; injection E as -> _; done.
  - eexists. split; [done|]. split; [|done].
    unfold any_address. rewrite !bool_decide_eq_false_2; [done| |]; intros E; by injection E.
Qed.

Definition demo_attempt : attempt unit := Attempt None [] None None [] (inr 0) (Chan (Net [] [] [] [] [] 0 false) tt []).

(** A process with the standard descriptors open. *)
Definition demo_listener : listener unit :=
  Listener (Kern [demo_attempt; demo_attempt] ∅ {[0; 1; 2]} 0 [] []) ∅ ∅ [] [].

Lemma network_bind_all_sockets_witness :
  let _ := plain_inet in let _ := plain_print in let _ := plain_passive in
  exists fds l', network_bind_all SOCK_STREAM 4373 demo_listener = Ret (true, fds) l' /\ fds = [3; 4] /\
    kn_fds (li_kern l') = list_to_set fds ∪ {[0; 1; 2]} /\
    li_bound l' !! 4 = Some (AF_INET, replicate 4 nul, 4373).
Proof.
  intros inet print passive.
  destruct (@network_bind_all_sockets unit inet print passive plain_laws SOCK_STREAM 4373
    [SaInet6 (replicate 16 nul) []; SaOther 1; SaInet (replicate 4 nul) []] demo_listener)
    as (fds & bound & l' & E & _ & _ & F & _).
  - split; [|split]; [intros fd [a Ha]; simpl in Ha; by rewrite lookup_empty in Ha..|set_solver].
  - done.
  - repeat constructor.
  - assert (match network_bind_all SOCK_STREAM 4373 demo_listener with
            | Ret (b, f) l2 => b = true /\ f = [3; 4] /\ li_bound l2 !! 4 = Some (AF_INET, replicate 4 nul, 4373)
            | _ => False end) as Hrun by (vm_compute; done).
    rewrite E in Hrun. destruct Hrun as (Hb & Hf & Hl). exists fds, l'. rewrite Hb in E. done.
Defined.

(** On an invalid address the socket that was made stays open. *)
Example bind_invalid_leaks : let _ := plain_inet in
  exists l', network_bind_ipv4 SOCK_STREAM (str "bogus") 4373 demo_listener = Ret None l' /\
    kn_fds (li_kern l') = {[3; 0; 1; 2]}.
Proof.
  intros inet. assert (match network_bind_ipv4 SOCK_STREAM (str "bogus") 4373 demo_listener with
    | Ret r l' => r = None /\ kn_fds (li_kern l') = {[3; 0; 1; 2]} | _ => False end) as Hrun by (vm_compute; done).
  destruct (network_bind_ipv4 _ _ _ _) as [r l'| | |]; [|done..]. destruct Hrun as [-> Hf]. by exists l'.
Qed.
