(* ===== verification/Command.v ===== *)
(** The command payload: what the client encodes and [server_parse_command]
    of [server/generic.c] decodes.

    [encode_command] is the reference format of the protocol document: a four
    byte argument count, then each argument behind its four byte length. *)

From S2P Require Import Prelude Effects Tokens.

(** * The server's callbacks

    [struct client] holds a pointer to the function that reports an error to
    the client and one that ends a command; each protocol supplies its own. *)
Class Callbacks (S : Type) : Type := {
  client_error : error_codes -> bytes -> M S bool;
  client_finish : option bytes -> Z -> M S bool;
}.

(** * Definitions *)

Definition COMMAND_MAX_ARGS : Z := 4 * 1024.
Definition COMMAND_MAX_DATA : Z := 100 * 1024 * 1024.

Definition encode_arg (a : bytes) : bytes := be32 (blen a) ++ a.
Definition encode_args (argv : list bytes) : bytes := concat (map encode_arg argv).
Definition encode_command (argv : list bytes) : bytes := be32 (blen argv) ++ encode_args argv.

Section server_parse_command.
Context {S : Type} `{HasLog S} `{Callbacks S}.

(** Log the problem, send an error token, give up. *)
Definition parse_fail (fmt : string) (args : list larg) (code : error_codes) (msg : bytes)
    : M S (option (Z * list bytes)) :=
  do* warn fmt args in
  do* client_error code msg in
  ret None.

Definition parse_args_body (buffer : bytes) (length argc : Z) (st : Z * list bytes)
    : M S (Z * list bytes + option (Z * list bytes)) :=
  let '(p, argv) := st in
  if p <=? length - 4 then
    if argc <=? blen argv then
      let* r := parse_fail "sent more arguments than argc %lu" [AInt argc]
        ERROR_BAD_COMMAND (str "Invalid command token") in
      ret (inr r)
    else
      let* tmp := from_option_fault (zsub p 4 buffer) in
      let arglen := of_be32 tmp in
      let p := p + 4 in
      if u64 (length - p) <? arglen then
        let* r := parse_fail "command data invalid" [] ERROR_BAD_COMMAND
          (str "Invalid command token") in
        ret (inr r)
      else
        let* arg := from_option_fault (zsub p arglen buffer) in
        ret (inl (p + arglen, argv ++ [arg]))
  else ret (inr (Some (p, argv))).

Definition server_parse_command (buffer : bytes) : M S (option (list bytes)) :=
  let length := blen buffer in
  let* tmp := from_option_fault (zsub 0 4 buffer) in
  let argc := of_be32 tmp in
  let p := 4 in
  if argc =? 0 then
    do* parse_fail "command with no arguments" [] ERROR_UNKNOWN_COMMAND
      (str "Unknown command") in
    ret None
  else if COMMAND_MAX_ARGS <? argc then
    do* parse_fail "too large argc (%lu) in request message" [AInt argc]
      ERROR_TOOMANY_ARGS (str "Too many arguments") in
    ret None
  else if u64 (length - p) <? 4 * argc then
    do* parse_fail "command data too short" [] ERROR_BAD_COMMAND
      (str "Invalid command token") in
    ret None
  else
    let* r := loop (Datatypes.S (Datatypes.length buffer))
                (parse_args_body buffer length argc) (p, []) in
    match r with
    | None => ret None
    | Some (p, argv) =>
        if negb (blen argv =? argc) || negb (p =? length) then
          do* parse_fail "argument count differs from arguments seen" []
            ERROR_BAD_COMMAND (str "Invalid command token") in
          ret None
        else ret (Some argv)
    end.
End server_parse_command.

(** * Lemmas *)

Lemma encode_args_app a b : encode_args (a ++ b) = encode_args a ++ encode_args b.
Proof. unfold encode_args. by rewrite map_app, concat_app. Qed.
Lemma encode_args_cons a b : encode_args (a :: b) = encode_arg a ++ encode_args b.
Proof. done. Qed.
Lemma blen_encode_arg a : blen (encode_arg a) = 4 + blen a.
Proof. unfold encode_arg. by rewrite blen_app, blen_be32. Qed.

Lemma blen_encode_args_ge argv : 4 * blen argv <= blen (encode_args argv).
Proof.
  induction argv as [|a argv IH]; [done|].
  rewrite encode_args_cons, blen_app, blen_encode_arg, blen_cons. blia.
Qed.

Lemma blen_encode_command argv : blen (encode_command argv) = 4 + blen (encode_args argv).
Proof. unfold encode_command. by rewrite blen_app, blen_be32. Qed.

(** An argument whose length the four byte field can hold. *)
Definition arg_fits (a : bytes) : Prop := blen a < 2 ^ 32.

#[global] Arguments encode_args : simpl never.
#[global] Arguments encode_arg : simpl never.
#[global] Arguments encode_command : simpl never.

Section parse_lemmas.
Context {S : Type} `{HasLog S} `{Callbacks S}.
Implicit Types s : S.

(** How a rejected command looks from outside: one diagnostic, one error
    token, nothing else. *)
Definition rejects {X} (m : M S (option X)) (code : error_codes) (s : S) : Prop :=
  exists fmt args msg,
    m s = (do* warn fmt args in do* client_error code msg in ret None) s.

Lemma rejects_parse_fail fmt args code msg s : rejects (parse_fail fmt args code msg) code s.
Proof. by exists fmt, args, msg. Qed.

Lemma rejects_bind {X Y} (m : M S (option X)) (k : option X -> M S (option Y)) code s :
  rejects m code s -> (forall s', k None s' = Ret None s') -> rejects (bind m k) code s.
Proof.
  intros (fmt & args & msg & E) Hk. exists fmt, args, msg.
  unfold bind in E |- *. unfold ret in *. rewrite E. simpl.
  by destruct (client_error code msg (add_log (Log Warn fmt args) s)).
Qed.

Lemma parse_args_body_arg buffer argc pre a rest argv s :
  buffer = pre ++ encode_arg a ++ rest -> arg_fits a -> blen buffer < 2 ^ 64 ->
  blen argv < argc ->
  parse_args_body buffer (blen buffer) argc (blen pre, argv) s =
  Ret (inl (blen pre + 4 + blen a, argv ++ [a])) s.
Proof.
  intros E Ha Hb Hargc. unfold parse_args_body.
  assert (blen buffer = blen pre + (4 + blen a) + blen rest) as Hl
    by (rewrite E, !blen_app, blen_encode_arg; lia).
  pose proof (blen_nonneg pre); pose proof (blen_nonneg rest); pose proof (blen_nonneg a).
  rewrite (proj2 (Z.leb_le _ _)), (proj2 (Z.leb_gt _ _)) by lia.
  rewrite zsub_Some by lia.
  assert (ztake 4 (zdrop (blen pre) buffer) = be32 (blen a)) as ->.
  { rewrite E, zdrop_blen_app. unfold encode_arg. rewrite <- app_assoc.
    apply (ztake_blen_app (be32 (blen a))). }
  unfold bind at 1. simpl. rewrite of_be32_be32, u32_small by done.
  rewrite u64_small, (proj2 (Z.ltb_ge _ _)), zsub_Some by lia.
  assert (ztake (blen a) (zdrop (blen pre + 4) buffer) = a) as ->.
  { rewrite E, Z.add_comm, <- zdrop_zdrop, zdrop_blen_app by lia. unfold encode_arg.
    rewrite <- app_assoc. rewrite (zdrop_blen_app (be32 (blen a))). apply ztake_blen_app. }
  done.
Qed.

(** Without room for another argument header the loop ends. *)
Lemma parse_args_body_end buffer argc pre rest argv s :
  buffer = pre ++ rest -> blen rest < 4 ->
  parse_args_body buffer (blen buffer) argc (blen pre, argv) s =
  Ret (inr (Some (blen pre, argv))) s.
Proof.
  intros -> Hr. unfold parse_args_body. rewrite blen_app.
  by rewrite (proj2 (Z.leb_gt _ _)) by lia.
Qed.

(** One iteration on arbitrary data: the next argument, or a rejection. *)
Lemma parse_args_body_cases buffer argc pre rest argv s :
  buffer = pre ++ rest -> 4 <= blen rest -> blen buffer < 2 ^ 64 ->
  (exists a rest', rest = encode_arg a ++ rest' /\ arg_fits a /\ blen argv < argc) \/
  (exists fmt args, parse_args_body buffer (blen buffer) argc (blen pre, argv) s =
     (do* warn fmt args in
      do* client_error ERROR_BAD_COMMAND (str "Invalid command token") in
      ret (inr None)) s).
Proof.
  intros E Hr Hb. pose proof (blen_nonneg pre).
  assert (blen buffer = blen pre + blen rest) as Hlen by (by rewrite E, blen_app).
  destruct (Z.leb_spec argc (blen argv)) as [Hc|Hc].
  { right. unfold parse_args_body. rewrite (proj2 (Z.leb_le (blen pre) _)), (proj2 (Z.leb_le argc _)) by lia.
    exists "sent more arguments than argc %lu"%string, [AInt argc]. unfold parse_fail, bind, ret. simpl.
    by destruct (client_error _ _ _). }
  set (l := ztake 4 rest). assert (length l = 4%nat) as Hl.
  { assert (blen l = 4) by (unfold l; rewrite blen_ztake; lia). unfold blen in *. lia. }
  set (a := ztake (of_be32 l) (zdrop 4 rest)). pose proof (of_be32_range l Hl).
  destruct (Z.ltb_spec (blen rest - 4) (of_be32 l)) as [Hs|Hs].
  - right. unfold parse_args_body.
    rewrite (proj2 (Z.leb_le (blen pre) _)), (proj2 (Z.leb_gt argc _)) by lia.
    rewrite zsub_Some by lia.
    assert (ztake 4 (zdrop (blen pre) buffer) = l) as -> by (by rewrite E, zdrop_blen_app).
    rewrite bind_Ret with (a := l) (s' := s) by done.
    rewrite u64_small, (proj2 (Z.ltb_lt _ _)) by lia.
    exists "command data invalid"%string, []. unfold parse_fail, bind, ret. simpl.
    by destruct (client_error _ _ _).
  - left. exists a, (zdrop (of_be32 l) (zdrop 4 rest)).
    assert (blen a = of_be32 l) as Ha by (unfold a; rewrite blen_ztake, blen_zdrop; lia).
    split; [|split; [unfold arg_fits; lia|done]].
    unfold encode_arg. rewrite Ha, be32_of_be32, <- app_assoc by done.
    unfold a. rewrite (ztake_zdrop (of_be32 l)). symmetry. apply ztake_zdrop.
Qed.
End parse_lemmas.

Section parse_theorems.
Context {S : Type} `{HasLog S} `{Callbacks S}.
Implicit Types s : S.

Lemma parse_loop_complete buffer argc args : forall fuel pre argv s,
  buffer = pre ++ encode_args args -> Forall arg_fits args -> blen buffer < 2 ^ 64 ->
  blen argv + blen args <= argc -> (length args < fuel)%nat ->
  loop fuel (parse_args_body buffer (blen buffer) argc) (blen pre, argv) s =
  Ret (Some (blen buffer, argv ++ args)) s.
Proof.
  induction args as [|a args IH]; intros fuel pre argv s E Hf Hb Hc Hfuel.
  - destruct fuel as [|fuel]; [simpl in Hfuel; lia|]. rewrite loop_S, app_nil_r.
    rewrite (bind_Ret _ _ _ _ _ (parse_args_body_end buffer argc pre [] argv s E ltac:(done))).
    rewrite E. unfold encode_args. simpl. by rewrite app_nil_r.
  - destruct fuel as [|fuel]; [simpl in Hfuel; lia|]. rewrite loop_S.
    apply Forall_cons_1 in Hf as [Ha Hf]. rewrite encode_args_cons in E.
    rewrite blen_cons in Hc. simpl in Hfuel.
    rewrite (bind_Ret _ _ _ _ _ (parse_args_body_arg buffer argc pre a _ argv s E Ha Hb ltac:(blia))).
    replace (blen pre + 4 + blen a) with (blen (pre ++ encode_arg a))
      by (rewrite blen_app, blen_encode_arg; lia).
    rewrite (IH _ (pre ++ encode_arg a)); [by rewrite <- app_assoc| | | | |].
    + by rewrite <- app_assoc.
    + done.
    + done.
    + rewrite blen_app, blen_cons, blen_nil. lia.
    + lia.
Qed.

Lemma parse_loop_cases buffer argc : forall fuel pre rest argv s,
  buffer = pre ++ rest -> blen buffer < 2 ^ 64 -> (length rest < fuel)%nat ->
  (exists args rest', rest = encode_args args ++ rest' /\ Forall arg_fits args /\
     loop fuel (parse_args_body buffer (blen buffer) argc) (blen pre, argv) s =
     Ret (Some (blen buffer - blen rest', argv ++ args)) s) \/
  rejects (loop fuel (parse_args_body buffer (blen buffer) argc) (blen pre, argv))
    ERROR_BAD_COMMAND s.
Proof.
  induction fuel as [|fuel IH]; intros pre rest argv s E Hb Hfuel; [lia|].
  rewrite loop_S. destruct (Z.leb_spec 4 (blen rest)) as [Hr|Hr]; cycle 1.
  { left. exists [], rest. split; [done|]. split; [done|].
    rewrite (bind_Ret _ _ _ _ _ (parse_args_body_end buffer argc pre rest argv s E Hr)).
    rewrite E, blen_app, app_nil_r. unfold ret. do 3 f_equal. lia. }
  destruct (parse_args_body_cases buffer argc pre rest argv s E Hr Hb)
    as [(a & rest' & -> & Ha & Hc)|(fmt & args & Hrej)].
  - pose proof (parse_args_body_arg buffer argc pre a rest' argv s E Ha Hb Hc) as Hstep.
    rewrite length_app in Hfuel.
    assert (4 <= length (encode_arg a))%nat
      by (pose proof (blen_encode_arg a); unfold blen in *; lia).
    replace (blen pre + 4 + blen a) with (blen (pre ++ encode_arg a)) in Hstep
      by (rewrite blen_app, blen_encode_arg; lia).
    destruct (IH (pre ++ encode_arg a) rest' (argv ++ [a]) s) as [(args & r' & -> & Hf & El)|Hrj];
      [by rewrite <- app_assoc|done|lia| |].
    + left. exists (a :: args), r'. split; [by rewrite encode_args_cons, <- app_assoc|].
      split; [by apply Forall_cons|]. rewrite (bind_Ret _ _ _ _ _ Hstep), El.
      by rewrite <- app_assoc.
    + right. destruct Hrj as (f & ar & msg & Ej). exists f, ar, msg.
      rewrite loop_S. by rewrite (bind_Ret _ _ _ _ _ Hstep).
  - right. exists fmt, args, (str "Invalid command token"). rewrite loop_S.
    unfold bind at 1. rewrite Hrej. unfold bind. simpl.
    by destruct (client_error ERROR_BAD_COMMAND _ _).
Qed.

(** Well-formed commands: what [encode_command] can carry. *)
Definition command_ok (argv : list bytes) : Prop :=
  1 <= blen argv <= COMMAND_MAX_ARGS /\ Forall arg_fits argv /\
  blen (encode_command argv) < 2 ^ 64.

(** The error code for a payload that is not a well-formed command. *)
Definition parse_error_code (buffer : bytes) : error_codes :=
  let argc := of_be32 (ztake 4 buffer) in
  if argc =? 0 then ERROR_UNKNOWN_COMMAND
  else if COMMAND_MAX_ARGS <? argc then ERROR_TOOMANY_ARGS
  else ERROR_BAD_COMMAND.

Lemma parse_command_encoded argv s :
  command_ok argv -> server_parse_command (encode_command argv) s = Ret (Some argv) s.
Proof.
  intros (Hn & Hf & Hb). unfold server_parse_command.
  pose proof (blen_encode_args_ge argv) as Hge. pose proof (blen_encode_command argv) as Hl.
  rewrite zsub_Some by blia. rewrite zdrop_0 by lia.
  rewrite (bind_Ret _ _ _ (ztake 4 (encode_command argv)) s) by done.
  assert (ztake 4 (encode_command argv) = be32 (blen argv)) as ->
    by apply (ztake_blen_app (be32 (blen argv))).
  rewrite of_be32_be32, u32_small by (unfold COMMAND_MAX_ARGS in *; lia).
  rewrite (proj2 (Z.eqb_neq _ _)), (proj2 (Z.ltb_ge COMMAND_MAX_ARGS _)) by lia.
  rewrite u64_small, (proj2 (Z.ltb_ge _ _)) by lia.
  pose proof (parse_loop_complete (encode_command argv) (blen argv) argv
    (Datatypes.S (length (encode_command argv))) (be32 (blen argv)) [] s) as Hloop.
  rewrite blen_be32 in Hloop.
  assert (length argv < Datatypes.S (length (encode_command argv)))%nat as Hfuel
    by (unfold blen in *; lia).
  assert (blen (@nil bytes) + blen argv <= blen argv) as Hle by (rewrite blen_nil; lia).
  specialize (Hloop eq_refl Hf Hb Hle Hfuel).
  rewrite (bind_Ret _ _ _ _ _ Hloop). cbv beta iota. rewrite app_nil_l. by rewrite !Z.eqb_refl.
Qed.

Lemma encode_command_inv argv buffer :
  buffer = encode_command argv -> command_ok argv -> of_be32 (ztake 4 buffer) = blen argv.
Proof.
  intros -> (Hn & _). unfold encode_command.
  rewrite (ztake_blen_app (be32 (blen argv))), of_be32_be32.
  apply u32_small. unfold COMMAND_MAX_ARGS in *. lia.
Qed.

Lemma rejects_known {X A} (m : M S A) (k : A -> M S (option X)) a code s :
  m s = Ret a s -> rejects (k a) code s -> rejects (bind m k) code s.
Proof. intros E (f & ar & msg & Er). exists f, ar, msg. by rewrite (bind_Ret _ _ _ _ _ E). Qed.

(** A guard of the parser that sends an error. *)
Ltac reject := apply rejects_bind; [apply rejects_parse_fail|done].

(** The three guards on the argument count, which [Hrd] says is read. *)
Ltac pass_count_guards Hrd :=
  eapply rejects_known; [exact Hrd|]; cbv beta zeta;
  do 3 (match goal with |- context [if ?b then _ else _] => destruct b; [reject|] end).

Lemma parse_command_cases buffer s :
  4 <= blen buffer < 2 ^ 64 ->
  (exists argv, buffer = encode_command argv /\ command_ok argv /\
     server_parse_command buffer s = Ret (Some argv) s) \/
  rejects (server_parse_command buffer) (parse_error_code buffer) s.
Proof.
  intros Hb. unfold parse_error_code.
  set (l := ztake 4 buffer). assert (length l = 4%nat) as Hl.
  { assert (blen l = 4) by (unfold l; rewrite blen_ztake; lia). unfold blen in *. lia. }
  pose proof (of_be32_range l Hl) as Hrange.
  assert (buffer = l ++ zdrop 4 buffer) as Hsplit by (symmetry; apply ztake_zdrop).
  assert (from_option_fault (zsub 0 4 buffer) s = Ret l s) as Hrd.
  { rewrite zsub_Some, zdrop_0 by lia. done. }
  destruct (parse_loop_cases buffer (of_be32 l) (Datatypes.S (length buffer)) l
    (zdrop 4 buffer) [] s) as [(args & rest & Erest & Hf & Hloop)|Hloop];
    [done|lia|unfold zdrop; rewrite length_drop; lia| |].
  all: replace (blen l) with 4 in Hloop by (unfold blen; lia).
  - destruct (decide (blen args = of_be32 l /\ rest = [])) as [[Hargs ->]|Hne].
    + destruct (decide (1 <= of_be32 l <= COMMAND_MAX_ARGS)) as [Hc|Hc].
      * left. exists args. rewrite app_nil_r in Erest.
        assert (buffer = encode_command args) as E.
        { rewrite Hsplit, Erest. unfold encode_command. by rewrite Hargs, be32_of_be32. }
        split; [done|]. assert (command_ok args) as Hok
          by (split; [by rewrite Hargs|split; [done|rewrite <- E; lia]]).
        split; [done|]. rewrite E. by apply parse_command_encoded.
      * right. eapply rejects_known; [exact Hrd|]. cbv beta zeta.
        destruct (Z.eqb_spec (of_be32 l) 0); [reject|].
        rewrite (proj2 (Z.ltb_lt _ _)) by lia.
        reject.
    + right. pass_count_guards Hrd.
      eapply rejects_known; [exact Hloop|]. cbv beta iota zeta. simpl app.
      destruct (Z.eqb_spec (blen args) (of_be32 l)) as [Ha|Ha];
        [|reject].
      destruct (Z.eqb_spec (blen buffer - blen rest) (blen buffer));
        [|reject].
      exfalso. apply Hne. split; [done|]. apply blen_0. lia.
  - right. pass_count_guards Hrd.
    apply rejects_bind; [done|]. done.
Qed.

(** Fewer than four bytes: the argument count is read before any length
    check. *)
Lemma parse_command_short buffer s :
  blen buffer < 4 -> server_parse_command buffer s = Fault.
Proof. intros Hb. unfold server_parse_command. by rewrite zsub_None by lia. Qed.
End parse_theorems.

(** * What the parser accepts *)

Lemma rejects_not_some {S} `{HasLog S} `{Callbacks S} {X} (m : M S (option X)) code s x s' :
  rejects m code s -> m s <> Ret (Some x) s'.
Proof.
  intros (f & a & msg & E) E'. rewrite E in E'.
  apply bind_Ret_inv in E' as (? & ? & _ & (? & ? & _ & E')%bind_Ret_inv). by injection E'.
Qed.

(** A protocol that only records the callbacks. *)
Definition record_callbacks : Callbacks logs := {|
  client_error c m := do* modify (add_log (Log Notice "error" [AInt (error_num c); AStr m])) in ret true;
  client_finish o st := do* modify (add_log (Log Notice "finish" [AInt st])) in ret true;
|}.

(** C22: [server_parse_command] accepts exactly the encodings of well-formed
    commands.  On a payload of at least four bytes it returns the argument
    list, with no other effect, precisely when the payload is the encoding of
    that list and the list is within the limits; on every other payload it
    logs once, sends one error token with the documented code and returns
    [NULL]. *)
Theorem parse_command_exact {S} `{HasLog S} `{Callbacks S} buffer (s : S) :
  4 <= blen buffer < 2 ^ 64 ->
  (forall argv, server_parse_command buffer s = Ret (Some argv) s <->
     buffer = encode_command argv /\ command_ok argv) /\
  ((forall argv, buffer = encode_command argv -> ~ command_ok argv) ->
     rejects (server_parse_command buffer) (parse_error_code buffer) s).
Proof.
  intros Hb. split.
  - intros argv. split.
    + intros E. destruct (parse_command_cases buffer s Hb) as [(argv' & -> & Hok & E')|Hr].
      * rewrite E' in E. by injection E as ->.
      * by destruct (rejects_not_some _ _ _ _ _ Hr E).
    + intros [-> Hok]. by apply parse_command_encoded.
  - intros Hno. destruct (parse_command_cases buffer s Hb) as [(argv & -> & Hok & _)|Hr]; [|done].
    by destruct (Hno argv).
Qed.

Lemma parse_command_exact_witness :
  let _ := record_callbacks in
  4 <= blen (encode_command [str "help"; []]) < 2 ^ 64 /\
  server_parse_command (encode_command [str "help"; []]) [] = Ret (Some [str "help"; []]) [].
Proof.
  intros cb. split; [vm_compute; split; congruence|].
  apply (proj1 (parse_command_exact (encode_command [str "help"; []]) ([] : logs)
    ltac:(vm_compute; split; congruence)) [str "help"; []]).
  split; [reflexivity|]. split; [vm_compute; split; congruence|]. split; [|vm_compute; reflexivity].
  repeat constructor; vm_compute; reflexivity.
Defined.
