(* ===== verification/Vector.v ===== *)
(** [util/vector.c]: vectors of strings and the splitting and joining of
    strings, with [x_strndup] of [util/xmalloc.c].

    A C string argument is the list of its bytes before the nul.  A vector
    keeps its capacity; storing past it is an out-of-bounds write, [None]. *)

From S2P Require Import Prelude Effects.

(** * util/xmalloc.c *)

(** [x_strndup(s, size)] of memory starting with [s]. *)
Definition x_strndup (s : bytes) (size : Z) : bytes := cstr (ztake size s).

Lemma x_strndup_cstr s : x_strndup s (blen s) = cstr s.
Proof. unfold x_strndup. by rewrite ztake_ge. Qed.

(** * Data *)

Record vector : Type := Vector {
  v_strings : list bytes;
  v_allocated : Z;
}.

Definition v_count (v : vector) : Z := blen (v_strings v).

(** A cvector points into a string: offsets of its elements. *)
Record cvector : Type := Cvector {
  cv_offsets : list Z;
  cv_allocated : Z;
}.

(** * Operations *)

Definition vector_new : vector := Vector [] 1.
Definition cvector_new : cvector := Cvector [] 1.

Definition vector_resize (v : vector) (size : Z) : vector :=
  Vector (if size <? v_count v then ztake size (v_strings v) else v_strings v)
    (if size =? 0 then 1 else size).

Definition cvector_resize (v : cvector) (size : Z) : cvector :=
  Cvector (if size <? blen (cv_offsets v) then ztake size (cv_offsets v) else cv_offsets v)
    (if size =? 0 then 1 else size).

(** [strings[i++] = x] with [i] elements stored. *)
Definition store {A} (cap : Z) (acc : list A) (x : A) : option (list A) :=
  if blen acc <? cap then Some (acc ++ [x]) else None.

Definition vector_add (v : vector) (string : bytes) : option vector :=
  let v := if v_count v =? v_allocated v then vector_resize v (v_allocated v + 1) else v in
  l ← store (v_allocated v) (v_strings v) (cstr string);
  Some (Vector l (v_allocated v)).

Definition vector_addn (v : vector) (string : bytes) (length : Z) : option vector :=
  let v := if v_count v =? v_allocated v then vector_resize v (v_allocated v + 1) else v in
  l ← store (v_allocated v) (v_strings v) (x_strndup string length);
  Some (Vector l (v_allocated v)).

Definition cvector_add (v : cvector) (string : Z) : option cvector :=
  let v := if blen (cv_offsets v) =? cv_allocated v then cvector_resize v (cv_allocated v + 1) else v in
  l ← store (cv_allocated v) (cv_offsets v) string;
  Some (Cvector l (cv_allocated v)).

Definition vector_clear (v : vector) : vector := Vector [] (v_allocated v).
Definition cvector_clear (v : cvector) : cvector := Cvector [] (cv_allocated v).

Definition vector_reuse (v : option vector) : vector :=
  match v with None => vector_new | Some v => vector_clear v end.
Definition cvector_reuse (v : option cvector) : cvector :=
  match v with None => cvector_new | Some v => cvector_clear v end.

Definition split_count (string : bytes) (separator : byte) : Z :=
  match string with
  | [] => 1
  | _ => fold_left (fun n c => if byte_eqb c separator then n + 1 else n) string 1
  end.

(** The walk: [p] is the rest of the string and [seg] what lies between
    [start] and [p]. *)
Fixpoint split_walk (separator : byte) (cap : Z) (p seg : bytes) (acc : list bytes)
    : option (list bytes) :=
  match p with
  | [] => store cap acc (x_strndup seg (blen seg))
  | c :: p =>
      if byte_eqb c separator then
        acc ← store cap acc (x_strndup seg (blen seg));
        split_walk separator cap p [] acc
      else split_walk separator cap p (seg ++ [c]) acc
  end.

Definition vector_split (string : bytes) (separator : byte) (v : option vector) : option vector :=
  let v := vector_reuse v in
  let count := split_count string separator in
  let v := if v_allocated v <? count then vector_resize v count else v in
  l ← split_walk separator (v_allocated v) string [] [];
  Some (Vector l (v_allocated v)).

(** The in-place walk at offset [p] with the current string starting at
    [start]: the string's new bytes and the offsets. *)
Fixpoint csplit_walk (separator : byte) (cap : Z) (string : bytes) (p start : Z)
    (acc : list Z) : option (bytes * list Z) :=
  match string with
  | [] => acc ← store cap acc start; Some ([], acc)
  | c :: string =>
      if byte_eqb c separator then
        acc ← store cap acc start;
        '(rest, acc) ← csplit_walk separator cap string (p + 1) (p + 1) acc;
        Some (nul :: rest, acc)
      else
        '(rest, acc) ← csplit_walk separator cap string (p + 1) start acc;
        Some (c :: rest, acc)
  end.

Definition cvector_split (string : bytes) (separator : byte) (v : option cvector)
    : option (bytes * cvector) :=
  let v := cvector_reuse v in
  let count := split_count string separator in
  let v := if cv_allocated v <? count then cvector_resize v count else v in
  '(string, l) ← csplit_walk separator (cv_allocated v) string 0 0 [];
  Some (string, Cvector l (cv_allocated v)).

(** The elements as C strings. *)
Definition cvector_strings (string : bytes) (v : cvector) : list bytes :=
  map (fun o => cstr (zdrop o string)) (cv_offsets v).

(** [strchr(seps, c) != NULL] for a character other than nul. *)
Definition is_sep (seps : bytes) (c : byte) : bool := has_byte c seps.

Fixpoint split_multi_scan (seps : bytes) (prev : byte) (p : bytes) (count : Z) : Z :=
  match p with
  | [] => if is_sep seps prev then count - 1 else count
  | c :: p =>
      split_multi_scan seps c p
        (if is_sep seps c && negb (is_sep seps prev) then count + 1 else count)
  end.

Definition split_multi_count (string seps : bytes) : Z :=
  match string with
  | [] => 0
  | c :: p => split_multi_scan seps c p 1
  end.

Fixpoint split_multi_walk (seps : bytes) (cap : Z) (p seg : bytes) (acc : list bytes)
    : option (list bytes) :=
  match p with
  | [] => if blen seg =? 0 then Some acc else store cap acc (x_strndup seg (blen seg))
  | c :: p =>
      if is_sep seps c then
        acc ← (if blen seg =? 0 then Some acc else store cap acc (x_strndup seg (blen seg)));
        split_multi_walk seps cap p [] acc
      else split_multi_walk seps cap p (seg ++ [c]) acc
  end.

Definition vector_split_multi (string seps : bytes) (v : option vector) : option vector :=
  let v := vector_reuse v in
  let count := split_multi_count string seps in
  let v := if v_allocated v <? count then vector_resize v count else v in
  l ← split_multi_walk seps (v_allocated v) string [] [];
  Some (Vector l (v_allocated v)).

Definition vector_split_space (string : bytes) (v : option vector) : option vector :=
  vector_split_multi string [x20; x09] v.

(** The in-place walk: only a separator that ends a string becomes a nul. *)
Fixpoint csplit_multi_walk (seps : bytes) (cap : Z) (string : bytes) (p start : Z)
    (acc : list Z) : option (bytes * list Z) :=
  match string with
  | [] => acc ← (if start =? p then Some acc else store cap acc start); Some ([], acc)
  | c :: string =>
      if is_sep seps c then
        if start =? p then
          '(rest, acc) ← csplit_multi_walk seps cap string (p + 1) (p + 1) acc;
          Some (c :: rest, acc)
        else
          acc ← store cap acc start;
          '(rest, acc) ← csplit_multi_walk seps cap string (p + 1) (p + 1) acc;
          Some (nul :: rest, acc)
      else
        '(rest, acc) ← csplit_multi_walk seps cap string (p + 1) start acc;
        Some (c :: rest, acc)
  end.

Definition cvector_split_multi (string seps : bytes) (v : option cvector) : option (bytes * cvector) :=
  let v := cvector_reuse v in
  let count := split_multi_count string seps in
  let v := if cv_allocated v <? count then cvector_resize v count else v in
  '(string, l) ← csplit_multi_walk seps (cv_allocated v) string 0 0 [];
  Some (string, Cvector l (cv_allocated v)).

Definition cvector_split_space (string : bytes) (v : option cvector) : option (bytes * cvector) :=
  cvector_split_multi string [x20; x09] v.

Section vector_join.
Context {S : Type}.

(** The loop that adds up the lengths; [pad] is what the assertion adds. *)
Fixpoint join_lengths (pad : Z) (l : list bytes) (size : Z) : M S Z :=
  match l with
  | [] => ret size
  | s :: l =>
      do* massert (blen s + pad <=? u64 (SIZE_MAX - size)) in
      join_lengths pad l (size + blen s)
  end.

Definition join_size (pad : Z) (l : list bytes) (seplen : Z) : M S Z :=
  let* size := join_lengths pad l 0 in
  let rest := u64 ((blen l - 1) * seplen + 1) in
  do* massert (rest <=? u64 (SIZE_MAX - size)) in
  ret (u64 (size + rest)).

(** The copying loop, with [offset] the length of what is written. *)
Fixpoint join_copy (l : list bytes) (first : bool) (separator : bytes) (size : Z) (out : bytes)
    : M S bytes :=
  match l with
  | [] => ret out
  | s :: l =>
      let out := if first then out else out ++ separator in
      let out := out ++ s in
      do* massert (blen out <? size) in
      join_copy l false separator size out
  end.

Definition vector_join (v : vector) (separator : bytes) : M S bytes :=
  if v_count v =? 0 then ret []
  else
    let* size := join_size (blen separator + 1) (v_strings v) (blen separator) in
    join_copy (v_strings v) true separator size [].

(** On what the pointers of a cvector read. *)
Definition cvector_join (string : bytes) (v : cvector) (separator : bytes) : M S bytes :=
  let strings := cvector_strings string v in
  if blen strings =? 0 then ret []
  else
    let* size := join_size 0 strings (blen separator) in
    join_copy strings true separator size [].
End vector_join.

(** The vector and the argument vector that [execv] gets; [None] is [NULL]. *)
Definition vector_exec (v : vector) : option (vector * list (option bytes)) :=
  let v := if v_allocated v =? v_count v then vector_resize v (v_count v + 1) else v in
  argv ← store (v_allocated v) (map Some (v_strings v)) None;
  Some (v, argv).

Definition cvector_exec (string : bytes) (v : cvector) : option (cvector * list (option bytes)) :=
  let v := if cv_allocated v =? blen (cv_offsets v) then cvector_resize v (blen (cv_offsets v) + 1) else v in
  argv ← store (cv_allocated v) (map Some (cvector_strings string v)) None;
  Some (v, argv).

(** Joining has no effect but its result. *)
Lemma keeps_vector_join {S X} (f : S -> X) v sep : keeps f (vector_join v sep).
Proof.
  unfold vector_join. apply keeps_if; [apply keeps_ret|]. apply keeps_bind; intros.
  - unfold join_size. apply keeps_bind; [|intros; apply keeps_bind; [apply keeps_massert|intros; apply keeps_ret]].
    generalize 0. induction (v_strings v) as [|x l IH]; intros size; [apply keeps_ret|].
    apply keeps_bind; [apply keeps_massert|intros; apply IH].
  - generalize true, (@nil byte). induction (v_strings v) as [|x l IH]; intros first out; [apply keeps_ret|].
    apply keeps_bind; [apply keeps_massert|intros; apply IH].
Qed.

(** * Reference definitions *)

(** Splitting at every separator. *)
Fixpoint split_ref (sep : byte -> bool) (s seg : bytes) : list bytes :=
  match s with
  | [] => [seg]
  | c :: s => if sep c then seg :: split_ref sep s [] else split_ref sep s (seg ++ [c])
  end.

Definition nonempty (s : bytes) : bool := negb (blen s =? 0).

(** Words: the non-empty strings between separators. *)
Definition words (sep : byte -> bool) (s : bytes) : list bytes :=
  List.filter nonempty (split_ref sep s []).

Fixpoint join_ref (sep : bytes) (l : list bytes) : bytes :=
  match l with
  | [] => []
  | [s] => s
  | s :: l => s ++ sep ++ join_ref sep l
  end.

Definition vector_ok (v : vector) : Prop := v_count v <= v_allocated v /\ 1 <= v_allocated v.

(** * Lemmas *)

Lemma x_strndup_all s : no_nul s -> x_strndup s (blen s) = s.
Proof. intros. unfold x_strndup. rewrite ztake_ge by lia. by apply cstr_id. Qed.

Lemma no_nul_nil : no_nul [].
Proof. unfold no_nul. set_solver. Qed.
Lemma no_nul_cons c s : no_nul (c :: s) <-> c <> nul /\ no_nul s.
Proof. unfold no_nul. set_solver. Qed.
Lemma no_nul_snoc s c : c <> nul -> no_nul s -> no_nul (s ++ [c]).
Proof. unfold no_nul. set_solver. Qed.

Lemma store_Some {A} cap (acc : list A) x : blen acc < cap -> store cap acc x = Some (acc ++ [x]).
Proof. intros. unfold store. by rewrite (proj2 (Z.ltb_lt _ _)). Qed.

Lemma split_ref_ne sep s : forall seg, 1 <= blen (split_ref sep s seg).
Proof.
  induction s as [|c s IH]; intros seg; simpl; [done|].
  destruct (sep c); [rewrite blen_cons; specialize (IH []); lia|apply IH].
Qed.

Lemma split_walk_ref separator cap s : forall seg acc,
  no_nul s -> no_nul seg ->
  blen acc + blen (split_ref (fun c => byte_eqb c separator) s seg) <= cap ->
  split_walk separator cap s seg acc =
  Some (acc ++ split_ref (fun c => byte_eqb c separator) s seg).
Proof.
  induction s as [|c s IH]; intros seg acc Hs Hseg Hcap; simpl in *.
  - rewrite blen_cons, blen_nil in Hcap. rewrite x_strndup_all by done. apply store_Some. lia.
  - apply no_nul_cons in Hs as [Hc Hs]. destruct (byte_eqb c separator).
    + rewrite blen_cons in Hcap.
      pose proof (split_ref_ne (fun c => byte_eqb c separator) s []).
      rewrite x_strndup_all, store_Some by (done || lia). simpl.
      rewrite IH; [by rewrite <- app_assoc|done|apply no_nul_nil|].
      rewrite blen_app, blen_cons, blen_nil. lia.
    + apply IH; [done|by apply no_nul_snoc|done].
Qed.

Lemma split_ref_len P s : forall seg seg',
  blen (split_ref P s seg) = blen (split_ref P s seg').
Proof.
  induction s as [|c s IH]; intros; simpl; [done|]. destruct (P c); [by rewrite !blen_cons|apply IH].
Qed.

Lemma fold_count (P : byte -> bool) s : forall n,
  fold_left (fun n c => if P c then n + 1 else n) s n = n + blen (split_ref P s []) - 1.
Proof.
  induction s as [|c s IH]; intros n; simpl; [rewrite blen_cons, blen_nil; lia|].
  rewrite IH. destruct (P c); [rewrite blen_cons; lia|]. by rewrite (split_ref_len P s [c] []).
Qed.

Lemma split_count_ref s separator :
  split_count s separator = blen (split_ref (fun c => byte_eqb c separator) s []).
Proof.
  unfold split_count. destruct s as [|c s]; [done|].
  rewrite (fold_count (fun c => byte_eqb c separator)). lia.
Qed.

Lemma reuse_ok v : (forall u, v = Some u -> vector_ok u) -> vector_ok (vector_reuse v) /\
  v_strings (vector_reuse v) = [].
Proof.
  intros Hv. destruct v as [u|]; simpl; [|done]. destruct (Hv u eq_refl) as [_ H1].
  split; [|done]. split; [unfold v_count; simpl; change (blen (@nil bytes)) with 0; lia|done].
Qed.

(** The capacity after sizing: room for [count] elements. *)
Lemma sized_ok v count :
  vector_ok v -> v_strings v = [] -> 0 <= count ->
  let v' := if v_allocated v <? count then vector_resize v count else v in
  count <= v_allocated v' /\ 1 <= v_allocated v'.
Proof.
  intros [_ H1] _ Hc. simpl. destruct (Z.ltb_spec (v_allocated v) count); [|lia].
  simpl. destruct (Z.eqb_spec count 0); lia.
Qed.

Lemma vector_split_ref string separator v :
  no_nul string -> (forall u, v = Some u -> vector_ok u) ->
  exists v', vector_split string separator v = Some v' /\
    v_strings v' = split_ref (fun c => byte_eqb c separator) string [] /\ vector_ok v'.
Proof.
  intros Hs Hv. unfold vector_split. destruct (reuse_ok v Hv) as [Hok Hnil].
  rewrite split_count_ref. set (ref := split_ref _ string []).
  destruct (sized_ok _ (blen ref) Hok Hnil) as [Hcap H1]; [blia|].
  cbv zeta. set (v' := if _ <? _ then _ else _) in *.
  rewrite split_walk_ref; [|done|apply no_nul_nil|].
  - simpl. eexists. split; [done|]. split; [done|]. split; [exact Hcap|done].
  - fold ref. change (blen (@nil bytes)) with 0. lia.
Qed.

(** ** Splitting on several separators *)

Lemma words_cons sep s seg : List.filter nonempty (split_ref sep s seg) =
  match s with
  | [] => if blen seg =? 0 then [] else [seg]
  | c :: s => if sep c
              then (if blen seg =? 0 then [] else [seg]) ++ List.filter nonempty (split_ref sep s [])
              else List.filter nonempty (split_ref sep s (seg ++ [c]))
  end.
Proof.
  unfold nonempty. destruct s as [|c s]; simpl.
  - by destruct (blen seg =? 0).
  - destruct (sep c); simpl; [|done]. by destruct (blen seg =? 0).
Qed.

Lemma split_multi_walk_ref seps cap s : forall seg acc,
  no_nul s -> no_nul seg ->
  blen acc + blen (List.filter nonempty (split_ref (is_sep seps) s seg)) <= cap ->
  split_multi_walk seps cap s seg acc =
  Some (acc ++ List.filter nonempty (split_ref (is_sep seps) s seg)).
Proof.
  induction s as [|c s IH]; intros seg acc Hs Hseg Hcap; rewrite words_cons in *; simpl.
  - destruct (blen seg =? 0); [by rewrite app_nil_r|].
    rewrite blen_cons, blen_nil in Hcap. rewrite x_strndup_all by done. apply store_Some. lia.
  - apply no_nul_cons in Hs as [Hc Hs]. destruct (is_sep seps c).
    + rewrite blen_app in Hcap. pose proof (blen_nonneg (List.filter nonempty (split_ref (is_sep seps) s []))).
      destruct (blen seg =? 0); simpl.
      * apply IH; [done|apply no_nul_nil|]. rewrite blen_nil in Hcap. lia.
      * rewrite blen_cons, blen_nil in Hcap.
        rewrite x_strndup_all, store_Some by (done || lia). simpl.
        rewrite IH; [by rewrite <- app_assoc|done|apply no_nul_nil|].
        rewrite blen_app, blen_cons, blen_nil. lia.
    + apply IH; [done|by apply no_nul_snoc|done].
Qed.

(** Only whether the pending segment is empty matters for the count. *)
(** Words are nonempty, free of separators, and made of the string's bytes. *)
Lemma words_plain seps s :
  Forall (fun w => w <> [] /\ (forall c, c ∈ w -> c ∉ seps) /\ forall c, c ∈ w -> c ∈ s) (words (is_sep seps) s).
Proof.
  unfold words.
  assert (forall r seg, (forall c, c ∈ seg -> c ∉ seps) -> (forall c, c ∈ seg -> c ∈ s) -> (forall c, c ∈ r -> c ∈ s) ->
    Forall (fun w => w <> [] /\ (forall c, c ∈ w -> c ∉ seps) /\ forall c, c ∈ w -> c ∈ s)
      (List.filter nonempty (split_ref (is_sep seps) r seg))) as Hall; [|by apply Hall; set_solver].
  assert (forall seg : bytes, (blen seg =? 0) = false -> seg <> []) as Hne by (by intros [|] ?).
  intros r. induction r as [|c r IH]; intros seg Hseg Hs Hr; rewrite words_cons.
  - destruct (blen seg =? 0) eqn:E0; constructor; [|constructor]. split; [by apply Hne|done].
  - unfold is_sep at 1, has_byte. case_bool_decide as Hc.
    + apply Forall_app. split; [|apply IH; set_solver].
      destruct (blen seg =? 0) eqn:E0; constructor; [|constructor]. split; [by apply Hne|done].
    + apply IH; set_solver.
Qed.

Lemma words_seg sep s : forall seg seg', seg <> [] -> seg' <> [] ->
  blen (List.filter nonempty (split_ref sep s seg)) = blen (List.filter nonempty (split_ref sep s seg')).
Proof.
  assert (forall seg : bytes, seg <> [] -> (blen seg =? 0) = false) as Hne.
  { intros [|x l] ?; [done|]. apply Z.eqb_neq. rewrite blen_cons. blia. }
  induction s as [|c s IH]; intros seg seg' H1 H2; rewrite !(words_cons sep _ seg), !(words_cons sep _ seg').
  - by rewrite !Hne.
  - destruct (sep c); [by rewrite !Hne|]. apply IH; by destruct seg, seg'.
Qed.

Lemma scan_ref seps p : forall prev count,
  split_multi_scan seps prev p count =
  count - 1 + blen (List.filter nonempty (split_ref (is_sep seps) p (if is_sep seps prev then [] else [prev]))).
Proof.
  induction p as [|c p IH]; intros prev count; rewrite words_cons; simpl.
  - destruct (is_sep seps prev); simpl; [rewrite blen_nil|rewrite blen_cons, blen_nil]; lia.
  - rewrite IH. destruct (is_sep seps c) eqn:Ec; simpl.
    + destruct (is_sep seps prev); simpl; [lia|]. rewrite blen_cons. lia.
    + destruct (is_sep seps prev); simpl.
      * lia.
      * rewrite (words_seg _ p [prev; c] [c]) by done. lia.
Qed.

Lemma split_multi_count_ref s seps :
  split_multi_count s seps = blen (words (is_sep seps) s).
Proof.
  unfold split_multi_count, words. destruct s as [|c p]; [done|].
  rewrite scan_ref, (words_cons _ (c :: p) []). destruct (is_sep seps c); simpl; lia.
Qed.

Lemma vector_split_multi_ref string seps v :
  no_nul string -> (forall u, v = Some u -> vector_ok u) ->
  exists v', vector_split_multi string seps v = Some v' /\
    v_strings v' = words (is_sep seps) string /\ vector_ok v'.
Proof.
  intros Hs Hv. unfold vector_split_multi. destruct (reuse_ok v Hv) as [Hok Hnil].
  rewrite split_multi_count_ref. set (ref := words _ string).
  destruct (sized_ok _ (blen ref) Hok Hnil) as [Hcap H1]; [blia|].
  cbv zeta. set (v' := if _ <? _ then _ else _) in *.
  rewrite split_multi_walk_ref; [|done|apply no_nul_nil|].
  - simpl. eexists. split; [done|]. split; [done|]. split; [exact Hcap|done].
  - fold (words (is_sep seps) string). fold ref. change (blen (@nil bytes)) with 0. lia.
Qed.

(** ** In-place splitting *)

(** The strings at the offsets [acc] of [pre] are [strs], each ended by a nul. *)
Definition placed (pre : bytes) (acc : list Z) (strs : list bytes) : Prop :=
  Forall2 (fun o x => exists tail, pre = ztake o pre ++ x ++ nul :: tail /\ 0 <= o <= blen pre /\ no_nul x) acc strs.

Lemma placed_read pre acc strs rest : placed pre acc strs -> map (fun o => cstr (zdrop o (pre ++ rest))) acc = strs.
Proof.
  induction 1 as [|o x acc strs (tail & E & Ho & Hx) _ IH]; simpl; [done|]. f_equal; [|done].
  rewrite zdrop_app_l by lia.
  assert (zdrop o pre = x ++ nul :: tail) as ->.
  { apply (app_inv_head (ztake o pre)). by rewrite ztake_zdrop. }
  rewrite <- app_assoc, cstr_app_no_nul by done. apply app_nil_r.
Qed.

Lemma placed_app pre rest acc strs : placed pre acc strs -> placed (pre ++ rest) acc strs.
Proof.
  intros H. eapply Forall2_impl; [exact H|]. intros o x (tail & Et & Ho & Hx).
  exists (tail ++ rest). split; [|split; [rewrite blen_app; blia|done]].
  rewrite ztake_app_l by lia.
  transitivity ((ztake o pre ++ x ++ nul :: tail) ++ rest); [by f_equal|].
  by rewrite <- !app_assoc.
Qed.

Lemma placed_snoc pre seg acc strs : placed pre acc strs -> no_nul seg ->
  placed (pre ++ seg ++ [nul]) (acc ++ [blen pre]) (strs ++ [seg]).
Proof.
  intros H Hseg. apply Forall2_app; [by apply placed_app|]. constructor; [|constructor].
  exists []. split; [by rewrite ztake_blen_app|]. split; [rewrite !blen_app; blia|done].
Qed.

(** The end of a walk, when the last string starts at [blen pre]. *)
Lemma placed_last pre seg acc strs : placed pre acc strs -> no_nul seg ->
  map (fun o => cstr (zdrop o (pre ++ seg ++ []))) (acc ++ [blen pre]) = strs ++ [seg].
Proof.
  intros H Hseg. rewrite map_app. simpl. rewrite (placed_read _ _ _ _ H), zdrop_blen_app, app_nil_r. by rewrite cstr_id.
Qed.

(** The modified string and the offsets, read back as C strings, are the
    copied segments. *)
Lemma csplit_walk_ref separator cap s : forall pre seg acc strs,
  no_nul s -> no_nul seg -> separator <> nul ->
  blen acc + blen (split_ref (fun c => byte_eqb c separator) s seg) <= cap ->
  placed pre acc strs ->
  exists s' acc', csplit_walk separator cap s (blen (pre ++ seg)) (blen pre) acc = Some (s', acc') /\
    length s' = length s /\
    map (fun o => cstr (zdrop o (pre ++ seg ++ s'))) acc' =
      strs ++ split_ref (fun c => byte_eqb c separator) s seg.
Proof.
  induction s as [|c s IH]; intros pre seg acc strs Hs Hseg Hsep Hcap Hacc; simpl in *.
  - rewrite blen_cons, blen_nil in Hcap. rewrite store_Some by lia. simpl. do 2 eexists.
    split; [done|]. split; [done|]. by apply placed_last.
  - apply no_nul_cons in Hs as [Hc Hs]. destruct (byte_eqb c separator) eqn:Ec.
    + rewrite blen_cons in Hcap. pose proof (split_ref_ne (fun c => byte_eqb c separator) s []).
      rewrite store_Some by lia. simpl.
      destruct (IH (pre ++ seg ++ [nul]) [] (acc ++ [blen pre]) (strs ++ [seg]))
        as (s' & acc' & E & Hlen & Hmap); [done|apply no_nul_nil|done| |by apply placed_snoc|].
      * rewrite blen_app, blen_cons, blen_nil. lia.
      * rewrite app_nil_r in E. rewrite !blen_app, blen_cons, blen_nil in E. rewrite blen_app.
        replace (blen pre + blen seg + 1) with (blen pre + (blen seg + (1 + 0))) by lia.
        rewrite E. simpl. do 2 eexists. split; [done|]. split; [simpl; by rewrite Hlen|].
        rewrite <- app_assoc in Hmap. simpl in Hmap. rewrite <- !app_assoc in Hmap. exact Hmap.
    + destruct (IH pre (seg ++ [c]) acc strs) as (s' & acc' & E & Hlen & Hmap);
        [done|by apply no_nul_snoc|done|done|done|].
      rewrite app_assoc, blen_app, blen_cons, blen_nil in E.
      replace (blen (pre ++ seg) + 1) with (blen (pre ++ seg) + (1 + 0)) by lia.
      rewrite E. simpl. do 2 eexists. split; [done|]. split; [simpl; by rewrite Hlen|].
      rewrite <- app_assoc in Hmap. exact Hmap.
Qed.

Lemma cvector_split_ref string separator v :
  no_nul string -> separator <> nul -> (forall u, v = Some u -> 1 <= cv_allocated u) ->
  exists s' v', cvector_split string separator v = Some (s', v') /\ length s' = length string /\
    cvector_strings s' v' = split_ref (fun c => byte_eqb c separator) string [] /\
    blen (cv_offsets v') <= cv_allocated v'.
Proof.
  intros Hs Hsep Hv. unfold cvector_split.
  assert (1 <= cv_allocated (cvector_reuse v)) as H1 by (destruct v as [u|]; [apply (Hv u eq_refl)|simpl; lia]).
  rewrite split_count_ref. set (ref := split_ref _ string []).
  pose proof (blen_nonneg ref). cbv zeta. set (v' := if _ <? _ then _ else _).
  assert (blen ref <= cv_allocated v') as Hcap.
  { unfold v'. destruct (Z.ltb_spec (cv_allocated (cvector_reuse v)) (blen ref)); [|lia].
    simpl. destruct (Z.eqb_spec (blen ref) 0); lia. }
  destruct (csplit_walk_ref separator (cv_allocated v') string [] [] [] [])
    as (s' & acc' & E & Hlen & Hmap);
    [done|apply no_nul_nil|done|exact Hcap|constructor|].
  change (blen ([] ++ [])) with 0 in E. change (blen (@nil byte)) with 0 in E. rewrite E. simpl. do 2 eexists. split; [done|]. split; [done|].
  split; [exact Hmap|]. simpl. apply (f_equal blen) in Hmap. simpl in Hmap. fold ref in Hmap.
  unfold blen in *. rewrite length_map in Hmap. lia.
Qed.

Lemma start_eqb {A} (pre seg : list A) : (blen pre =? blen (pre ++ seg)) = (blen seg =? 0).
Proof. rewrite blen_app. destruct (Z.eqb_spec (blen seg) 0), (Z.eqb_spec (blen pre) (blen pre + blen seg)); lia. Qed.

Lemma csplit_multi_walk_ref seps cap s : forall pre seg acc strs,
  no_nul s -> no_nul seg ->
  blen acc + blen (List.filter nonempty (split_ref (is_sep seps) s seg)) <= cap ->
  placed pre acc strs ->
  exists s' acc', csplit_multi_walk seps cap s (blen (pre ++ seg)) (blen pre) acc = Some (s', acc') /\
    length s' = length s /\ blen acc' <= cap /\
    map (fun o => cstr (zdrop o (pre ++ seg ++ s'))) acc' =
      strs ++ List.filter nonempty (split_ref (is_sep seps) s seg).
Proof.
  induction s as [|c s IH]; intros pre seg acc strs Hs Hseg Hcap Hacc; rewrite words_cons in *; cbn [csplit_multi_walk];
    rewrite start_eqb.
  - destruct (Z.eqb_spec (blen seg) 0) as [E|E].
    + apply blen_0 in E as ->. cbn. do 2 eexists. split; [done|]. split; [done|]. split; [rewrite blen_nil in Hcap; lia|].
      rewrite (placed_read _ _ _ _ Hacc). by rewrite app_nil_r.
    + rewrite blen_cons, blen_nil in Hcap. rewrite store_Some by lia. cbn. do 2 eexists. split; [done|]. split; [done|].
      split; [rewrite blen_app, blen_cons, blen_nil; lia|]. by apply placed_last.
  - apply no_nul_cons in Hs as [Hc Hs]. destruct (is_sep seps c).
    + rewrite blen_app in Hcap. pose proof (blen_nonneg (List.filter nonempty (split_ref (is_sep seps) s []))).
      destruct (Z.eqb_spec (blen seg) 0) as [E|E].
      * apply blen_0 in E as ->. rewrite blen_nil in Hcap.
        destruct (IH (pre ++ [c]) [] acc strs) as (s' & acc' & Ew & Hlen & Hcap' & Hmap);
          [done|apply no_nul_nil|lia|by apply placed_app|].
        rewrite !app_nil_r in *. rewrite blen_app, blen_cons, blen_nil in Ew. replace (1 + 0) with 1 in Ew by lia.
        rewrite Ew. cbn. do 2 eexists. split; [done|]. split; [simpl; by rewrite Hlen|]. split; [done|].
        rewrite <- app_assoc in Hmap. exact Hmap.
      * rewrite blen_cons, blen_nil in Hcap. rewrite store_Some by lia. cbn.
        destruct (IH (pre ++ seg ++ [nul]) [] (acc ++ [blen pre]) (strs ++ [seg])) as (s' & acc' & Ew & Hlen & Hcap' & Hmap);
          [done|apply no_nul_nil|rewrite blen_app, blen_cons, blen_nil; lia|by apply placed_snoc|].
        rewrite app_nil_r in Ew. rewrite !blen_app, blen_cons, blen_nil in Ew. rewrite blen_app.
        replace (blen pre + blen seg + 1) with (blen pre + (blen seg + (1 + 0))) by lia.
        rewrite Ew. cbn. do 2 eexists. split; [done|]. split; [simpl; by rewrite Hlen|]. split; [done|].
        rewrite <- !app_assoc in Hmap. exact Hmap.
    + destruct (IH pre (seg ++ [c]) acc strs) as (s' & acc' & Ew & Hlen & Hcap' & Hmap); [done|by apply no_nul_snoc|done..|].
      rewrite app_assoc, blen_app, blen_cons, blen_nil in Ew.
      replace (blen (pre ++ seg) + 1) with (blen (pre ++ seg) + (1 + 0)) by lia.
      rewrite Ew. cbn. do 2 eexists. split; [done|]. split; [simpl; by rewrite Hlen|]. split; [done|].
      rewrite <- app_assoc in Hmap. exact Hmap.
Qed.

Lemma cvector_split_multi_ref string seps v :
  no_nul string -> (forall u, v = Some u -> 1 <= cv_allocated u) ->
  exists s' v', cvector_split_multi string seps v = Some (s', v') /\ length s' = length string /\
    cvector_strings s' v' = words (is_sep seps) string /\ blen (cv_offsets v') <= cv_allocated v'.
Proof.
  intros Hs Hv. unfold cvector_split_multi.
  assert (1 <= cv_allocated (cvector_reuse v)) as H1 by (destruct v as [u|]; [apply (Hv u eq_refl)|simpl; lia]).
  rewrite split_multi_count_ref. set (ref := words (is_sep seps) string).
  pose proof (blen_nonneg ref). cbv zeta. set (v' := if _ <? _ then _ else _).
  assert (blen ref <= cv_allocated v') as Hcap.
  { unfold v'. destruct (Z.ltb_spec (cv_allocated (cvector_reuse v)) (blen ref)); [|lia].
    simpl. destruct (Z.eqb_spec (blen ref) 0); lia. }
  destruct (csplit_multi_walk_ref seps (cv_allocated v') string [] [] [] [])
    as (s' & acc' & E & Hlen & Hcap' & Hmap); [done|apply no_nul_nil|exact Hcap|constructor|].
  change (blen ([] ++ [])) with 0 in E. change (blen (@nil byte)) with 0 in E. rewrite E. simpl. do 2 eexists.
  split; [done|]. split; [done|]. split; [exact Hmap|exact Hcap'].
Qed.

(** ** Joining *)

Section join_lemmas.
Context {S : Type}.
Implicit Types s : S.

(** What [join_copy] still appends to what it has written. *)
Definition join_rest (first : bool) (sep : bytes) (l : list bytes) : bytes :=
  match l with [] => [] | _ => (if first then [] else sep) ++ join_ref sep l end.

Lemma join_rest_cons first sep x l :
  join_rest first sep (x :: l) = (if first then [] else sep) ++ x ++ join_rest false sep l.
Proof. destruct l; simpl; [by rewrite app_nil_r|done]. Qed.

Lemma join_copy_ref l : forall first separator size out s,
  blen out + blen (join_rest first separator l) < size ->
  join_copy l first separator size out s = Ret (out ++ join_rest first separator l) s.
Proof.
  induction l as [|x l IH]; intros first separator size out s Hsize.
  - simpl. by rewrite app_nil_r.
  - rewrite join_rest_cons in *. simpl. rewrite !blen_app in Hsize.
    assert ((if first then out else out ++ separator) = out ++ (if first then [] else separator)) as ->
      by (destruct first; [by rewrite app_nil_r|done]).
    rewrite !blen_app, (proj2 (Z.ltb_lt _ _)) by blia. simpl.
    unfold bind, ret. rewrite IH; [by rewrite <- !app_assoc|]. rewrite !blen_app. blia.
Qed.

Definition total_len (l : list bytes) : Z := fold_right (fun x n => blen x + n) 0 l.

Lemma total_len_nonneg l : 0 <= total_len l.
Proof. unfold total_len. induction l; simpl; blia. Qed.

Lemma blen_join_ref sep l : l <> [] ->
  blen (join_ref sep l) = total_len l + (blen l - 1) * blen sep.
Proof.
  induction l as [|x [|y l] IH]; intros Hne; [done|simpl; change (blen [x]) with 1; lia|].
  change (join_ref sep (x :: y :: l)) with (x ++ sep ++ join_ref sep (y :: l)).
  rewrite !blen_app, IH by done. simpl. rewrite !blen_cons. lia.
Qed.

Lemma join_lengths_ref pad l s : forall size,
  0 <= pad -> 0 <= size -> size + total_len l + pad <= SIZE_MAX ->
  join_lengths pad l size s = Ret (size + total_len l) s.
Proof.
  induction l as [|x l IH]; intros size Hsep Hs Hb; simpl in *.
  - unfold ret. f_equal. lia.
  - pose proof (total_len_nonneg l). pose proof (blen_nonneg x).
    rewrite u64_small, (proj2 (Z.leb_le _ _)) by (unfold SIZE_MAX in *; lia).
    unfold massert, bind at 1. simpl. rewrite IH by lia. f_equal. lia.
Qed.

(** Sizing and copying within the size of memory. *)
Lemma join_ref_copy pad l separator s :
  l <> [] -> 0 <= pad -> total_len l + pad <= SIZE_MAX -> total_len l + (blen l - 1) * blen separator + 1 <= SIZE_MAX ->
  bind (join_size pad l (blen separator)) (fun size => join_copy l true separator size []) s = Ret (join_ref separator l) s.
Proof.
  intros Hne Hp Hb1 Hb2. pose proof (total_len_nonneg l). pose proof (blen_nonneg separator).
  assert (1 <= blen l) as Hc by (destruct l as [|x l]; [done|rewrite blen_cons; pose proof (blen_nonneg l); lia]).
  unfold join_size, bind at 1. unfold bind at 1.
  rewrite join_lengths_ref by lia. rewrite Z.add_0_l.
  rewrite !(u64_small ((blen l - 1) * blen separator + 1)), !u64_small by (unfold SIZE_MAX in *; nia).
  unfold massert. rewrite (proj2 (Z.leb_le _ _)) by nia. simpl.
  unfold bind, ret.
  assert (join_rest true separator l = join_ref separator l) as Hjr by by destruct l.
  rewrite join_copy_ref; rewrite Hjr; [done|]. rewrite blen_join_ref by done.
  change (blen (@nil byte)) with 0. lia.
Qed.

(** [vector_join] within the size of memory. *)
Lemma vector_join_ref v separator s :
  total_len (v_strings v) + v_count v * blen separator + 1 <= SIZE_MAX ->
  vector_join v separator s = Ret (join_ref separator (v_strings v)) s.
Proof.
  intros Hb. unfold vector_join. destruct (Z.eqb_spec (v_count v) 0) as [Hz|Hz].
  { unfold v_count in Hz. apply blen_0 in Hz. by rewrite Hz. }
  assert (v_strings v <> []) as Hne by (intros E; unfold v_count in Hz; by rewrite E in Hz).
  pose proof (blen_nonneg separator). pose proof (blen_nonneg (v_strings v)). unfold v_count in *.
  apply join_ref_copy; [done|lia|nia..].
Qed.

Lemma cvector_join_ref string v separator s :
  total_len (cvector_strings string v) + blen (cv_offsets v) * blen separator + 1 <= SIZE_MAX ->
  cvector_join string v separator s = Ret (join_ref separator (cvector_strings string v)) s.
Proof.
  intros Hb. unfold cvector_join. assert (blen (cvector_strings string v) = blen (cv_offsets v)) as El
    by (unfold cvector_strings, blen; by rewrite length_map).
  destruct (Z.eqb_spec (blen (cvector_strings string v)) 0) as [Hz|Hz]; [apply blen_0 in Hz; by rewrite Hz|].
  assert (cvector_strings string v <> []) as Hne by (intros E; by rewrite E in Hz).
  pose proof (blen_nonneg separator). pose proof (blen_nonneg (cvector_strings string v)). rewrite <- El in Hb.
  apply join_ref_copy; [done|lia|nia..].
Qed.
End join_lemmas.

(** The text a split stands for, and back. *)
Lemma join_split sepc s : forall seg,
  join_ref [sepc] (split_ref (fun c => byte_eqb c sepc) s seg) = seg ++ s.
Proof.
  induction s as [|c s IH]; intros seg; simpl; [by rewrite app_nil_r|].
  unfold byte_eqb at 1. case_bool_decide as Hc.
  - subst c. destruct (split_ref _ s []) as [|y l] eqn:E.
    + pose proof (split_ref_ne (fun c => byte_eqb c sepc) s []) as Hl. rewrite E in Hl. done.
    + change (seg ++ [sepc] ++ join_ref [sepc] (y :: l) = seg ++ sepc :: s).
      rewrite <- E, IH. done.
  - rewrite IH, <- app_assoc. done.
Qed.

Lemma split_ref_app P a : forall seg, (forall c, c ∈ a -> P c = false) ->
  forall b, split_ref P (a ++ b) seg = split_ref P b (seg ++ a).
Proof.
  induction a as [|c a IH]; intros seg Ha b; simpl; [by rewrite app_nil_r|].
  rewrite Ha by set_solver. rewrite IH by set_solver. by rewrite <- app_assoc.
Qed.

Lemma split_ref_sep P c s seg : P c = true -> split_ref P (c :: s) seg = seg :: split_ref P s [].
Proof. simpl. by intros ->. Qed.

Lemma split_join sepc l : l <> [] -> Forall (fun x => sepc ∉ x) l ->
  split_ref (fun c => byte_eqb c sepc) (join_ref [sepc] l) [] = l.
Proof.
  assert (forall x : bytes, sepc ∉ x -> forall c, c ∈ x -> byte_eqb c sepc = false) as Hx.
  { intros x Hn c Hc. unfold byte_eqb. apply bool_decide_eq_false. set_solver. }
  induction l as [|x [|y l] IH]; intros Hne Hf; [done| |].
  - apply Forall_cons_1 in Hf as [Hf _]. simpl. rewrite <- (app_nil_r x) at 1.
    by rewrite split_ref_app by eauto.
  - apply Forall_cons_1 in Hf as [Hf Hl].
    change (join_ref [sepc] (x :: y :: l)) with (x ++ [sepc] ++ join_ref [sepc] (y :: l)).
    rewrite split_ref_app by eauto. change ([sepc] ++ ?z) with (sepc :: z).
    rewrite split_ref_sep by apply byte_eqb_refl. by rewrite IH.
Qed.

(** * Theorems *)

Lemma total_len_split P s : forall seg, total_len (split_ref P s seg) <= blen seg + blen s.
Proof.
  induction s as [|c s IH]; intros seg; simpl; [change (blen (@nil byte)) with 0; lia|].
  destruct (P c); simpl.
  - specialize (IH []). rewrite blen_cons. change (blen (@nil byte)) with 0 in IH. lia.
  - specialize (IH (seg ++ [c])). rewrite blen_app in IH. rewrite blen_cons.
    change (blen [c]) with 1 in IH. lia.
Qed.

Lemma blen_split P s : forall seg, blen (split_ref P s seg) <= 1 + blen s.
Proof.
  induction s as [|c s IH]; intros seg; simpl; [change (blen (@nil byte)) with 0; rewrite blen_cons; change (blen (@nil bytes)) with 0; lia|].
  rewrite blen_cons. destruct (P c); [rewrite blen_cons; specialize (IH []); lia|].
  specialize (IH (seg ++ [c])). lia.
Qed.

(** C34: [vector_split] and [vector_join] are inverse.  Splitting a string at a
    character never writes past the vector the first pass sized, and joining
    the pieces with that character gives the string back; splitting the join
    of a non-empty list of strings free of the separator gives the list
    back. *)
Theorem vector_split_join {S} (s0 : S) separator :
  separator <> nul ->
  (forall string v, no_nul string -> (forall u, v = Some u -> vector_ok u) ->
     2 * blen string + 2 <= SIZE_MAX ->
     exists v', vector_split string separator v = Some v' /\ vector_ok v' /\
       vector_join v' [separator] s0 = Ret string s0) /\
  (forall v, v_strings v <> [] -> Forall (fun x => separator ∉ x /\ no_nul x) (v_strings v) ->
     total_len (v_strings v) + v_count v + 1 <= SIZE_MAX ->
     exists string v', vector_join v [separator] s0 = Ret string s0 /\
       vector_split string separator None = Some v' /\ v_strings v' = v_strings v).
Proof.
  intros Hsep. split.
  - intros string v Hs Hv Hb.
    destruct (vector_split_ref string separator v Hs Hv) as (v' & E & Hstr & Hok).
    exists v'. split; [done|]. split; [done|].
    pose proof (total_len_split (fun c => byte_eqb c separator) string []) as Ht.
    pose proof (blen_split (fun c => byte_eqb c separator) string []) as Hl.
    change (blen (@nil byte)) with 0 in Ht.
    rewrite vector_join_ref, Hstr, join_split; [done|]. unfold v_count. rewrite Hstr.
    change (blen [separator]) with 1. lia.
  - intros v Hne Hf Hb.
    assert (no_nul (join_ref [separator] (v_strings v))) as Hnn.
    { clear -Hf Hsep. induction (v_strings v) as [|x [|y l] IH]; [apply no_nul_nil| |].
      - by apply Forall_cons_1 in Hf as [[_ ?] _].
      - apply Forall_cons_1 in Hf as [[_ Hx] Hl].
        change (join_ref [separator] (x :: y :: l)) with (x ++ [separator] ++ join_ref [separator] (y :: l)).
        apply no_nul_app. split; [done|]. apply no_nul_app. split; [|by apply IH].
        apply no_nul_cons. split; [done|apply no_nul_nil]. }
    destruct (vector_split_ref _ separator None Hnn ltac:(done)) as (v' & E & Hstr & _).
    eexists _, v'. split; [apply vector_join_ref; change (blen [separator]) with 1; lia|].
    split; [done|]. rewrite Hstr. apply split_join; [done|].
    eapply Forall_impl; [exact Hf|]. by intros x [? _].
Qed.

Lemma vector_split_join_witness :
  (x2c <> nul /\ no_nul (str "3,4,,5")) /\
  exists v', vector_split (str "3,4,,5") x2c None = Some v' /\ vector_ok v' /\
    vector_join v' [x2c] tt = Ret (str "3,4,,5") tt.
Proof.
  assert (no_nul (str "3,4,,5")) as Hn by (unfold no_nul; vm_compute; set_solver).
  split; [by split|].
  apply (proj1 (vector_split_join tt x2c ltac:(done))); [done|done|vm_compute; congruence].
Defined.

(** C35: splitting at a set of separators, by copying and in place.  For any
    separators, the elements are exactly the non-empty pieces of splitting at
    every separator, in order; the counting pass sized the vector for them, so
    no element is stored out of bounds.  The pointers of the in-place version
    read as the same strings of the modified string, which keeps its length. *)
Theorem vector_split_multi_words string seps v cv :
  no_nul string -> (forall u, v = Some u -> vector_ok u) -> (forall u, cv = Some u -> 1 <= cv_allocated u) ->
  (exists v', vector_split_multi string seps v = Some v' /\ vector_ok v' /\
     v_strings v' = words (is_sep seps) string /\
     Forall (fun w => w <> [] /\ forall c, c ∈ w -> c ∉ seps) (v_strings v')) /\
  (exists string' cv', cvector_split_multi string seps cv = Some (string', cv') /\
     length string' = length string /\ blen (cv_offsets cv') <= cv_allocated cv' /\
     cvector_strings string' cv' = words (is_sep seps) string).
Proof.
  intros Hs Hv Hcv. split.
  - destruct (vector_split_multi_ref string seps v Hs Hv) as (v' & E & Hw & Hok).
    exists v'. split; [done|]. split; [done|]. split; [done|]. rewrite Hw.
    eapply Forall_impl; [apply words_plain|]. naive_solver.
  - destruct (cvector_split_multi_ref string seps cv Hs Hcv) as (s' & cv' & E & Hl & Hw & Hcap). by exists s', cv'.
Qed.

Lemma vector_split_multi_words_witness :
  (exists v', vector_split_multi (str " foo  bar ") (str " ") None = Some v' /\ vector_ok v' /\
     v_strings v' = words (is_sep (str " ")) (str " foo  bar ") /\
     Forall (fun w => w <> [] /\ forall c, c ∈ w -> c ∉ str " ") (v_strings v')) /\
  (exists string' cv', cvector_split_multi (str " foo  bar ") (str " ") None = Some (string', cv') /\
     length string' = length (str " foo  bar ") /\ blen (cv_offsets cv') <= cv_allocated cv' /\
     cvector_strings string' cv' = words (is_sep (str " ")) (str " foo  bar ")).
Proof.
  apply vector_split_multi_words; [|done..]. unfold no_nul. vm_compute. set_solver.
Defined.

(** [vector_exec] always finds room for the [NULL]. *)
Lemma vector_exec_argv v : vector_ok v -> exists v', vector_exec v = Some (v', map Some (v_strings v) ++ [None]) /\
  v_strings v' = v_strings v.
Proof.
  intros [Hc _]. unfold vector_exec, v_count in *. pose proof (blen_nonneg (v_strings v)).
  assert (forall cap, blen (v_strings v) < cap -> store cap (map Some (v_strings v)) None = Some (map Some (v_strings v) ++ [None])) as Hst.
  { intros cap Hcap. apply store_Some. unfold blen in *. by rewrite length_map. }
  destruct (Z.eqb_spec (v_allocated v) (blen (v_strings v))) as [E|E].
  - exists (vector_resize v (blen (v_strings v) + 1)). unfold vector_resize, v_count. cbn [v_allocated v_strings].
    rewrite (proj2 (Z.ltb_ge _ _)) by lia. rewrite (proj2 (Z.eqb_neq (_ + 1) 0)) by lia. by rewrite Hst by lia.
  - exists v. by rewrite Hst by lia.
Qed.

(** The in-place [cvector_split] agrees with the copying [vector_split]:
    its pointers into the modified string read as the same strings, the string
    keeps its length, and no pointer is stored out of bounds. *)
Lemma cvector_split_equiv string separator v :
  no_nul string -> separator <> nul -> (forall u, v = Some u -> 1 <= cv_allocated u) ->
  exists string' cv vec, cvector_split string separator v = Some (string', cv) /\
    vector_split string separator None = Some vec /\
    cvector_strings string' cv = v_strings vec /\ length string' = length string /\
    blen (cv_offsets cv) <= cv_allocated cv.
Proof.
  intros Hs Hsep Hv.
  destruct (cvector_split_ref string separator v Hs Hsep Hv) as (s' & cv & E & Hl & Hstr & Hcap).
  destruct (vector_split_ref string separator None Hs ltac:(done)) as (vec & E' & Hstr' & _).
  exists s', cv, vec. rewrite Hstr, Hstr'. done.
Qed.

Lemma cvector_split_equiv_witness :
  no_nul (str "1,,2") /\
  exists string' cv vec, cvector_split (str "1,,2") x2c None = Some (string', cv) /\
    vector_split (str "1,,2") x2c None = Some vec /\
    cvector_strings string' cv = v_strings vec /\ length string' = length (str "1,,2") /\
    blen (cv_offsets cv) <= cv_allocated cv.
Proof.
  assert (no_nul (str "1,,2")) as Hn by (unfold no_nul; vm_compute; set_solver).
  split; [done|]. by apply cvector_split_equiv.
Defined.
