(* ===== verification/Memory.v ===== *)
(** Memory: [util/xmalloc.c] and the replacements that allocate,
    [portable/strndup.c], [portable/reallocarray.c], [portable/asprintf.c].

    The other files let an allocation always succeed.  Here it may fail: the
    theorem says that the functions of xmalloc.c give what was asked for or do
    not return, so that nothing else of the program sees a failure. *)

From S2P Require Import Prelude Effects CLib Net Vector.

(** * The heap of the C library *)

(** A block is its cells, [None] for one never written; a pointer to its
    start is its key.  A script says which allocations succeed, and beyond it
    all do. *)
Record mem : Type := Mem {
  mm_blocks : gmap Z (list (option byte));
  mm_next : Z;
  mm_allocs : list bool;
  mm_errno : Z;
  mm_log : logs;
}.

Definition put_blocks b m := Mem b (mm_next m) (mm_allocs m) (mm_errno m) (mm_log m).
Definition put_mem_errno e m := Mem (mm_blocks m) (mm_next m) (mm_allocs m) e (mm_log m).
#[export] Instance mem_HasLog : HasLog mem :=
  fun l m => Mem (mm_blocks m) (mm_next m) (mm_allocs m) (mm_errno m) (mm_log m ++ [l]).

Definition unwritten (n : Z) : list (option byte) := replicate (Z.to_nat n) None.

(** The next answer of the script: whether there is memory. *)
Definition grant : M mem bool := fun m =>
  match mm_allocs m with
  | false :: rest => Ret false (Mem (mm_blocks m) (mm_next m) rest ENOMEM (mm_log m))
  | rest => Ret true (Mem (mm_blocks m) (mm_next m) (tail rest) (mm_errno m) (mm_log m))
  end.

Definition new_block (d : list (option byte)) : M mem (option Z) := fun m =>
  Ret (Some (mm_next m)) (Mem (<[mm_next m := d]> (mm_blocks m)) (mm_next m + 1) (mm_allocs m) (mm_errno m) (mm_log m)).

Definition block (p : Z) : M mem (list (option byte)) := fun m =>
  match mm_blocks m !! p with Some d => Ret d m | None => Fault end.

Definition sys_malloc (n : Z) : M mem (option Z) :=
  let* ok := grant in
  if ok then new_block (unwritten n) else ret None.

Definition sys_calloc (n size : Z) : M mem (option Z) :=
  if SIZE_MAX <? n * size then do* modify (put_mem_errno ENOMEM) in ret None
  else
    let* ok := grant in
    if ok then new_block (replicate (Z.to_nat (n * size)) (Some nul)) else ret None.

Definition sys_free (p : option Z) : M mem unit :=
  match p with
  | None => ret tt
  | Some p => do* block p in modify (fun m => put_blocks (delete p (mm_blocks m)) m)
  end.

(** The start of the old cells, in a block of [n]. *)
Definition resized (n : Z) (d : list (option byte)) : list (option byte) := ztake n d ++ unwritten (n - blen d).

(** With size zero, [realloc] of the GNU C library frees the block. *)
Definition sys_realloc (p : option Z) (n : Z) : M mem (option Z) :=
  match p with
  | None => sys_malloc n
  | Some q =>
      let* d := block q in
      if n =? 0 then do* sys_free p in ret None
      else
        let* ok := grant in
        if ok then do* sys_free p in new_block (resized n d) else ret None
  end.

(** [memcpy] into the start of a block, and one byte. *)
Definition mem_write (p off : Z) (d : bytes) : M mem unit :=
  let* old := block p in
  if (0 <=? off) && (off + blen d <=? blen old)
  then modify (fun m => put_blocks (<[p := ztake off old ++ map Some d ++ zdrop (off + blen d) old]> (mm_blocks m)) m)
  else fault.

(** * The replacements *)

(** The loop that stops at [n] bytes or a nul; [None] reads past the block. *)
Fixpoint scan (s : bytes) (n : Z) : option Z :=
  if n <=? 0 then Some 0
  else
    match s with
    | [] => None
    | c :: s => if byte_eqb c nul then Some 0 else k ← scan s (n - 1); Some (k + 1)
    end.

(** What follows the allocation: the copy and its nul. *)
Definition copy_string (copy : Z) (s : bytes) (length : Z) : M mem unit :=
  do* mem_write copy 0 (ztake length s) in
  mem_write copy length [nul].

Definition portable_strndup (s : option bytes) (n : Z) : M mem (option Z) :=
  match s with
  | None => do* modify (put_mem_errno EINVAL) in ret None
  | Some s =>
      let* length := from_option_fault (scan s n) in
      let* copy := sys_malloc (length + 1) in
      match copy with
      | None => ret None
      | Some p => do* copy_string p s length in ret copy
      end
  end.

Definition CHECK_THRESHOLD : Z := Z.shiftl 1 32.

Definition portable_reallocarray (ptr : option Z) (nmemb size : Z) : M mem (option Z) :=
  if ((CHECK_THRESHOLD <=? nmemb) || (CHECK_THRESHOLD <=? size)) && ((0 <? nmemb) && (SIZE_MAX / nmemb <=? size))
  then do* modify (put_mem_errno ENOMEM) in ret None
  else
    let '(nmemb, size) := if (nmemb =? 0) || (size =? 0) then (1, 1) else (nmemb, size) in
    sys_realloc ptr (u64 (nmemb * size)).

(** [vsnprintf] on a format and its arguments: the text, or an error. *)
Definition portable_vasprintf (text : option bytes) : M mem (Z * option Z) :=
  match text with
  | None => ret (-1, None)
  | Some text =>
      let needed := blen text in
      let* p := sys_malloc (needed + 1) in
      match p with
      | None => ret (-1, None)
      | Some q => do* mem_write q 0 (text ++ [nul]) in ret (needed, p)
      end
  end.

(** * xmalloc.c *)

Definition xmalloc_fail (function : string) (size : Z) (file : bytes) (line : Z) : M mem unit :=
  if size =? 0 then sysdie "failed to format output with %s at %s line %d" [AStr (str function); AStr file; AInt line]
  else sysdie "failed to %s %lu bytes at %s line %d" [AStr (str function); AInt size; AStr file; AInt line].

Section xmalloc.
(** The handler in effect, and the place of the call. *)
Variable xmalloc_error_handler : string -> Z -> bytes -> Z -> M mem unit.
Variables (file : bytes) (line : Z).

(** [while (p == NULL)]: the handler, and the call again. *)
Definition retry_body {A} (null : A -> bool) (call : M mem A) (failed : M mem unit) (p : A) : M mem (A + A) :=
  if null p then do* failed in let* p := call in ret (inl p) else ret (inr p).

(** Each failure takes an answer of the script. *)
Definition retry {A} (null : A -> bool) (call : M mem A) (failed : M mem unit) : M mem A :=
  let* fuel := gets (fun m => S (S (length (mm_allocs m)))) in
  let* p := call in
  loop fuel (retry_body null call failed) p.

Definition is_null (p : option Z) : bool := bool_decide (p = None).

Definition x_malloc (size : Z) : M mem (option Z) :=
  let real_size := if 0 <? size then size else 1 in
  retry is_null (sys_malloc real_size) (xmalloc_error_handler "malloc" size file line).

Definition x_calloc (n size : Z) : M mem (option Z) :=
  let n := if 0 <? n then n else 1 in
  let size := if 0 <? size then size else 1 in
  retry is_null (sys_calloc n size) (xmalloc_error_handler "calloc" (u64 (n * size)) file line).

Definition x_realloc (p : option Z) (size : Z) : M mem (option Z) :=
  if size =? 0 then sys_realloc p size
  else retry is_null (sys_realloc p size) (xmalloc_error_handler "realloc" size file line).

Definition x_reallocarray (p : option Z) (n size : Z) : M mem (option Z) :=
  if (size =? 0) || (n =? 0) then portable_reallocarray p n size
  else retry is_null (portable_reallocarray p n size) (xmalloc_error_handler "reallocarray" (u64 (n * size)) file line).

(** [s] without its nul. *)
Definition x_strdup (s : bytes) : M mem (option Z) :=
  let len := blen s + 1 in
  let* p := retry is_null (sys_malloc len) (xmalloc_error_handler "strdup" len file line) in
  let* q := from_option_fault p in
  do* mem_write q 0 (s ++ [nul]) in
  ret p.

Definition x_strndup_ (s : bytes) (size : Z) : M mem (option Z) :=
  let* length := from_option_fault (scan s size) in
  let* copy := retry is_null (sys_malloc (length + 1)) (xmalloc_error_handler "strndup" (length + 1) file line) in
  let* q := from_option_fault copy in
  do* copy_string q s length in
  ret copy.

(** [*strp] and the loop on the status. *)
Definition x_printf (function : string) (text : option bytes) : M mem (option Z) :=
  let status := match text with None => 0 | Some text => blen text + 1 end in
  let* r := retry (fun r => r.1 <? 0) (portable_vasprintf text) (xmalloc_error_handler function status file line) in
  ret r.2.

Definition x_vasprintf (text : option bytes) : M mem (option Z) := x_printf "vasprintf" text.
Definition x_asprintf (text : option bytes) : M mem (option Z) := x_printf "asprintf" text.
End xmalloc.

(** * What a call gives *)

Definition mem_fresh (m : mem) : Prop := forall k, mm_next m <= k -> mm_blocks m !! k = None.

(** A new block with the cells [d], beside the blocks [rest]; its address was
    free in [old]. *)
Definition got (old rest : gmap Z (list (option byte))) (d : list (option byte)) (r : option Z) (m : mem) : Prop :=
  exists p, r = Some p /\ old !! p = None /\ mm_blocks m = <[p := d]> rest /\ mem_fresh m.

(** An allocation that failed took one answer of the script. *)
Definition refused (m m' : mem) : Prop :=
  mm_blocks m' = mm_blocks m /\ mm_next m' = mm_next m /\ mm_allocs m = false :: mm_allocs m'.

(** One attempt: refused, or successful. *)
Definition attempt {A} (null : A -> bool) (old : gmap Z (list (option byte))) (call : M mem A)
    (Good : A -> mem -> Prop) : Prop :=
  forall m, mem_fresh m -> mm_blocks m = old ->
  runs call (fun r m' => if null r then refused m m' else Good r m') m.

(** A handler returns or exits, and leaves the heap as it is. *)
Definition same_mem (m m' : mem) : Prop :=
  mm_blocks m' = mm_blocks m /\ mm_next m' = mm_next m /\ mm_allocs m' = mm_allocs m.
Definition polite (h : string -> Z -> bytes -> Z -> M mem unit) : Prop :=
  forall function size file line m,
  wp (h function size file line) (fun _ m' => same_mem m m') (fun _ m' => same_mem m m') m.

Lemma polite_fail : polite xmalloc_fail.
Proof. intros function size file line m. unfold xmalloc_fail. by destruct (size =? 0). Qed.

Lemma fresh_insert m d : mem_fresh m ->
  mem_fresh (Mem (<[mm_next m := d]> (mm_blocks m)) (mm_next m + 1) (mm_allocs m) (mm_errno m) (mm_log m)).
Proof. intros Hf k Hk. cbn in *. rewrite lookup_insert_ne by lia. apply Hf. lia. Qed.

Lemma grant_cases m :
  (exists m', grant m = Ret false m' /\ refused m m') \/
  (exists m', grant m = Ret true m' /\ mm_blocks m' = mm_blocks m /\ mm_next m' = mm_next m).
Proof.
  unfold grant, refused. destruct (mm_allocs m) as [|[] r]; [right|right|left]; by eexists.
Qed.

(** [if (granted) new_block]. *)
Lemma malloc_attempt d old :
  attempt is_null old (let* ok := grant in if ok then new_block d else ret None) (got old old d).
Proof.
  intros m Hf Eb. apply runs_bind. destruct (grant_cases m) as [(m' & E & Hr)|(m' & E & Hb & Hn)];
    unfold runs at 1, wp; rewrite E; [exact Hr|].
  unfold new_block, runs, wp. cbn [is_null]. exists (mm_next m'). rewrite <- Eb, <- Hb.
  assert (mem_fresh m') as Hf' by (intros k Hk; rewrite Hb; apply Hf; lia).
  split; [done|]. split; [apply Hf'; lia|]. split; [done|by apply fresh_insert].
Qed.

Lemma realloc_attempt p n old q d : p = Some q -> old !! q = Some d -> n <> 0 ->
  attempt is_null old (sys_realloc p n) (got old (delete q old) (resized n d)).
Proof.
  intros -> Hq Hn m Hf Eb. unfold sys_realloc. apply runs_bind.
  assert (block q m = Ret d m) as Ed by (unfold block; by rewrite Eb, Hq).
  unfold runs at 1, wp. rewrite Ed, (proj2 (Z.eqb_neq n 0)) by done.
  apply runs_bind. destruct (grant_cases m) as [(m' & E & Hr)|(m' & E & Hb & Hx)];
    unfold runs at 1, wp; rewrite E; [exact Hr|].
  apply runs_bind. apply runs_elim. eexists tt, (put_blocks (delete q (mm_blocks m')) m').
  assert (mm_blocks m' !! q = Some d) as Hq' by by rewrite Hb, Eb.
  split; [unfold sys_free, block, bind; by rewrite Hq'|].
  unfold new_block, runs, wp. cbn. exists (mm_next m'). rewrite Hb, Eb.
  assert (old !! mm_next m' = None) as Hnone by (rewrite <- Eb; apply Hf; lia).
  split; [done|]. split; [done|]. split; [done|]. intros k Hk. cbn in *.
  rewrite lookup_insert_ne by lia. apply lookup_delete_None. right. rewrite <- Eb. apply Hf. lia.
Qed.

(** ** The loop of the handler *)

Lemma same_refused m0 m m' : same_mem m0 m -> refused m m' -> refused m0 m'.
Proof. unfold same_mem, refused. intros (-> & -> & ->). done. Qed.

Lemma refused_fresh m m' : mem_fresh m -> refused m m' -> mem_fresh m'.
Proof. intros Hf (Eb & En & _) k Hk. rewrite Eb. apply Hf. lia. Qed.

(** Whatever a polite handler does, the loop ends: with what was asked for, or
    through an exit of the handler, which only a failure brings about. *)
Lemma retry_spec {A} h function size file line (null : A -> bool) call Good m :
  polite h -> mem_fresh m -> attempt null (mm_blocks m) call Good ->
  wp (retry null call (h function size file line)) (fun r m' => null r = false /\ Good r m')
    (fun _ m' => mm_blocks m' = mm_blocks m /\ false ∈ mm_allocs m) m.
Proof.
  intros Hh Hf Hc. unfold retry. apply wp_bind, wp_gets. apply wp_bind.
  eapply wp_mono; [exact (Hc m Hf eq_refl)| |done]. intros r m1 Hr. cbv beta in Hr.
  set (I := fun (r : A) (m1 : mem) => if null r
    then mm_blocks m1 = mm_blocks m /\ mem_fresh m1 /\ false ∈ mm_allocs m /\ (length (mm_allocs m1) < length (mm_allocs m))%nat
    else Good r m1).
  apply (loop_wp I (fun r m1 => if null r then S (length (mm_allocs m1)) else O)).
  - intros r0 m0 HI. unfold I in HI |- *. unfold retry_body. destruct (null r0) eqn:En; [|by apply wp_ret].
    destruct HI as (Eb & Hf0 & Hin & Hl). apply wp_bind.
    eapply wp_mono; [apply Hh| |].
    + intros [] m2 Hs. cbv beta in Hs. assert (mem_fresh m2) as Hf2 by (destruct Hs as (E1 & E2 & _); intros k Hk; rewrite E1; apply Hf0; lia).
      apply wp_bind. assert (mm_blocks m2 = mm_blocks m) as Eb2 by (destruct Hs as (-> & _); done).
      eapply wp_mono; [exact (Hc m2 Hf2 Eb2)| |done]. intros r3 m3 H3. apply wp_ret.
      cbv beta in H3. destruct (null r3) eqn:E3; [|by split; [|lia]].
      destruct H3 as (Eb3 & En3 & Ea3). destruct Hs as (_ & _ & Ea). rewrite <- Ea, Ea3 in Hl |- *. cbn in *.
      split; [|lia]. split; [congruence|]. split; [intros k Hk; rewrite Eb3; apply Hf2; lia|]. split; [done|lia].
    + intros c m2 (E1 & _). by split; [congruence|].
  - unfold I. destruct (null r); [|done]. destruct Hr as (Eb & En & Ea). split; [done|].
    split; [intros k Hk; rewrite Eb; apply Hf; lia|]. rewrite Ea. split; [set_solver|]. simpl. lia.
  - destruct (null r); [|lia]. destruct Hr as (_ & _ & ->). simpl. lia.
Qed.

(** ** Strings *)

Lemma scan_strndup s : forall n k, scan s n = Some k -> ztake k s = Vector.x_strndup s n /\ 0 <= k <= blen s.
Proof.
  unfold Vector.x_strndup. induction s as [|c s IH]; intros n k; cbn [scan]; destruct (Z.leb_spec n 0) as [Hn|Hn].
  - intros [= <-]. rewrite !ztake_nil. split; [done|]. change (blen (@nil byte)) with 0. lia.
  - done.
  - intros [= <-]. unfold ztake. rewrite (Z2Nat.nonpos n), Z2Nat.nonpos by lia. pose proof (blen_nonneg (c :: s)). by split; [|lia].
  - rewrite blen_cons. pose proof (blen_nonneg s).
    assert (ztake n (c :: s) = c :: ztake (n - 1) s) as Et.
    { unfold ztake. replace (Z.to_nat n) with (S (Z.to_nat (n - 1))) by lia. done. }
    rewrite Et. cbn [cstr]. destruct (byte_eqb c nul).
    + intros [= <-]. by split; [|lia].
    + destruct (scan s (n - 1)) as [j|] eqn:Ej; [|done]. cbn. intros [= <-]. destruct (IH _ _ Ej) as [Es Hj].
      split; [|lia]. rewrite <- Es. unfold ztake. by replace (Z.to_nat (j + 1)) with (S (Z.to_nat j)) by lia.
Qed.

Lemma write_block p off d old m : mm_blocks m !! p = Some old -> 0 <= off -> off + blen d <= blen old ->
  mem_write p off d m =
  Ret tt (put_blocks (<[p := ztake off old ++ map Some d ++ zdrop (off + blen d) old]> (mm_blocks m)) m).
Proof.
  intros E H0 H1. unfold mem_write, block, bind. rewrite E. by rewrite (proj2 (Z.leb_le 0 off)), (proj2 (Z.leb_le _ _)) by done.
Qed.

Lemma blen_unwritten n : 0 <= n -> blen (unwritten n) = n.
Proof. intros Hn. unfold unwritten, blen. rewrite length_replicate. lia. Qed.

(** A block filled from its start. *)
Lemma fill_block rest p d m : mem_fresh m -> mm_blocks m = <[p := unwritten (blen d)]> rest ->
  runs (mem_write p 0 d) (fun _ m' => mem_fresh m' /\ mm_blocks m' = <[p := map Some d]> rest) m.
Proof.
  intros Hf Eb. pose proof (blen_nonneg d). assert (mm_blocks m !! p = Some (unwritten (blen d))) as Hp by by rewrite Eb, lookup_insert_eq.
  apply runs_elim. eexists _, _. split; [apply (write_block _ _ _ _ _ Hp); rewrite ?blen_unwritten; lia|].
  rewrite ztake_0, zdrop_ge, app_nil_r by (rewrite ?blen_unwritten; lia). cbn [app]. rewrite Eb, insert_insert_eq. split; [|done].
  intros k Hk. cbn in *. specialize (Hf k Hk). rewrite Eb in Hf.
  destruct (decide (k = p)) as [->|Hne]; [by rewrite lookup_insert_eq in Hf|]. by rewrite lookup_insert_ne in Hf |- * by done.
Qed.

Lemma wp_got_fill old rest p d m : mem_fresh m -> mm_blocks m = <[p := unwritten (blen d)]> rest -> old !! p = None ->
  runs (do* mem_write p 0 d in ret (Some p)) (got old rest (map Some d)) m.
Proof.
  intros Hf Eb Hp. apply runs_bind. eapply runs_mono; [by apply fill_block|]. intros _ m' [Hf' Eb']. apply runs_ret. by exists p.
Qed.

(** The copy is written in two steps. *)
Lemma copy_string_once p s length m : 0 <= length <= blen s ->
  mm_blocks m !! p = Some (unwritten (length + 1)) ->
  copy_string p s length m = mem_write p 0 (ztake length s ++ [nul]) m.
Proof.
  intros Hl Hp. assert (blen (ztake length s) = length) as El by (rewrite blen_ztake; lia).
  assert (blen (ztake length s ++ [nul]) = length + 1) as El1 by (rewrite blen_app, El; done).
  unfold copy_string. rewrite (bind_Ret _ _ _ _ _ (write_block p 0 (ztake length s) _ m Hp ltac:(lia) ltac:(rewrite blen_unwritten; lia))).
  rewrite (write_block p 0 (ztake length s ++ [nul]) _ m Hp) by (rewrite ?blen_unwritten; lia).
  set (d1 := ztake 0 _ ++ _). assert (d1 = map Some (ztake length s) ++ [None]) as Ed1.
  { unfold d1. rewrite ztake_0 by lia. rewrite El. cbn [app]. f_equal. unfold unwritten. 
    replace (Z.to_nat (length + 1)) with (Z.to_nat length + 1)%nat by lia. rewrite replicate_add.
    unfold zdrop. rewrite drop_app_length' by (rewrite length_replicate; lia). done. }
  assert (blen (map Some (ztake length s)) = length) as Em by (unfold blen in *; by rewrite length_map).
  assert (blen d1 = length + 1) as Ebd by (rewrite Ed1, blen_app, Em; done).
  rewrite (write_block p length [nul] d1); [|apply lookup_insert_eq|lia|rewrite Ebd; change (blen [nul]) with 1; lia].
  unfold put_blocks. cbn [mm_blocks mm_next mm_allocs mm_errno mm_log]. do 2 f_equal. rewrite insert_insert_eq. f_equal.
  rewrite Ed1. clear d1 Ed1 Ebd. change (ztake 0 (unwritten (length + 1))) with (@nil (option byte)). cbn [app].
  rewrite ztake_app_l by lia. rewrite ztake_ge by lia. rewrite map_app, <- app_assoc. f_equal. cbn [map app]. f_equal.
  rewrite zdrop_app_r by (rewrite Em; change (blen [nul]) with 1; lia). rewrite !zdrop_ge; [done|rewrite blen_unwritten; lia|].
  rewrite Em. change (blen [nul]) with 1. change (blen [@None byte]) with 1. lia.
Qed.

(** ** Arrays *)

(** The sizes that the check of [reallocarray] lets through. *)
Definition array_fits (n size : Z) : bool :=
  ((n <? CHECK_THRESHOLD) && (size <? CHECK_THRESHOLD)) || (size <? SIZE_MAX / n).

Lemma array_fits_product n size : 0 < n -> 0 <= size -> array_fits n size = true -> n * size <= SIZE_MAX.
Proof.
  unfold array_fits, CHECK_THRESHOLD. change (Z.shiftl 1 32) with 4294967296. unfold SIZE_MAX. intros Hn Hs.
  rewrite orb_true_iff, andb_true_iff, !Z.ltb_lt. intros [[H1 H2]|H]; [nia|].
  pose proof (Z.mul_div_le 18446744073709551615 n Hn). nia.
Qed.

(** An array that does not fit is refused, and nothing is allocated for the
    product that wrapped. *)
Lemma reallocarray_refuses p n size m : 0 < n -> 0 <= size -> SIZE_MAX < n * size ->
  portable_reallocarray p n size m = Ret None (put_mem_errno ENOMEM m).
Proof.
  intros Hn Hs Ho. unfold portable_reallocarray. destruct (array_fits n size) eqn:E.
  { pose proof (array_fits_product n size Hn Hs E). lia. }
  unfold array_fits in E. apply orb_false_iff in E as [E1 E2]. apply Z.ltb_ge in E2.
  assert ((CHECK_THRESHOLD <=? n) || (CHECK_THRESHOLD <=? size) = true) as ->.
  { apply andb_false_iff in E1. apply orb_true_iff. rewrite !Z.leb_le. rewrite !Z.ltb_ge in E1. done. }
  rewrite (proj2 (Z.ltb_lt 0 n)), (proj2 (Z.leb_le _ _)) by lia. done.
Qed.

Lemma reallocarray_fits p n size : 0 < n -> 0 < size -> array_fits n size = true ->
  portable_reallocarray p n size = sys_realloc p (n * size).
Proof.
  intros Hn Hs E. pose proof (array_fits_product n size Hn ltac:(lia) E). unfold portable_reallocarray.
  assert (((CHECK_THRESHOLD <=? n) || (CHECK_THRESHOLD <=? size)) && ((0 <? n) && (SIZE_MAX / n <=? size)) = false) as ->.
  { apply andb_false_iff. unfold array_fits in E. rewrite orb_true_iff, andb_true_iff, !Z.ltb_lt in E.
    destruct E as [[H1 H2]|H1]; [left; apply orb_false_iff|right; apply andb_false_iff; right]; rewrite ?Z.leb_gt; lia. }
  rewrite (proj2 (Z.eqb_neq n 0)), (proj2 (Z.eqb_neq size 0)) by lia. cbn [orb]. rewrite u64_small by (unfold SIZE_MAX in *; nia). done.
Qed.

(** * Memory or no return *)

(** The calls of xmalloc.c. *)
Inductive request : Type :=
  | RMalloc (size : Z)
  | RCalloc (n size : Z)
  | RRealloc (p : option Z) (size : Z)
  | RReallocarray (p : option Z) (n size : Z)
  | RStrdup (s : bytes)
  | RStrndup (s : bytes) (size : Z)
  | RVasprintf (text : bytes)
  | RAsprintf (text : bytes).

Definition x_call (h : string -> Z -> bytes -> Z -> M mem unit) (file : bytes) (line : Z) (r : request) : M mem (option Z) :=
  match r with
  | RMalloc size => x_malloc h file line size
  | RCalloc n size => x_calloc h file line n size
  | RRealloc p size => x_realloc h file line p size
  | RReallocarray p n size => x_reallocarray h file line p n size
  | RStrdup s => x_strdup h file line s
  | RStrndup s size => x_strndup_ h file line s size
  | RVasprintf text => x_vasprintf h file line (Some text)
  | RAsprintf text => x_asprintf h file line (Some text)
  end.

(** Growing, shrinking or making a block of [n] bytes. *)
Definition moved (p : option Z) (n : Z) (blocks : gmap Z (list (option byte)))
    : option (gmap Z (list (option byte)) * list (option byte)) :=
  match p with
  | None => Some (blocks, unwritten n)
  | Some q => d ← blocks !! q; Some (delete q blocks, resized n d)
  end.

(** What a request asks for: the blocks that stay, and the cells of the new
    one.  [None]: a pointer to no block, a string without an end, a size of
    zero, or more bytes than a [size_t] counts. *)
Definition asks (r : request) (blocks : gmap Z (list (option byte)))
    : option (gmap Z (list (option byte)) * list (option byte)) :=
  match r with
  | RMalloc size => Some (blocks, unwritten (Z.max 1 size))
  | RCalloc n size =>
      let bytes := Z.max 1 n * Z.max 1 size in
      if SIZE_MAX <? bytes then None else Some (blocks, replicate (Z.to_nat bytes) (Some nul))
  | RRealloc p size => if size <=? 0 then None else moved p size blocks
  | RReallocarray p n size =>
      if (n <=? 0) || (size <=? 0) || negb (array_fits n size) then None else moved p (n * size) blocks
  | RStrdup s => Some (blocks, map Some (s ++ [nul]))
  | RStrndup s size => _ ← scan s size; Some (blocks, map Some (Vector.x_strndup s size ++ [nul]))
  | RVasprintf text | RAsprintf text => Some (blocks, map Some (text ++ [nul]))
  end.

Lemma moved_attempt p n old rest d : 0 < n -> moved p n old = Some (rest, d) ->
  attempt is_null old (sys_realloc p n) (got old rest d).
Proof.
  intros Hn. destruct p as [q|]; cbn [moved sys_realloc].
  - destruct (old !! q) as [e|] eqn:E; [|done]. cbn. intros [= <- <-]. apply (realloc_attempt (Some q) n old q e); [done..|lia].
  - intros [= <- <-]. apply malloc_attempt.
Qed.

Lemma vasprintf_attempt text old :
  attempt (fun r => r.1 <? 0) old (portable_vasprintf (Some text))
    (fun r m' => got old old (map Some (text ++ [nul])) r.2 m').
Proof.
  intros m Hf Eb. unfold portable_vasprintf. apply runs_bind.
  eapply runs_mono; [exact (malloc_attempt _ _ m Hf Eb)|]. intros [p|] m1 H1; cbn [is_null] in H1.
  - destruct H1 as (q & [= ->] & Hq & Eb1 & Hf1). apply runs_bind.
    assert (blen (text ++ [nul]) = blen text + 1) as El by (rewrite blen_app; done).
    eapply runs_mono; [apply (fill_block old q (text ++ [nul])); [done|by rewrite El]|]. intros _ m2 [Hf2 Eb2].
    apply runs_ret. cbn [fst snd]. pose proof (blen_nonneg text). rewrite (proj2 (Z.ltb_ge _ _)) by lia. by exists q.
  - apply runs_ret. exact H1.
Qed.

(** A retried call and the rest of its function. *)
Lemma retry_then {A} h function size file line (null : A -> bool) call Good m (k : A -> M mem (option Z)) Q :
  polite h -> mem_fresh m -> attempt null (mm_blocks m) call Good ->
  (forall r m', null r = false -> Good r m' -> runs (k r) Q m') ->
  wp (let* r := retry null call (h function size file line) in k r) Q
    (fun _ m' => mm_blocks m' = mm_blocks m /\ false ∈ mm_allocs m) m.
Proof.
  intros Hh Hf Hc Hk. apply wp_bind. eapply wp_mono; [by apply retry_spec|intros r m' [Hn Hg]|done].
  eapply wp_mono; [by apply Hk|done|done].
Qed.

Lemma retry_got h function size file line call m rest d :
  polite h -> mem_fresh m -> attempt is_null (mm_blocks m) call (got (mm_blocks m) rest d) ->
  wp (retry is_null call (h function size file line)) (got (mm_blocks m) rest d)
    (fun _ m' => mm_blocks m' = mm_blocks m /\ false ∈ mm_allocs m) m.
Proof. intros Hh Hf Hc. eapply wp_mono; [by apply retry_spec|by intros r m' [_ Hg]|done]. Qed.

(** The string functions fill what [malloc] gave. *)
Lemma strings_filled old d r m' : got old old (unwritten (blen d)) r m' ->
  runs (let* q := from_option_fault r in do* mem_write q 0 d in ret r) (got old old (map Some d)) m'.
Proof.
  intros (p & -> & Hp & Eb & Hf). apply runs_bind, runs_ret. by apply wp_got_fill.
Qed.

Lemma strndup_filled old s length r m' : 0 <= length <= blen s -> got old old (unwritten (length + 1)) r m' ->
  runs (let* q := from_option_fault r in do* copy_string q s length in ret r) (got old old (map Some (ztake length s ++ [nul]))) m'.
Proof.
  intros Hl (p & -> & Hp & Eb & Hf). apply runs_bind, runs_ret.
  assert (blen (ztake length s ++ [nul]) = length + 1) as El.
  { rewrite blen_app, blen_ztake. change (blen [nul]) with 1. lia. }
  apply runs_bind. unfold runs at 1, wp. rewrite copy_string_once by (done || by rewrite Eb, lookup_insert_eq).
  rewrite <- El in Eb. pose proof (fill_block old p _ m' Hf Eb) as Hfill. unfold runs, wp in *.
  destruct (mem_write p 0 _ m'); [|done..]. destruct Hfill as [Hf' Eb']. by exists p.
Qed.

Lemma x_call_gives h file line r m rest d :
  polite h -> mem_fresh m -> asks r (mm_blocks m) = Some (rest, d) ->
  wp (x_call h file line r) (got (mm_blocks m) rest d) (fun _ m' => mm_blocks m' = mm_blocks m /\ false ∈ mm_allocs m) m.
Proof.
  intros Hh Hf Ha. destruct r as [size|n size|p size|p n size|s|s size|text|text]; cbn [asks x_call] in *.
  - injection Ha as <- <-. apply retry_got; [done..|].
    replace (Z.max 1 size) with (if 0 <? size then size else 1) by (destruct (Z.ltb_spec 0 size); lia). apply malloc_attempt.
  - unfold x_calloc. replace (if 0 <? n then n else 1) with (Z.max 1 n) by (destruct (Z.ltb_spec 0 n); lia).
    replace (if 0 <? size then size else 1) with (Z.max 1 size) by (destruct (Z.ltb_spec 0 size); lia).
    apply retry_got; [done..|]. intros m1 Hf1 Eb1. unfold sys_calloc.
    destruct (SIZE_MAX <? Z.max 1 n * Z.max 1 size); [done|]. injection Ha as <- <-. by apply malloc_attempt.
  - unfold x_realloc. destruct (Z.leb_spec size 0); [done|]. rewrite (proj2 (Z.eqb_neq size 0)) by lia.
    apply retry_got; [done..|]. by apply moved_attempt.
  - destruct ((n <=? 0) || (size <=? 0) || negb (array_fits n size)) eqn:E; [done|].
    rewrite !orb_false_iff, !Z.leb_gt, negb_false_iff in E. destruct E as [[Hn Hs] Hfit].
    unfold x_reallocarray. rewrite (proj2 (Z.eqb_neq n 0)), (proj2 (Z.eqb_neq size 0)) by lia. cbn [orb].
    rewrite reallocarray_fits by done. apply retry_got; [done..|]. apply moved_attempt; [nia|done].
  - injection Ha as <- <-. unfold x_strdup. assert (blen (s ++ [nul]) = blen s + 1) as El by (rewrite blen_app; done).
    eapply retry_then; [done..|apply malloc_attempt|]. intros q m' _ Hg. apply strings_filled. by rewrite El.
  - destruct (scan s size) as [length|] eqn:El; [|done]. cbn in Ha. injection Ha as <- <-.
    destruct (scan_strndup _ _ _ El) as [<- Hl]. unfold x_strndup_. rewrite El.
    apply wp_bind, wp_ret. eapply retry_then; [done..|apply malloc_attempt|]. intros q m' _ Hg. by apply strndup_filled.
  - injection Ha as <- <-. unfold x_vasprintf, x_printf. eapply retry_then; [done..|apply vasprintf_attempt|].
    intros q m' _ Hg. by apply runs_ret.
  - injection Ha as <- <-. unfold x_asprintf, x_printf. eapply retry_then; [done..|apply vasprintf_attempt|].
    intros q m' _ Hg. by apply runs_ret.
Qed.

(** C18: memory or no return.  Whatever allocations fail, and whatever the
    error handler does short of touching the heap, a call of xmalloc.c for
    something that exists and fits a [size_t] ends and stays within its
    blocks.  It returns only with a new block that holds exactly what was
    asked for, nothing else being changed but the block that [realloc]
    replaces; it does not return only if the handler exits, and the handler
    runs only if an allocation failed.  The default handler is one of these. *)
Theorem xmalloc_gives_or_exits h file line r m rest d :
  polite h -> mem_fresh m -> asks r (mm_blocks m) = Some (rest, d) ->
  polite xmalloc_fail /\
  wp (x_call h file line r)
    (fun p m' => exists q, p = Some q /\ mm_blocks m !! q = None /\ mm_blocks m' = <[q := d]> rest /\ mem_fresh m')
    (fun code m' => mm_blocks m' = mm_blocks m /\ false ∈ mm_allocs m) m.
Proof. intros Hh Hf Ha. split; [exact polite_fail|]. by apply x_call_gives. Qed.

(** A handler that only reports, and lets the call be made again. *)
Definition complain (function : string) (size : Z) (file : bytes) (line : Z) : M mem unit :=
  syswarn "cannot %s" [AStr (str function)].

Lemma xmalloc_gives_or_exits_witness :
  let m allocs := Mem {[5 := map Some (str "abc")]} 6 allocs 0 [] in
  (exists q m', x_call complain (str "file.c") 1 (RRealloc (Some 5) 5) (m [false; false; true]) = Ret (Some q) m' /\
     mm_blocks m' = {[q := map Some (str "abc") ++ [None; None]]}) /\
  (forall q m', x_call xmalloc_fail (str "file.c") 1 (RStrndup (str "remctl") 3) (m [false]) <> Ret q m').
Proof.
  intros m.
  assert (forall allocs, mem_fresh (m allocs)) as Hf.
  { intros allocs k Hk. cbn in *. apply lookup_singleton_ne. lia. }
  assert (polite complain) as Hc by (intros f n fl ln m0; done).
  split.
  - destruct (xmalloc_gives_or_exits complain (str "file.c") 1 (RRealloc (Some 5) 5) (m [false; false; true])
      ∅ (map Some (str "abc") ++ [None; None]) Hc (Hf _) ltac:(by vm_compute)) as [_ H].
    unfold wp in H.
    assert (match x_call complain (str "file.c") 1 (RRealloc (Some 5) 5) (m [false; false; true]) with
            | Ret _ _ => true | _ => false end = true) as Hret by (by vm_compute).
    destruct (x_call complain _ _ _ _) as [p m'| | |]; [|done..].
    destruct H as (q & -> & _ & Eb & _). exists q, m'. split; [done|]. rewrite Eb. done.
  - intros q m' E.
    destruct (xmalloc_gives_or_exits xmalloc_fail (str "file.c") 1 (RStrndup (str "remctl") 3) (m [false])
      {[5 := map Some (str "abc")]} (map Some (str "rem" ++ [nul])) polite_fail (Hf _) ltac:(by vm_compute)) as [_ H].
    assert (match x_call xmalloc_fail (str "file.c") 1 (RStrndup (str "remctl") 3) (m [false]) with
            | Exit c _ => c =? 1 | _ => false end = true) as Hex by (by vm_compute).
    by rewrite E in Hex.
Defined.
