(* ===== verification/Portable.v ===== *)
(** More replacements: [portable/setenv.c], [portable/mkstemp.c],
    [portable/daemon.c] and [portable/sd-daemon.c]. *)

From S2P Require Import Prelude Effects CLib Net Connect Vector Memory.

(** * setenv.c *)

(** The environment is the list of its strings; [putenv] keeps the string it
    is given, so the block of it stays allocated. *)
Record environ : Type := Environ {
  ev_mem : mem;
  ev_strings : list bytes;
}.

Definition put_ev_mem m e := Environ m (ev_strings e).

(** The value if the string sets [name]. *)
Fixpoint value_of (name string : bytes) : option bytes :=
  match name, string with
  | [], c :: string => if byte_eqb c "=" then Some string else None
  | d :: name, c :: string => if byte_eqb c d then value_of name string else None
  | _, [] => None
  end.

Definition getenv (name : bytes) (env : list bytes) : option bytes := head (omap (value_of name) env).

(** The part of a string before the first [=]. *)
Fixpoint name_of (string : bytes) : bytes :=
  match string with
  | [] => []
  | c :: string => if byte_eqb c "=" then [] else c :: name_of string
  end.

Definition putenv (string : bytes) (env : list bytes) : list bytes :=
  let name := name_of string in
  List.filter (fun s => bool_decide (value_of name s = None)) env ++ [string].

Definition portable_setenv (name value : bytes) (overwrite : bool) : M environ Z :=
  let* old := gets (fun e => getenv name (ev_strings e)) in
  if negb overwrite && bool_decide (is_Some old) then ret 0
  else
    let envstring := name ++ str "=" ++ value in
    let* r := zoom ev_mem put_ev_mem (portable_vasprintf (Some envstring)) in
    if r.1 <? 0 then ret (-1)
    else do* modify (fun e => Environ (ev_mem e) (putenv envstring (ev_strings e))) in ret 0.

(** * mkstemp.c *)

Definition EEXIST : Z := 17.
Definition EISDIR : Z := 21.
Definition TMP_MAX : Z := 238328.

Definition letters : bytes := str "ABCDEFGHIJKLMNOPQRSTUVWXYZabcdefghijklmnopqrstuvwxyz0123456789".

(** The time and the process, and the error of opening a file that does not
    exist, if there is one. *)
Class TempEnv : Type := {
  tv_sec : Z;
  tv_usec : Z;
  getpid : Z;
  open_error : bytes -> option Z;
}.

(** Files by name, the next descriptor, the string the template is in. *)
Record temp : Type := Temp {
  tm_files : list bytes;
  tm_fd : Z;
  tm_template : bytes;
  tm_errno : Z;
}.

Definition put_template t s := Temp (tm_files s) (tm_fd s) t (tm_errno s).
Definition put_terrno e s := Temp (tm_files s) (tm_fd s) (tm_template s) e.

Section mkstemp.
Context `{TempEnv}.

(** [open] with [O_CREAT | O_EXCL]. *)
Definition open_excl : M temp Z := fun s =>
  let name := tm_template s in
  if bool_decide (name ∈ tm_files s) then Ret (-1) (put_terrno EEXIST s)
  else match open_error name with
       | Some e => Ret (-1) (put_terrno e s)
       | None => Ret (tm_fd s) (Temp (name :: tm_files s) (tm_fd s + 1) name (tm_errno s))
       end.

(** The six letters of [working]. *)
Fixpoint temp_letters (i : nat) (working : Z) : bytes :=
  match i with
  | O => []
  | S i => nth (Z.to_nat (working mod 62)) letters nul :: temp_letters i (working / 62)
  end.

(** One try, with the number of tries so far. *)
Definition mkstemp_body (XXXXXX : Z) (st : Z * Z) : M temp (Z * Z + Z) :=
  let '(tries, randnum) := st in
  if tries <? TMP_MAX then
    do* modify (fun s => put_template (ztake XXXXXX (tm_template s) ++ temp_letters 6 randnum) s) in
    let* fd := open_excl in
    let* errno := gets tm_errno in
    if (0 <=? fd) || (negb (errno =? EEXIST) && negb (errno =? EISDIR)) then ret (inr fd)
    else ret (inl (tries + 1, u64 (randnum + Z.land (Z.shiftr tv_usec 10) 4095)))
  else do* modify (put_terrno EEXIST) in ret (inr (-1)).

Definition portable_mkstemp : M temp Z :=
  let* template := gets tm_template in
  let length := blen template in
  if length <? 6 then do* modify (put_terrno EINVAL) in ret (-1)
  else
    let XXXXXX := length - 6 in
    if negb (bytes_eqb (zdrop XXXXXX template) (str "XXXXXX")) then do* modify (put_terrno EINVAL) in ret (-1)
    else
      let randnum := u64 (Z.lxor (Z.lxor (Z.shiftl tv_usec 16) tv_sec) getpid) in
      loop (S (S (Z.to_nat TMP_MAX))) (mkstemp_body XXXXXX) (0, randnum).
End mkstemp.

(** * daemon.c *)

(** A process: its descriptors and what they are open on, its directory, and
    whether it leads a session.  Each system call takes the next answer, its
    errno or 0; beyond the script none fails. *)
Record proc : Type := Proc {
  pc_fds : gmap Z bytes;
  pc_cwd : bytes;
  pc_leader : bool;
  pc_answers : list Z;
  pc_errno : Z;
}.

Definition put_fds_of f p := Proc f (pc_cwd p) (pc_leader p) (pc_answers p) (pc_errno p).

(** Whether the next call succeeds. *)
Definition answer_call : M proc bool := fun p =>
  match pc_answers p with
  | [] => Ret true p
  | e :: rest => let p := Proc (pc_fds p) (pc_cwd p) (pc_leader p) rest (pc_errno p) in
                 if e =? 0 then Ret true p else Ret false (Proc (pc_fds p) (pc_cwd p) (pc_leader p) rest e)
  end.

Definition dev_null : bytes := str "/dev/null".

Definition proc_setsid : M proc Z :=
  let* ok := answer_call in
  if ok then do* modify (fun p => Proc (pc_fds p) (pc_cwd p) true (pc_answers p) (pc_errno p)) in ret 0 else ret (-1).

Definition proc_chdir (dir : bytes) : M proc Z :=
  let* ok := answer_call in
  if ok then do* modify (fun p => Proc (pc_fds p) dir (pc_leader p) (pc_answers p) (pc_errno p)) in ret 0 else ret (-1).

Definition proc_open (file : bytes) : M proc Z :=
  let* ok := answer_call in
  if ok then
    let* fd := gets (fun p => lowest_free (dom (pc_fds p))) in
    do* modify (fun p => put_fds_of (<[fd := file]> (pc_fds p)) p) in ret fd
  else ret (-1).

Definition proc_dup2 (fd target : Z) : M proc Z :=
  let* ok := answer_call in
  if ok then
    let* file := gets (fun p => pc_fds p !! fd) in
    match file with
    | None => ret (-1)
    | Some file => do* modify (fun p => put_fds_of (<[target := file]> (pc_fds p)) p) in ret target
    end
  else ret (-1).

(** [status] is what [fork] returns: negative, 0 in the child, or the child. *)
Definition portable_daemon (status : Z) (nochdir noclose : bool) : M proc Z :=
  if status <? 0 then ret (-1)
  else if 0 <? status then exit_with 0
  else
    let* r := proc_setsid in
    if r <? 0 then ret (-1)
    else
      let* r := (if negb nochdir then proc_chdir (str "/") else ret 0) in
      if r <? 0 then ret (-1)
      else if negb noclose then
        let* fd := proc_open dev_null in
        if fd <? 0 then ret (-1)
        else
          let* r0 := proc_dup2 fd 0 in
          if r0 <? 0 then ret (-1)
          else
            let* r1 := proc_dup2 fd 1 in
            if r1 <? 0 then ret (-1)
            else
              let* r2 := proc_dup2 fd 2 in
              if r2 <? 0 then ret (-1)
              else do* (if 2 <? fd then modify (fun p => put_fds_of (delete fd (pc_fds p)) p) else ret tt) in ret 0
      else ret 0.

(** * sd-daemon.c *)

Definition portable_sd_notify (unset_environment : Z) (state : bytes) : Z := 0.

(** * Theorems *)

Lemma value_of_name name string v : value_of name string = Some v -> ("="%byte ∉ name) -> name_of string = name.
Proof.
  revert string. induction name as [|d name IH]; intros [|c string]; cbn [value_of name_of]; try done.
  - by destruct (byte_eqb c "=").
  - intros E Hn. apply not_elem_of_cons in Hn as [Hd Hn]. destruct (byte_eqb c d) eqn:Ec; [|done].
    unfold byte_eqb in Ec. apply bool_decide_eq_true in Ec as ->. rewrite byte_eqb_neq by done. by rewrite (IH string).
Qed.

Lemma value_of_set name value : "="%byte ∉ name -> value_of name (name ++ str "=" ++ value) = Some value.
Proof.
  induction name as [|d name IH]; intros Hn; [done|]. apply not_elem_of_cons in Hn as [_ Hn].
  cbn [app value_of]. rewrite byte_eqb_refl. by apply IH.
Qed.

Lemma name_of_set name value : "="%byte ∉ name -> name_of (name ++ str "=" ++ value) = name.
Proof. intros Hn. apply (value_of_name _ _ value); [by apply value_of_set|done]. Qed.

(** Removing what sets [name] keeps every other variable. *)
Lemma omap_kept name other env : "="%byte ∉ name -> "="%byte ∉ other -> name <> other ->
  omap (value_of other) (List.filter (fun s => bool_decide (value_of name s = None)) env) = omap (value_of other) env.
Proof.
  intros Hn Ho Hne. induction env as [|s env IH]; [done|]. cbn [List.filter].
  case_bool_decide as E; cbn [omap list_omap]; [by rewrite IH|]. rewrite IH.
  destruct (value_of other s) as [v|] eqn:Eo; [|done]. destruct (value_of name s) as [w|] eqn:Es; [|done]. exfalso.
  apply Hne. by rewrite <- (value_of_name _ _ _ Es Hn), (value_of_name _ _ _ Eo Ho).
Qed.

Lemma omap_removed name env :
  omap (value_of name) (List.filter (fun s => bool_decide (value_of name s = None)) env) = [].
Proof.
  induction env as [|s env IH]; [done|]. cbn [List.filter]. case_bool_decide as E; [|done].
  cbn [omap list_omap]. by rewrite E.
Qed.

Lemma getenv_putenv name value env : "="%byte ∉ name ->
  let env' := putenv (name ++ str "=" ++ value) env in
  getenv name env' = Some value /\ forall other, "="%byte ∉ other -> other <> name -> getenv other env' = getenv other env.
Proof.
  intros Hn. unfold getenv, putenv. rewrite name_of_set by done. split.
  - rewrite omap_app, omap_removed. cbn [omap list_omap]. by rewrite value_of_set.
  - intros other Ho Hne. rewrite omap_app, omap_kept by done. cbn [omap list_omap].
    destruct (value_of other _) as [v|] eqn:E; [|by rewrite app_nil_r].
    exfalso. apply Hne. rewrite <- (value_of_name _ _ _ E Ho). by apply name_of_set.
Qed.

(** After [setenv] a variable has the value, or its old one if it may not be
    replaced; no other changes.  It fails only when memory runs out. *)
Lemma setenv_sets name value overwrite e : mem_fresh (ev_mem e) -> "="%byte ∉ name ->
  runs (portable_setenv name value overwrite) (fun r e' =>
    (forall other, "="%byte ∉ other -> other <> name -> getenv other (ev_strings e') = getenv other (ev_strings e)) /\
    (r = 0 /\ getenv name (ev_strings e') =
       Some (if overwrite then value else default value (getenv name (ev_strings e))) \/
     r = -1 /\ ev_strings e' = ev_strings e /\ false ∈ mm_allocs (ev_mem e))) e.
Proof.
  intros Hf Hn. unfold portable_setenv. apply runs_bind, runs_gets.
  destruct (negb overwrite && bool_decide (is_Some (getenv name (ev_strings e)))) eqn:Eo.
  { apply runs_ret. split; [done|]. left. split; [done|]. apply andb_true_iff in Eo as [Ho Hs].
    apply bool_decide_eq_true in Hs as [v ->]. by destruct overwrite. }
  apply runs_bind. unfold runs at 1, wp, zoom.
  pose proof (vasprintf_attempt (name ++ str "=" ++ value) (mm_blocks (ev_mem e)) (ev_mem e) Hf eq_refl) as Hv.
  unfold runs, wp in Hv. destruct (portable_vasprintf _ (ev_mem e)) as [r m'| | |]; try done.
  destruct (r.1 <? 0) eqn:Er; rewrite ?Er in *.
  - apply runs_ret. split; [done|]. right. destruct Hv as (_ & _ & ->). cbn. split; [done|]. split; [done|set_solver].
  - apply runs_bind, runs_modify, runs_ret. cbn [ev_strings put_ev_mem]. destruct (getenv_putenv name value (ev_strings e) Hn) as [H1 H2].
    split; [done|]. left. split; [done|]. rewrite H1. destruct overwrite; [done|]. cbn in Eo.
    by destruct (getenv name (ev_strings e)).
Qed.

Section mkstemp_spec.
Context `{TempEnv}.

Lemma temp_letters_ok i : forall working, Forall (fun c => c ∈ letters) (temp_letters i working) /\ length (temp_letters i working) = i.
Proof.
  induction i as [|i IH]; intros working; [done|]. cbn [temp_letters length]. destruct (IH (working / 62)) as [Hl Hn].
  split; [|by rewrite Hn]. constructor; [|done]. pose proof (Z.mod_pos_bound working 62 ltac:(lia)).
  apply list_elem_of_In, nth_In. change (length letters) with 62%nat. lia.
Qed.

(** The template of a call, filled in. *)
Definition filled_template (template name : bytes) : Prop :=
  exists suffix, name = ztake (blen template - 6) template ++ suffix /\ length suffix = 6%nat /\ Forall (fun c => c ∈ letters) suffix.

(** [mkstemp] ends, and what it opens is a new file under a name made from the
    template; if it fails it creates none, and a string that is no template
    stays as it is. *)
Lemma mkstemp_makes s : 0 <= tm_fd s ->
  runs portable_mkstemp (fun fd s' =>
    (fd = tm_fd s /\ tm_template s' ∉ tm_files s /\ tm_files s' = tm_template s' :: tm_files s /\
       filled_template (tm_template s) (tm_template s')) \/
    (fd = -1 /\ tm_files s' = tm_files s /\
       (tm_template s' = tm_template s \/ filled_template (tm_template s) (tm_template s')))) s.
Proof.
  intros Hfd. unfold portable_mkstemp. apply runs_bind, runs_gets.
  destruct (Z.ltb_spec (blen (tm_template s)) 6) as [|Hl].
  { apply runs_bind, runs_modify, runs_ret. right. split; [done|]. split; [done|by left]. }
  set (X := blen (tm_template s) - 6).
  destruct (bytes_eqb (zdrop X (tm_template s)) (str "XXXXXX")); cbn [negb].
  2: { apply runs_bind, runs_modify, runs_ret. right. split; [done|]. split; [done|by left]. }
  set (I := fun (_ : Z * Z) (s1 : temp) => tm_files s1 = tm_files s /\ tm_fd s1 = tm_fd s /\
    (tm_template s1 = tm_template s \/ filled_template (tm_template s) (tm_template s1))).
  assert (forall s1 n, (tm_template s1 = tm_template s \/ filled_template (tm_template s) (tm_template s1)) ->
    filled_template (tm_template s) (ztake X (tm_template s1) ++ temp_letters 6 n)) as Hfill.
  { intros s1 n Ht. exists (temp_letters 6 n). destruct (temp_letters_ok 6 n) as [Hf Hn]. split; [|done]. f_equal.
    destruct Ht as [-> | (suffix & -> & Hs & _)]; [done|]. fold X. rewrite ztake_app_l by (rewrite blen_ztake; lia).
    rewrite ztake_ztake. f_equal. lia. }
  apply (loop_wp (fun st s1 => I st s1 /\ 0 <= st.1 <= TMP_MAX) (fun st _ => S (Z.to_nat (TMP_MAX - st.1)))).
  - intros [tries randnum] [files fd1 template err] [[Ef [Ed Ht]] Htr]. cbn [fst tm_files tm_fd tm_template] in *. subst files fd1.
    unfold mkstemp_body.
    destruct (Z.ltb_spec tries TMP_MAX) as [Hlt|Hge].
    + apply wp_bind, wp_modify. apply wp_bind. unfold wp at 1, open_excl.
      set (name := tm_template (put_template _ _)). pose proof (Hfill (Temp (tm_files s) (tm_fd s) template err) randnum Ht) as Hname.
      cbn [tm_files tm_fd put_template].
      assert (forall e, wp (let* errno := gets tm_errno in
         if (0 <=? -1) || (negb (errno =? EEXIST) && negb (errno =? EISDIR)) then ret (inr (-1))
         else ret (inl (tries + 1, u64 (randnum + Z.land (Z.shiftr tv_usec 10) 4095))))
        (fun r s' => match r with
           | inl st => (I st s' /\ 0 <= st.1 <= TMP_MAX) /\ (S (Z.to_nat (TMP_MAX - st.1)) < S (Z.to_nat (TMP_MAX - tries)))%nat
           | inr fd => (fd = tm_fd s /\ tm_template s' ∉ tm_files s /\ tm_files s' = tm_template s' :: tm_files s /\
                filled_template (tm_template s) (tm_template s')) \/
              (fd = -1 /\ tm_files s' = tm_files s /\
                (tm_template s' = tm_template s \/ filled_template (tm_template s) (tm_template s')))
           end) (fun _ _ => False) (Temp (tm_files s) (tm_fd s) name e)) as Hfail.
      { intros e. apply wp_bind, wp_gets. destruct (_ || _); apply wp_ret.
        - right. split; [done|]. split; [done|by right].
        - cbn [fst]. split; [|lia]. split; [|lia]. split; [done|]. split; [done|by right]. }
      case_bool_decide as Hin; [exact (Hfail EEXIST)|]. destruct (open_error name) as [e|]; [exact (Hfail e)|].
      apply wp_bind, wp_gets. rewrite (proj2 (Z.leb_le 0 (tm_fd s))) by done. cbn [orb]. apply wp_ret. left. done.
    + apply wp_bind, wp_modify, wp_ret. right. done.
  - split; [split; [done|]; split; [done|by left]|]. cbn [fst]. unfold TMP_MAX. lia.
  - cbn [fst]. lia.
Qed.
End mkstemp_spec.

(** The increment between two tries leaves out the low bits of the time: in
    the first 1024 microseconds of a second every try uses the same name. *)
Example mkstemp_same_name :
  let _ := {| tv_sec := 1700000000; tv_usec := 1023; getpid := 4711; open_error _ := None |} in
  match mkstemp_body 4 (0, 99) (Temp [str "/tmpAAAAAA"; str "/tmplBAAAA"] 3 (str "/tmpXXXXXX") 0) with
  | Ret (inl (tries, randnum)) _ => (tries, randnum) = (1, 99)
  | _ => False
  end.
Proof. by vm_compute. Qed.

(** ** daemon *)

Lemma dup2_ok fd t file fds cwd leader errno : fds !! fd = Some file ->
  proc_dup2 fd t (Proc fds cwd leader [] errno) = Ret t (Proc (<[t := file]> fds) cwd leader [] errno).
Proof. intros E. unfold proc_dup2, bind, gets. cbn. by rewrite E. Qed.

(** The descriptors once [fd] has been copied. *)
Lemma null_descriptors fd (fds : gmap Z bytes) d : 0 <= fd -> fds !! fd = None -> (forall f, 0 <= f < fd -> is_Some (fds !! f)) ->
  let out := <[2 := d]> (<[1 := d]> (<[0 := d]> (<[fd := d]> fds))) in
  (if 2 <? fd then delete fd out else out) = <[2 := d]> (<[1 := d]> (<[0 := d]> fds)).
Proof.
  intros H0 Hn Hl out. apply map_eq. intros k. unfold out. destruct (Z.ltb_spec 2 fd).
  - rewrite !delete_insert_ne, delete_insert_id by (done || lia). done.
  - destruct (decide (k = fd)) as [->|Hk].
    + assert (fd = 0 \/ fd = 1 \/ fd = 2) as [->|[->| ->]] by lia; by simplify_map_eq.
    + destruct (decide (k = 2)) as [->|]; [by rewrite !lookup_insert_eq|]. rewrite !(lookup_insert_ne _ 2) by done.
      destruct (decide (k = 1)) as [->|]; [by rewrite !lookup_insert_eq|]. rewrite !(lookup_insert_ne _ 1) by done.
      destruct (decide (k = 0)) as [->|]; [by rewrite !lookup_insert_eq|]. rewrite !(lookup_insert_ne _ 0) by done.
      by rewrite lookup_insert_ne.
Qed.

(** In the child, when the calls succeed, [daemon] ends with the process in a
    session of its own, in the root directory and with the three standard
    descriptors on /dev/null; every other descriptor is as before, and none is
    left over. *)
Lemma daemon_detaches p nochdir noclose : pc_answers p = [] ->
  exists p', portable_daemon 0 nochdir noclose p = Ret 0 p' /\ pc_leader p' = true /\
    pc_cwd p' = (if nochdir then pc_cwd p else str "/") /\
    pc_fds p' = (if noclose then pc_fds p else <[2 := dev_null]> (<[1 := dev_null]> (<[0 := dev_null]> (pc_fds p)))).
Proof.
  destruct p as [fds cwd leader answers errno]. cbn [pc_answers]. intros ->. cbn [pc_fds pc_cwd].
  assert (exists cwd', cwd' = (if nochdir then cwd else str "/") /\
    (if negb nochdir then proc_chdir (str "/") else ret 0) (Proc fds cwd true [] errno) = Ret 0 (Proc fds cwd' true [] errno))
    as (cwd' & <- & Ecwd) by (eexists; split; [done|by destruct nochdir]).
  unfold portable_daemon. change (0 <? 0) with false. cbv iota.
  rewrite (bind_Ret proc_setsid _ _ 0 (Proc fds cwd true [] errno)) by done. change (0 <? 0) with false. cbv iota.
  rewrite (bind_Ret _ _ _ _ _ Ecwd). change (0 <? 0) with false. cbv iota.
  destruct noclose; [by eexists|]. cbn [negb].
  assert (0 <= lowest_free (dom fds)) as Hfd.
  { unfold lowest_free. destruct (list_find _ _) as [[i fd]|] eqn:E; [|done].
    apply list_find_Some in E as (Hi & _). apply lookup_seqZ in Hi. cbn. lia. }
  destruct (lowest_free_spec (dom fds)) as [Hnot Hlow].
  rewrite (bind_Ret (proc_open dev_null) _ _ (lowest_free (dom fds)) (Proc (<[lowest_free (dom fds) := dev_null]> fds) cwd' true [] errno)) by done.
  set (fd := lowest_free (dom fds)) in *. apply not_elem_of_dom in Hnot.
  rewrite (proj2 (Z.ltb_ge fd 0)) by done.
  rewrite (bind_Ret _ _ _ _ _ (dup2_ok fd 0 dev_null _ _ _ _ (lookup_insert_eq _ _ _))). change (0 <? 0) with false. cbv iota.
  assert (forall t m, (m : gmap Z bytes) !! fd = Some dev_null -> <[t := dev_null]> m !! fd = Some dev_null) as Hkeep.
  { intros t m Hm. destruct (decide (t = fd)) as [->|]; [apply lookup_insert_eq|by rewrite lookup_insert_ne]. }
  rewrite (bind_Ret _ _ _ _ _ (dup2_ok fd 1 dev_null _ _ _ _ (Hkeep 0 _ (lookup_insert_eq _ _ _)))). change (1 <? 0) with false. cbv iota.
  rewrite (bind_Ret _ _ _ _ _ (dup2_ok fd 2 dev_null _ _ _ _ (Hkeep 1 _ (Hkeep 0 _ (lookup_insert_eq _ _ _))))). change (2 <? 0) with false. cbv iota.
  rewrite <- (null_descriptors fd fds dev_null) by (done || (intros f Hf; apply elem_of_dom; by apply Hlow)).
  destruct (2 <? fd); by eexists.
Qed.
