(* ===== verification/Client.v ===== *)
(** The client library's connection object: [client/internal.h],
    [client/error.c], and the two protocol clients [client/client-v2.c] and
    [client/client-v1.c].

    [remctl] is [struct remctl]; [cl] adds what the object refers to: the
    channel of its connection and the descriptors the process holds open.
    Reading or writing a descriptor that is not open is a [Fault].  A returned
    [struct remctl_output *] is a copy of the struct. *)

From S2P Require Import Prelude Effects Net Tokens Command.

(** * Data *)

Inductive remctl_output_type : Type :=
  REMCTL_OUT_OUTPUT | REMCTL_OUT_STATUS | REMCTL_OUT_ERROR | REMCTL_OUT_DONE.

#[export] Instance remctl_output_type_eq_dec : EqDecision remctl_output_type.
Proof. solve_decision. Defined.

Record remctl_output : Type := Output {
  o_type : remctl_output_type;
  o_data : bytes;
  o_stream : Z;
  o_status : Z;
  o_error : Z;
}.

Definition output_type t o := Output t (o_data o) (o_stream o) (o_status o) (o_error o).
Definition output_data d o := Output (o_type o) d (o_stream o) (o_status o) (o_error o).
Definition output_stream s o := Output (o_type o) (o_data o) s (o_status o) (o_error o).
Definition output_status s o := Output (o_type o) (o_data o) (o_stream o) s (o_error o).
Definition output_error e o := Output (o_type o) (o_data o) (o_stream o) (o_status o) e.

(** An error message before [printf] renders it. *)
Abbreviation errmsg := (string * list larg)%type.

Record remctl : Type := Remctl {
  r_host : option bytes;
  r_port : Z;
  r_principal : option bytes;
  r_protocol : Z;
  r_source : option bytes;
  r_timeout : Z;
  r_ccache : option bytes;
  r_fd : option Z;                    (* None is INVALID_SOCKET *)
  r_context : bool;                   (* not GSS_C_NO_CONTEXT *)
  r_error : option errmsg;
  r_output : option remctl_output;
  r_status : Z;
  r_ready : bool;
}.

Definition set_peer h p n r := Remctl h p n (r_protocol r) (r_source r) (r_timeout r)
  (r_ccache r) (r_fd r) (r_context r) (r_error r) (r_output r) (r_status r) (r_ready r).
Definition set_protocol p r := Remctl (r_host r) (r_port r) (r_principal r) p (r_source r)
  (r_timeout r) (r_ccache r) (r_fd r) (r_context r) (r_error r) (r_output r) (r_status r) (r_ready r).
Definition set_source s r := Remctl (r_host r) (r_port r) (r_principal r) (r_protocol r) s
  (r_timeout r) (r_ccache r) (r_fd r) (r_context r) (r_error r) (r_output r) (r_status r) (r_ready r).
Definition set_timeout t r := Remctl (r_host r) (r_port r) (r_principal r) (r_protocol r) (r_source r)
  t (r_ccache r) (r_fd r) (r_context r) (r_error r) (r_output r) (r_status r) (r_ready r).
Definition set_ccache c r := Remctl (r_host r) (r_port r) (r_principal r) (r_protocol r) (r_source r)
  (r_timeout r) c (r_fd r) (r_context r) (r_error r) (r_output r) (r_status r) (r_ready r).
Definition set_fd f r := Remctl (r_host r) (r_port r) (r_principal r) (r_protocol r) (r_source r)
  (r_timeout r) (r_ccache r) f (r_context r) (r_error r) (r_output r) (r_status r) (r_ready r).
Definition set_context c r := Remctl (r_host r) (r_port r) (r_principal r) (r_protocol r) (r_source r)
  (r_timeout r) (r_ccache r) (r_fd r) c (r_error r) (r_output r) (r_status r) (r_ready r).
Definition set_error e r := Remctl (r_host r) (r_port r) (r_principal r) (r_protocol r) (r_source r)
  (r_timeout r) (r_ccache r) (r_fd r) (r_context r) e (r_output r) (r_status r) (r_ready r).
Definition set_output o r := Remctl (r_host r) (r_port r) (r_principal r) (r_protocol r) (r_source r)
  (r_timeout r) (r_ccache r) (r_fd r) (r_context r) (r_error r) o (r_status r) (r_ready r).
Definition set_status s r := Remctl (r_host r) (r_port r) (r_principal r) (r_protocol r) (r_source r)
  (r_timeout r) (r_ccache r) (r_fd r) (r_context r) (r_error r) (r_output r) s (r_ready r).
Definition set_ready b r := Remctl (r_host r) (r_port r) (r_principal r) (r_protocol r) (r_source r)
  (r_timeout r) (r_ccache r) (r_fd r) (r_context r) (r_error r) (r_output r) (r_status r) b.

Record cl (C : Type) : Type := Cl {
  cl_r : remctl;
  cl_chan : chan C;
  cl_fds : gset Z;
}.
Arguments Cl {C}.
Arguments cl_r {C}.
Arguments cl_chan {C}.
Arguments cl_fds {C}.

Section client.
Context {C : Type} `{GssMech C}.

Definition field {A} (f : remctl -> A) : M (cl C) A := gets (fun w => f (cl_r w)).
Definition update (f : remctl -> remctl) : M (cl C) unit :=
  modify (fun w => Cl (f (cl_r w)) (cl_chan w) (cl_fds w)).

(** An operation on the connection [r->fd], which has to be open. *)
Definition on_fd {A} (m : Z -> M (chan C) A) : M (cl C) A := fun w =>
  match r_fd (cl_r w) with
  | Some fd =>
      if bool_decide (fd ∈ cl_fds w)
      then zoom cl_chan (fun ch w => Cl (cl_r w) ch (cl_fds w)) (m fd) w
      else Fault
  | None => Fault
  end.

(** [socket_close(r->fd)]. *)
Definition socket_close : M (cl C) unit :=
  modify (fun w => Cl (cl_r w) (cl_chan w)
    match r_fd (cl_r w) with Some fd => cl_fds w ∖ {[fd]} | None => cl_fds w end).

(** A byte of a token as a [char]. *)
Definition char_at (i : nat) (l : bytes) : M (cl C) Z := from_option_fault (bs <$> l !! i).

(** ** client/error.c *)

Definition internal_set_error (fmt : string) (args : list larg) : M (cl C) unit :=
  update (set_error (Some (fmt, args))).

Definition internal_gssapi_error (what : string) : M (cl C) unit :=
  update (set_error (Some ("GSS-API error %s"%string, [AStr (str what)]))).

Definition internal_token_error (what : string) (status : token_status) : M (cl C) unit :=
  let* errno := gets (fun w => n_errno (ch_net (cl_chan w))) in
  let w := AStr (str what) in
  match status with
  | TOKEN_OK => internal_set_error "error %s" [w]
  | TOKEN_FAIL_SYSTEM => internal_set_error "error %s: %s" [w; AErr errno]
  | TOKEN_FAIL_SOCKET => internal_set_error "error %s: %s" [w; AErr errno]
  | TOKEN_FAIL_INVALID => internal_set_error "error %s: invalid token format" [w]
  | TOKEN_FAIL_LARGE => internal_set_error "error %s: token too larger" [w]
  | TOKEN_FAIL_EOF => internal_set_error "error %s: unexpected end of file" [w]
  | TOKEN_FAIL_GSSAPI => internal_gssapi_error what
  | TOKEN_FAIL_TIMEOUT => internal_set_error "error %s: timed out" [w]
  end.

(** ** client/client-v2.c *)

Definition send_priv (flags : Z) (tok : bytes) : M (cl C) token_status :=
  let* timeout := field r_timeout in
  on_fd (fun fd => token_send_priv fd flags tok timeout).

(** The inner loop of [internal_v2_commandv] on the arguments from [iov] on:
    [acc] is what has been written through [p].  [None] is an argument too
    long for its length field. *)
Fixpoint fill_token (args : list bytes) (offset room sent : Z) (acc : bytes)
    : option (list bytes * Z * Z * Z * bytes) :=
  match args with
  | [] => Some ([], offset, room, sent, acc)
  | a :: rest =>
      let copy (room sent : Z) (acc : bytes) :=
        let delta := if u64 (blen a - offset) <=? room then u64 (blen a - offset) else room in
        let acc := acc ++ ztake delta (zdrop offset a) in
        let sent := sent + delta in
        let offset := offset + delta in
        let room := room - delta in
        if offset <? blen a then Some (a :: rest, offset, room, sent, acc)
        else fill_token rest 0 room sent acc in
      if offset =? 0 then
        if (room <? 4) || ((room <? 5) && (0 <? blen a)) then
          Some (a :: rest, offset, room, sent, acc)
        else if UINT32_MAX <? blen a then None
        else copy (room - 4) (sent + 4) (acc ++ be32 (blen a))
      else copy room sent acc
  end.

Definition v2_commandv_body (length count : Z) (st : list bytes * Z * Z)
    : M (cl C) (list bytes * Z * Z + bool) :=
  let '(args, offset, sent) := st in
  if sent <? length then
    let token_length :=
      if TOKEN_MAX_DATA - 4 <? length - sent then TOKEN_MAX_DATA else length - sent + 4 in
    let room := token_length - 4 in
    let continue_status :=
      if token_length =? length - sent + 4 then (if sent =? 0 then 0 else 3)
      else (if sent =? 0 then 1 else 2) in
    let header := [bz 2; bz MESSAGE_COMMAND; bz 1; bz continue_status] in
    let '(acc, sent, room) :=
      if sent =? 0 then (header ++ be32 count, sent + 4, room - 4) else (header, sent, room) in
    match fill_token args offset room sent acc with
    | None =>
        do* internal_set_error "command component too long" [] in ret (inr false)
    | Some (args, offset, room, sent, acc) =>
        let* status := send_priv v2_flags acc in
        if negb (status_ok status) then
          do* internal_token_error "sending token" status in ret (inr false)
        else ret (inl (args, offset, sent))
    end
  else do* update (set_ready true) in ret (inr true).

Definition command_length (command : list bytes) : Z :=
  fold_left (fun l a => u64 (l + (4 + blen a))) command 4.

Definition internal_v2_commandv (command : list bytes) : M (cl C) bool :=
  let count := blen command in
  if UINT32_MAX <? count then
    do* internal_set_error "too many arguments to command" [] in ret false
  else
    let length := command_length command in
    loop (Datatypes.S (Z.to_nat length)) (v2_commandv_body length count) (command, 0, 0).

Definition internal_v2_quit : M (cl C) bool :=
  let* status := send_priv v2_flags [bz 2; bz MESSAGE_QUIT] in
  if negb (status_ok status) then
    do* internal_token_error "sending QUIT token" status in ret false
  else ret true.

Definition recv_priv : M (cl C) (token_status * Z * bytes) :=
  let* timeout := field r_timeout in
  on_fd (fun fd => token_recv_priv fd TOKEN_MAX_LENGTH timeout).

(** [gss_delete_sec_context] on the object's context. *)
Definition drop_context : M (cl C) unit := update (set_context false).

Definition internal_v2_read_token : M (cl C) (option bytes) :=
  let* (status, flags, token) := recv_priv in
  if negb (status_ok status) then
    do* internal_token_error "receiving token" status in
    do* (if bool_decide (status = TOKEN_FAIL_EOF \/ status = TOKEN_FAIL_TIMEOUT) then
           do* drop_context in do* socket_close in update (set_fd None)
         else ret tt) in
    ret None
  else if negb (flags =? v2_flags) then
    do* internal_set_error "unexpected token from server" [] in ret None
  else if blen token <? 2 then
    do* internal_set_error "malformed result token from server" [] in ret None
  else
    let* p0 := char_at 0 token in
    if negb (p0 =? 2) && negb (p0 =? 3) then
      do* internal_set_error "unexpected protocol %d from server" [AInt p0] in ret None
    else ret (Some token).

Definition on_output (f : remctl_output -> remctl_output) : M (cl C) unit :=
  update (fun r => set_output (f <$> r_output r) r).

Definition internal_v2_read_string (token : bytes) (offset : Z) : M (cl C) bool :=
  let* data := from_option_fault (zsub offset 4 token) in
  let size := of_be32 data in
  if negb (size =? u64 (blen token - (offset + 4))) then
    do* internal_set_error "malformed result token from server" [] in ret false
  else
    let* d := from_option_fault (zsub (offset + 4) size token) in
    do* on_output (output_data d) in
    ret true.

(** ** [internal_output_wipe], client/api.c *)

Definition wiped : remctl_output := Output REMCTL_OUT_DONE [] 0 0 0.

Definition internal_output_wipe (o : remctl_output) : remctl_output := wiped.

Definition v2_malformed : M (cl C) (option remctl_output) :=
  do* internal_set_error "malformed result token from server" [] in ret None.

(** What [internal_v2_output] does with a token it has read. *)
Definition v2_output_token (token : bytes) : M (cl C) (option remctl_output) :=
  let* type := char_at 1 token in
  if type =? MESSAGE_OUTPUT then
    if blen token <? 2 + 5 then v2_malformed
    else
      do* on_output (output_type REMCTL_OUT_OUTPUT) in
      let* p2 := char_at 2 token in
      if negb (p2 =? 1) && negb (p2 =? 2) then
        let* p0 := char_at 0 token in
        do* internal_set_error "unexpected stream %d from server" [AInt p0] in ret None
      else
        do* on_output (output_stream p2) in
        let* ok := internal_v2_read_string token 3 in
        if negb ok then ret None else field r_output
  else if type =? MESSAGE_STATUS then
    if negb (blen token =? 2 + 1) then v2_malformed
    else
      do* on_output (output_type REMCTL_OUT_STATUS) in
      let* p2 := char_at 2 token in
      do* on_output (output_status p2) in
      do* update (set_ready false) in
      field r_output
  else if type =? MESSAGE_ERROR then
    if blen token <? 2 + 8 then v2_malformed
    else
      do* on_output (output_type REMCTL_OUT_ERROR) in
      let* data := from_option_fault (zsub 2 4 token) in
      do* on_output (output_error (s32 (of_be32 data))) in
      let* ok := internal_v2_read_string token 6 in
      if negb ok then ret None
      else do* update (set_ready false) in field r_output
  else
    do* internal_set_error "unknown message type %d from server" [AInt type] in ret None.

Definition internal_v2_output : M (cl C) (option remctl_output) :=
  do* update (fun r => set_output (Some wiped) r) in
  let* ready := field r_ready in
  if negb ready then field r_output
  else
    let* token := internal_v2_read_token in
    match token with
    | None => ret None
    | Some token => v2_output_token token
    end.

Definition internal_noop : M (cl C) bool :=
  let* status := send_priv v2_flags [bz 3; bz MESSAGE_NOOP] in
  if negb (status_ok status) then
    do* internal_token_error "sending NOOP token" status in ret false
  else
    let* token := internal_v2_read_token in
    match token with
    | None => ret false
    | Some token =>
        let* p1 := char_at 1 token in
        if negb (p1 =? MESSAGE_NOOP) then
          do* internal_set_error "unexpected message type %d from server" [AInt p1] in ret false
        else ret true
    end.

(** ** client/client-v1.c *)

Definition v1_flags : Z := Z.lor TOKEN_DATA TOKEN_SEND_MIC.

(** The sizing loop: the token's length, or [None] when it would pass
    [SIZE_MAX]. *)
Fixpoint v1_length (command : list bytes) (length : Z) : option Z :=
  match command with
  | [] => Some length
  | a :: rest =>
      if u64 (SIZE_MAX - 4 - blen a) <=? length then None
      else v1_length rest (length + (4 + blen a))
  end.

(** The copying loop. *)
Fixpoint v1_fill (command : list bytes) (acc : bytes) : option bytes :=
  match command with
  | [] => Some acc
  | a :: rest =>
      if UINT32_MAX <? blen a then None
      else v1_fill rest (acc ++ be32 (blen a) ++ a)
  end.

Definition internal_v1_commandv (command : list bytes) : M (cl C) bool :=
  let count := blen command in
  if UINT32_MAX <? count then
    do* internal_set_error "too many arguments to command" [] in ret false
  else
    match v1_length command 4 with
    | None => do* internal_set_error "memory allocation too large" [] in ret false
    | Some _ =>
        match v1_fill command (be32 count) with
        | None => do* internal_set_error "command component too long" [] in ret false
        | Some token =>
            let* status := send_priv v1_flags token in
            if negb (status_ok status) then
              do* internal_token_error "sending token" status in ret false
            else do* update (set_ready true) in ret true
        end
    end.

(** The end of the connection in protocol one. *)
Definition v1_hangup : M (cl C) unit :=
  do* drop_context in
  do* socket_close in
  update (fun r => set_ready false (set_fd None r)).

Definition v1_output_token (token : bytes) : M (cl C) (option remctl_output) :=
  if blen token <? 8 then v2_malformed
  else
    let* data := from_option_fault (zsub 0 4 token) in
    do* update (set_status (s32 (of_be32 data))) in
    let* data := from_option_fault (zsub 4 4 token) in
    let length := of_be32 data in
    if negb (length =? u64 (blen token - 8)) then v2_malformed
    else
      let* d := from_option_fault (zsub 8 length token) in
      (* malloc: the fields not written stay indeterminate, here 0. *)
      do* update (set_output (Some (Output REMCTL_OUT_OUTPUT d 1 0 0))) in
      do* v1_hangup in
      field r_output.

(** Reading the result, on the first call. *)
Definition v1_receive : M (cl C) (option remctl_output) :=
  let* (status, flags, token) := recv_priv in
  if negb (status_ok status) then
    do* internal_token_error "receiving token" status in
    do* (if bool_decide (status = TOKEN_FAIL_EOF \/ status = TOKEN_FAIL_TIMEOUT)
         then v1_hangup else ret tt) in
    ret None
  else if negb (flags =? TOKEN_DATA) then
    do* internal_set_error "unexpected token from server" [] in ret None
  else v1_output_token token.

Definition internal_v1_output : M (cl C) (option remctl_output) :=
  let* output := field r_output in
  let* ready := field r_ready in
  let* status := field r_status in
  match output, ready with
  | Some o, false =>
      do* on_output (fun o =>
        output_status status
          (if bool_decide (o_type o = REMCTL_OUT_STATUS) then output_type REMCTL_OUT_DONE o
           else output_type REMCTL_OUT_STATUS (internal_output_wipe o))) in
      field r_output
  | _, _ => v1_receive
  end.
End client.

#[global] Arguments fill_token : simpl never.
