(* ===== verification/Open.v ===== *)
(** Opening a connection: [client/open.c].

    [api] is the state of a program that uses the client library on one
    object: the object and its connection ([cl]), what the kernel will answer
    to further connection attempts, and the Kerberos fields of
    [struct remctl].  GSS-API and Kerberos are the class [GssClient]. *)

From S2P Require Import Prelude Effects CLib Net Tokens Connect Command Client.

(** * GSS-API, client side *)

Definition wanted_gss_flags : Z :=
  Z.lor GSS_C_MUTUAL_FLAG (Z.lor GSS_C_CONF_FLAG (Z.lor GSS_C_INTEG_FLAG
    (Z.lor GSS_C_REPLAY_FLAG GSS_C_SEQUENCE_FLAG))).

(** The type of a name given to [gss_import_name]. *)
Inductive name_type : Type := GSS_C_NT_USER_NAME | GSS_C_NT_HOSTBASED_SERVICE.

(** What one call of [gss_init_sec_context] gives. *)
Record init_step (C : Type) : Type := InitStep {
  gi_major : Z;
  gi_token : bytes;
  gi_flags : Z;
  gi_ctx : C;
}.
Arguments InitStep {C}.
Arguments gi_major {C}.
Arguments gi_token {C}.
Arguments gi_flags {C}.
Arguments gi_ctx {C}.

Class GssClient (C : Type) : Type := {
  gss_name : Type;
  gss_cred : Type;
  krb5_ccache : Type;
  GSS_C_NO_CONTEXT : C;
  gss_import_name : bytes -> name_type -> Z * gss_name;
  gss_init_sec_context : option gss_cred -> gss_name -> C -> Z -> option bytes -> init_step C;
  krb5_init_context : Z;
  krb5_cc_resolve : bytes -> Z * krb5_ccache;
  gss_krb5_import_cred : krb5_ccache -> Z * gss_cred;
}.

(** * State *)

Record api (C : Type) `{GssClient C} : Type := Api {
  ap_cl : cl C;
  ap_next : list (attempt C);
  ap_errno : Z;
  ap_lookups : list (bytes * bytes);
  ap_krb_ctx : bool;                    (* r->krb_ctx != NULL *)
  ap_krb_ccache : option krb5_ccache;
}.
Arguments Api {C _}.
Arguments ap_cl {C _}.
Arguments ap_next {C _}.
Arguments ap_errno {C _}.
Arguments ap_lookups {C _}.
Arguments ap_krb_ctx {C _}.
Arguments ap_krb_ccache {C _}.

Section open.
Context {C : Type} `{GssMech C} `{GssClient C} `{Inet}.
Implicit Types w : api C.

Definition put_cl c w : api C := Api c (ap_next w) (ap_errno w) (ap_lookups w) (ap_krb_ctx w) (ap_krb_ccache w).
Definition put_krb ctx cc w : api C := Api (ap_cl w) (ap_next w) (ap_errno w) (ap_lookups w) ctx cc.

Definition on_cl {A} (m : M (cl C) A) : M (api C) A := zoom ap_cl put_cl m.

(** The kernel between operations: no socket is half made. *)
Definition get_kern w : kern C := Kern (ap_next w) ∅ (cl_fds (ap_cl w)) (ap_errno w) (ap_lookups w) [].
Definition put_kern k w : api C :=
  Api (Cl (cl_r (ap_cl w)) (cl_chan (ap_cl w)) (kn_fds k)) (kn_next k) (kn_errno k) (kn_lookups k)
      (ap_krb_ctx w) (ap_krb_ccache w).
Definition on_kern {A} (m : M (kern C) A) : M (api C) A := zoom get_kern put_kern m.

(** A descriptor comes with the connection it refers to. *)
Definition sockfd : Type := Z * chan C.
Definition with_chan (m : M (kern C) (option Z)) : M (kern C) (option sockfd) :=
  let* fd := m in
  match fd with
  | None => ret None
  | Some fd => let* a := sock fd in ret (Some (fd, at_chan a))
  end.

(** [r->fd = fd]. *)
Definition assign_fd (s : sockfd) : M (api C) unit :=
  on_cl (modify (fun c => Cl (set_fd (Some s.1) (cl_r c)) s.2 (cl_fds c))).

(** * client/open.c *)

Definition internal_connect (host : bytes) (port : Z) : M (api C) (option sockfd) :=
  let* ai := on_kern (lookup_host host port) in
  match ai with
  | inl status =>
      do* on_cl (internal_set_error "unknown host %s: %s" [AStr host; AGai status]) in
      ret None
  | inr ai =>
      let* source := on_cl (field r_source) in
      let* timeout := on_cl (field r_timeout) in
      let* fd := on_kern (with_chan (network_connect ai source timeout)) in
      match fd with
      | None =>
          let* errno := gets ap_errno in
          do* on_cl (internal_set_error "cannot connect to %s (port %hu): %s"
                       [AStr host; AInt port; AErr errno]) in
          ret None
      | Some s => ret (Some s)
      end
  end.

(** A [NULL] host without a principal is printed through [%s]. *)
Definition internal_import_name (host principal : option bytes) : M (api C) (option gss_name) :=
  let* (value, oid) :=
    match principal with
    | Some p => ret (p, GSS_C_NT_USER_NAME)
    | None => let* h := from_option_fault host in ret (str "host@" ++ h, GSS_C_NT_HOSTBASED_SERVICE)
    end in
  let '(major, name) := gss_import_name (value ++ [nul]) oid in
  if negb (major =? GSS_S_COMPLETE) then
    do* on_cl (internal_gssapi_error "parsing name") in ret None
  else ret (Some name).

(** The second of the two messages when there is no Kerberos context. *)
Definition internal_krb5_error (what : string) (code : Z) : M (api C) unit :=
  let* ctx := gets ap_krb_ctx in
  do* (if negb ctx then
         on_cl (internal_set_error "error %s: cannot create Kerberos context" [AStr (str what)])
       else ret tt) in
  on_cl (internal_set_error "error %s: %s" [AStr (str what); AInt code]).

Definition internal_set_cred (ccache : bytes) : M (api C) (option gss_cred) :=
  let* ctx := gets ap_krb_ctx in
  let* ok :=
    if ctx then ret true
    else if negb (krb5_init_context =? 0) then
      do* internal_krb5_error "opening ticket cache" krb5_init_context in ret false
    else do* modify (fun w => put_krb true (ap_krb_ccache w) w) in ret true in
  if negb ok then ret None
  else
    let '(code, cc) := krb5_cc_resolve ccache in
    if negb (code =? 0) then
      do* modify (put_krb true None) in
      do* internal_krb5_error "opening ticket cache" code in ret None
    else
      do* modify (put_krb true (Some cc)) in
      let '(major, cred) := gss_krb5_import_cred cc in
      if negb (major =? GSS_S_COMPLETE) then
        do* on_cl (internal_gssapi_error "importing ticket cache") in ret None
      else ret (Some cred).

(** The [fail] label of [internal_open]. *)
Definition open_fail : M (api C) bool :=
  do* on_cl socket_close in
  do* on_cl (update (set_fd None)) in
  ret false.

Definition open_send (flags : Z) (tok : bytes) : M (api C) token_status :=
  on_cl (let* timeout := field r_timeout in on_fd (fun fd => on_net (token_send fd flags tok timeout))).
Definition open_recv : M (api C) (token_status * Z * bytes) :=
  on_cl (let* timeout := field r_timeout in on_fd (fun fd => on_net (token_recv fd TOKEN_MAX_LENGTH timeout))).

(** One pass of the context-establishment loop on [token_ptr] and
    [gss_context]; [inr None] is [goto fail]. *)
Definition context_body (cred : option gss_cred) (name : gss_name) (st : option bytes * C)
    : M (api C) (option bytes * C + option (C * Z)) :=
  let step := gss_init_sec_context cred name st.2 wanted_gss_flags st.1 in
  let major := gi_major step in
  let* protocol := on_cl (field r_protocol) in
  let* status :=
    if blen (gi_token step) =? 0 then ret TOKEN_OK
    else open_send (context_flags protocol) (gi_token step) in
  if negb (status_ok status) then
    do* on_cl (internal_token_error "sending token" status) in ret (inr None)
  else if negb (major =? GSS_S_COMPLETE) && negb (major =? GSS_S_CONTINUE_NEEDED) then
    do* on_cl (internal_gssapi_error "initializing context") in ret (inr None)
  else if major =? GSS_S_CONTINUE_NEEDED then
    let* (status, flags, tok) := open_recv in
    if negb (status_ok status) then
      do* on_cl (internal_token_error "receiving token" status) in ret (inr None)
    else
      do* (if (1 <? protocol) && negb (Z.land flags TOKEN_PROTOCOL =? TOKEN_PROTOCOL)
           then on_cl (update (set_protocol 1)) else ret tt) in
      ret (inl (Some tok, gi_ctx step))
  else ret (inr (Some (gi_ctx step, gi_flags step))).

(** Every pass that continues has read a token. *)
Definition open_fuel w : nat := Datatypes.S (length (rd_bytes (k_read (ch_net (cl_chan (ap_cl w)))))).

Definition initial_flags : Z := Z.lor TOKEN_NOOP (Z.lor TOKEN_CONTEXT_NEXT TOKEN_PROTOCOL).

Definition internal_negotiate (cred : option gss_cred) (name : gss_name) : M (api C) bool :=
  let* status := open_send initial_flags [] in
  if negb (status_ok status) then
    do* on_cl (internal_token_error "sending initial token" status) in open_fail
  else
    let* fuel := gets open_fuel in
    let* result := loop fuel (context_body cred name) (None, GSS_C_NO_CONTEXT) in
    match result with
    | None => open_fail
    | Some (ctx, flags) =>
        let* protocol := on_cl (field r_protocol) in
        if (1 <? protocol) && negb (flags_acceptable flags) then
          do* on_cl (internal_set_error "server did not negotiate acceptable GSS-API flags" []) in
          open_fail
        else
          do* on_cl (modify (fun c =>
                Cl (set_context true (set_ready false (cl_r c)))
                   (Chan (ch_net (cl_chan c)) ctx (ch_sent (cl_chan c))) (cl_fds c))) in
          ret true
    end.

Definition internal_open (host principal : option bytes) : M (api C) bool :=
  let* name := internal_import_name host principal in
  match name with
  | None => open_fail
  | Some name =>
      let* ccache := on_cl (field r_ccache) in
      let* cred :=
        match ccache with
        | None => ret (Some None)
        | Some cc => let* cred := internal_set_cred cc in ret (Some <$> cred)
        end in
      match cred with
      | None => open_fail
      | Some cred =>
          let* protocol := on_cl (field r_protocol) in
          do* (if protocol =? 0 then on_cl (update (set_protocol 2)) else ret tt) in
          internal_negotiate cred name
      end
  end.
End open.

(** * A concrete mechanism and network

    One token each way establishes a context with every flag; every name
    resolves to one address, and the script has one socket, whose peer has
    sent [sent]. *)
Definition null_client : GssClient unit := {|
  gss_name := unit;
  gss_cred := unit;
  krb5_ccache := unit;
  GSS_C_NO_CONTEXT := tt;
  gss_import_name _ _ := (GSS_S_COMPLETE, tt);
  gss_init_sec_context _ _ _ flags tok :=
    match tok with
    | None => InitStep GSS_S_CONTINUE_NEEDED (str "hello") 0 tt
    | Some _ => InitStep GSS_S_COMPLETE [] flags tt
    end;
  krb5_init_context := 0;
  krb5_cc_resolve _ := (0, tt);
  gss_krb5_import_cred _ := (GSS_S_COMPLETE, tt);
|}.

Definition null_inet : Inet := {|
  inet_aton _ := None;
  inet_pton6 _ := None;
  getaddrinfo _ _ _ := inr [AI AF_INET SOCK_STREAM IPPROTO_TCP []];
|}.

Definition null_attempt (sent : bytes) : attempt unit :=
  Attempt None [] None None [] (inr 0) (Chan (Net [RdData sent] [] [] [] [] 0 false) tt []).

(** The server's answer to the first context token. *)
Definition null_welcome : bytes := token_wire (Z.lor TOKEN_CONTEXT TOKEN_PROTOCOL) (str "welcome").
