(* ===== verification/ClientFraming.v ===== *)
(** How protocol two splits a command over tokens: [internal_v2_commandv] of
    [client/client-v2.c] sends exactly the tokens of a chunking of the encoded
    command, and always finishes. *)

From S2P Require Import Prelude Effects Net Tokens Command Client.

(** * The abstract framing *)

Definition v2_header (c : Z) : bytes := [bz 2; bz MESSAGE_COMMAND; bz 1; bz c].

(** The continue status of a token, from whether it is the first and the last
    of its command. *)
Definition continue_status (first last : bool) : Z :=
  match first, last with
  | true, true => 0 | true, false => 1 | false, false => 2 | false, true => 3
  end.

Definition is_nil {A} (l : list A) : bool := match l with [] => true | _ => false end.

Fixpoint command_tokens (first : bool) (chunks : list bytes) : list bytes :=
  match chunks with
  | [] => []
  | c :: cs => (v2_header (continue_status first (is_nil cs)) ++ c) :: command_tokens false cs
  end.

(** Chunks a token has room for. *)
Definition chunk_ok (c : bytes) : Prop := c <> [] /\ 4 + blen c <= TOKEN_MAX_DATA.

Section spec.
Context {C : Type} `{GssMech C}.

(** Send the tokens in order, stopping at the first failure. *)
Fixpoint send_tokens (toks : list bytes) : M (cl C) bool :=
  match toks with
  | [] => do* update (set_ready true) in ret true
  | t :: ts =>
      let* status := send_priv v2_flags t in
      if negb (status_ok status) then
        do* internal_token_error "sending token" status in ret false
      else send_tokens ts
  end.
End spec.

(** * The cursor of the copying loop *)

(** What is left to send with [offset] bytes of the first argument gone. *)
Definition remaining (args : list bytes) (offset : Z) : bytes :=
  if offset =? 0 then encode_args args
  else match args with [] => [] | a :: rest => zdrop offset a ++ encode_args rest end.

Definition cursor_ok (args : list bytes) (offset : Z) : Prop :=
  Forall arg_fits args /\
  (offset = 0 \/ exists a rest, args = a :: rest /\ 0 < offset < blen a).

Lemma remaining_0 args : remaining args 0 = encode_args args.
Proof. done. Qed.

Lemma remaining_pos a rest offset :
  0 < offset -> remaining (a :: rest) offset = zdrop offset a ++ encode_args rest.
Proof. intros Ho. unfold remaining. by rewrite (proj2 (Z.eqb_neq _ _)) by lia. Qed.

Lemma remaining_nil args offset :
  cursor_ok args offset -> remaining args offset = [] -> args = [] /\ offset = 0.
Proof.
  intros [_ [->|(a & rest & -> & Ho)]] E.
  - rewrite remaining_0 in E. destruct args as [|a args]; [done|].
    rewrite encode_args_cons in E. apply (f_equal blen) in E.
    rewrite blen_app, blen_encode_arg, blen_nil in E. blia.
  - rewrite remaining_pos in E by lia. apply (f_equal blen) in E.
    zlist.
Qed.

(** What one call of the copying loop achieves. *)
Definition filled (args : list bytes) (offset room sent : Z) (acc : bytes) : Prop :=
  exists args' offset' chunk,
    fill_token args offset room sent acc =
      Some (args', offset', room - blen chunk, sent + blen chunk, acc ++ chunk) /\
    remaining args offset = chunk ++ remaining args' offset' /\
    cursor_ok args' offset' /\ blen chunk <= room /\
    (blen (remaining args offset) <= room -> remaining args' offset' = []) /\
    (args <> [] -> 5 <= room -> chunk <> []).

Lemma filled_nil room sent acc : 0 <= room -> filled [] 0 room sent acc.
Proof.
  intros Hr. exists [], 0, []. unfold fill_token. change (blen (@nil byte)) with 0. rewrite (app_nil_r acc).
  split; [tuple|]. split; [done|].
  split; [split; [done|by left]|]. split; [lia|done].
Qed.

(** Copying from inside an argument, with the rest of the loop as hypothesis. *)
Lemma fill_copy a rest offset room sent acc :
  Forall arg_fits (a :: rest) -> 0 <= offset <= blen a -> 0 <= room -> blen a < 2 ^ 64 ->
  (offset = 0 -> 0 < room \/ blen a = 0) ->
  (forall room sent acc, 0 <= room -> filled rest 0 room sent acc) ->
  let delta := if u64 (blen a - offset) <=? room then u64 (blen a - offset) else room in
  exists args' offset' chunk,
    (if offset + delta <? blen a
     then Some (a :: rest, offset + delta, room - delta, sent + delta, acc ++ ztake delta (zdrop offset a))
     else fill_token rest 0 (room - delta) (sent + delta) (acc ++ ztake delta (zdrop offset a))) =
      Some (args', offset', room - blen chunk, sent + blen chunk, acc ++ chunk) /\
    zdrop offset a ++ encode_args rest = chunk ++ remaining args' offset' /\
    cursor_ok args' offset' /\ blen chunk <= room /\
    (blen (zdrop offset a ++ encode_args rest) <= room -> remaining args' offset' = []) /\
    (offset < blen a -> 0 < room -> chunk <> []).
Proof.
  intros Hf Ho Hr Ha Hprog IH. cbv zeta. rewrite u64_small by lia.
  assert (blen (zdrop offset a) = blen a - offset) as Hd by (rewrite blen_zdrop; lia).
  destruct (Z.leb_spec (blen a - offset) room) as [Hle|Hgt].
  - rewrite (proj2 (Z.ltb_ge _ _)), ztake_ge by lia.
    destruct (IH (room - (blen a - offset)) (sent + (blen a - offset)) (acc ++ zdrop offset a))
      as (args' & o' & chunk & -> & Hrem & Hok & Hlen & Hall & _); [lia|].
    exists args', o', (zdrop offset a ++ chunk). rewrite blen_app, Hd.
    split; [rewrite <- app_assoc; tuple|].
    split; [by rewrite <- app_assoc, <- Hrem, remaining_0|].
    split; [done|]. split; [lia|]. split.
    + intros Hb. apply Hall. rewrite remaining_0. rewrite blen_app in Hb. lia.
    + intros Hlt _ E%(f_equal blen). rewrite blen_app, Hd, blen_nil in E. blia.
  - rewrite (proj2 (Z.ltb_lt _ _)) by lia.
    assert (0 < offset + room) as Hpos by lia.
    assert (blen (ztake room (zdrop offset a)) = room) as Ht by (rewrite blen_ztake, Hd; lia).
    exists (a :: rest), (offset + room), (ztake room (zdrop offset a)). rewrite Ht.
    split; [done|]. split; [|split; [|split; [lia|split]]].
    + rewrite remaining_pos, app_assoc by lia. f_equal.
      rewrite Z.add_comm, <- zdrop_zdrop, ztake_zdrop by lia. done.
    + split; [done|]. right. exists a, rest. split; [done|lia].
    + intros Hb. rewrite blen_app in Hb. blia.
    + intros _ Hr' E%(f_equal blen). rewrite Ht, blen_nil in E. lia.
Qed.

Lemma fill_token_unfold a rest offset room sent acc :
  fill_token (a :: rest) offset room sent acc =
  let copy (room sent : Z) (acc : bytes) :=
    let delta := if u64 (blen a - offset) <=? room then u64 (blen a - offset) else room in
    if offset + delta <? blen a
    then Some (a :: rest, offset + delta, room - delta, sent + delta, acc ++ ztake delta (zdrop offset a))
    else fill_token rest 0 (room - delta) (sent + delta) (acc ++ ztake delta (zdrop offset a)) in
  if offset =? 0 then
    if (room <? 4) || ((room <? 5) && (0 <? blen a)) then
      Some (a :: rest, offset, room, sent, acc)
    else if UINT32_MAX <? blen a then None
    else copy (room - 4) (sent + 4) (acc ++ be32 (blen a))
  else copy room sent acc.
Proof. done. Qed.

Lemma arg_fits_u64 a : arg_fits a -> blen a < 2 ^ 64.
Proof. unfold arg_fits. lia. Qed.

Lemma fill_token_filled args : forall offset room sent acc,
  cursor_ok args offset -> 0 <= room -> filled args offset room sent acc.
Proof.
  induction args as [|a rest IH]; intros offset room sent acc [Hf Ho] Hr.
  { destruct Ho as [->|(? & ? & ? & _)]; [by apply filled_nil|done]. }
  pose proof (Forall_cons_1 _ _ _ Hf) as [Ha Hf']. pose proof (arg_fits_u64 _ Ha).
  assert (forall room sent acc, 0 <= room -> filled rest 0 room sent acc) as IH'
    by (intros; apply IH; [split; [done|by left]|done]).
  unfold filled. rewrite fill_token_unfold. cbv zeta.
  destruct (Z.eqb_spec offset 0) as [->|Hnz].
  - rewrite remaining_0, encode_args_cons.
    destruct ((room <? 4) || ((room <? 5) && (0 <? blen a))) eqn:Estop.
    { exists (a :: rest), 0, []. change (blen (@nil byte)) with 0. rewrite (app_nil_r acc).
      split; [tuple|]. split; [done|]. split; [by split|].
      split; [lia|]. rewrite blen_app, blen_encode_arg.
      split; [intros; exfalso|intros _ ?; exfalso]; blia. }
    rewrite (proj2 (Z.ltb_ge _ _)) by (unfold arg_fits, UINT32_MAX in *; lia).
    destruct (fill_copy a rest 0 (room - 4) (sent + 4) (acc ++ be32 (blen a)))
      as (args' & o' & chunk & E & Hrem & Hok & Hlen & Hall & _);
      [done|blia|lia|done|blia|done|].
    cbv zeta in E. rewrite E. exists args', o', (be32 (blen a) ++ chunk).
    rewrite blen_app, blen_be32. rewrite zdrop_0 in Hrem, Hall by lia.
    split; [rewrite <- app_assoc; tuple|].
    split; [unfold encode_arg; rewrite <- !app_assoc; by rewrite Hrem|].
    split; [done|]. split; [lia|]. split; [|done].
    intros Hb. apply Hall. rewrite blen_app in Hb |- *. rewrite blen_encode_arg in Hb. lia.
  - destruct Ho as [?|(? & ? & [= <- <-] & Ho)]; [done|].
    rewrite remaining_pos by lia.
    destruct (fill_copy a rest offset room sent acc)
      as (args' & o' & chunk & E & Hrem & Hok & Hlen & Hall & Hne);
      [done|lia|lia|done|lia|done|].
    cbv zeta in E. rewrite E. exists args', o', chunk. repeat split; try done; try apply Hok.
    intros _ ?. apply Hne; lia.
Qed.

(** * The sending loop *)

Section framing.
Context {C : Type} `{GssMech C}.
Implicit Types w : cl C.

(** What is still to be sent in a state of the loop, the argument count
    included. *)
Definition pending (count : Z) (st : list bytes * Z * Z) : bytes :=
  let '(args, offset, sent) := st in
  (if sent =? 0 then be32 count else []) ++ remaining args offset.

Definition loop_ok (length count : Z) (st : list bytes * Z * Z) : Prop :=
  let '(args, offset, sent) := st in
  cursor_ok args offset /\ 0 <= sent /\ (sent = 0 -> offset = 0) /\
  blen (pending count st) = length - sent.

(** The token's room for data, and whether what is pending exceeds it. *)
Definition too_big (length sent : Z) : bool := TOKEN_MAX_DATA - 4 <? length - sent.
Definition token_room (length sent : Z) : Z :=
  if too_big length sent then TOKEN_MAX_DATA - 4 else length - sent.

Lemma token_room_cases length sent :
  (too_big length sent = true /\ token_room length sent = 65532 /\ 65532 < length - sent) \/
  (too_big length sent = false /\ token_room length sent = length - sent /\ length - sent <= 65532).
Proof.
  unfold token_room, too_big, TOKEN_MAX_DATA.
  destruct (Z.ltb_spec (64 * 1024 - 4) (length - sent)); [left|right]; lia.
Qed.

(** The argument count, when it still has to go out. *)
Definition count_part (count sent : Z) : bytes := if sent =? 0 then be32 count else [].

Lemma blen_count_part count sent : blen (count_part count sent) = if sent =? 0 then 4 else 0.
Proof. unfold count_part. by destruct (sent =? 0). Qed.

(** The equation of one iteration in terms of the copying loop. *)
Lemma commandv_body_eq length count args offset sent args' o' s' room' acc' w :
  sent < length ->
  fill_token args offset (token_room length sent - blen (count_part count sent))
    (sent + blen (count_part count sent))
    (v2_header (continue_status (sent =? 0) (negb (too_big length sent))) ++ count_part count sent)
    = Some (args', o', room', s', acc') ->
  v2_commandv_body length count (args, offset, sent) w =
    (let* status := send_priv v2_flags acc' in
     if negb (status_ok status) then
       do* internal_token_error "sending token" status in ret (inr false)
     else ret (inl (args', o', s'))) w.
Proof.
  intros Hlt E. unfold v2_commandv_body. rewrite (proj2 (Z.ltb_lt _ _)) by lia.
  assert ((if TOKEN_MAX_DATA - 4 <? length - sent then TOKEN_MAX_DATA else length - sent + 4)
          = token_room length sent + 4) as ->
    by (unfold token_room, too_big; destruct (_ <? _); lia).
  assert ((token_room length sent + 4 =? length - sent + 4) = negb (too_big length sent)) as ->.
  { destruct (token_room_cases length sent) as [(-> & -> & ?)|(-> & -> & _)];
      [apply Z.eqb_neq; lia|apply Z.eqb_refl]. }
  assert ((if negb (too_big length sent) then if sent =? 0 then 0 else 3
           else if sent =? 0 then 1 else 2) =
          continue_status (sent =? 0) (negb (too_big length sent))) as ->
    by (by destruct (negb _), (sent =? 0)).
  cbv zeta. unfold v2_header, count_part in E.
  replace (token_room length sent + 4 - 4) with (token_room length sent) by lia.
  destruct (sent =? 0).
  - rewrite blen_be32 in E. by rewrite E.
  - rewrite blen_nil, app_nil_r in E.
    replace (token_room length sent - 0) with (token_room length sent) in E by lia.
    replace (sent + 0) with sent in E by lia. by rewrite E.
Qed.

Lemma pending_part count args offset sent :
  pending count (args, offset, sent) = count_part count sent ++ remaining args offset.
Proof. done. Qed.

Lemma pending_later count args offset sent :
  0 < sent -> pending count (args, offset, sent) = remaining args offset.
Proof. intros Hs. unfold pending. by rewrite (proj2 (Z.eqb_neq _ _)) by lia. Qed.

(** One token: a chunk of what is pending, framed. *)
Lemma commandv_body_step length count args offset sent :
  loop_ok length count (args, offset, sent) -> sent < length ->
  exists chunk st', let p' := pending count st' in
    pending count (args, offset, sent) = chunk ++ p' /\ chunk_ok chunk /\
    loop_ok length count st' /\ 0 < st'.2 /\
    forall w, v2_commandv_body length count (args, offset, sent) w =
      (let* status := send_priv v2_flags
         (v2_header (continue_status (sent =? 0) (is_nil p')) ++ chunk) in
       if negb (status_ok status) then
         do* internal_token_error "sending token" status in ret (inr false)
       else ret (inl st')) w.
Proof.
  intros (Hcur & Hsent & Hoff & Hlen) Hlt. rewrite pending_part in Hlen |- *.
  pose proof (blen_count_part count sent) as Hhd. rewrite blen_app in Hlen.
  destruct (fill_token_filled args offset (token_room length sent - blen (count_part count sent))
    (sent + blen (count_part count sent))
    (v2_header (continue_status (sent =? 0) (negb (too_big length sent))) ++ count_part count sent))
    as (args' & o' & chunk & E & Hrem & Hok & Hcl & Hall & Hprog); [done| |].
  { destruct (token_room_cases length sent) as [(_ & -> & _)|(_ & -> & _)];
      destruct (sent =? 0); blia. }
  pose proof (fun w => commandv_body_eq _ _ _ _ _ _ _ _ _ _ w Hlt E) as Hbody.
  assert (blen chunk + blen (remaining args' o') = blen (remaining args offset)) as Hsum
    by (rewrite Hrem, blen_app; lia).
  assert (0 < blen (count_part count sent) + blen chunk) as Hmore.
  { destruct (Z.eqb_spec sent 0) as [Hz|Hz]; [blia|].
    destruct (token_room_cases length sent) as [(_ & Er & ?)|(_ & Er & ?)]; rewrite Er in *.
    - destruct chunk; [|rewrite blen_cons; blia]. exfalso. apply Hprog; [|lia|done].
      intros ->. unfold remaining in Hlen. destruct (offset =? 0);
        [change (blen (encode_args [])) with 0 in Hlen|rewrite blen_nil in Hlen]; lia.
    - rewrite Hall in Hsum by lia. rewrite blen_nil in Hsum. lia. }
  assert (is_nil (remaining args' o') = negb (too_big length sent)) as Hlast.
  { destruct (token_room_cases length sent) as [(-> & Er & ?)|(-> & Er & ?)]; rewrite Er in *; simpl.
    - destruct (remaining args' o'); [rewrite blen_nil in Hsum; lia|done].
    - by rewrite Hall by lia. }
  exists (count_part count sent ++ chunk),
    (args', o', sent + blen (count_part count sent) + blen chunk).
  cbv zeta. rewrite pending_later, Hlast by lia. rewrite <- app_assoc in Hbody.
  split; [by rewrite Hrem, app_assoc|]. split; [split|split; [|split; [simpl; lia|done]]].
  - intros Hn%(f_equal blen). rewrite blen_app, blen_nil in Hn. lia.
  - rewrite blen_app. unfold TOKEN_MAX_DATA.
    destruct (token_room_cases length sent) as [(_ & Er & ?)|(_ & Er & ?)]; lia.
  - split; [done|]. split; [lia|]. split; [lia|]. rewrite pending_later by lia. lia.
Qed.

Lemma commandv_loop length count : forall fuel args offset sent,
  loop_ok length count (args, offset, sent) -> (Z.to_nat (length - sent) < fuel)%nat ->
  exists chunks, concat chunks = pending count (args, offset, sent) /\ Forall chunk_ok chunks /\
    forall w, loop fuel (v2_commandv_body length count) (args, offset, sent) w =
              send_tokens (command_tokens (sent =? 0) chunks) w.
Proof.
  induction fuel as [|fuel IH]; intros args offset sent Hok Hfuel; [lia|].
  pose proof Hok as (_ & _ & _ & Hlen).
  destruct (Z.ltb_spec sent length) as [Hlt|Hge].
  - destruct (commandv_body_step length count args offset sent) as (c & [[a' o'] s'] & Hs);
      [done|done|]. cbv zeta in Hs. destruct Hs as (Hp & Hc & Hok' & Hpos & Hbody).
    simpl in Hpos. pose proof Hok' as (_ & _ & _ & Hlen').
    destruct (IH a' o' s') as (cs & Hcs & Hf & Hloop); [done| |].
    { rewrite Hp, blen_app, Hlen' in Hlen. destruct Hc as [Hc _].
      destruct c; [done|rewrite blen_cons in Hlen; blia]. }
    exists (c :: cs). split; [by rewrite Hp, <- Hcs|]. split; [by apply Forall_cons|].
    assert (is_nil (pending count (a', o', s')) = is_nil cs) as Hnil.
    { rewrite <- Hcs. destruct cs as [|c' cs]; [done|].
      apply Forall_cons_1 in Hf as [[Hc' _] _]. by destruct c'. }
    rewrite (proj2 (Z.eqb_neq s' 0)) in Hloop by lia.
    intros w. rewrite loop_S. unfold bind at 1. rewrite Hbody, Hnil. simpl.
    unfold bind. destruct (send_priv _ _ w) as [st w'| | |]; [|done..].
    destruct (status_ok st); simpl; [by rewrite <- Hloop|]. by destruct st.
  - assert (pending count (args, offset, sent) = []) as Hp.
    { apply blen_0. pose proof (blen_nonneg (pending count (args, offset, sent))). lia. }
    exists []. split; [done|]. split; [done|]. intros w. rewrite loop_S.
    unfold v2_commandv_body. rewrite (proj2 (Z.ltb_ge _ _)) by lia. done.
Qed.

Lemma command_length_encode argv : forall l,
  0 <= l -> l + blen (encode_args argv) < 2 ^ 64 ->
  fold_left (fun l a => u64 (l + (4 + blen a))) argv l = l + blen (encode_args argv).
Proof.
  induction argv as [|a argv IH]; intros l Hl Hb; simpl.
  - change (blen (encode_args [])) with 0. lia.
  - rewrite encode_args_cons, blen_app, blen_encode_arg in *.
    rewrite u64_small by blia. rewrite IH; blia.
Qed.
End framing.

(** * What the client sends *)

Section theorems.
Context {C : Type} `{GssMech C}.
Implicit Types w : cl C.

Lemma commandv_refines argv :
  blen argv <= UINT32_MAX -> Forall arg_fits argv -> blen (encode_command argv) < 2 ^ 64 ->
  exists chunks, concat chunks = encode_command argv /\ Forall chunk_ok chunks /\
    forall w, internal_v2_commandv argv w = send_tokens (command_tokens true chunks) w.
Proof.
  intros Hn Hf Hb. rewrite blen_encode_command in Hb.
  unfold internal_v2_commandv. rewrite (proj2 (Z.ltb_ge _ _)) by done.
  assert (command_length argv = blen (encode_command argv)) as ->.
  { unfold command_length. rewrite command_length_encode by lia. by rewrite blen_encode_command. }
  destruct (commandv_loop (blen (encode_command argv)) (blen argv)
    (Datatypes.S (Z.to_nat (blen (encode_command argv)))) argv 0 0) as (chunks & Hc & Hck & Hl).
  - split; [split; [done|by left]|]. split; [done|]. split; [done|].
    change (pending (blen argv) (argv, 0, 0)) with (encode_command argv). lia.
  - lia.
  - exists chunks. done.
Qed.

(** The connection [r->fd] is open, and can be waited for if the object has a
    timeout. *)
Definition connected w : Prop :=
  exists fd, r_fd (cl_r w) = Some fd /\ fd ∈ cl_fds w /\ selectable fd (r_timeout (cl_r w)).

Lemma runs_on_fd {A} (m : Z -> M (chan C) A) (Q : A -> cl C -> Prop) w : connected w ->
  (forall fd, selectable fd (r_timeout (cl_r w)) ->
     runs (m fd) (fun a ch => Q a (Cl (cl_r w) ch (cl_fds w))) (cl_chan w)) ->
  runs (on_fd m) Q w.
Proof.
  intros (fd & Hfd & Hin & Hsel) Hm. specialize (Hm fd Hsel). unfold runs, wp, on_fd, zoom in *. rewrite Hfd.
  rewrite bool_decide_eq_true_2 by done. by destruct (m fd (cl_chan w)).
Qed.

Lemma token_error_eq what st w : exists e,
  internal_token_error what st w = Ret tt (Cl (set_error (Some e) (cl_r w)) (cl_chan w) (cl_fds w)).
Proof.
  unfold internal_token_error, internal_gssapi_error, internal_set_error, update, bind, modify, gets.
  destruct st; eexists; reflexivity.
Qed.

(** Sending always returns; the tokens that got out are a prefix of the
    tokens to send, all of them when the result is true. *)
Lemma send_tokens_runs toks : forall w, connected w ->
  runs (send_tokens toks) (fun ok w' => exists done,
    done `prefix_of` toks /\
    ch_sent (cl_chan w') = ch_sent (cl_chan w) ++ map (pair v2_flags) done /\
    (ok = true -> done = toks /\ r_ready (cl_r w') = true)) w.
Proof.
  induction toks as [|t ts IH]; intros w Hw; simpl.
  { apply runs_bind, wp_modify, runs_ret. exists []. simpl. by rewrite app_nil_r. }
  apply runs_bind. unfold send_priv. apply runs_bind, wp_gets.
  apply runs_on_fd; [done|]. intros fd Hfd. eapply runs_mono; [by apply token_send_priv_wp|].
  intros st ch (Hok & Hor & _). set (w1 := Cl _ ch _).
  destruct (status_ok st) eqn:Est; simpl.
  - eapply runs_mono; [by apply IH|]. intros ok w' (dn & Hd & Hs & Ht).
    exists (t :: dn). split; [by apply prefix_cons|]. split.
    + unfold status_ok in Est. apply bool_decide_eq_true in Est. rewrite Hs. simpl.
      rewrite (Hok Est), <- app_assoc. done.
    + intros ->. destruct (Ht eq_refl) as [-> ?]. done.
  - destruct (token_error_eq "sending token" st w1) as [e E].
    unfold runs, wp. rewrite (bind_Ret _ _ _ _ _ E). simpl.
    destruct Hor as [Hs|Hs].
    + exists []. split; [apply prefix_nil|]. rewrite Hs, app_nil_r. done.
    + exists [t]. split; [apply prefix_cons, prefix_nil|]. done.
Qed.
End theorems.

(** C23: a protocol two command goes out as a chunking of its encoding.  For
    every command whose lengths fit their fields, [internal_v2_commandv]
    sends, in order and each framed with version, message type, keep-alive and
    the right continue status, non-empty chunks whose concatenation is the
    encoded command, none of them above the token size limit; it stops at the
    first token that cannot be sent. *)
Theorem v2_commandv_framing {C} `{GssMech C} argv :
  blen argv <= UINT32_MAX -> Forall arg_fits argv -> blen (encode_command argv) < 2 ^ 64 ->
  exists chunks, concat chunks = encode_command argv /\ Forall chunk_ok chunks /\
    (forall w : cl C, internal_v2_commandv argv w = send_tokens (command_tokens true chunks) w) /\
    (forall w : cl C, connected w ->
       runs (internal_v2_commandv argv) (fun ok w' => exists sent,
         sent `prefix_of` command_tokens true chunks /\
         ch_sent (cl_chan w') = ch_sent (cl_chan w) ++ map (pair v2_flags) sent /\
         (ok = true -> sent = command_tokens true chunks /\ r_ready (cl_r w') = true)) w).
Proof.
  intros Hn Hf Hb. destruct (commandv_refines (C:=C) argv Hn Hf Hb) as (chunks & Hc & Hck & Heq).
  exists chunks. split; [done|]. split; [done|]. split; [done|]. intros w Hw.
  unfold runs, wp. rewrite Heq. by apply send_tokens_runs.
Qed.

(** A connection object with an open descriptor. *)
Definition demo_cl : cl unit :=
  Cl (Remctl (Some (str "localhost")) 0 None 2 None 0 None (Some 3) true None None 0 false) null_chan {[3]}.

Lemma v2_commandv_framing_witness :
  let _ := null_mech in
  let argv := [str "ls"; str "-l"] in
  exists chunks, concat chunks = encode_command argv /\ Forall chunk_ok chunks /\
    (forall w : cl unit, internal_v2_commandv argv w = send_tokens (command_tokens true chunks) w) /\
    (forall w : cl unit, connected w ->
       runs (internal_v2_commandv argv) (fun ok w' => exists sent,
         sent `prefix_of` command_tokens true chunks /\
         ch_sent (cl_chan w') = ch_sent (cl_chan w) ++ map (pair v2_flags) sent /\
         (ok = true -> sent = command_tokens true chunks /\ r_ready (cl_r w') = true)) w).
Proof.
  intros mech argv. apply (v2_commandv_framing (C:=unit) argv).
  - by vm_compute.
  - repeat constructor.
  - by vm_compute.
Defined.
