(* ===== verification/Api.v ===== *)
(** The library's entry points: [client/api.c].

    [api] (from [Open]) is the caller's object with its surroundings.  An
    allocation always succeeds. *)

From S2P Require Import Prelude Effects CLib Net Tokens Connect Command Client Open.

Definition REMCTL_PORT : Z := 4373.
Definition REMCTL_PORT_OLD : Z := 4444.

(** A buffer of a result; [BufFreed] is a pointer to freed memory. *)
Inductive rbuf : Type := BufNull | Buf (d : bytes) | BufFreed.

(** [struct remctl_result]; the length of a buffer is that of its data. *)
Record remctl_result : Type := Result {
  rs_error : option errmsg;
  rs_stdout : rbuf;
  rs_stderr : rbuf;
  rs_status : Z;
}.

Section api.
Context {C : Type} `{GssMech C} `{GssClient C} `{Inet}.
Implicit Types w : api C.

(** ** The object *)

Definition new_remctl : remctl := Remctl None 0 None 0 None 0 None None false None None 0 false.

Definition remctl_new : M (api C) unit :=
  on_cl (modify (fun c => Cl new_remctl (cl_chan c) (cl_fds c))).

Definition remctl_set_ccache (ccache : bytes) : M (api C) bool :=
  do* on_cl (update (set_ccache (Some ccache))) in ret true.

Definition remctl_set_source_ip (source : bytes) : M (api C) bool :=
  do* on_cl (update (set_source (Some source))) in ret true.

Definition remctl_set_timeout (timeout : Z) : M (api C) bool :=
  if timeout <? 0 then
    do* on_cl (internal_set_error "invalid timeout %ld" [AInt timeout]) in ret false
  else do* on_cl (update (set_timeout timeout)) in ret true.

Definition remctl_error : M (api C) errmsg :=
  let* e := on_cl (field r_error) in
  ret (default ("no error"%string, []) e).

(** ** Opening and closing *)

Definition clear_error : M (api C) unit := on_cl (update (set_error None)).

(** The descriptor stays in [r->fd]. *)
Definition internal_reset : M (api C) unit :=
  let* fd := on_cl (field r_fd) in
  do* match fd with
      | None => ret tt
      | Some _ =>
          let* protocol := on_cl (field r_protocol) in
          do* (if 1 <? protocol then let* _ := on_cl internal_v2_quit in ret tt else ret tt) in
          on_cl socket_close
      end in
  do* clear_error in
  on_cl (update (set_output None)).

(** [r->host], [r->port] and [r->principal]. *)
Definition set_target host port principal : M (api C) unit :=
  on_cl (update (set_peer host port principal)).

Definition remctl_open (host : bytes) (port : Z) (principal : option bytes) : M (api C) bool :=
  do* internal_reset in
  do* set_target (Some host) port principal in
  let port_fallback := port =? 0 in
  let port := if port =? 0 then REMCTL_PORT else port in
  let* fd := internal_connect host port in
  let* fd :=
    match fd with
    | None =>
        if port_fallback then
          let* old_error := on_cl (field r_error) in
          do* clear_error in
          let* fd := internal_connect host REMCTL_PORT_OLD in
          match fd with
          | None => do* on_cl (update (set_error old_error)) in ret None
          | Some s => ret (Some s)
          end
        else ret None
    | Some s => ret (Some s)
    end in
  match fd with
  | None => ret false
  | Some s => do* assign_fd s in internal_open (Some host) principal
  end.

Definition remctl_open_addrinfo (host : option bytes) (ai : list addrinfo) (principal : option bytes)
    : M (api C) bool :=
  do* internal_reset in
  do* set_target None 0 principal in
  let* source := on_cl (field r_source) in
  let* timeout := on_cl (field r_timeout) in
  let* fd := on_kern (with_chan (network_connect ai source timeout)) in
  match fd with
  | None =>
      let* errno := gets ap_errno in
      do* on_cl (internal_set_error "cannot connect: %s" [AErr errno]) in
      ret false
  | Some s => do* assign_fd s in internal_open host principal
  end.

Definition remctl_open_sockaddr (host : option bytes) (family : Z) (addr : bytes) (principal : option bytes)
    : M (api C) bool :=
  remctl_open_addrinfo host [AI family SOCK_STREAM IPPROTO_TCP addr] principal.

Definition remctl_open_fd (host : option bytes) (s : sockfd) (principal : option bytes) : M (api C) bool :=
  do* internal_reset in
  do* set_target None 0 principal in
  do* assign_fd s in
  internal_open host principal.

(** What is left of the object after [free] is not used again. *)
Definition remctl_close : M (api C) unit :=
  let* protocol := on_cl (field r_protocol) in
  let* fd := on_cl (field r_fd) in
  do* match fd with
      | None => ret tt
      | Some _ =>
          do* (if 1 <? protocol then let* _ := on_cl internal_v2_quit in ret tt else ret tt) in
          on_cl socket_close
      end in
  do* on_cl drop_context in
  do* modify (put_krb false None) in
  on_cl (update (fun _ => new_remctl)).

(** ** Commands *)

Definition internal_reopen : M (api C) bool :=
  let* fd := on_cl (field r_fd) in
  let* ok :=
    match fd with
    | Some _ => ret true
    | None =>
        let* host := on_cl (field r_host) in
        match host with
        | None => do* on_cl (internal_set_error "no connection open" []) in ret false
        | Some host =>
            let* port := on_cl (field r_port) in
            let* principal := on_cl (field r_principal) in
            remctl_open host port principal
        end
    end in
  if negb ok then ret false else do* clear_error in ret true.

Definition remctl_commandv (command : list bytes) : M (api C) bool :=
  let* ok := internal_reopen in
  if negb ok then ret false
  else
    let* protocol := on_cl (field r_protocol) in
    if protocol =? 1 then on_cl (internal_v1_commandv command)
    else on_cl (internal_v2_commandv command).

Definition remctl_command (command : list bytes) : M (api C) bool :=
  match command with
  | [] => do* on_cl (internal_set_error "cannot send empty command" []) in ret false
  | _ => remctl_commandv (map cstr command)
  end.

Definition remctl_noop : M (api C) bool :=
  let* ok := internal_reopen in
  if negb ok then ret false
  else
    let* protocol := on_cl (field r_protocol) in
    if protocol =? 1 then
      do* on_cl (internal_set_error "NOOP message not supported" []) in ret false
    else on_cl internal_noop.

Definition remctl_output_ : M (api C) (option remctl_output) :=
  let* r := on_cl (gets cl_r) in
  if bool_decide (r_fd r = None) && (negb (r_protocol r =? 1) || bool_decide (r_host r = None)) then
    do* on_cl (internal_set_error "no connection open" []) in ret None
  else
    do* clear_error in
    if r_protocol r =? 1 then on_cl internal_v1_output else on_cl internal_v2_output.

(** ** The simplified interface *)

(** [realloc] and [memcpy].  [realloc] to size 0 frees an allocated block and
    returns [NULL], after which the pointer is still in place. *)
Definition append_to (old : rbuf) (data : bytes) : option rbuf :=
  match old with
  | BufNull => Some (Buf data)
  | Buf d => if blen d + blen data =? 0 then None else Some (Buf (d ++ data))
  | BufFreed => None
  end.

Definition set_rerror e r := Result (Some e) (rs_stdout r) (rs_stderr r) (rs_status r).
Definition set_rstdout b r := Result (rs_error r) b (rs_stderr r) (rs_status r).
Definition set_rstderr b r := Result (rs_error r) (rs_stdout r) b (rs_status r).
Definition set_rstatus n r := Result (rs_error r) (rs_stdout r) (rs_stderr r) n.

(** The error of a result is text; that of the server is kept as the
    argument of a [%s]. *)
Definition internal_output_append (result : remctl_result) (output : remctl_output) : bool * remctl_result :=
  let data := o_data output in
  let append (old : rbuf) (put : rbuf -> remctl_result -> remctl_result) :=
    match append_to old data with
    | Some b => (true, put b result)
    | None => (false, set_rerror ("cannot allocate memory"%string, []) (put BufFreed result))
    end in
  match o_type output with
  | REMCTL_OUT_ERROR =>
      let old := match rs_error result with Some (_, args) => args | None => [] end in
      (true, set_rerror ("%s"%string, old ++ [AStr data]) result)
  | REMCTL_OUT_OUTPUT =>
      if o_stream output =? 1 then append (rs_stdout result) set_rstdout
      else if o_stream output =? 2 then append (rs_stderr result) set_rstderr
      else (false, set_rerror ("bad output stream %d"%string, [AInt (o_stream output)]) result)
  | _ => (false, set_rerror ("internal error: bad output type"%string, []) result)
  end.

Definition internal_fail (result : remctl_result) : M (api C) (option remctl_result) :=
  let* error := remctl_error in
  do* remctl_close in
  ret (Some (set_rerror error result)).

(** One pass of the [do] loop of [remctl]; [inr] is a return. *)
Definition remctl_body (result : remctl_result) : M (api C) (remctl_result + option remctl_result) :=
  let* output := remctl_output_ in
  match output with
  | None => let* r := internal_fail result in ret (inr r)
  | Some output =>
      let finish result := do* remctl_close in ret (inr (Some result)) in
      match o_type output with
      | REMCTL_OUT_OUTPUT =>
          let '(ok, result) := internal_output_append result output in
          (* On this return the object is not closed. *)
          if negb ok then ret (inr (Some result)) else ret (inl result)
      | REMCTL_OUT_ERROR =>
          let '(ok, result) := internal_output_append result output in
          if negb ok then ret (inr (Some result)) else finish result
      | REMCTL_OUT_STATUS =>
          finish (set_rstatus (o_status output) result)
      | REMCTL_OUT_DONE => finish result
      end
  end.

(** Every pass but the last has read a token. *)
Definition remctl_ (host : bytes) (port : Z) (principal : option bytes) (command : list bytes)
    : M (api C) (option remctl_result) :=
  let result := Result None BufNull BufNull 0 in
  do* remctl_new in
  let* ok := remctl_open host port principal in
  if negb ok then internal_fail result
  else
    let* ok := remctl_command command in
    if negb ok then internal_fail result
    else
      let* fuel := gets open_fuel in
      loop (Datatypes.S fuel) remctl_body result.

(** Freeing a buffer that is not allocated is undefined. *)
Definition free_rbuf (b : rbuf) : M (api C) unit :=
  match b with BufFreed => fault | _ => ret tt end.

Definition remctl_result_free (result : option remctl_result) : M (api C) unit :=
  match result with
  | None => ret tt
  | Some r => do* free_rbuf (rs_stdout r) in free_rbuf (rs_stderr r)
  end.
End api.
