(* ===== verification/ApiSafe.v ===== *)
(** The library is safe to call: no sequence of API calls makes the client
    touch memory or a descriptor it should not, if the caller respects two
    conditions, and what happens where it does not. *)

From S2P Require Import Prelude Effects CLib Net Tokens Connect Command Client ClientFraming Open Api.

(** * Operations on a connection *)

Section client_ops.
Context {C : Type} `{GssMech C}.
Implicit Types c : cl C.

(** What no operation on a connection changes. *)
Definition peer c := (r_host (cl_r c), r_port (cl_r c), r_principal (cl_r c), r_protocol (cl_r c),
  r_source (cl_r c), r_timeout (cl_r c), r_ccache (cl_r c)).

(** An operation keeps the descriptor, or closes it and forgets it. *)
Definition kept c c' : Prop :=
  peer c' = peer c /\
  ((r_fd (cl_r c') = r_fd (cl_r c) /\ cl_fds c' = cl_fds c) \/
   (r_fd (cl_r c') = None /\ exists fd, r_fd (cl_r c) = Some fd /\ cl_fds c' = cl_fds c ∖ {[fd]})).

Lemma kept_refl c : kept c c.
Proof. split; [done|by left]. Qed.

Lemma kept_trans a b c : kept a b -> kept b c -> kept a c.
Proof.
  intros [P1 K1] [P2 K2]. split; [congruence|].
  destruct K1 as [[F1 S1]|(F1 & fd & E1 & S1)], K2 as [[F2 S2]|(F2 & fd2 & E2 & S2)].
  - left. split; congruence.
  - right. split; [done|]. exists fd2. split; congruence.
  - right. split; [congruence|]. exists fd. split; congruence.
  - congruence.
Qed.

Lemma kept_update f c :
  (forall r, (r_host (f r), r_port (f r), r_principal (f r), r_protocol (f r), r_source (f r), r_timeout (f r),
              r_ccache (f r), r_fd (f r)) =
             (r_host r, r_port r, r_principal r, r_protocol r, r_source r, r_timeout r, r_ccache r, r_fd r)) ->
  kept c (Cl (f (cl_r c)) (cl_chan c) (cl_fds c)).
Proof. intros Hf. specialize (Hf (cl_r c)). injection Hf. intros. split; [unfold peer; simpl; congruence|by left]. Qed.

Lemma runs_update f (Q : unit -> cl C -> Prop) c :
  Q tt (Cl (f (cl_r c)) (cl_chan c) (cl_fds c)) -> runs (update f) Q c.
Proof. done. Qed.
Lemma runs_field {A} (f : remctl -> A) (Q : A -> cl C -> Prop) c : Q (f (cl_r c)) c -> runs (field f) Q c.
Proof. done. Qed.

(** Operations that end having [kept] the connection. *)
Definition stays {A} (m : M (cl C) A) (Q : A -> cl C -> Prop) c : Prop :=
  runs m (fun a c' => kept c c' /\ Q a c') c.

Lemma stays_bind {A B} (m : M (cl C) A) (k : A -> M (cl C) B) R Q c :
  stays m R c -> (forall a c', kept c c' -> R a c' -> stays (k a) Q c') -> stays (bind m k) Q c.
Proof.
  intros Hm Hk. apply runs_bind. eapply runs_mono; [exact Hm|]. intros a c' [K HR].
  eapply runs_mono; [by apply (Hk a c')|]. intros b c2 [K2 HQ]. split; [by eapply kept_trans|done].
Qed.

Lemma stays_ret {A} (a : A) (Q : A -> cl C -> Prop) c : Q a c -> stays (ret a) Q c.
Proof. intros. apply runs_ret. split; [apply kept_refl|done]. Qed.

Lemma stays_mono {A} (m : M (cl C) A) (R Q : A -> cl C -> Prop) c :
  stays m R c -> (forall a c', R a c' -> Q a c') -> stays m Q c.
Proof. intros Hm HQ. eapply runs_mono; [exact Hm|]. intros a c' [? ?]. auto. Qed.

Lemma stays_field {A} (f : remctl -> A) c : stays (field f) (fun a c' => a = f (cl_r c') /\ c' = c) c.
Proof. apply runs_field. split; [apply kept_refl|done]. Qed.

(** The same connection, open as before. *)
Definition link (r : remctl) : option Z * Z := (r_fd r, r_timeout r).
Definition still c c' : Prop := link (cl_r c') = link (cl_r c) /\ cl_fds c' = cl_fds c.

Lemma link_eq r r' : link r' = link r <-> r_fd r' = r_fd r /\ r_timeout r' = r_timeout r.
Proof. unfold link. split; [by intros [= -> ->]|by intros [-> ->]]. Qed.

Lemma stays_update f c :
  (forall r, (r_host (f r), r_port (f r), r_principal (f r), r_protocol (f r), r_source (f r), r_timeout (f r),
              r_ccache (f r), r_fd (f r)) =
             (r_host r, r_port r, r_principal r, r_protocol r, r_source r, r_timeout r, r_ccache r, r_fd r)) ->
  stays (update f) (fun _ c' => link (cl_r c') = link (cl_r c) /\ cl_fds c' = cl_fds c) c.
Proof.
  intros Hf. apply runs_update. split; [by apply kept_update|]. specialize (Hf (cl_r c)). injection Hf.
  intros. rewrite link_eq. done.
Qed.

Lemma still_fd c c' : still c c' -> r_fd (cl_r c') = r_fd (cl_r c) /\ cl_fds c' = cl_fds c.
Proof. by intros [[? _]%link_eq ?]. Qed.

Lemma still_connected c c' : still c c' -> connected c -> connected c'.
Proof. intros [[E1 Et]%link_eq E2] (fd & Hfd & Hin & Hsel). exists fd. split_and!; congruence. Qed.

Lemma stays_on_fd {A} (m : Z -> M (chan C) A) (P : A -> chan C -> Prop) c : connected c ->
  (forall fd, selectable fd (r_timeout (cl_r c)) -> runs (m fd) P (cl_chan c)) -> stays (on_fd m) (fun a c' => P a (cl_chan c') /\ still c c') c.
Proof.
  intros Hc Hm. apply runs_on_fd; [done|]. intros fd Hfd. eapply runs_mono; [by apply Hm|]. intros a ch Ha.
  split; [|done]. split; [done|by left].
Qed.

Lemma stays_token_error what st c : stays (internal_token_error what st) (fun _ c' => still c c') c.
Proof.
  destruct (token_error_eq what st c) as [e E]. unfold stays, runs, wp. rewrite E.
  split; [by apply (kept_update (set_error (Some e)))|done].
Qed.

Lemma stays_set_error fmt args c : stays (internal_set_error fmt args) (fun _ c' => still c c') c.
Proof. by eapply stays_mono; [apply (stays_update (set_error (Some (fmt, args))))|]. Qed.

Lemma stays_hangup (f : remctl -> remctl) c : connected c ->
  (forall r, (r_host (f r), r_port (f r), r_principal (f r), r_protocol (f r), r_source (f r), r_timeout (f r),
              r_ccache (f r), r_fd (f r)) =
             (r_host r, r_port r, r_principal r, r_protocol r, r_source r, r_timeout r, r_ccache r, None)) ->
  stays (do* drop_context in do* socket_close in update f) (fun _ c' => r_fd (cl_r c') = None) c.
Proof.
  intros (fd & Hfd & Hin & _) Hf. apply runs_bind, runs_modify, runs_bind, runs_modify, runs_modify. simpl.
  rewrite Hfd. specialize (Hf (set_context false (cl_r c))). simpl in Hf. injection Hf as E1 E2 E3 E4 E5 E6 E7 E8.
  split; [|done]. split; [unfold peer; simpl; congruence|]. right. split; [done|]. by exists fd.
Qed.

(** ** Sending *)

Lemma stays_send_priv flags tok c : connected c -> stays (send_priv flags tok) (fun _ c' => still c c') c.
Proof.
  intros Hc. eapply stays_bind; [apply stays_field|]. intros t c' _ [-> ->].
  eapply stays_mono; [apply (stays_on_fd _ (fun _ _ => True)); [done|]|by intros ? ? [_ ?]].
  intros fd Hfd. eapply runs_mono; [by apply token_send_priv_wp|done].
Qed.

Lemma stays_send_tokens toks : forall c, connected c ->
  stays (send_tokens toks) (fun _ c' => still c c') c.
Proof.
  induction toks as [|t ts IH]; intros c Hc; cbn [send_tokens].
  - eapply stays_bind; [by apply (stays_update (set_ready true))|]. intros [] c' _ Hs. by apply stays_ret.
  - eapply stays_bind; [by apply stays_send_priv|]. intros st c1 _ Hs. destruct (negb _).
    + eapply stays_bind; [apply stays_token_error|]. intros [] c2 _ Hs2. apply stays_ret.
      destruct Hs, Hs2. split; congruence.
    + eapply stays_mono; [apply IH; exact (still_connected _ _ Hs Hc)|]. intros ok c2 Hs2. destruct Hs, Hs2. split; congruence.
Qed.

(** Commands whose lengths fit the protocol's fields. *)
Definition command_fits (argv : list bytes) : Prop :=
  blen argv <= UINT32_MAX /\ Forall arg_fits argv /\ blen (encode_command argv) < 2 ^ 64.

Lemma stays_v2_commandv argv c : command_fits argv -> connected c ->
  stays (internal_v2_commandv argv) (fun _ c' => still c c') c.
Proof.
  intros (Hn & Hf & Hb) Hc. destruct (commandv_refines (C:=C) argv Hn Hf Hb) as (chunks & _ & _ & Heq).
  unfold stays, runs, wp. rewrite Heq. by apply stays_send_tokens.
Qed.

Lemma stays_v1_commandv argv c : connected c -> stays (internal_v1_commandv argv) (fun _ c' => still c c') c.
Proof.
  intros Hc. assert (forall f a, stays (do* internal_set_error f a in ret false) (fun _ c' => still c c') c) as He.
  { intros f a. eapply stays_bind; [apply stays_set_error|]. intros [] c' _ Hs. by apply stays_ret. }
  unfold internal_v1_commandv. destruct (_ <? _); [apply He|].
  destruct (v1_length argv 4); [|apply He]. destruct (v1_fill argv _); [|apply He].
  eapply stays_bind; [by apply stays_send_priv|]. intros st c1 _ [F1 S1]. destruct (negb _).
  - eapply stays_bind; [apply stays_token_error|]. intros [] c2 _ [F2 S2]. apply stays_ret. split; congruence.
  - eapply stays_bind; [by apply (stays_update (set_ready true))|]. intros [] c2 _ [F2 S2].
    apply stays_ret. split; congruence.
Qed.

Lemma stays_v2_quit c : connected c -> stays internal_v2_quit (fun _ c' => still c c') c.
Proof.
  intros Hc. eapply stays_bind; [by apply stays_send_priv|]. intros st c1 _ [F1 S1]. destruct (negb _).
  - eapply stays_bind; [apply stays_token_error|]. intros [] c2 _ [F2 S2]. apply stays_ret. split; congruence.
  - by apply stays_ret.
Qed.

(** ** Receiving *)

(** What the connection has still to read. *)
Definition unread c : nat := to_read (ch_net (cl_chan c)).

Lemma stays_recv_priv c : connected c ->
  stays recv_priv (fun '(st, _, _) c' => still c c' /\ (st = TOKEN_OK -> (unread c' < unread c)%nat)) c.
Proof.
  intros Hc. eapply stays_bind; [apply stays_field|]. intros t c' _ [-> ->].
  eapply stays_mono; [apply (stays_on_fd _ (fun r ch => r.1.1 = TOKEN_OK ->
    (to_read (ch_net ch) < unread c)%nat)); [done|]|].
  - intros fd Hfd. eapply runs_mono; [by apply token_recv_priv_reads|]. intros [[st fl] tok] ch [_ Hlt] E. specialize (Hlt E).
    unfold unread. lia.
  - intros [[st fl] tok] c' [Hlt Hs]. done.
Qed.

Lemma stays_error fmt args {A} (a : A) (Q : A -> cl C -> Prop) c :
  (forall c', still c c' -> Q a c') -> stays (do* internal_set_error fmt args in ret a) Q c.
Proof.
  intros HQ. eapply stays_bind; [apply stays_set_error|]. intros [] c' _ Hs. apply stays_ret. by apply HQ.
Qed.

Lemma stays_char_at i l (Q : Z -> cl C -> Prop) c : (i < length l)%nat ->
  (forall z, l !! i = Some z -> Q (bs z) c) -> stays (char_at i l) Q c.
Proof.
  intros [z Hz]%lookup_lt_is_Some_2 HQ. unfold char_at. rewrite Hz. apply stays_ret. by apply HQ.
Qed.

Lemma stays_read_token c : connected c ->
  stays internal_v2_read_token (fun r c' => match r with
    | Some tok => 2 <= blen tok /\ still c c' /\ (unread c' < unread c)%nat
    | None => True end) c.
Proof.
  intros Hc. eapply stays_bind; [by apply stays_recv_priv|]. intros [[st fl] tok] c1 _ [Hs Hlt]. cbn beta iota.
  destruct (status_ok st) eqn:Est; cbn [negb].
  - unfold status_ok in Est. apply bool_decide_eq_true in Est. specialize (Hlt Est).
    destruct (negb _); [by apply stays_error|]. destruct (Z.ltb_spec (blen tok) 2); [by apply stays_error|].
    assert (0 < length tok)%nat by (unfold blen in *; lia).
    eapply stays_bind; [apply (stays_char_at _ _ (fun _ c' => c' = c1)); [done|done]|].
    intros z c2 _ ->. destruct (_ && _); [by apply stays_error|]. by apply stays_ret.
  - eapply stays_bind; [apply stays_token_error|]. intros [] c2 _ Hs2.
    eapply stays_bind with (R := fun _ _ => True); [|intros [] c3 _ _; by apply stays_ret].
    case_bool_decide; [|by apply stays_ret].
    eapply stays_mono; [apply (stays_hangup (set_fd None)); [|done]|done].
    exact (still_connected _ _ Hs2 (still_connected _ _ Hs Hc)).
Qed.

Lemma stays_noop c : connected c -> stays internal_noop (fun _ _ => True) c.
Proof.
  intros Hc. eapply stays_bind; [by apply stays_send_priv|]. intros st c1 _ Hs. destruct (negb _).
  { eapply stays_bind; [apply stays_token_error|]. intros [] c2 _ _. by apply stays_ret. }
  eapply stays_bind; [apply stays_read_token; exact (still_connected _ _ Hs Hc)|].
  intros [tok|] c2 _ Ht; [|by apply stays_ret]. destruct Ht as [Ht _].
  eapply stays_bind; [apply (stays_char_at _ _ (fun _ _ => True)); [unfold blen in *; lia|done]|].
  intros z c3 _ _. destruct (negb _); [by apply stays_error|by apply stays_ret].
Qed.

(** The result is not more output than the connection gave. *)
Definition progress c (r : option remctl_output) c' : Prop :=
  match r with Some o => o_type o = REMCTL_OUT_OUTPUT -> (unread c' < unread c)%nat | None => True end.

(** Only fields other than the connection's have changed. *)
Definition quiet c c' : Prop := still c c' /\ cl_chan c' = cl_chan c /\ peer c' = peer c.

Lemma quiet_kept c c' : quiet c c' -> kept c c'.
Proof. intros (Hs%still_fd & _ & P). split; [done|by left]. Qed.

Lemma quiet_trans a b c : quiet a b -> quiet b c -> quiet a c.
Proof. intros ([? ?] & ? & ?) ([? ?] & ? & ?). split; [split|split]; congruence. Qed.

Lemma zsub_runs {A} (o n : Z) (l : list A) (Q : list A -> cl C -> Prop) c : 0 <= o -> 0 <= n -> o + n <= blen l ->
  (forall d, Q d c) -> runs (from_option_fault (zsub o n l)) Q c.
Proof. intros ? ? ? HQ. unfold zsub. rewrite bool_decide_eq_true_2 by lia. by apply runs_ret. Qed.

Lemma char_at_runs i l (Q : Z -> cl C -> Prop) c : (i < length l)%nat -> (forall z, Q z c) -> runs (char_at i l) Q c.
Proof. intros [z Hz]%lookup_lt_is_Some_2 HQ. unfold char_at. rewrite Hz. by apply runs_ret. Qed.

Lemma runs_read_string token offset c : 0 <= offset -> offset + 4 <= blen token ->
  runs (internal_v2_read_string token offset) (fun _ c' => quiet c c') c.
Proof.
  intros Ho Hl. unfold internal_v2_read_string, on_output, internal_set_error.
  apply runs_bind, zsub_runs; [lia..|]. intros d.
  destruct (Z.eqb_spec (of_be32 d) (u64 (blen token - (offset + 4)))) as [->|]; cbn [negb];
    [|by apply runs_bind, runs_update, runs_ret].
  assert (0 <= u64 (blen token - (offset + 4)) <= blen token - (offset + 4)).
  { unfold u64. split; [apply Z.mod_pos_bound; lia|apply Z.mod_le; lia]. }
  apply runs_bind, zsub_runs; [lia..|]. intros d'. by apply runs_bind, runs_update, runs_ret.
Qed.

(** Nothing the server sends leads out of bounds. *)
Lemma runs_output_token token c : 2 <= blen token ->
  runs (v2_output_token token) (fun _ c' => quiet c c') c.
Proof.
  intros Hlen. unfold v2_output_token, v2_malformed, on_output, internal_set_error.
  apply runs_bind, char_at_runs; [unfold blen in *; lia|]. intros type.
  destruct (type =? MESSAGE_OUTPUT).
  { destruct (Z.ltb_spec (blen token) (2 + 5)); [by apply runs_bind, runs_update, runs_ret|].
    apply runs_bind, runs_update, runs_bind, char_at_runs; [unfold blen in *; lia|]. intros p2. destruct (_ && _).
    { apply runs_bind, char_at_runs; [unfold blen in *; lia|]. intros p0. by apply runs_bind, runs_update, runs_ret. }
    apply runs_bind, runs_update, runs_bind. eapply runs_mono; [apply runs_read_string; lia|].
    intros ok c' Hq. by destruct ok; [apply runs_field|apply runs_ret]. }
  destruct (type =? MESSAGE_STATUS).
  { destruct (Z.eqb_spec (blen token) (2 + 1)); cbn [negb]; [|by apply runs_bind, runs_update, runs_ret].
    apply runs_bind, runs_update, runs_bind, char_at_runs; [unfold blen in *; lia|]. intros p2.
    by apply runs_bind, runs_update, runs_bind, runs_update, runs_field. }
  destruct (type =? MESSAGE_ERROR); [|by apply runs_bind, runs_update, runs_ret].
  destruct (Z.ltb_spec (blen token) (2 + 8)); [by apply runs_bind, runs_update, runs_ret|].
  apply runs_bind, runs_update, runs_bind, zsub_runs; [lia..|]. intros d.
  apply runs_bind, runs_update, runs_bind. eapply runs_mono; [apply runs_read_string; lia|].
  intros ok c' Hq. destruct ok; [apply runs_bind, runs_update, runs_field|by apply runs_ret].
  exact (quiet_trans _ _ _ Hq (conj (conj eq_refl eq_refl) (conj eq_refl eq_refl))).
Qed.

Lemma stays_v2_output c : connected c ->
  stays internal_v2_output (fun r c' => progress c r c' /\ (r <> None -> still c c')) c.
Proof.
  intros Hc. eapply stays_bind with (R := fun _ c' => quiet c c' /\ r_output (cl_r c') = Some wiped).
  { apply runs_update. split; [by apply (kept_update (set_output (Some wiped)))|done]. }
  intros [] c1 _ [Hq1 Ho1]. eapply stays_bind; [apply stays_field|]. intros ready c1' _ [-> ->].
  destruct (r_ready (cl_r c1)); cbn [negb].
  - eapply stays_bind; [apply stays_read_token; exact (still_connected _ _ (proj1 Hq1) Hc)|].
    intros [tok|] c2 _ Ht; [|by apply stays_ret]. destruct Ht as (Hlen & [F2 S2] & Hlt).
    eapply runs_mono; [by apply runs_output_token|]. intros r c3 Hq3. split; [by apply quiet_kept|].
    unfold progress, unread in *. destruct Hq1 as ([F1 S1] & E1 & _), Hq3 as ([F3 S3] & E3 & _). rewrite E3, <- E1.
    split; [by destruct r|]. intros _. split; congruence.
  - eapply stays_mono; [apply stays_field|]. intros r c2 [-> ->]. rewrite Ho1. split; [done|]. intros _. apply Hq1.
Qed.

(** Protocol one may also be asked for the status it has kept. *)
Definition v1_pending c : Prop := r_output (cl_r c) <> None /\ r_ready (cl_r c) = false.

Lemma stays_v1_receive c : connected c -> stays v1_receive (progress c) c.
Proof.
  intros Hc. eapply stays_bind; [by apply stays_recv_priv|]. intros [[st fl] tok] c1 _ [Hs Hlt]. cbn beta iota.
  destruct (status_ok st) eqn:Est; cbn [negb].
  - unfold status_ok in Est. apply bool_decide_eq_true in Est. specialize (Hlt Est).
    destruct (negb _); [by apply stays_error|]. unfold v1_output_token.
    destruct (Z.ltb_spec (blen tok) 8); [by apply stays_error|].
    apply runs_bind, zsub_runs; [lia..|]. intros d. apply runs_bind, runs_update, runs_bind, zsub_runs; [lia..|].
    intros d'. destruct (Z.eqb_spec (of_be32 d') (u64 (blen tok - 8))) as [->|]; cbn [negb].
    + assert (0 <= u64 (blen tok - 8) <= blen tok - 8).
      { unfold u64. split; [apply Z.mod_pos_bound; lia|apply Z.mod_le; lia]. }
      apply runs_bind, zsub_runs; [lia..|]. intros d2. apply runs_bind, runs_update, runs_bind, runs_bind, runs_modify.
      apply runs_bind, runs_modify, runs_update, runs_field. simpl.
      destruct (still_connected _ _ Hs Hc) as (fd & Hfd & Hin). rewrite Hfd.
      split; [|intros _; exact Hlt]. split; [done|]. right. split; [done|]. by exists fd.
    + apply runs_bind, runs_update, runs_ret. split; [|done]. split; [done|by left].
  - eapply stays_bind; [apply stays_token_error|]. intros [] c2 _ Hs2.
    eapply stays_bind with (R := fun _ _ => True); [|intros [] c3 _ _; by apply stays_ret].
    case_bool_decide; [|by apply stays_ret].
    eapply stays_mono; [apply (stays_hangup (fun r => set_ready false (set_fd None r))); [|done]|done].
    exact (still_connected _ _ Hs2 (still_connected _ _ Hs Hc)).
Qed.

Lemma stays_v1_output c : connected c \/ v1_pending c -> stays internal_v1_output (progress c) c.
Proof.
  intros Hc. unfold internal_v1_output. do 3 (eapply stays_bind; [apply stays_field|]; intros ? ? _ [-> ->]).
  destruct (r_output (cl_r c)) as [o|] eqn:Eo;
    [|destruct Hc as [Hc|[Hn _]]; [by apply stays_v1_receive|by rewrite Eo in Hn]].
  destruct (r_ready (cl_r c)) eqn:Er; [destruct Hc as [Hc|[_ Hn]]; [by apply stays_v1_receive|congruence]|].
  unfold on_output. apply runs_bind, runs_update, runs_field. simpl. rewrite Eo. simpl.
  split; [by split; [|left]|]. by case_bool_decide.
Qed.
End client_ops.

(** * Opening *)

Section open_ops.
Context {C : Type} {HM : GssMech C} {HG : GssClient C} {HI : Inet}.
Implicit Types w : api C.

Lemma runs_on_cl {A} (m : M (cl C) A) (Q : A -> api C -> Prop) w :
  runs m (fun a c => Q a (put_cl c w)) (ap_cl w) -> runs (on_cl m) Q w.
Proof. unfold runs, wp, on_cl, zoom. by destruct (m (ap_cl w)). Qed.

Lemma runs_on_kern {A} (m : M (kern C) A) (Q : A -> api C -> Prop) w :
  runs m (fun a k => Q a (put_kern k w)) (get_kern w) -> runs (on_kern m) Q w.
Proof. unfold runs, wp, on_kern, zoom. by destruct (m (get_kern w)). Qed.

Lemma runs_stays {A} (m : M (cl C) A) R (Q : A -> api C -> Prop) w :
  stays m R (ap_cl w) -> (forall a c, kept (ap_cl w) c -> R a c -> Q a (put_cl c w)) -> runs (on_cl m) Q w.
Proof. intros Hm HQ. apply runs_on_cl. eapply runs_mono; [exact Hm|]. intros a c [? ?]. by apply HQ. Qed.

(** The object while a context is negotiated. *)
Definition holds w w' : Prop :=
  still (ap_cl w) (ap_cl w') /\
  (r_protocol (cl_r (ap_cl w')) = r_protocol (cl_r (ap_cl w)) \/ r_protocol (cl_r (ap_cl w')) = 1).

Lemma holds_refl w : holds w w.
Proof. split; [done|by left]. Qed.

Lemma holds_trans a b c : holds a b -> holds b c -> holds a c.
Proof. intros [[? ?] ?] [[? ?] ?]. split; [split; congruence|]. intuition congruence. Qed.

Lemma holds_connected w w' : holds w w' -> connected (ap_cl w) -> connected (ap_cl w').
Proof. intros [Hs _]. by apply still_connected. Qed.

Lemma holds_set_error f args w (Q : unit -> api C -> Prop) :
  (forall w', holds w w' -> Q tt w') -> runs (on_cl (internal_set_error f args)) Q w.
Proof. intros HQ. apply runs_on_cl, runs_update, HQ. split; [done|by left]. Qed.

Lemma holds_gssapi_error what w (Q : unit -> api C -> Prop) :
  (forall w', holds w w' -> Q tt w') -> runs (on_cl (internal_gssapi_error what)) Q w.
Proof. intros HQ. apply runs_on_cl, runs_update, HQ. split; [done|by left]. Qed.

Lemma holds_token_error what st w (Q : unit -> api C -> Prop) :
  (forall w', holds w w' -> Q tt w') -> runs (on_cl (internal_token_error what st)) Q w.
Proof.
  intros HQ. apply runs_on_cl. destruct (token_error_eq what st (ap_cl w)) as [e E].
  unfold runs, wp. rewrite E. apply HQ. split; [done|by left].
Qed.

Lemma runs_open_send flags tok w (Q : token_status -> api C -> Prop) : connected (ap_cl w) ->
  (forall st w', holds w w' -> (unread (ap_cl w') <= unread (ap_cl w))%nat -> Q st w') ->
  runs (open_send flags tok) Q w.
Proof.
  intros Hc HQ. apply runs_on_cl, runs_bind, runs_field, runs_on_fd; [done|].
  intros fd Hfd. apply runs_on_net. eapply runs_mono; [by apply token_send_reads|]. intros st n En. apply HQ.
  - split; [done|by left].
  - unfold unread, to_read. simpl. rewrite En. done.
Qed.

Lemma runs_open_recv w (Q : token_status * Z * bytes -> api C -> Prop) : connected (ap_cl w) ->
  (forall st fl tok w', holds w w' ->
     (st = TOKEN_OK -> (unread (ap_cl w') < unread (ap_cl w))%nat) -> Q (st, fl, tok) w') ->
  runs open_recv Q w.
Proof.
  intros Hc HQ. apply runs_on_cl, runs_bind, runs_field, runs_on_fd; [done|].
  intros fd Hfd. apply runs_on_net. eapply runs_mono; [by apply token_recv_reads|]. intros [[st fl] tok] n [_ Hlt]. apply HQ.
  - split; [done|by left].
  - intros E. specialize (Hlt E). unfold unread. simpl. lia.
Qed.

(** Each pass ends, and one that continues has read. *)
Lemma context_body_runs cred name st w : connected (ap_cl w) ->
  runs (context_body cred name st) (fun r w' => holds w w' /\
    match r with inl _ => (unread (ap_cl w') < unread (ap_cl w))%nat | inr _ => True end) w.
Proof.
  intros Hc. unfold context_body. set (step := gss_init_sec_context _ _ _ _ _).
  apply runs_bind, runs_on_cl, runs_field. change (put_cl (ap_cl w) w) with (Api (ap_cl w) (ap_next w)
    (ap_errno w) (ap_lookups w) (ap_krb_ctx w) (ap_krb_ccache w)).
  replace (Api (ap_cl w) _ _ _ _ _) with w by by destruct w.
  apply runs_bind. eapply runs_mono with (Q := fun _ w' => holds w w' /\ (unread (ap_cl w') <= unread (ap_cl w))%nat).
  { destruct (_ =? 0); [apply runs_ret; split; [apply holds_refl|done]|]. by apply runs_open_send. }
  intros status w1 [H1 Hu1]. destruct (negb (status_ok status)).
  { apply runs_bind, holds_token_error. intros w2 H2. apply runs_ret. split; [by eapply holds_trans|done]. }
  destruct (_ && _).
  { apply runs_bind, holds_gssapi_error. intros w2 H2. apply runs_ret. split; [by eapply holds_trans|done]. }
  destruct (_ =? GSS_S_CONTINUE_NEEDED); [|by apply runs_ret].
  apply runs_bind, runs_open_recv; [by eapply holds_connected|]. intros st2 fl tok w2 H2 Hu2. cbn beta iota.
  pose proof (holds_trans _ _ _ H1 H2) as H12. destruct (status_ok st2) eqn:Est; cbn [negb].
  - unfold status_ok in Est. apply bool_decide_eq_true in Est. specialize (Hu2 Est).
    apply runs_bind. destruct (_ && _).
    + apply runs_on_cl, runs_update, runs_ret. split; [|unfold unread in *; simpl; lia].
      eapply holds_trans; [exact H12|]. split; [done|by right].
    + apply runs_ret, runs_ret. split; [done|lia].
  - apply runs_bind, holds_token_error. intros w3 H3. apply runs_ret. split; [by eapply holds_trans|done].
Qed.

(** What opening leaves of the object on the descriptor [fd]. *)
Definition opened w (ok : bool) w' : Prop :=
  (if ok then still (ap_cl w) (ap_cl w')
   else r_fd (cl_r (ap_cl w')) = None /\ r_timeout (cl_r (ap_cl w')) = r_timeout (cl_r (ap_cl w)) /\
        forall fd, r_fd (cl_r (ap_cl w)) = Some fd -> cl_fds (ap_cl w') = cl_fds (ap_cl w) ∖ {[fd]}) /\
  (r_protocol (cl_r (ap_cl w')) = r_protocol (cl_r (ap_cl w)) \/ 1 <= r_protocol (cl_r (ap_cl w')) <= 2).

Lemma open_fail_runs w w0 : holds w0 w -> connected (ap_cl w0) -> runs open_fail (opened w0) w.
Proof.
  intros [[[F T]%link_eq S] P] (fd & Hfd & Hin). apply runs_bind, runs_on_cl, runs_modify, runs_bind, runs_on_cl, runs_update, runs_ret.
  split; simpl.
  - split; [done|]. split; [done|]. intros fd' Hfd'. simplify_eq. rewrite F, Hfd, S. done.
  - destruct P as [->| ->]; [by left|right; lia].
Qed.

Lemma internal_negotiate_runs cred name w0 w : holds w0 w -> connected (ap_cl w0) ->
  runs (internal_negotiate cred name) (opened w0) w.
Proof.
  intros H0 Hc0. pose proof (holds_connected _ _ H0 Hc0) as Hc. unfold internal_negotiate.
  apply runs_bind, runs_open_send; [done|]. intros st w1 H1 _. destruct (negb _).
  { apply runs_bind, holds_token_error. intros w2 H2. apply open_fail_runs; [|done].
    eapply holds_trans; [exact H0|]. by eapply holds_trans. }
  apply runs_bind, runs_gets, runs_bind. eapply runs_mono.
  { eapply (loop_wp (fun _ w' => holds w0 w') (fun _ w' => unread (ap_cl w')) (context_body cred name)
      (fun _ w' => holds w0 w')).
    - intros a w' Hw'. eapply runs_mono; [apply context_body_runs; by eapply holds_connected|].
      intros [a'|r] w2 [H2 Hu]; [split; [by eapply holds_trans|done]|by eapply holds_trans].
    - by eapply holds_trans.
    - unfold unread, open_fuel, to_read. lia. }
  intros [[ctx flags]|] w2 H2; [|by apply open_fail_runs].
  apply runs_bind, runs_on_cl, runs_field. destruct (_ && _).
  { apply runs_bind, holds_set_error. intros w3 H3. apply open_fail_runs; [|done].
    eapply holds_trans; [exact H2|]. by destruct w2. }
  apply runs_bind, runs_on_cl, runs_modify, runs_ret. destruct H2 as [[F S] P]. split; simpl; [done|].
  destruct P as [->| ->]; [by left|right; lia].
Qed.

Lemma opened_from w w1 ok w' : still (ap_cl w) (ap_cl w1) ->
  r_protocol (cl_r (ap_cl w1)) = r_protocol (cl_r (ap_cl w)) \/ 1 <= r_protocol (cl_r (ap_cl w1)) <= 2 ->
  opened w1 ok w' -> opened w ok w'.
Proof.
  intros Hs P [Hok P']. destruct (still_fd _ _ Hs) as [F S]. split.
  - destruct ok; [destruct Hok, Hs; split; congruence|]. destruct Hok as (? & Et & Hf). split; [done|].
    destruct Hs as [[_ Et']%link_eq _]. split; [congruence|]. intros fd Hfd. rewrite <- S. apply Hf. congruence.
  - destruct P' as [->|?]; [destruct P as [->|?]; auto|auto].
Qed.

Lemma set_cred_runs cc w : runs (internal_set_cred cc) (fun _ w' => holds w w') w.
Proof.
  assert (forall what code w1, holds w w1 -> runs (do* internal_krb5_error what code in ret false) (fun _ w' => holds w w') w1) as Hk.
  { intros what code w1 H1. unfold internal_krb5_error. apply runs_bind, runs_bind, runs_gets, runs_bind.
    destruct (negb _).
    - apply holds_set_error. intros w2 H2. apply holds_set_error. intros w3 H3. apply runs_ret.
      eapply holds_trans; [exact H1|]. by eapply holds_trans.
    - apply runs_ret, holds_set_error. intros w3 H3. apply runs_ret. by eapply holds_trans. }
  unfold internal_set_cred. apply runs_bind, runs_gets, runs_bind.
  eapply runs_mono with (Q := fun _ w' => holds w w').
  { destruct (ap_krb_ctx w); [apply runs_ret, holds_refl|]. destruct (negb _); [apply Hk, holds_refl|].
    apply runs_bind, runs_modify, runs_ret. split; [done|by left]. }
  intros [] w1 H1; cbn [negb]; [|by apply runs_ret].
  destruct (krb5_cc_resolve cc) as [code k]. destruct (negb _).
  - apply runs_bind, runs_modify. apply runs_bind. unfold internal_krb5_error. apply runs_bind, runs_gets, runs_bind.
    simpl. apply runs_ret, holds_set_error. intros w2 H2. apply runs_ret. exact (holds_trans _ _ _ H1 H2).
  - apply runs_bind, runs_modify. destruct (gss_krb5_import_cred k) as [major cred]. destruct (negb _); [|by apply runs_ret].
    apply runs_bind, holds_gssapi_error. intros w2 H2. apply runs_ret. exact (holds_trans _ _ _ H1 H2).
Qed.

(** [internal_open] on an open descriptor: true with the descriptor as it
    was, or false with it closed and forgotten. *)
Lemma internal_open_runs host principal w : connected (ap_cl w) -> host <> None \/ principal <> None ->
  runs (internal_open host principal) (opened w) w.
Proof.
  intros Hc Hn. unfold internal_open. apply runs_bind.
  eapply runs_mono with (Q := fun _ w' => holds w w').
  { unfold internal_import_name. apply runs_bind.
    eapply runs_mono with (Q := fun _ w' => w' = w).
    { destruct principal; [by apply runs_ret|]. destruct host; [by apply runs_bind, runs_ret, runs_ret|by destruct Hn]. }
    intros [value oid] w' ->. destruct (gss_import_name _ _) as [major name]. destruct (negb _).
    - apply runs_bind, holds_gssapi_error. intros w1 H1. by apply runs_ret.
    - apply runs_ret, holds_refl. }
  intros [name|] w1 H1; [|by apply open_fail_runs].
  apply runs_bind, runs_on_cl, runs_field. replace (put_cl (ap_cl w1) w1) with w1 by by destruct w1.
  apply runs_bind. eapply runs_mono with (Q := fun _ w' => holds w w').
  { destruct (r_ccache _); [|by apply runs_ret]. apply runs_bind. eapply runs_mono; [apply set_cred_runs|].
    intros c w2 H2. apply runs_ret. by eapply holds_trans. }
  intros [cred|] w2 H2; [|by apply open_fail_runs].
  apply runs_bind, runs_on_cl, runs_field. replace (put_cl (ap_cl w2) w2) with w2 by by destruct w2.
  pose proof (holds_connected _ _ H2 Hc) as Hc2. destruct H2 as [Hs P].
  apply runs_bind. eapply runs_mono with (Q := fun _ w3 => still (ap_cl w) (ap_cl w3) /\
    (r_protocol (cl_r (ap_cl w3)) = r_protocol (cl_r (ap_cl w)) \/ 1 <= r_protocol (cl_r (ap_cl w3)) <= 2)).
  { destruct (Z.eqb_spec (r_protocol (cl_r (ap_cl w2))) 0).
    - apply runs_on_cl, runs_update. split; [exact Hs|]. right. simpl. lia.
    - apply runs_ret. split; [done|]. destruct P as [->| ->]; [by left|right; lia]. }
  intros [] w3 [H3 P3]. eapply runs_mono; [apply (internal_negotiate_runs _ _ w3); [apply holds_refl|]|].
  - by eapply still_connected.
  - intros ok w' Hop. by eapply opened_from.
Qed.

(** Everything of the object but its error. *)
Definition same_object (c c' : cl C) : Prop := set_error None (cl_r c') = set_error None (cl_r c).

(** A connection attempt: a new descriptor, or none. *)
Definition attempted w (s : option sockfd) w' : Prop :=
  (same_object (ap_cl w) (ap_cl w') /\ ap_next w' ⊆ ap_next w) /\
  match s with
  | None => cl_fds (ap_cl w') = cl_fds (ap_cl w)
  | Some (fd, ch) => fd = lowest_free (cl_fds (ap_cl w)) /\ cl_fds (ap_cl w') = {[fd]} ∪ cl_fds (ap_cl w) /\
      from_script (get_kern w) ch
  end.

Lemma connect_runs ai source timeout w : fd_room (cl_fds (ap_cl w)) timeout ->
  runs (on_kern (with_chan (network_connect ai source timeout))) (attempted w) w.
Proof.
  intros Hroom. apply runs_on_kern, runs_bind. eapply runs_mono; [apply network_connect_runs; [|exact Hroom]|].
  - intros fd a Ha. simpl in Ha. by rewrite lookup_empty in Ha.
  - intros [fd|] k ((Hnext & _) & Hk).
    + destruct Hk as (Hf & Hfds & a & Hs & Hfrom & _). apply runs_bind. eapply runs_sock.
      { rewrite Hs. apply lookup_insert_eq. }
      apply runs_ret. by repeat split.
    + destruct Hk as [Hfds _]. apply runs_ret. by repeat split.
Qed.

Lemma internal_connect_runs host port w : fd_room (cl_fds (ap_cl w)) (r_timeout (cl_r (ap_cl w))) ->
  runs (internal_connect host port) (attempted w) w.
Proof.
  intros Hroom. unfold internal_connect, lookup_host. apply runs_bind, runs_on_kern, runs_bind, runs_gets, runs_bind, runs_modify, runs_ret.
  set (w1 := put_kern _ w). destruct (getaddrinfo _ _ _) as [status|ai].
  { apply runs_bind, runs_on_cl, runs_update, runs_ret. by repeat split. }
  apply runs_bind, runs_on_cl, runs_field, runs_bind, runs_on_cl, runs_field, runs_bind.
  eapply runs_mono; [by apply connect_runs|]. intros [s|] w2 [Ho Hs]; [by apply runs_ret|].
  apply runs_bind, runs_gets, runs_bind, runs_on_cl, runs_update, runs_ret. split; [exact Ho|exact Hs].
Qed.
End open_ops.

(** * Sessions *)

Section session.
Context {C : Type} {HM : GssMech C} {HG : GssClient C} {HI : Inet}.
Implicit Types w : api C.

(** An object with a timeout can wait for its connection, and for the next
    one. *)
Definition waits (F : gset Z) (r : remctl) : Prop :=
  fd_room F (r_timeout r) /\ forall fd, r_fd r = Some fd -> selectable fd (r_timeout r).

(** The descriptors of the process are the caller's, [F], and the one of the
    object, if it has one. *)
Definition owns (F : gset Z) w : Prop :=
  match r_fd (cl_r (ap_cl w)) with
  | Some fd => fd ∉ F /\ cl_fds (ap_cl w) = {[fd]} ∪ F
  | None => cl_fds (ap_cl w) = F
  end /\ 0 <= r_protocol (cl_r (ap_cl w)) <= 2 /\ waits F (cl_r (ap_cl w)).

Lemma waits_link F r r' : link r' = link r -> waits F r -> waits F r'.
Proof. intros [E1 E2]%link_eq [Hr Hfd]. unfold waits. by rewrite E1, E2. Qed.

(** Forgetting the descriptor. *)
Lemma waits_none F r r' : r_fd r' = None -> r_timeout r' = r_timeout r -> waits F r -> waits F r'.
Proof. intros E1 E2 [Hr _]. unfold waits. rewrite E1, E2. done. Qed.

Lemma owns_connected F w : owns F w -> r_fd (cl_r (ap_cl w)) <> None -> connected (ap_cl w).
Proof.
  intros (Hf & _ & _ & Hw) Hn. unfold connected. destruct (r_fd _) as [fd|] eqn:E; [|done]. destruct Hf as [_ ->].
  exists fd. split; [done|]. split; [set_solver|by apply Hw].
Qed.

Lemma owns_kept F w c : owns F w -> kept (ap_cl w) c -> owns F (put_cl c w).
Proof.
  intros [Hf Hp] [P K]. unfold owns. simpl. unfold peer in P. injection P. intros _ Et _ Ep _ _ _. rewrite Ep.
  destruct Hp as [Hp Hw]. destruct K as [[E ->]|(E' & fd & E & ->)].
  { rewrite E. split; [done|]. split; [done|]. eapply waits_link; [|done]. by apply link_eq. }
  rewrite E', E in *. destruct Hf as [Hn ->]. split; [set_solver|]. split; [done|]. by eapply waits_none.
Qed.

Lemma owns_opened F w ok w' : owns F w -> connected (ap_cl w) -> opened w ok w' ->
  owns F w' /\ (ok = true -> connected (ap_cl w')).
Proof.
  intros (Hf & Hp & Hw) Hc [Hok P]. split.
  - destruct ok.
    + destruct (still_fd _ _ Hok) as [E1 E2]. unfold owns. rewrite E1, E2. split; [done|].
      split; [destruct P; lia|]. eapply waits_link; [apply Hok|done].
    + destruct Hok as (E1 & E2 & Hfds), Hc as (fd & Hfd & Hin). unfold owns. rewrite E1.
      rewrite Hfd in Hf. rewrite (Hfds fd Hfd). destruct Hf as [Hn ->]. split; [set_solver|].
      split; [destruct P; lia|]. by eapply waits_none.
  - intros ->. by eapply still_connected.
Qed.

(** An operation on the connection only. *)
Lemma owns_op {A} F (m : M (cl C) A) R w : owns F w -> stays m R (ap_cl w) ->
  runs (on_cl m) (fun _ w' => owns F w') w.
Proof. intros Ho Hm. eapply runs_stays; [exact Hm|]. intros a c K _. by apply owns_kept. Qed.

(** An update of other fields than the connection's. *)
Lemma owns_update_link F f w (Q : unit -> api C -> Prop) : owns F w ->
  (forall r, link (f r) = link r /\ r_protocol (f r) = r_protocol r) ->
  (forall w', owns F w' -> link (cl_r (ap_cl w')) = link (cl_r (ap_cl w)) ->
     cl_fds (ap_cl w') = cl_fds (ap_cl w) -> Q tt w') ->
  runs (on_cl (update f)) Q w.
Proof.
  intros Ho Hf HQ. apply runs_on_cl, runs_update. destruct (Hf (cl_r (ap_cl w))) as [El E2].
  pose proof El as [E1 _]%link_eq. apply HQ; [|done|done]. unfold owns in *. simpl. rewrite E1, E2.
  destruct Ho as (? & ? & ?). split; [done|]. split; [done|]. by eapply waits_link.
Qed.

Lemma owns_update F f w (Q : unit -> api C -> Prop) : owns F w ->
  (forall r, link (f r) = link r /\ r_protocol (f r) = r_protocol r) ->
  (forall w', owns F w' -> r_fd (cl_r (ap_cl w')) = r_fd (cl_r (ap_cl w)) ->
     cl_fds (ap_cl w') = cl_fds (ap_cl w) -> Q tt w') ->
  runs (on_cl (update f)) Q w.
Proof.
  intros Ho Hf HQ. eapply owns_update_link; [done|done|]. intros w' Ho' [E _]%link_eq Ef. by apply HQ.
Qed.

Lemma owns_same F w w' : same_object (ap_cl w) (ap_cl w') -> cl_fds (ap_cl w') = cl_fds (ap_cl w) ->
  owns F w -> owns F w'.
Proof.
  unfold same_object, set_error, owns. intros E Hf (? & ? & ?). injection E as _ _ _ Ep _ Et _ Efd _ _ _ _.
  rewrite Efd, Hf, Ep. split; [done|]. split; [done|]. eapply waits_link; [|done]. by apply link_eq.
Qed.

Lemma same_object_fd (c c' : cl C) : same_object c c' -> r_fd (cl_r c') = r_fd (cl_r c) /\ r_protocol (cl_r c') = r_protocol (cl_r c).
Proof. unfold same_object, set_error. intros E. by injection E. Qed.

Lemma same_object_timeout (c c' : cl C) : same_object c c' -> r_timeout (cl_r c') = r_timeout (cl_r c).
Proof. unfold same_object, set_error. intros E. by injection E. Qed.

(** What opening promises: the object owns its descriptor or has none. *)
Definition open_post F (ok : bool) w' : Prop :=
  owns F w' /\ (ok = true -> connected (ap_cl w')) /\ (ok = false -> r_fd (cl_r (ap_cl w')) = None).

Lemma assign_owned F s h p w : r_fd (cl_r (ap_cl w)) = None -> 0 <= r_protocol (cl_r (ap_cl w)) <= 2 ->
  s.1 ∉ F -> cl_fds (ap_cl w) = {[s.1]} ∪ F -> waits F (set_fd (Some s.1) (cl_r (ap_cl w))) -> h <> None \/ p <> None ->
  runs (do* assign_fd s in internal_open h p) (open_post F) w.
Proof.
  intros Hfd Hp Hn Hf Hw Hhp. apply runs_bind, runs_on_cl, runs_modify. set (w1 := put_cl _ w).
  assert (owns F w1) as Ho1 by (split; simpl; [done|done]).
  assert (connected (ap_cl w1)) as Hc1 by (apply (owns_connected F); done).
  eapply runs_mono; [by apply internal_open_runs|]. intros ok w' Hop.
  destruct (owns_opened _ _ _ _ Ho1 Hc1 Hop) as [Ho' Hc']. split; [done|]. split; [done|]. intros ->. apply Hop.
Qed.

Lemma open_attempted F s h p w w1 : owns F w -> r_fd (cl_r (ap_cl w)) = None -> attempted w (Some s) w1 ->
  h <> None \/ p <> None -> runs (do* assign_fd s in internal_open h p) (open_post F) w1.
Proof.
  intros (Hf & Hp & Hw) Hfd [[Hs _] Ha] Hhp. destruct s as [fd ch]. destruct Ha as (Hn & Hfds & _).
  rewrite Hfd in Hf. destruct (same_object_fd _ _ Hs) as [E1 E2]. pose proof (same_object_timeout _ _ Hs) as E3.
  rewrite Hf in Hn, Hfds.
  apply assign_owned; simpl; [congruence|by rewrite E2| |congruence| |done].
  - subst fd. apply lowest_free_spec.
  - destruct Hw as [Hr _]. split; simpl; rewrite E3; [done|]. intros fd' [= <-]. subst fd. by apply fd_room_selectable.
Qed.

Lemma owns_room F w : owns F w -> r_fd (cl_r (ap_cl w)) = None ->
  fd_room (cl_fds (ap_cl w)) (r_timeout (cl_r (ap_cl w))).
Proof. intros (Hf & _ & Hr & _) Hfd. rewrite Hfd in Hf. by rewrite Hf. Qed.

(** [internal_reset] on an object without connection. *)
Lemma reset_runs F w (Q : unit -> api C -> Prop) : owns F w -> r_fd (cl_r (ap_cl w)) = None ->
  (forall w', owns F w' -> r_fd (cl_r (ap_cl w')) = None ->
     r_timeout (cl_r (ap_cl w')) = r_timeout (cl_r (ap_cl w)) -> Q tt w') -> runs internal_reset Q w.
Proof.
  intros Ho Hfd HQ. apply runs_bind, runs_on_cl, runs_field. rewrite Hfd. apply runs_bind, runs_ret, runs_bind.
  eapply (owns_update_link F); [by destruct w|done|]. intros w1 Ho1 [E1 T1]%link_eq _.
  eapply owns_update_link; [done|done|]. intros w2 Ho2 [E2 T2]%link_eq _. apply HQ; [done|..].
  - rewrite E2, E1. by destruct w.
  - rewrite T2, T1. by destruct w.
Qed.

Lemma remctl_open_runs F host port principal w : owns F w -> r_fd (cl_r (ap_cl w)) = None ->
  runs (remctl_open host port principal) (open_post F) w.
Proof.
  intros Ho Hfd. unfold remctl_open. apply runs_bind, (reset_runs F); [done|done|]. intros w1 Ho1 E1 _.
  apply runs_bind. eapply owns_update; [done|done|]. intros w2 Ho2 E2 _. rewrite E1 in E2.
  apply runs_bind. eapply runs_mono; [apply internal_connect_runs; by eapply owns_room|]. intros fd w3 H3.
  assert (Some host <> None \/ principal <> None) as Hh by by left.
  destruct fd as [s|]; [by apply runs_bind, runs_ret; eapply open_attempted|]. destruct H3 as [[Hs3 _] Hf3].
  pose proof (owns_same _ _ _ Hs3 Hf3 Ho2) as Ho3. destruct (same_object_fd _ _ Hs3) as [E3 _]. rewrite E2 in E3.
  destruct (port =? 0).
  - apply runs_bind, runs_bind, runs_on_cl, runs_field, runs_bind. eapply owns_update; [by destruct w3|done|].
    intros w4 Ho4 E4 _. replace (put_cl (ap_cl w3) w3) with w3 in E4 by by destruct w3. rewrite E3 in E4.
    apply runs_bind. eapply runs_mono; [apply internal_connect_runs; by eapply owns_room|]. intros fd w5 H5.
    destruct fd as [s|]; [by apply runs_ret; eapply open_attempted|]. destruct H5 as [[Hs5 _] Hf5].
    pose proof (owns_same _ _ _ Hs5 Hf5 Ho4) as Ho5. destruct (same_object_fd _ _ Hs5) as [E5 _]. rewrite E4 in E5.
    apply runs_bind. eapply owns_update; [done|done|]. intros w6 Ho6 E6 _. apply runs_ret, runs_ret.
    split; [done|]. split; [done|]. intros _. congruence.
  - apply runs_bind, runs_ret, runs_ret. by repeat split; try apply Ho3.
Qed.

Lemma open_addrinfo_runs F host ai principal w : owns F w -> r_fd (cl_r (ap_cl w)) = None ->
  host <> None \/ principal <> None -> runs (remctl_open_addrinfo host ai principal) (open_post F) w.
Proof.
  intros Ho Hfd Hh. unfold remctl_open_addrinfo. apply runs_bind, (reset_runs F); [done|done|]. intros w1 Ho1 E1 _.
  apply runs_bind. eapply owns_update; [done|done|]. intros w2 Ho2 E2 _. rewrite E1 in E2.
  apply runs_bind, runs_on_cl, runs_field, runs_bind, runs_on_cl, runs_field, runs_bind.
  eapply runs_mono; [apply connect_runs; by eapply owns_room|]. intros fd w3 H3.
  destruct fd as [s|]; [by eapply open_attempted; [| |exact H3|]|]. destruct H3 as [[Hs3 _] Hf3].
  assert (owns F w3) as Ho3 by (by eapply owns_same; [exact Hs3|exact Hf3|]).
  apply runs_bind, runs_gets, runs_bind. eapply owns_update; [done|done|]. intros w4 Ho4 E4 _.
  apply runs_ret. split; [done|]. split; [done|]. intros _. rewrite E4.
  destruct (same_object_fd _ _ Hs3) as [-> _]. exact E2.
Qed.

Lemma fd_room_subset F F' timeout : F' ⊆ F -> fd_room F timeout -> fd_room F' timeout.
Proof. intros Hs%subseteq_size [?|?]; [by left|right; lia]. Qed.

Lemma open_fd_runs F host s principal w : owns F w -> r_fd (cl_r (ap_cl w)) = None -> s.1 ∈ F ->
  selectable s.1 (r_timeout (cl_r (ap_cl w))) ->
  host <> None \/ principal <> None ->
  runs (remctl_open_fd host s principal) (open_post (F ∖ {[s.1]})) w.
Proof.
  intros Ho Hfd Hs Hsel Hh. unfold remctl_open_fd. apply runs_bind, (reset_runs F); [done|done|].
  intros w1 Ho1 E1 T1. apply runs_bind. eapply owns_update_link; [done|done|].
  intros w2 (Hf2 & Hp2 & Hr2 & _) [E2 T2]%link_eq _. rewrite E1 in E2. rewrite T1 in T2.
  rewrite E2 in Hf2. apply assign_owned; [done|done|set_solver| | |done]; cycle 1.
  { split; simpl; [by eapply fd_room_subset; [|exact Hr2]; set_solver|]. intros fd [= <-]. by rewrite T2. }
  rewrite Hf2. apply set_eq. intros x. destruct (decide (x = s.1)); set_solver.
Qed.

Lemma reopen_runs F w : owns F w ->
  runs internal_reopen (fun ok w' => owns F w' /\ (ok = true -> connected (ap_cl w'))) w.
Proof.
  intros Ho. unfold internal_reopen. apply runs_bind, runs_on_cl, runs_field, runs_bind.
  replace (put_cl (ap_cl w) w) with w by by destruct w.
  eapply runs_mono with (Q := fun ok w' => owns F w' /\ (ok = true -> connected (ap_cl w'))).
  { destruct (r_fd _) as [fd|] eqn:Efd.
    - apply runs_ret. split; [done|]. intros _. eapply owns_connected; [done|by rewrite Efd].
    - apply runs_bind, runs_on_cl, runs_field. replace (put_cl (ap_cl w) w) with w by by destruct w.
      destruct (r_host _) as [host|].
      + apply runs_bind, runs_on_cl, runs_field, runs_bind, runs_on_cl, runs_field.
        eapply runs_mono; [apply (remctl_open_runs F); [by destruct w|by destruct w]|].
        intros ok w' (Ho' & Hc' & _). done.
      + apply runs_bind. eapply owns_update; [done|done|]. intros w1 Ho1 _ _. by apply runs_ret. }
  intros [] w1 [Ho1 Hc1]; cbn [negb]; [|by apply runs_ret].
  apply runs_bind. eapply owns_update; [done|done|]. intros w2 Ho2 E2 Ef2. apply runs_ret. split; [done|].
  intros _. eapply owns_connected; [done|]. rewrite E2. destruct (Hc1 eq_refl) as (fd & -> & _). done.
Qed.

Lemma commandv_runs F command w : owns F w -> command_fits command ->
  runs (remctl_commandv command) (fun _ w' => owns F w') w.
Proof.
  intros Ho Hf. unfold remctl_commandv. apply runs_bind. eapply runs_mono; [by apply reopen_runs|].
  intros [] w1 [Ho1 Hc1]; cbn [negb]; [|by apply runs_ret]. specialize (Hc1 eq_refl).
  apply runs_bind, runs_on_cl, runs_field. replace (put_cl (ap_cl w1) w1) with w1 by by destruct w1.
  destruct (_ =? 1); eapply owns_op; [done|by apply stays_v1_commandv|done|by apply stays_v2_commandv].
Qed.

Lemma noop_runs F w : owns F w -> runs remctl_noop (fun _ w' => owns F w') w.
Proof.
  intros Ho. unfold remctl_noop. apply runs_bind. eapply runs_mono; [by apply reopen_runs|].
  intros [] w1 [Ho1 Hc1]; cbn [negb]; [|by apply runs_ret]. specialize (Hc1 eq_refl).
  apply runs_bind, runs_on_cl, runs_field. replace (put_cl (ap_cl w1) w1) with w1 by by destruct w1.
  destruct (_ =? 1); [|eapply owns_op; [done|by apply stays_noop]].
  apply runs_bind. eapply owns_update; [done|done|]. intros w2 Ho2 _ _. by apply runs_ret.
Qed.

(** When output may be asked for: over protocol one only while connected or
    while the status is kept. *)
Definition can_output w : Prop :=
  r_fd (cl_r (ap_cl w)) <> None \/ r_protocol (cl_r (ap_cl w)) <> 1 \/ r_host (cl_r (ap_cl w)) = None \/
  v1_pending (ap_cl w).

(** [clear_error] changes nothing that an output operation looks at. *)
Lemma clear_error_pending (c : cl C) : v1_pending (Cl (set_error None (cl_r c)) (cl_chan c) (cl_fds c)) <-> v1_pending c.
Proof. done. Qed.

Lemma output_runs F w : owns F w -> can_output w ->
  runs remctl_output_ (fun r w' => owns F w' /\ progress (ap_cl w) r (ap_cl w')) w.
Proof.
  intros Ho Hcan. unfold remctl_output_. apply runs_bind, runs_on_cl, runs_gets.
  replace (put_cl (ap_cl w) w) with w by by destruct w.
  destruct (bool_decide (r_fd (cl_r (ap_cl w)) = None) && _) eqn:E.
  { apply runs_bind. eapply owns_update; [done|done|]. intros w1 Ho1 _ _. by apply runs_ret. }
  apply runs_bind, runs_on_cl, runs_update. set (w1 := put_cl _ w).
  assert (owns F w1) as Ho1 by exact Ho.
  assert (r_fd (cl_r (ap_cl w)) <> None -> connected (ap_cl w1)) as Hc by (intros; by eapply owns_connected).
  assert (forall (m : M (cl C) _), stays m (progress (ap_cl w1)) (ap_cl w1) ->
    runs (on_cl m) (fun r w' => owns F w' /\ progress (ap_cl w) r (ap_cl w')) w1) as Hop.
  { intros m Hm. eapply runs_stays; [exact Hm|]. intros r c K Hp. split; [by apply owns_kept|exact Hp]. }
  assert (bool_decide (r_fd (cl_r (ap_cl w)) = None) = false \/
    r_protocol (cl_r (ap_cl w)) = 1 /\ r_host (cl_r (ap_cl w)) <> None) as E'.
  { destruct (bool_decide _); [right|by left]. simpl in E. apply orb_false_iff in E as [E1 E2].
    apply negb_false_iff, Z.eqb_eq in E1. by apply bool_decide_eq_false in E2. }
  destruct (Z.eqb_spec (r_protocol (cl_r (ap_cl w))) 1); apply Hop.
  - apply stays_v1_output. destruct (decide (r_fd (cl_r (ap_cl w)) = None)); [|left; auto].
    right. apply clear_error_pending. unfold can_output in Hcan. destruct E' as [E'|[_ E']]; [|tauto].
    by apply bool_decide_eq_false in E'.
  - eapply stays_mono; [apply stays_v2_output, Hc|by intros r c' [? _]]. destruct E' as [E'|[? _]]; [by apply bool_decide_eq_false in E'|done].
Qed.

(** Closing leaves the caller with its own descriptors. *)
Lemma close_runs F w : owns F w -> runs remctl_close (fun _ w' => cl_fds (ap_cl w') = F /\ ap_cl w' = Cl new_remctl (cl_chan (ap_cl w')) F) w.
Proof.
  intros Ho. unfold remctl_close. apply runs_bind, runs_on_cl, runs_field, runs_bind, runs_on_cl, runs_field.
  replace (put_cl _ _) with w by by destruct w. apply runs_bind.
  eapply runs_mono with (Q := fun _ w' => cl_fds (ap_cl w') = F).
  { destruct (r_fd _) as [fd|] eqn:Efd; [|apply runs_ret; destruct Ho as [Ho _]; by rewrite Efd in Ho].
    apply runs_bind. eapply runs_mono with (Q := fun _ w' => cl_fds (ap_cl w') = {[fd]} ∪ F /\
      r_fd (cl_r (ap_cl w')) = Some fd /\ fd ∉ F).
    - assert (connected (ap_cl w)) as Hc by (apply (owns_connected F); [done|congruence]).
      destruct Ho as [Hf Hp]. rewrite Efd in Hf. destruct Hf as [Hn Hf].
      destruct (1 <? _); [|by apply runs_ret].
      apply runs_bind. eapply runs_stays.
      { by apply stays_v2_quit. }
      intros ok c K [E1 E2]%still_fd. apply runs_ret. simpl in *. rewrite E1, E2. done.
    - intros [] w1 (E1 & E2 & Hn). apply runs_on_cl, runs_modify. simpl. rewrite E1, E2. set_solver. }
  intros [] w1 E1. apply runs_bind, runs_on_cl, runs_update, runs_bind, runs_modify, runs_on_cl, runs_update.
  simpl. by rewrite E1.
Qed.
End session.
