(* ===== verification/Session.v ===== *)
(** Using the client library: sequences of API calls on one object, the
    conditions under which they are safe, and what happens without them. *)

From S2P Require Import Prelude Effects CLib Net Tokens Connect Command Client ClientFraming Open Api ApiSafe.

(** * Calls *)

Inductive api_call (C : Type) : Type :=
  | CallOpen (host : bytes) (port : Z) (principal : option bytes)
  | CallOpenAddrinfo (host : option bytes) (ai : list addrinfo) (principal : option bytes)
  | CallOpenSockaddr (host : option bytes) (family : Z) (addr : bytes) (principal : option bytes)
  | CallOpenFd (host : option bytes) (fd : sockfd (C:=C)) (principal : option bytes)
  | CallCommand (command : list bytes)
  | CallCommandv (command : list bytes)
  | CallNoop
  | CallOutput
  | CallSetCcache (ccache : bytes)
  | CallSetSource (source : bytes)
  | CallSetTimeout (timeout : Z).
Arguments CallOpen {C}.
Arguments CallOpenAddrinfo {C}.
Arguments CallOpenSockaddr {C}.
Arguments CallOpenFd {C}.
Arguments CallCommand {C}.
Arguments CallCommandv {C}.
Arguments CallNoop {C}.
Arguments CallOutput {C}.
Arguments CallSetCcache {C}.
Arguments CallSetSource {C}.
Arguments CallSetTimeout {C}.

Section session.
Context {C : Type} {HM : GssMech C} {HG : GssClient C} {HI : Inet}.
Implicit Types w : api C.

Definition drop {A} (m : M (api C) A) : M (api C) unit := let* _ := m in ret tt.

Definition run_call (c : api_call C) : M (api C) unit :=
  match c with
  | CallOpen host port principal => drop (remctl_open host port principal)
  | CallOpenAddrinfo host ai principal => drop (remctl_open_addrinfo host ai principal)
  | CallOpenSockaddr host family addr principal => drop (remctl_open_sockaddr host family addr principal)
  | CallOpenFd host fd principal => drop (remctl_open_fd host fd principal)
  | CallCommand command => drop (remctl_command command)
  | CallCommandv command => drop (remctl_commandv command)
  | CallNoop => drop remctl_noop
  | CallOutput => drop remctl_output_
  | CallSetCcache ccache => drop (remctl_set_ccache ccache)
  | CallSetSource source => drop (remctl_set_source_ip source)
  | CallSetTimeout timeout => drop (remctl_set_timeout timeout)
  end.

(** The object has no connection. *)
Definition unopened w : Prop := r_fd (cl_r (ap_cl w)) = None.

(** The condition on a call: open only what is not open, name the peer, hand
    over only an own descriptor, send what fits the protocol, ask for output
    only where there can be some, and, since [select] cannot wait for a
    descriptor of [FD_SETSIZE] or more, use a timeout only with descriptors
    below it. *)
Definition allowed (F : gset Z) w (c : api_call C) : Prop :=
  match c with
  | CallOpen _ _ _ => unopened w
  | CallOpenAddrinfo host _ principal | CallOpenSockaddr host _ _ principal =>
      unopened w /\ (host <> None \/ principal <> None)
  | CallOpenFd host fd principal => unopened w /\ (host <> None \/ principal <> None) /\ fd.1 ∈ F /\
      selectable fd.1 (r_timeout (cl_r (ap_cl w)))
  | CallCommand command => command_fits (map cstr command)
  | CallCommandv command => command_fits command
  | CallOutput => can_output w
  | CallSetTimeout t => 0 <= t -> waits F (set_timeout t (cl_r (ap_cl w)))
  | CallNoop | CallSetCcache _ | CallSetSource _ => True
  end.

(** The caller's descriptors after a call. *)
Definition call_fds (F : gset Z) (c : api_call C) : gset Z :=
  match c with CallOpenFd _ fd _ => F ∖ {[fd.1]} | _ => F end.

(** The states an object gets into, with the caller's descriptors. *)
Inductive session : gset Z -> api C -> Prop :=
  | session_new w w' : remctl_new w = Ret tt w' -> session (cl_fds (ap_cl w)) w'
  | session_call F w c w' :
      session F w -> allowed F w c -> run_call c w = Ret tt w' -> session (call_fds F c) w'.

Lemma drop_runs {A} (m : M (api C) A) (Q : A -> api C -> Prop) (R : api C -> Prop) w :
  runs m Q w -> (forall a w', Q a w' -> R w') -> runs (drop m) (fun _ w' => R w') w.
Proof.
  intros Hm HQ. apply runs_bind. eapply runs_mono; [exact Hm|]. intros a w' H'. apply runs_ret. by eapply HQ.
Qed.

Lemma set_runs F f (b : bool) w : owns F w -> (forall r, link (f r) = link r /\ r_protocol (f r) = r_protocol r) ->
  runs (do* on_cl (update f) in ret b) (fun _ w' => owns F w') w.
Proof. intros Ho Hf. apply runs_bind. eapply owns_update; [done|done|]. intros w1 Ho1 _ _. by apply runs_ret. Qed.

(** One allowed call ends, and the object owns one descriptor or none. *)
Lemma call_runs F w c : owns F w -> allowed F w c -> runs (run_call c) (fun _ w' => owns (call_fds F c) w') w.
Proof.
  intros Ho Ha. destruct c as [h p n|h ai n|h fam a n|h s n|cmd|cmd| | |cc|src|t]; cbn [run_call call_fds allowed] in *.
  - eapply drop_runs; [by apply remctl_open_runs|]. by intros ok w' [? _].
  - destruct Ha. eapply drop_runs; [by apply open_addrinfo_runs|]. by intros ok w' [? _].
  - destruct Ha. eapply drop_runs; [by apply open_addrinfo_runs|]. by intros ok w' [? _].
  - destruct Ha as (? & ? & ? & ?). eapply drop_runs; [by apply open_fd_runs|]. by intros ok w' [? _].
  - apply (drop_runs _ (fun _ w' => owns F w')); [|done]. unfold remctl_command.
    destruct cmd as [|a cmd]; [by apply set_runs|by apply commandv_runs].
  - eapply drop_runs; [by apply commandv_runs|done].
  - eapply drop_runs; [by apply noop_runs|done].
  - eapply drop_runs; [by apply output_runs|]. by intros r w' [? _].
  - eapply drop_runs; [by apply set_runs|done].
  - eapply drop_runs; [by apply set_runs|done].
  - apply (drop_runs _ (fun _ w' => owns F w')); [|done]. unfold remctl_set_timeout.
    destruct (Z.ltb_spec t 0); [by apply set_runs|]. apply runs_bind, runs_on_cl, runs_update, runs_ret.
    destruct Ho as (Hf & Hp & _). split; [done|]. split; [done|by apply Ha].
Qed.

Lemma session_owns F w : session F w -> owns F w.
Proof.
  induction 1 as [w w' E|F w c w' Hs IH Ha E].
  - injection E as <-. split; [done|]. split; [simpl; lia|]. by split; [left|].
  - pose proof (call_runs _ _ _ IH Ha) as Hr. unfold runs, wp in Hr. by rewrite E in Hr.
Qed.

(** ** Without the conditions *)

Lemma recv_closed (c : cl C) : r_fd (cl_r c) = None -> recv_priv c = Fault.
Proof. intros E. unfold recv_priv, bind, field, gets, on_fd. by rewrite E. Qed.

Lemma send_closed flags tok (c : cl C) fd : r_fd (cl_r c) = Some fd -> fd ∉ cl_fds c -> send_priv flags tok c = Fault.
Proof. intros E Hn. unfold send_priv, bind, field, gets, on_fd. by rewrite E, bool_decide_eq_false_2. Qed.

Lemma on_cl_fault {A} (m : M (cl C) A) w : m (ap_cl w) = Fault -> on_cl m w = Fault.
Proof. intros E. unfold on_cl, zoom. by rewrite E. Qed.

Lemma v1_output_closed (c : cl C) : r_fd (cl_r c) = None -> ~ v1_pending c -> internal_v1_output c = Fault.
Proof.
  intros Hfd Hp. assert (v1_receive c = Fault) as Hr.
  { unfold v1_receive. unfold bind at 1. by rewrite recv_closed. }
  unfold internal_v1_output, v1_pending in *. unfold bind, field, gets.
  destruct (r_output (cl_r c)) as [o|] eqn:Eo; [|exact Hr]. destruct (r_ready (cl_r c)) eqn:Er; [exact Hr|].
  destruct Hp. split; [congruence|done].
Qed.

Lemma output_fault w : ~ can_output w -> remctl_output_ w = Fault.
Proof.
  unfold can_output. intros Hn.
  assert (r_fd (cl_r (ap_cl w)) = None) as Hfd by (destruct (r_fd (cl_r (ap_cl w))); [exfalso; auto|done]).
  assert (r_protocol (cl_r (ap_cl w)) = 1) as Hp by (destruct (decide (r_protocol (cl_r (ap_cl w)) = 1)); [done|exfalso; auto]).
  assert (r_host (cl_r (ap_cl w)) <> None) as Hh by (intros ?; auto).
  unfold remctl_output_. rewrite (bind_Ret _ _ w (cl_r (ap_cl w)) w) by (by unfold on_cl, zoom, gets; destruct w).
  rewrite Hfd, Hp. cbn [bool_decide]. rewrite bool_decide_eq_true_2 by done. rewrite Z.eqb_refl.
  rewrite (bool_decide_eq_false_2 (r_host _ = None)) by done. cbn [andb orb negb].
  rewrite (bind_Ret _ _ w tt (put_cl (Cl (set_error None (cl_r (ap_cl w))) (cl_chan (ap_cl w)) (cl_fds (ap_cl w))) w)) by done.
  apply on_cl_fault, v1_output_closed; [done|]. intros Hv. apply Hn. right. right. right. exact Hv.
Qed.

(** There is room for another descriptor. *)
Definition roomy w : Prop := fd_room (cl_fds (ap_cl w)) (r_timeout (cl_r (ap_cl w))).

Lemma roomy_same w w' : same_object (ap_cl w) (ap_cl w') -> cl_fds (ap_cl w') = cl_fds (ap_cl w) -> roomy w -> roomy w'.
Proof. intros Hs Hf. unfold roomy. by rewrite Hf, (same_object_timeout _ _ Hs). Qed.

(** A connection attempt without a socket to make fails. *)
Lemma internal_connect_none host port w : roomy w -> ap_next w = [] ->
  exists w', internal_connect host port w = Ret None w' /\ same_object (ap_cl w) (ap_cl w') /\
    cl_fds (ap_cl w') = cl_fds (ap_cl w) /\ ap_next w' = [].
Proof.
  intros Hroom Hn. pose proof (internal_connect_runs host port w Hroom) as Hr.
  apply runs_elim in Hr as (s & w' & E & (Hs & Hnext) & Hm). destruct s as [[fd ch]|].
  - destruct Hm as (_ & _ & b & Hb & _). simpl in Hb. rewrite Hn in Hb. by apply elem_of_nil in Hb.
  - exists w'. split; [done|]. split; [done|]. split; [done|]. rewrite Hn in Hnext. destruct (ap_next w') as [|a l]; [done|].
    exfalso. by apply (not_elem_of_nil a), Hnext, list_elem_of_here.
Qed.

(** [internal_reset] on a connected object closes the descriptor and keeps
    its number. *)
Lemma reset_connected F fd w : owns F w -> r_fd (cl_r (ap_cl w)) = Some fd ->
  exists w', internal_reset w = Ret tt w' /\ r_fd (cl_r (ap_cl w')) = Some fd /\ fd ∉ cl_fds (ap_cl w') /\
    r_protocol (cl_r (ap_cl w')) = r_protocol (cl_r (ap_cl w)) /\ ap_next w' = ap_next w /\ roomy w'.
Proof.
  intros Ho Hfd. assert (runs internal_reset (fun _ w' => r_fd (cl_r (ap_cl w')) = Some fd /\ fd ∉ cl_fds (ap_cl w') /\
    r_protocol (cl_r (ap_cl w')) = r_protocol (cl_r (ap_cl w)) /\ ap_next w' = ap_next w /\ roomy w') w) as Hr;
    [|apply runs_elim in Hr as ([] & w' & E & Hw'); by exists w'].
  assert (connected (ap_cl w)) as Hc by (eapply owns_connected; [done|congruence]).
  unfold internal_reset. apply runs_bind, runs_on_cl, runs_field. rewrite Hfd. apply runs_bind, runs_bind.
  apply runs_on_cl, runs_field, runs_bind. replace (put_cl _ _) with w by by destruct w.
  eapply runs_mono with (Q := fun _ w' => r_fd (cl_r (ap_cl w')) = Some fd /\
    r_protocol (cl_r (ap_cl w')) = r_protocol (cl_r (ap_cl w)) /\ ap_next w' = ap_next w /\
    fd_room (cl_fds (ap_cl w') ∖ {[fd]}) (r_timeout (cl_r (ap_cl w')))).
  { assert (fd_room (cl_fds (ap_cl w) ∖ {[fd]}) (r_timeout (cl_r (ap_cl w)))) as Hroom.
    { destruct Ho as (Hf & _ & Hr & _). rewrite Hfd in Hf. destruct Hf as [_ ->].
      by eapply fd_room_subset; [|exact Hr]; set_solver. }
    destruct (1 <? _); [|by apply runs_ret]. apply runs_bind. eapply runs_stays; [by apply stays_v2_quit|].
    intros ok c [P _] [[E1 E2]%link_eq E3]. apply runs_ret. unfold peer in P. simpl in *. destruct w. simpl in *.
    rewrite E2, E3. repeat split; congruence. }
  intros [] w1 (E1 & E2 & E3 & Hroom). apply runs_on_cl, runs_modify, runs_bind, runs_on_cl, runs_update, runs_on_cl, runs_update.
  unfold roomy. simpl. rewrite E1. split; [done|]. split; [set_solver|done].
Qed.

Lemma open_stale F fd host port principal w :
  owns F w -> r_fd (cl_r (ap_cl w)) = Some fd -> ap_next w = [] ->
  exists w', remctl_open host port principal w = Ret false w' /\
    r_fd (cl_r (ap_cl w')) = Some fd /\ fd ∉ cl_fds (ap_cl w') /\
    r_protocol (cl_r (ap_cl w')) = r_protocol (cl_r (ap_cl w)).
Proof.
  intros Ho Hfd Hn. destruct (reset_connected _ _ _ Ho Hfd) as (w1 & E1 & F1 & N1 & P1 & X1 & M1).
  unfold remctl_open. rewrite (bind_Ret _ _ _ _ _ E1).
  set (w2 := put_cl (Cl (set_peer (Some host) port principal (cl_r (ap_cl w1))) (cl_chan (ap_cl w1)) (cl_fds (ap_cl w1))) w1).
  rewrite (bind_Ret _ _ w1 tt w2) by done. rewrite Hn in X1.
  destruct (internal_connect_none host (if port =? 0 then REMCTL_PORT else port) w2 M1 X1) as (w3 & E3 & S3 & D3 & X3).
  destruct (same_object_fd _ _ S3) as [F3 P3]. simpl in F3, D3, P3.
  rewrite (bind_Ret _ _ _ _ _ E3). destruct (port =? 0).
  - set (w4 := put_cl (Cl (set_error None (cl_r (ap_cl w3))) (cl_chan (ap_cl w3)) (cl_fds (ap_cl w3))) w3).
    assert (roomy w4) as M4 by (by apply (roomy_same w2)).
    destruct (internal_connect_none host REMCTL_PORT_OLD w4 M4 X3) as (w5 & E5 & S5 & D5 & X5).
    destruct (same_object_fd _ _ S5) as [F5 P5]. simpl in F5, D5, P5.
    set (w6 := put_cl (Cl (set_error (r_error (cl_r (ap_cl w3))) (cl_r (ap_cl w5))) (cl_chan (ap_cl w5)) (cl_fds (ap_cl w5))) w5).
    exists w6. split.
    + rewrite (bind_Ret _ _ w3 None w6); [done|].
      rewrite (bind_Ret _ _ w3 (r_error (cl_r (ap_cl w3))) w3) by (by unfold on_cl, zoom, field, gets; destruct w3).
      rewrite (bind_Ret _ _ w3 tt w4) by done. by rewrite (bind_Ret _ _ _ _ _ E5).
    + simpl. rewrite F5, D5, P5, F3, D3, P3. done.
  - exists w3. split; [done|]. rewrite F3, D3, P3. done.
Qed.

Lemma close_stale fd w : r_fd (cl_r (ap_cl w)) = Some fd -> fd ∉ cl_fds (ap_cl w) ->
  1 < r_protocol (cl_r (ap_cl w)) -> remctl_close w = Fault /\ remctl_noop w = Fault.
Proof.
  intros Hfd Hn Hp. split.
  - unfold remctl_close. unfold bind, on_cl, zoom, field, gets. simpl. rewrite Hfd, (proj2 (Z.ltb_lt _ _)) by done.
    unfold internal_v2_quit, bind. simpl. by rewrite (send_closed _ _ _ fd).
  - unfold remctl_noop, internal_reopen. unfold bind, on_cl, zoom, field, gets, ret. simpl. rewrite Hfd. simpl.
    rewrite (proj2 (Z.eqb_neq _ _)) by lia. unfold internal_noop, bind. by rewrite (send_closed _ _ _ fd).
Qed.
(** A timeout and a descriptor that [select] cannot wait for. *)
Lemma large_descriptor_faults fd w : r_fd (cl_r (ap_cl w)) = Some fd -> fd ∈ cl_fds (ap_cl w) ->
  FD_SETSIZE <= fd -> r_timeout (cl_r (ap_cl w)) <> 0 -> r_protocol (cl_r (ap_cl w)) = 2 ->
  r_ready (cl_r (ap_cl w)) = true -> remctl_output_ w = Fault.
Proof.
  intros Hfd Hin Hbig Ht Hp Hready. assert (~ selectable fd (r_timeout (cl_r (ap_cl w)))) as Hn by (unfold selectable; lia).
  unfold remctl_output_. unfold bind, on_cl, zoom, gets, clear_error, update, modify. simpl.
  rewrite Hfd, bool_decide_eq_false_2, Hp by done. simpl.
  unfold internal_v2_output. unfold bind, update, modify, field, gets. simpl. rewrite Hready. cbn [negb].
  unfold internal_v2_read_token, recv_priv. unfold bind, field, gets, on_fd, zoom. simpl.
  rewrite Hfd, bool_decide_eq_true_2 by done.
  unfold token_recv_priv, on_net. unfold bind, zoom, token_recv. simpl. unfold bind. by rewrite network_read_fault.
Qed.
End session.

(** C7: the client library is safe to use.  From a new object on, after any
    sequence of API calls that respect [allowed], whatever the network, the
    resolver, GSS-API, Kerberos and the server answer, every further allowed
    call ends without undefined behaviour.  [allowed] lets a timeout be set
    only while the descriptors it may have to wait for are below [FD_SETSIZE]:
    the one in use, and the next one that a process with the descriptors [F]
    gets.  Between calls the object holds at most one
    descriptor, open and not one of the caller's; and [remctl_close] leaves
    exactly the caller's descriptors open. *)
Theorem api_session_safe {C} {HM : GssMech C} {HG : GssClient C} {HI : Inet} F (w : api C) :
  session F w ->
  (forall c, allowed F w c -> exists w', run_call c w = Ret tt w' /\ session (call_fds F c) w') /\
  (exists w', remctl_close w = Ret tt w' /\ cl_fds (ap_cl w') = F) /\
  match r_fd (cl_r (ap_cl w)) with
  | Some fd => fd ∉ F /\ cl_fds (ap_cl w) = {[fd]} ∪ F
  | None => cl_fds (ap_cl w) = F
  end.
Proof.
  intros Hs. pose proof (session_owns _ _ Hs) as Ho. split; [|split; [|apply Ho]].
  - intros c Ha. pose proof (call_runs _ _ _ Ho Ha) as Hr. apply runs_elim in Hr as ([] & w' & E & _).
    exists w'. split; [done|]. by eapply session_call.
  - pose proof (close_runs _ _ Ho) as Hr. apply runs_elim in Hr as ([] & w' & E & Hf & _). by exists w'.
Qed.

(** A process with the three standard descriptors and one socket to make. *)
Definition demo_api (sent : bytes) : @api unit null_client :=
  Api (Cl new_remctl null_chan {[0; 1; 2]}) [null_attempt sent] 0 [] false None.

Lemma api_session_safe_witness :
  let _ := null_mech in let _ := null_client in let _ := null_inet in
  exists w : api unit, session {[0; 1; 2]} w /\ r_fd (cl_r (ap_cl w)) = Some 3 /\
    (forall c, allowed {[0; 1; 2]} w c ->
       exists w', run_call c w = Ret tt w' /\ session (call_fds {[0; 1; 2]} c) w') /\
    (exists w', remctl_close w = Ret tt w' /\ cl_fds (ap_cl w') = {[0; 1; 2]}) /\
    match r_fd (cl_r (ap_cl w)) with
    | Some fd => fd ∉ ({[0; 1; 2]} : gset Z) /\ cl_fds (ap_cl w) = {[fd]} ∪ {[0; 1; 2]}
    | None => cl_fds (ap_cl w) = {[0; 1; 2]}
    end.
Proof.
  intros mech gss inet.
  assert (exists w, run_call (CallOpen (str "host") 0 None) (demo_api null_welcome) = Ret tt w) as [w E]
    by (eexists; vm_compute; reflexivity).
  assert (session {[0; 1; 2]} w) as Hs.
  { pose proof (session_call {[0; 1; 2]} (demo_api null_welcome) (CallOpen (str "host") 0 None) w) as Hcall.
    cbn [call_fds] in Hcall. apply Hcall; [|done|exact E]. by apply (session_new (demo_api null_welcome)). }
  exists w. split; [exact Hs|]. split.
  - vm_compute in E. injection E as <-. reflexivity.
  - apply (api_session_safe {[0; 1; 2]} w Hs).
Defined.

(** C37: what happens without the conditions.  Asking a protocol one object
    for output that cannot come reads from no descriptor.  Opening an object
    that is connected, when no new connection can be made, leaves it with the
    number of a closed descriptor; closing it, or sending on it, then uses
    that descriptor. *)
Theorem api_misuse_faults {C} {HM : GssMech C} {HG : GssClient C} {HI : Inet} F (w : api C) :
  owns F w ->
  (~ can_output w -> remctl_output_ w = Fault) /\
  (forall fd host port principal, r_fd (cl_r (ap_cl w)) = Some fd -> ap_next w = [] ->
     exists w', remctl_open host port principal w = Ret false w' /\
       r_fd (cl_r (ap_cl w')) = Some fd /\ fd ∉ cl_fds (ap_cl w') /\
       (1 < r_protocol (cl_r (ap_cl w)) -> remctl_close w' = Fault /\ remctl_noop w' = Fault)).
Proof.
  intros Ho. split; [apply output_fault|]. intros fd host port principal Hfd Hn.
  destruct (open_stale _ _ host port principal _ Ho Hfd Hn) as (w' & E & F' & N' & P').
  exists w'. split; [done|]. split; [done|]. split; [done|]. intros Hp. apply (close_stale fd); [done|done|lia].
Qed.

Lemma api_misuse_faults_witness :
  let _ := null_mech in let _ := null_client in let _ := null_inet in
  exists w : api unit, owns {[0; 1; 2]} w /\ r_fd (cl_r (ap_cl w)) = Some 3 /\ ap_next w = [] /\
  (~ can_output w -> remctl_output_ w = Fault) /\
  (forall fd host port principal, r_fd (cl_r (ap_cl w)) = Some fd -> ap_next w = [] ->
     exists w', remctl_open host port principal w = Ret false w' /\
       r_fd (cl_r (ap_cl w')) = Some fd /\ fd ∉ cl_fds (ap_cl w') /\
       (1 < r_protocol (cl_r (ap_cl w)) -> remctl_close w' = Fault /\ remctl_noop w' = Fault)).
Proof.
  intros mech gss inet.
  set (w := Api (Cl (set_protocol 2 (set_fd (Some 3) new_remctl)) null_chan {[0; 1; 2; 3]}) [] 0 [] false None : @api unit null_client).
  assert (owns {[0; 1; 2]} w) as Ho by (split; [split; [|apply set_eq; intros x]; simpl; set_solver|split; [simpl; lia|split; [by left|by intros; left]]]).
  exists w. split; [exact Ho|]. split; [done|]. split; [done|]. apply (api_misuse_faults {[0; 1; 2]} w Ho).
Defined.
