(* ===== verification/Server.v ===== *)
(** The server's data ([server/internal.h]), its state, its error logging
    ([server/logging.c]) and what each protocol sends: the v2 messages of
    [server/server-v2.c], the v1 reply of [server/server-v1.c] and the error
    reply of [server/server-ssh.c].

    Every server operation acts on a [world]: the connection, the fields of
    [struct client], the log, and the histories and scripts of the processes
    the server runs.  An evbuffer is the list of its bytes. *)

From S2P Require Import Prelude Effects Net Tokens Command.

(** * Data *)

(** Which callbacks [client->setup], [finish] and [error] point to. *)
Inductive client_kind : Type := KindV1 | KindV2 | KindSsh.

Record client : Type := Client {
  c_kind : client_kind;
  c_fd : Z;
  c_hostname : option bytes;
  c_ipaddress : bytes;
  c_protocol : Z;
  c_user : bytes;
  c_anonymous : bool;
  c_flags : Z;
  c_expires : Z;
  c_keepalive : bool;
  c_fatal : bool;
}.

Definition set_keepalive b c := Client (c_kind c) (c_fd c) (c_hostname c) (c_ipaddress c) (c_protocol c)
  (c_user c) (c_anonymous c) (c_flags c) (c_expires c) b (c_fatal c).
Definition set_fatal b c := Client (c_kind c) (c_fd c) (c_hostname c) (c_ipaddress c) (c_protocol c)
  (c_user c) (c_anonymous c) (c_flags c) (c_expires c) (c_keepalive c) b.

Record rule : Type := Rule {
  ru_file : bytes;
  ru_lineno : Z;
  ru_command : bytes;
  ru_subcommand : bytes;
  ru_program : bytes;
  ru_logmask : option (list Z);     (* zero-terminated, as stored *)
  ru_stdin_arg : Z;
  ru_user : option bytes;
  ru_sudo_user : option bytes;
  ru_uid : Z;
  ru_gid : Z;
  ru_summary : option bytes;
  ru_help : option bytes;
  ru_acls : list bytes;
}.

(** [struct config] without the array's capacity. *)
Abbreviation config := (list rule).

(** The part of [struct process] its callers see. *)
Record process : Type := Process {
  p_command : bytes;
  p_argv : list bytes;
  p_rule : option rule;
  p_input : option bytes;           (* evbuffer, NULL without input *)
  p_output : option bytes;          (* evbuffer, NULL until collected *)
  p_status : Z;
}.

(** [memset(&process, 0, sizeof(process))]. *)
Definition empty_process : process := Process [] [] None None None 0.

(** A program the child has executed. *)
Record exec : Type := Exec {
  x_path : bytes;
  x_argv : list bytes;
  x_env : list (bytes * bytes);
  x_user : option (bytes * Z * Z);  (* initgroups, setgid and setuid calls *)
  x_stdin : option bytes;           (* None: /dev/null *)
}.

(** What libevent calls while a process runs: data arriving in an input
    buffer, the read callback, the write callback (the input has drained), an
    event callback with its flags and [socket_errno], and SIGCHLD with the
    status [waitpid] reaps, if it does. *)
Inductive stream : Type := OutStream | ErrStream.
Inductive bevent : Type :=
  | EvData (st : stream) (d : bytes)
  | EvRead (st : stream)
  | EvWritten
  | EvIo (st : stream) (eof error reading : bool) (errno : Z)
  | EvChild (status : option Z).

Inductive spawn : Type := SpawnOk (pid : Z) (stdinout stderr : Z)
  | SpawnNoSocket | SpawnNoErrSocket | SpawnNoFork.

(** The fate of the next child process. *)
Record child : Type := Child {
  ch_spawn : spawn;
  ch_main : list bevent;            (* all that happens in event_base_dispatch *)
  ch_rounds : list (list bevent);   (* the EVLOOP_NONBLOCK runs after it *)
  ch_wait : option Z;               (* what a waitpid for it stores, if it returns *)
}.

Record world (C : Type) : Type := World {
  w_chan : chan C;
  w_client : client;
  w_log : list logline;
  w_children : list child;
  w_execs : list exec;              (* history, oldest first *)
  w_closed : list Z;                (* history of close(2) on process descriptors *)
  w_stdout : net;                   (* remctl-shell's two output descriptors *)
  w_stderr : net;
}.
Arguments World {C}.
Arguments w_chan {C}.
Arguments w_client {C}.
Arguments w_log {C}.
Arguments w_children {C}.
Arguments w_execs {C}.
Arguments w_closed {C}.
Arguments w_stdout {C}.
Arguments w_stderr {C}.

Definition TIMEOUT : Z := 60 * 60.
Definition PATH_SUDO : bytes := str "sudo".

Section server.
Context {C : Type} `{GssMech C}.
Implicit Types w : world C.

Definition put_chan ch w : world C := World ch (w_client w) (w_log w) (w_children w) (w_execs w)
  (w_closed w) (w_stdout w) (w_stderr w).
Definition put_client c w : world C := World (w_chan w) c (w_log w) (w_children w) (w_execs w)
  (w_closed w) (w_stdout w) (w_stderr w).
Definition put_log l w : world C := World (w_chan w) (w_client w) l (w_children w) (w_execs w)
  (w_closed w) (w_stdout w) (w_stderr w).
Definition put_children c w : world C := World (w_chan w) (w_client w) (w_log w) c (w_execs w)
  (w_closed w) (w_stdout w) (w_stderr w).
Definition put_execs x w : world C := World (w_chan w) (w_client w) (w_log w) (w_children w) x
  (w_closed w) (w_stdout w) (w_stderr w).
Definition put_closed x w : world C := World (w_chan w) (w_client w) (w_log w) (w_children w) (w_execs w)
  x (w_stdout w) (w_stderr w).
Definition put_stdout n w : world C := World (w_chan w) (w_client w) (w_log w) (w_children w) (w_execs w)
  (w_closed w) n (w_stderr w).
Definition put_stderr n w : world C := World (w_chan w) (w_client w) (w_log w) (w_children w) (w_execs w)
  (w_closed w) (w_stdout w) n.

#[export] Instance world_HasLog : HasLog (world C) := fun l w => put_log (w_log w ++ [l]) w.

Definition on_chan {A} (m : M (chan C) A) : M (world C) A := zoom w_chan put_chan m.
Definition on_client (f : client -> client) : M (world C) unit :=
  modify (fun w => put_client (f (w_client w)) w).
Definition client_get {A} (f : client -> A) : M (world C) A := gets (fun w => f (w_client w)).

(** ** server/logging.c *)

Definition warn_gssapi (what : string) : M (world C) unit :=
  warn "GSS-API error %s" [AStr (str what)].

Definition warn_token (what : string) (status : token_status) : M (world C) unit :=
  let* errno := gets (fun w => n_errno (ch_net (w_chan w))) in
  let w := AStr (str what) in
  match status with
  | TOKEN_OK => warn "error %s" [w]
  | TOKEN_FAIL_SYSTEM => syswarn "error %s" [w]
  | TOKEN_FAIL_SOCKET => warn "error %s: %s" [w; AErr errno]
  | TOKEN_FAIL_INVALID => warn "error %s: invalid token format" [w]
  | TOKEN_FAIL_LARGE => warn "error %s: token too large" [w]
  | TOKEN_FAIL_EOF => warn "error %s: unexpected end of file" [w]
  | TOKEN_FAIL_GSSAPI => warn_gssapi what
  | TOKEN_FAIL_TIMEOUT => warn "error %s: timed out" [w]
  end.

(** ** server/server-v2.c: sending *)

Definition server_send (flags : Z) (tok : bytes) : M (world C) token_status :=
  let* fd := client_get c_fd in on_chan (token_send_priv fd flags tok TIMEOUT).

Lemma server_send_eq flags tok w :
  server_send flags tok w = on_chan (token_send_priv (c_fd (w_client w)) flags tok TIMEOUT) w.
Proof. done. Qed.

(** The end of every v2 sender. *)
Definition v2_send (what : string) (tok : bytes) : M (world C) bool :=
  let* status := server_send v2_flags tok in
  if negb (status_ok status) then
    do* warn_token what status in
    do* on_client (set_fatal true) in
    ret false
  else ret true.

(** [evbuffer_remove] empties the buffer: the caller's copy is gone. *)
Definition server_v2_send_output (stream : Z) (output : bytes) : M (world C) bool :=
  if (stream <? 0) || (128 <? stream) then die "internal error: invalid stream number" []
  else
    let outlen := blen output in
    if UINT32_MAX - 1 - 1 - 1 - 4 <=? outlen then
      die "internal error: memory allocation too large" []
    else
      v2_send "sending output token"
        ([bz 2; bz MESSAGE_OUTPUT; bz stream] ++ be32 outlen ++ output).

Definition status_byte (exit_status : Z) : Z :=
  if (255 <? exit_status) || (exit_status <? -127) then -1 else exit_status.

Definition server_v2_command_finish (output : option bytes) (exit_status : Z) : M (world C) bool :=
  v2_send "sending status token" [bz 2; bz MESSAGE_STATUS; bz (status_byte exit_status)].

Definition server_v2_send_error (code : error_codes) (message : bytes) : M (world C) bool :=
  if UINT32_MAX - 1 - 1 - 4 - 4 <=? blen message then
    die "internal error: memory allocation too large" []
  else
    v2_send "sending error token"
      ([bz 2; bz MESSAGE_ERROR] ++ be32 (error_num code) ++ be32 (blen message) ++ message).

Definition server_v2_send_version : M (world C) bool :=
  v2_send "sending version token" [bz 2; bz MESSAGE_VERSION; bz 3].

Definition server_v3_send_noop : M (world C) bool :=
  v2_send "sending no-op token" [bz 3; bz MESSAGE_NOOP].

(** ** server/server-v1.c: sending *)

(** An [output] that is [NULL] is never passed to protocol one. *)
Definition server_v1_send_output (output : option bytes) (exit_status : Z) : M (world C) bool :=
  let* output := from_option_fault output in
  let outlen := blen output in
  if UINT32_MAX - 4 - 4 <=? outlen then die "internal error: memory allocation too large" []
  else
    let* status := server_send TOKEN_DATA (be32 exit_status ++ be32 outlen ++ output) in
    if negb (status_ok status) then
      do* warn_token "sending output token" status in ret false
    else ret true.

Definition server_v1_send_error (code : error_codes) (message : bytes) : M (world C) bool :=
  server_v1_send_output (Some (message ++ [x0a])) (-1).

(** ** server/server-ssh.c: finishing and errors *)

Definition command_finish (output : option bytes) (exit_status : Z) : M (world C) bool :=
  ret true.

Definition send_error (code : error_codes) (message : bytes) : M (world C) bool :=
  let* status := zoom w_stderr put_stderr (xwrite message) in
  let* status := if 0 <=? status then zoom w_stderr put_stderr (xwrite [x0a]) else ret status in
  if status <? 0 then
    do* syswarn "error sending error message" [] in
    do* on_client (set_fatal true) in
    ret false
  else ret true.

(** The function pointers of the client struct. *)
#[export] Instance world_Callbacks : Callbacks (world C) := {|
  client_error code msg :=
    let* kind := client_get c_kind in
    match kind with
    | KindV1 => server_v1_send_error code msg
    | KindV2 => server_v2_send_error code msg
    | KindSsh => send_error code msg
    end;
  client_finish output status :=
    let* kind := client_get c_kind in
    match kind with
    | KindV1 => server_v1_send_output output status
    | KindV2 => server_v2_command_finish output status
    | KindSsh => command_finish output status
    end;
|}.
End server.
