(* ===== verification/Acl.v ===== *)
(** Access control: the ACL half of [server/config.c].

    Files, directories and the libraries the ACL schemes call are the
    parameters of [AclEnv]; the checks log, and recursion through deny rules
    and included files takes fuel, one unit per [acl_check]. *)

From S2P Require Import Prelude Effects CLib Vector Server.

(** * The environment *)

(** A regular expression library's answer: a pattern that does not compile,
    with the place and the message, or the outcome of the match. *)
Inductive regex_result : Type :=
  | RegexBad (offset : Z) (error : bytes) | RegexMatch | RegexNoMatch | RegexError (error : bytes).

Record group : Type := Group { gr_gid : Z; gr_mem : list bytes }.

(** What the kernel, the C library and the ACL libraries answer.  [None] is
    a failing call. *)
(** How [krb5_aname_to_localname] ends: the name in its buffer, no name
    ([KRB5_LNAME_NOTRANS] or [KRB5_NO_LOCALNAME]), or another error. *)
Inductive localname : Type :=
  | LocalName (buffer : bytes)
  | NoLocalName
  | LocalError (code : Z).

Class AclEnv : Type := {
  fs_isdir : bytes -> option bool;                 (* stat *)
  fs_readdir : bytes -> option (list bytes);       (* opendir, readdir *)
  fs_read : bytes -> option bytes;                 (* fopen and the contents *)
  have_gput : bool;                                (* HAVE_GPUT *)
  have_localgroup : bool;                          (* HAVE_KRB5 && HAVE_GETGRNAM_R *)
  have_pcre : bool;                                (* HAVE_PCRE2 *)
  have_regex : bool;                               (* HAVE_REGCOMP *)
  gput_open_ok : bool;
  gput_check : bytes -> bytes -> option bytes -> bool;   (* role, user, xform *)
  pcre_match : bytes -> bytes -> regex_result;     (* pattern, subject *)
  regex_match : bytes -> bytes -> regex_result;
  getgrnam_r : bytes -> list (Z * option group);   (* status of successive calls *)
  krb5_init_context : Z;
  krb5_parse_name : bytes -> Z;
  krb5_aname_to_localname : bytes -> localname;
  pw_gid : bytes -> option Z;                      (* getpwnam *)
}.

(** * stdio and ctype *)

(** [fgets(buffer, size, file)]: the line read and the rest of the file. *)
Fixpoint fgets (room : nat) (content : bytes) : bytes * bytes :=
  match room, content with
  | O, _ => ([], content)
  | _, [] => ([], [])
  | Datatypes.S room, c :: content =>
      if byte_eqb c x0a then ([c], content)
      else let '(l, rest) := fgets room content in (c :: l, rest)
  end.

(** Successive [fgets] into a buffer of [size] bytes, to the end of file. *)
Fixpoint fgets_all (fuel : nat) (size : nat) (content : bytes) : list bytes :=
  match fuel, content with
  | _, [] => []
  | O, _ => []
  | Datatypes.S fuel, _ =>
      let '(l, rest) := fgets (pred size) content in l :: fgets_all fuel size rest
  end.

(** [p = buffer + length - 1; while (p > buffer && isspace( *p)) p--;
    p[1] = '\0'] *)
Fixpoint trim_back (rev : bytes) : bytes :=
  match rev with
  | [] => []
  | [c] => [c]
  | c :: rev' => if isspace c then trim_back rev' else rev
  end.
Definition trim_end (s : bytes) : bytes := reverse (trim_back (reverse s)).

(** [strchr(s, c)]: the parts before and after the first occurrence. *)
Fixpoint cut (c : byte) (s : bytes) : option (bytes * bytes) :=
  match s with
  | [] => None
  | d :: s => if byte_eqb d c then Some ([], s)
              else match cut c s with Some (a, b) => Some (d :: a, b) | None => None end
  end.

(** * server/config.c *)

Inductive config_status : Type := CONFIG_SUCCESS | CONFIG_NOMATCH | CONFIG_ERROR | CONFIG_DENY.

Definition status_num (s : config_status) : Z :=
  match s with CONFIG_SUCCESS => 0 | CONFIG_NOMATCH => -1 | CONFIG_ERROR => -2 | CONFIG_DENY => -3 end.

#[export] Instance config_status_eq_dec : EqDecision config_status.
Proof. solve_decision. Defined.

Definition filename_char (c : byte) : bool :=
  ((65 <=? bs c) && (bs c <=? 90)) || ((97 <=? bs c) && (bs c <=? 122)) ||
  ((48 <=? bs c) && (bs c <=? 57)) || byte_eqb c "_" || byte_eqb c "-".

Definition valid_filename (filename : bytes) : bool := forallb filename_char filename.

(** The schemes of the table, in its order. *)
Inductive acl_scheme : Type :=
  | SchemeFile | SchemePrinc | SchemeAnyuser | SchemeDeny
  | SchemeGput | SchemeLocalgroup | SchemePcre | SchemeRegex.

#[export] Instance acl_scheme_eq_dec : EqDecision acl_scheme.
Proof. solve_decision. Defined.

Definition schemes : list (bytes * acl_scheme) :=
  [(str "file", SchemeFile); (str "princ", SchemePrinc); (str "anyuser", SchemeAnyuser);
   (str "deny", SchemeDeny); (str "gput", SchemeGput); (str "localgroup", SchemeLocalgroup);
   (str "pcre", SchemePcre); (str "regex", SchemeRegex)].

Definition find_scheme (prefix : bytes) : option (bytes * acl_scheme) :=
  List.find (fun e => bytes_eqb prefix e.1) schemes.

(** What a line of an ACL file asks for, as [acl_check_file_internal] parses
    it: [raw] is the buffer [fgets] filled. *)
Inductive acl_line_kind : Type :=
  | LineTooLong | LineSkip | LineError | LineOverrun
  | LineEntry (entry : bytes) (def : bytes * acl_scheme).

Definition BUFSIZ : nat := Z.to_nat 8192.

Definition acl_parse_line (raw : bytes) : acl_line_kind :=
  let buffer := cstr raw in
  if Z.of_nat BUFSIZ - 1 <=? blen buffer then LineTooLong
  else
    let buffer := trim_end buffer in
    let p := skip_space buffer in
    match p with
    | [] => LineSkip
    | c :: _ =>
        if byte_eqb c "#" then LineSkip
        else if negb (has_byte " " p) then LineEntry p (str "princ", SchemePrinc)
        else
          match vector_split_space buffer None with
          | None => LineOverrun
          | Some line =>
              match v_strings line with
              | [s0; s1] =>
                  if bytes_eqb s0 (str "include") then LineEntry s1 (str "file", SchemeFile)
                  else LineError
              | _ => LineError
              end
          end
    end.

Section acl.
Context {S : Type} `{HasLog S} `{AclEnv}.
Context (user : bytes) (anonymous : bool).    (* from struct client *)

(** [handle_include], with [function] applied to its [data]. *)
Definition handle_include {A} (error : A) (nomatch : A) (num : A -> Z)
    (included file : bytes) (lineno : Z) (function : bytes -> M S A) : M S A :=
  if bytes_eqb included file then
    do* warn "%s:%lu: %s recursively included" [AStr file; AInt lineno; AStr file] in ret error
  else
    match fs_isdir included with
    | None =>
        do* syswarn "%s:%lu: included file %s not found" [AStr file; AInt lineno; AStr included] in
        ret error
    | Some false => function included
    | Some true =>
        match fs_readdir included with
        | None =>
            do* syswarn "%s:%lu: included directory %s cannot be opened"
              [AStr file; AInt lineno; AStr included] in
            ret error
        | Some entries =>
            let fix go (entries : list bytes) (status : A) : M S A :=
              match entries with
              | [] => ret status
              | d_name :: entries =>
                  if negb (valid_filename d_name) then go entries status
                  else
                    let* last := function (included ++ str "/" ++ d_name) in
                    if num last <? -1 then ret last
                    else go entries (if num status <? num last then last else status)
              end in
            go entries nomatch
        end
    end.

Definition acl_include := handle_include CONFIG_ERROR CONFIG_NOMATCH status_num.

Definition acl_check_princ (data : bytes) : M S config_status :=
  ret (if bytes_eqb user data then CONFIG_SUCCESS else CONFIG_NOMATCH).

Definition acl_check_anyuser (data file : bytes) (lineno : Z) : M S config_status :=
  if bytes_eqb data (str "auth") then
    ret (if anonymous then CONFIG_NOMATCH else CONFIG_SUCCESS)
  else if bytes_eqb data (str "anonymous") then ret CONFIG_SUCCESS
  else
    do* warn "%s:%lu: invalid ACL value 'anyuser:%s'" [AStr file; AInt lineno; AStr data] in
    ret CONFIG_ERROR.

Definition acl_check_gput (data file : bytes) (lineno : Z) : M S config_status :=
  let check (role : bytes) (xform : option bytes) : M S config_status :=
    ret (if negb gput_open_ok then CONFIG_ERROR
         else if gput_check role user xform then CONFIG_SUCCESS else CONFIG_NOMATCH) in
  match cut "[" data with
  | Some (role, rest) =>
      match cut "]" rest with
      | None =>
          do* warn "%s:%lu: missing ] in GPUT specification '%s'" [AStr file; AInt lineno; AStr data] in
          ret CONFIG_ERROR
      | Some (xform, []) => check role (Some xform)
      | Some (_, _ :: _) =>
          do* warn "%s:%lu: invalid GPUT specification '%s'" [AStr file; AInt lineno; AStr data] in
          ret CONFIG_ERROR
      end
  | None => check data None
  end.

Definition regex_failed (data file error : bytes) (lineno : Z) : M S config_status :=
  do* warn "%s:%lu: matching with regex '%s' failed: %s"
    [AStr file; AInt lineno; AStr data; AStr error] in
  ret CONFIG_ERROR.

Definition acl_check_pcre (data file : bytes) (lineno : Z) : M S config_status :=
  match pcre_match data user with
  | RegexBad offset error =>
      do* warn "%s:%lu: compilation of regex '%s' failed around %lu: %s"
        [AStr file; AInt lineno; AStr data; AInt offset; AStr error] in
      ret CONFIG_ERROR
  | RegexMatch => ret CONFIG_SUCCESS
  | RegexNoMatch => ret CONFIG_NOMATCH
  | RegexError error => regex_failed data file error lineno
  end.

Definition acl_check_regex (data file : bytes) (lineno : Z) : M S config_status :=
  match regex_match data user with
  | RegexBad _ error =>
      do* warn "%s:%lu: compilation of regex '%s' failed: %s"
        [AStr file; AInt lineno; AStr data; AStr error] in
      ret CONFIG_ERROR
  | RegexMatch => ret CONFIG_SUCCESS
  | RegexNoMatch => ret CONFIG_NOMATCH
  | RegexError error => regex_failed data file error lineno
  end.

(** [EINTR] and [ERANGE] retry; [inl] is a failure, [inr None] not found. *)
Fixpoint acl_getgrnam (calls : list (Z * option group)) : M S (unit + option group) :=
  match calls with
  | [] => fun _ => NoFuel
  | (status, result) :: calls =>
      if (status =? 4) || (status =? 34) then acl_getgrnam calls
      else if status =? 0 then ret (inr result) else ret (inl tt)
  end.

(** [None] is an error, [Some None] no local name. *)
Definition user_to_localname (user : bytes) : M S (option (option bytes)) :=
  if negb (krb5_init_context =? 0) then do* warn "cannot create Kerberos context" [] in ret None
  else if negb (krb5_parse_name user =? 0) then
    do* warn "cannot parse principal %s: %s" [AStr user; AKrb (krb5_parse_name user)] in ret None
  else
    match krb5_aname_to_localname user with
    | NoLocalName => ret (Some None)
    | LocalName buffer => ret (Some (Some (cstr buffer)))
    | LocalError code =>
        do* warn "conversion of %s to local name failed: %s" [AStr user; AKrb code] in ret None
    end.

Definition acl_check_localgroup (grp file : bytes) (lineno : Z) : M S config_status :=
  let* gr := acl_getgrnam (getgrnam_r grp) in
  match gr with
  | inl _ =>
      do* syswarn "%s:%lu: retrieving membership of localgroup %s failed"
        [AStr file; AInt lineno; AStr grp] in
      ret CONFIG_ERROR
  | inr None => ret CONFIG_NOMATCH
  | inr (Some gr) =>
      let* localname := user_to_localname user in
      match localname with
      | None => ret CONFIG_ERROR
      | Some None => ret CONFIG_NOMATCH
      | Some (Some localname) =>
          match pw_gid localname with
          | None => ret CONFIG_NOMATCH
          | Some gid =>
              ret (if gr_gid gr =? gid then CONFIG_SUCCESS
                   else if existsb (bytes_eqb localname) (gr_mem gr) then CONFIG_SUCCESS
                   else CONFIG_NOMATCH)
          end
      end
  end.

Definition unsupported (name file : bytes) (lineno : Z) : M S config_status :=
  do* warn "%s:%lu: ACL scheme '%s' is not supported" [AStr file; AInt lineno; AStr name] in
  ret CONFIG_ERROR.

(** One line of an ACL file, given [acl_check] for its entries. *)
Definition acl_line (acl_check : bytes -> bytes * acl_scheme -> bytes -> Z -> M S config_status)
    (aclfile : bytes) (lineno : Z) (raw : bytes) : M S config_status :=
  match acl_parse_line raw with
  | LineTooLong =>
      do* warn "%s:%d: ACL file line too long" [AStr aclfile; AInt lineno] in ret CONFIG_ERROR
  | LineSkip => ret CONFIG_NOMATCH
  | LineError => do* warn "%s:%d: parse error" [AStr aclfile; AInt lineno] in ret CONFIG_ERROR
  | LineEntry entry def => acl_check entry def aclfile lineno
  | LineOverrun => fault
  end.

Fixpoint acl_lines (acl_check : bytes -> bytes * acl_scheme -> bytes -> Z -> M S config_status)
    (aclfile : bytes) (lineno : Z) (lines : list bytes) : M S config_status :=
  match lines with
  | [] => ret CONFIG_NOMATCH
  | raw :: lines =>
      let lineno := lineno + 1 in
      let* s := acl_line acl_check aclfile lineno raw in
      if bool_decide (s <> CONFIG_NOMATCH) then ret s
      else acl_lines acl_check aclfile lineno lines
  end.

Definition acl_check_file_internal
    (acl_check : bytes -> bytes * acl_scheme -> bytes -> Z -> M S config_status)
    (aclfile : bytes) : M S config_status :=
  match fs_read aclfile with
  | None => do* syswarn "cannot open ACL file %s" [AStr aclfile] in ret CONFIG_ERROR
  | Some content =>
      acl_lines acl_check aclfile 0 (fgets_all (length content) BUFSIZ content)
  end.

Definition deny_status (s : config_status) : config_status :=
  match s with
  | CONFIG_SUCCESS => CONFIG_DENY
  | CONFIG_NOMATCH => CONFIG_NOMATCH
  | CONFIG_DENY => CONFIG_NOMATCH
  | CONFIG_ERROR => CONFIG_ERROR
  end.

(** The dispatch on an ACL entry: its scheme and data, or [None] for an
    unknown scheme. *)
Definition acl_entry (entry : bytes) (def : bytes * acl_scheme)
    : option (bytes * acl_scheme) * bytes * bytes :=
  let entry := if bytes_eqb entry (str "ANYUSER") then str "anyuser:auth" else entry in
  match cut ":" entry with
  | Some (prefix, data) => (find_scheme prefix, prefix, data)
  | None => (Some def, [], entry)
  end.

Fixpoint acl_check (fuel : nat) (entry : bytes) (def : bytes * acl_scheme) (file : bytes)
    (lineno : Z) : M S config_status :=
  match fuel with
  | O => fun _ => NoFuel
  | Datatypes.S fuel =>
      match acl_entry entry def with
      | (None, prefix, _) =>
          do* warn "%s:%lu: invalid ACL scheme '%s'" [AStr file; AInt lineno; AStr prefix] in
          ret CONFIG_ERROR
      | (Some (name, scheme), _, data) =>
          match scheme with
          | SchemeFile =>
              acl_include data file lineno (acl_check_file_internal (acl_check fuel))
          | SchemePrinc => acl_check_princ data
          | SchemeAnyuser => acl_check_anyuser data file lineno
          | SchemeDeny =>
              let* s := acl_check fuel data (str "princ", SchemePrinc) file lineno in
              ret (deny_status s)
          | SchemeGput =>
              if have_gput then acl_check_gput data file lineno else unsupported name file lineno
          | SchemeLocalgroup =>
              if have_localgroup then acl_check_localgroup data file lineno
              else unsupported name file lineno
          | SchemePcre =>
              if have_pcre then acl_check_pcre data file lineno else unsupported name file lineno
          | SchemeRegex =>
              if have_regex then acl_check_regex data file lineno else unsupported name file lineno
          end
      end
  end.

(** The loop of [server_config_acl_permit]. *)
Fixpoint acl_permit_loop (fuel : nat) (file : bytes) (lineno : Z) (acls : list bytes) : M S bool :=
  match acls with
  | [] => ret false
  | acl :: acls =>
      let* status := acl_check fuel acl (str "file", SchemeFile) file lineno in
      if status_num status =? 0 then ret true
      else if status_num status <? -1 then ret false
      else acl_permit_loop fuel file lineno acls
  end.
End acl.

Definition server_config_acl_permit {S} `{HasLog S} `{AclEnv} (fuel : nat) (ru : rule) (c : client)
    : M S bool :=
  acl_permit_loop (c_user c) (c_anonymous c) fuel (ru_file ru) (ru_lineno ru) (ru_acls ru).

(** * Lemmas *)

(** An operation that always returns, whatever the state. *)
Definition returns {S A} (m : M S A) : Prop := forall s, exists a s', m s = Ret a s'.

(** ... and that does so for all fuel from some point on. *)
Definition terminates {S A} (m : nat -> M S A) : Prop :=
  exists n, forall k, (n <= k)%nat -> returns (m k).

Section returns.
Context {S : Type}.

Lemma returns_ret {A} (a : A) : returns (S:=S) (ret a).
Proof. intros s. by eexists _, _. Qed.
Lemma returns_modify (f : S -> S) : returns (modify f).
Proof. intros s. by eexists _, _. Qed.
Lemma returns_bind {A B} (m : M S A) (k : A -> M S B) :
  returns m -> (forall a, returns (k a)) -> returns (bind m k).
Proof.
  intros Hm Hk s. destruct (Hm s) as (a & s' & E). unfold bind. rewrite E. apply Hk.
Qed.
Lemma terminates_const {A} (m : M S A) : returns m -> terminates (fun _ => m).
Proof. intros H. by exists 0%nat. Qed.
Lemma terminates_bind {A B} (m : nat -> M S A) (k : nat -> A -> M S B) :
  terminates m -> (exists n, forall j, (n <= j)%nat -> forall a, returns (k j a)) ->
  terminates (fun n => bind (m n) (k n)).
Proof.
  intros [n Hm] [n' Hk]. exists (n + n')%nat. intros j Hj.
  apply returns_bind; [apply Hm; lia|apply Hk; lia].
Qed.

Lemma returns_warn_ret `{HasLog S} {A} fmt args (a : A) : returns (S:=S) (do* warn fmt args in ret a).
Proof. intros s. by eexists _, _. Qed.
Lemma returns_syswarn_ret `{HasLog S} {A} fmt args (a : A) :
  returns (S:=S) (do* syswarn fmt args in ret a).
Proof. intros s. by eexists _, _. Qed.
End returns.

Create HintDb returns.
#[export] Hint Resolve returns_ret returns_modify returns_warn_ret returns_syswarn_ret : returns.

(** [skip_space], [trim_end] and [cstr] keep a string free of nuls. *)
Lemma skip_space_sub s : skip_space s ⊆ s.
Proof. induction s as [|c s IH]; simpl; [done|]. destruct (isspace c); set_solver. Qed.

Lemma trim_back_sub s : trim_back s ⊆ s.
Proof.
  induction s as [|c s IH]; [done|]. destruct s as [|d s]; [done|].
  change (trim_back (c :: d :: s)) with (if isspace c then trim_back (d :: s) else c :: d :: s).
  destruct (isspace c); set_solver.
Qed.

Lemma trim_end_no_nul s : no_nul s -> no_nul (trim_end s).
Proof.
  unfold no_nul, trim_end. intros Hs Hin. apply Hs.
  rewrite elem_of_reverse in Hin. apply trim_back_sub in Hin. by rewrite elem_of_reverse in Hin.
Qed.

Lemma acl_parse_line_safe raw : acl_parse_line raw <> LineOverrun.
Proof.
  unfold acl_parse_line. destruct (_ <=? _); [done|]. destruct (skip_space _); [done|].
  destruct (byte_eqb _ _); [done|]. destruct (negb _); [done|].
  destruct (vector_split_multi_ref (trim_end (cstr raw)) [x20; x09] None) as (v' & E & _);
    [apply trim_end_no_nul, cstr_no_nul|done|].
  unfold vector_split_space. rewrite E. destruct (v_strings v') as [|? [|? [|? ?]]]; try done.
  by destruct (bytes_eqb _ _).
Qed.

Section include_lemmas.
Context {S : Type} `{HasLog S} `{AclEnv}.

(** The files a named file or directory stands for. *)
Definition include_files (included : bytes) : list bytes :=
  match fs_isdir included with
  | Some false => [included]
  | Some true =>
      match fs_readdir included with
      | Some entries =>
          map (fun n => included ++ str "/" ++ n) (List.filter valid_filename entries)
      | None => []
      end
  | None => []
  end.

(** The fold over a directory, on the list of its files. *)
Fixpoint include_fold {A} (num : A -> Z) (function : bytes -> M S A) (files : list bytes)
    (status : A) : M S A :=
  match files with
  | [] => ret status
  | f :: files =>
      let* last := function f in
      if num last <? -1 then ret last
      else include_fold num function files (if num status <? num last then last else status)
  end.

Lemma handle_include_fold {A} (error nomatch : A) num included file lineno function s :
  included <> file -> fs_isdir included = Some true -> fs_readdir included <> None ->
  handle_include error nomatch num included file lineno function s =
  include_fold num function (include_files included) nomatch s.
Proof.
  intros Hne Hdir Hrd. unfold handle_include, include_files.
  rewrite (proj2 (bytes_eqb_false _ _) Hne), Hdir.
  destruct (fs_readdir included) as [entries|]; [|done]. clear Hrd.
  generalize nomatch as status. revert s. induction entries as [|d entries IH]; intros s status; [done|].
  simpl. destruct (valid_filename d) eqn:Ev; simpl; [|by apply IH].
  unfold bind. destruct (function _ s) as [last s'| | |]; [|done..].
  destruct (num last <? -1); [done|]. apply IH.
Qed.

Lemma include_fold_returns {A} (num : A -> Z) function files :
  (forall f, f ∈ files -> returns (function f)) ->
  forall status, returns (include_fold num function files status).
Proof.
  induction files as [|f files IH]; intros Hf status; simpl; [apply returns_ret|].
  apply returns_bind; [apply Hf; set_solver|]. intros last.
  destruct (num last <? -1); [apply returns_ret|]. apply IH. set_solver.
Qed.

Lemma handle_include_returns {A} (error nomatch : A) num included file lineno function :
  (forall f, f ∈ include_files included -> returns (function f)) ->
  returns (handle_include error nomatch num included file lineno function).
Proof.
  intros Hf. unfold handle_include.
  destruct (bytes_eqb included file) eqn:Ei;
    [apply returns_warn_ret|].
  destruct (fs_isdir included) as [[]|] eqn:Ed.
  - destruct (fs_readdir included) as [entries|] eqn:Er.
    + pose proof (fun s => handle_include_fold error nomatch num included file lineno function s
        ltac:(by apply bytes_eqb_false) Ed ltac:(by rewrite Er)) as Heq.
      unfold handle_include in Heq. rewrite Ei, Ed, Er in Heq.
      intros s. rewrite Heq. by apply include_fold_returns.
    + apply returns_syswarn_ret.
  - apply Hf. unfold include_files. rewrite Ed. set_solver.
  - apply returns_syswarn_ret.
Qed.
End include_lemmas.

(** ** Which files an entry opens *)

Section termination.
Context {S : Type} `{HasLog S} `{AclEnv}.
Context (user : bytes) (anonymous : bool).

Inductive opens : bytes -> bytes * acl_scheme -> bytes -> Prop :=
  | opens_file entry def name prefix data f :
      acl_entry entry def = (Some (name, SchemeFile), prefix, data) ->
      f ∈ include_files data -> opens entry def f
  | opens_deny entry def name prefix data f :
      acl_entry entry def = (Some (name, SchemeDeny), prefix, data) ->
      opens data (str "princ", SchemePrinc) f -> opens entry def f.

(** File [f] has a line that opens file [g]. *)
Definition includes (f g : bytes) : Prop := exists content raw entry def,
  fs_read f = Some content /\ raw ∈ fgets_all (length content) BUFSIZ content /\
  acl_parse_line raw = LineEntry entry def /\ opens entry def g.

Lemma cut_length c s a b : cut c s = Some (a, b) -> (length b < length s)%nat.
Proof.
  revert a. induction s as [|d s IH]; intros a E; simpl in *; [done|].
  destruct (byte_eqb d c); [injection E as _ <-; lia|].
  destruct (cut c s) as [[a' b']|]; [|done]. injection E as _ <-. specialize (IH _ eq_refl). lia.
Qed.

Lemma acl_entry_anyuser_not_deny def name prefix data :
  acl_entry (str "ANYUSER") def <> (Some (name, SchemeDeny), prefix, data).
Proof. vm_compute. congruence. Qed.

(** A deny rule's data is shorter than the rule. *)
Lemma acl_entry_deny_length entry name prefix data def :
  def.2 <> SchemeDeny ->
  acl_entry entry def = (Some (name, SchemeDeny), prefix, data) ->
  (length data < length entry)%nat.
Proof.
  intros Hdef E. unfold acl_entry in E. destruct (bytes_eqb entry (str "ANYUSER")) eqn:Ea.
  - apply bytes_eqb_true in Ea as ->. exfalso. revert E. vm_compute. congruence.
  - destruct (cut ":" entry) as [[p d]|] eqn:Ec.
    + injection E as _ _ <-. by apply cut_length in Ec.
    + injection E as E _ _. subst def. done.
Qed.

(** The group database eventually answers. *)
Definition group_answers : Prop := forall g, exists pre st res post,
  getgrnam_r g = pre ++ (st, res) :: post /\ st <> 4 /\ st <> 34.

Lemma acl_getgrnam_returns pre : forall st res post, st <> 4 -> st <> 34 ->
  returns (S:=S) (acl_getgrnam (pre ++ (st, res) :: post)).
Proof.
  induction pre as [|[st' res'] pre IH]; intros st res post H4 H34; simpl.
  - rewrite (proj2 (Z.eqb_neq _ _) H4), (proj2 (Z.eqb_neq _ _) H34). simpl.
    destruct (st =? 0); apply returns_ret.
  - destruct ((st' =? 4) || (st' =? 34)); [by apply IH|].
    destruct (st' =? 0); apply returns_ret.
Qed.

Lemma acl_leaf_returns : group_answers -> forall name scheme data file lineno,
  scheme <> SchemeFile -> scheme <> SchemeDeny ->
  returns (S:=S) match scheme with
    | SchemeFile | SchemeDeny => fun _ => NoFuel
    | SchemePrinc => acl_check_princ user data
    | SchemeAnyuser => acl_check_anyuser anonymous data file lineno
    | SchemeGput => if have_gput then acl_check_gput user data file lineno else unsupported name file lineno
    | SchemeLocalgroup => if have_localgroup then acl_check_localgroup user data file lineno
                          else unsupported name file lineno
    | SchemePcre => if have_pcre then acl_check_pcre user data file lineno else unsupported name file lineno
    | SchemeRegex => if have_regex then acl_check_regex user data file lineno else unsupported name file lineno
    end.
Proof.
  intros Hg name scheme data file lineno Hnf Hnd.
  assert (returns (S:=S) (unsupported name file lineno)) as Hun by apply returns_warn_ret.
  destruct scheme; try done.
  - apply returns_ret.
  - unfold acl_check_anyuser. repeat destruct (bytes_eqb _ _); auto with returns.
  - destruct have_gput; [|done]. unfold acl_check_gput.
    destruct (cut _ data) as [[role rest]|]; [|apply returns_ret].
    destruct (cut _ rest) as [[? [|]]|]; auto with returns.
  - destruct have_localgroup; [|done]. unfold acl_check_localgroup.
    destruct (Hg data) as (pre & st & res & post & -> & H4 & H34).
    apply returns_bind; [by apply acl_getgrnam_returns|]. intros [?|[gr|]].
    + auto with returns.
    + apply returns_bind; [unfold user_to_localname; repeat case_match; auto with returns|].
      intros [[l|]|]; auto with returns. destruct (pw_gid l); auto with returns.
    + auto with returns.
  - destruct have_pcre; [|done]. unfold acl_check_pcre.
    unfold regex_failed. destruct (pcre_match data user); auto with returns.
  - destruct have_regex; [|done]. unfold acl_check_regex.
    unfold regex_failed. destruct (regex_match data user); auto with returns.
Qed.

(** A terminating check of every entry of a file terminates on the file. *)
Lemma acl_lines_terminates (check : nat -> bytes -> bytes * acl_scheme -> bytes -> Z -> M S config_status)
    aclfile lines :
  (forall raw entry def, raw ∈ lines -> acl_parse_line raw = LineEntry entry def ->
     exists n, forall k, (n <= k)%nat -> forall lineno, returns (check k entry def aclfile lineno)) ->
  exists n, forall k, (n <= k)%nat -> forall lineno, returns (acl_lines (check k) aclfile lineno lines).
Proof.
  induction lines as [|raw lines IH]; intros Hc.
  { exists 0%nat. intros. apply returns_ret. }
  destruct IH as [n2 IH]; [intros; eapply Hc; [by apply list_elem_of_further|done]|].
  assert (exists n, forall k, (n <= k)%nat -> forall lineno,
    returns (acl_line (check k) aclfile lineno raw)) as [n1 Hl].
  { unfold acl_line. destruct (acl_parse_line raw) eqn:E.
    - exists 0%nat. auto with returns.
    - exists 0%nat. intros. apply returns_ret.
    - exists 0%nat. auto with returns.
    - by apply acl_parse_line_safe in E.
    - eapply Hc; [apply list_elem_of_here|done]. }
  exists (n1 + n2)%nat. intros k Hk lineno. simpl. apply returns_bind; [apply Hl; lia|].
  intros st. destruct (bool_decide _); [apply returns_ret|]. apply IH. lia.
Qed.

(** One bound for finitely many files. *)
Lemma uniform_bound (P : nat -> bytes -> Prop) (files : list bytes) :
  (forall f, f ∈ files -> exists n, forall k, (n <= k)%nat -> P k f) ->
  exists n, forall k, (n <= k)%nat -> forall f, f ∈ files -> P k f.
Proof.
  induction files as [|f files IH]; intros Hf; [exists 0%nat; set_solver|].
  destruct (Hf f) as [n1 H1]; [set_solver|]. destruct IH as [n2 H2]; [set_solver|].
  exists (n1 + n2)%nat. intros k Hk g [->|Hg]%elem_of_cons; [apply H1|apply H2]; (lia || done).
Qed.

Lemma acl_check_unfold fuel entry def file lineno name scheme prefix data :
  acl_entry entry def = (Some (name, scheme), prefix, data) ->
  acl_check user anonymous (Datatypes.S fuel) entry def file lineno =
  match scheme return M S config_status with
  | SchemeFile => acl_include data file lineno
                    (acl_check_file_internal (acl_check user anonymous fuel))
  | SchemeDeny =>
      let* s := acl_check user anonymous fuel data (str "princ", SchemePrinc) file lineno in
      ret (deny_status s)
  | SchemePrinc => acl_check_princ user data
  | SchemeAnyuser => acl_check_anyuser anonymous data file lineno
  | SchemeGput => if have_gput then acl_check_gput user data file lineno else unsupported name file lineno
  | SchemeLocalgroup => if have_localgroup then acl_check_localgroup user data file lineno
                        else unsupported name file lineno
  | SchemePcre => if have_pcre then acl_check_pcre user data file lineno else unsupported name file lineno
  | SchemeRegex => if have_regex then acl_check_regex user data file lineno else unsupported name file lineno
  end.
Proof. intros E. simpl. by rewrite E. Qed.

Lemma default_scheme_not_deny entry def name prefix data :
  def.2 = SchemePrinc \/ def.2 = SchemeFile ->
  acl_entry entry def = (Some (name, SchemeDeny), prefix, data) -> (length data < length entry)%nat.
Proof. intros Hd. apply acl_entry_deny_length. by destruct Hd as [-> | ->]. Qed.

Lemma acl_parse_line_default raw entry def :
  acl_parse_line raw = LineEntry entry def -> def.2 = SchemePrinc \/ def.2 = SchemeFile.
Proof.
  unfold acl_parse_line. destruct (_ <=? _); [done|]. destruct (skip_space _); [done|].
  destruct (byte_eqb _ _); [done|]. destruct (negb _); [intros [= _ <-]; auto|].
  destruct (vector_split_space _ _) as [v|]; [|done].
  destruct (v_strings v) as [|? [|? [|? ?]]]; try done.
  destruct (bytes_eqb _ _); [intros [= _ <-]; auto|done].
Qed.

(** Entries of the files below an entry, for which checking terminates. *)
Definition entry_terminates (entry : bytes) (def : bytes * acl_scheme) : Prop :=
  exists j, forall k, (j <= k)%nat -> forall file lineno,
    returns (S:=S) (acl_check user anonymous k entry def file lineno).

Lemma acl_include_terminates data :
  (forall f content raw entry def, f ∈ include_files data -> fs_read f = Some content ->
     raw ∈ fgets_all (length content) BUFSIZ content ->
     acl_parse_line raw = LineEntry entry def -> entry_terminates entry def) ->
  exists j, forall k, (j <= k)%nat -> forall file lineno,
    returns (S:=S) (acl_include data file lineno (acl_check_file_internal (acl_check user anonymous k))).
Proof.
  intros Hent.
  assert (forall f, f ∈ include_files data -> exists j, forall k, (j <= k)%nat ->
    returns (S:=S) (acl_check_file_internal (acl_check user anonymous k) f)) as Hfiles.
  { intros f Hf. unfold acl_check_file_internal.
    destruct (fs_read f) as [content|] eqn:Ef; [|exists 0%nat; auto with returns].
    edestruct (acl_lines_terminates (acl_check user anonymous) f) as [j Hj];
      [|exists j; intros k Hk; by apply Hj].
    intros raw entry def Hin Hl. destruct (Hent f content raw entry def Hf Ef Hin Hl) as [j Hj].
    exists j. intros. by apply Hj. }
  apply uniform_bound in Hfiles as [j Hj]. exists j. intros k Hk file lineno.
  apply handle_include_returns. intros f Hf. by apply Hj.
Qed.

Lemma entry_terminates_S entry def :
  (exists j, forall k, (j <= k)%nat -> forall file lineno,
    returns (S:=S) (acl_check user anonymous (Datatypes.S k) entry def file lineno)) ->
  entry_terminates entry def.
Proof. intros [j Hj]. exists (Datatypes.S j). intros [|k] Hk; [lia|]. apply Hj. lia. Qed.

(** Entries whose files all have rank below [n] terminate: induction on [n],
    and within it on the entry, which a deny rule shortens. *)
Lemma acl_check_terminates_rank (rank : bytes -> nat) :
  group_answers -> (forall f g, includes f g -> (rank g < rank f)%nat) ->
  forall n m entry def, (length entry <= m)%nat -> def.2 = SchemePrinc \/ def.2 = SchemeFile ->
    (forall g, opens entry def g -> (rank g < n)%nat) -> entry_terminates entry def.
Proof.
  intros Hg Hrank. induction n as [n IHn] using lt_wf_ind. induction m as [m IHm] using lt_wf_ind.
  intros entry def Hlen Hdef Hopens. apply entry_terminates_S.
  destruct (acl_entry entry def) as [[[[name scheme]|] prefix] data] eqn:E;
    [|exists 0%nat; intros k _ file lineno; simpl; rewrite E; apply returns_warn_ret].
  destruct (decide (scheme = SchemeFile)) as [->|Hnf].
  { destruct (acl_include_terminates data) as [j Hj].
    - intros f content raw entry' def' Hf Ef Hin Hl.
      apply (IHn (rank f)) with (m := length entry'); [|done|by eapply acl_parse_line_default|].
      + by apply Hopens, (opens_file _ _ _ _ _ _ E).
      + intros g Hg'. apply Hrank. by exists content, raw, entry', def'.
    - exists j. intros k Hk file lineno. rewrite (acl_check_unfold _ _ _ _ _ _ _ _ _ E). by apply Hj. }
  destruct (decide (scheme = SchemeDeny)) as [->|Hnd].
  { pose proof (default_scheme_not_deny _ _ _ _ _ Hdef E).
    destruct (IHm (length data) ltac:(lia) data (str "princ", SchemePrinc)) as [j Hj]; [lia|by left| |].
    { intros g Hg'. apply Hopens. by eapply opens_deny. }
    exists j. intros k Hk file lineno. rewrite (acl_check_unfold _ _ _ _ _ _ _ _ _ E).
    apply returns_bind; [by apply Hj|]. intros. apply returns_ret. }
  exists 0%nat. intros k _ file lineno. rewrite (acl_check_unfold _ _ _ _ _ _ _ _ _ E).
  pose proof (acl_leaf_returns Hg name scheme data file lineno Hnf Hnd). by destruct scheme.
Qed.
End termination.

(** ** ACL files *)

Lemma fgets_line room p rest :
  x0a ∉ p -> (length p < room)%nat -> fgets room (p ++ x0a :: rest) = (p ++ [x0a], rest).
Proof.
  revert p. induction room as [|room IH]; intros p Hp Hl; [lia|].
  destruct p as [|c p]; [done|]; simpl.
  rewrite byte_eqb_neq by set_solver. simpl in Hl. rewrite IH by (set_solver || lia). done.
Qed.

Lemma fgets_all_lines ps : forall fuel size,
  Forall (fun p => x0a ∉ p /\ (length p < pred size)%nat) ps -> (length ps <= fuel)%nat ->
  fgets_all fuel size (concat (map (fun p => p ++ [x0a]) ps)) = map (fun p => p ++ [x0a]) ps.
Proof.
  induction ps as [|p ps IH]; intros fuel size Hf Hl; [by destruct fuel|].
  apply Forall_cons_1 in Hf as [[Hp Hlen] Hf]. simpl in Hl. destruct fuel as [|fuel]; [lia|].
  simpl. rewrite <- app_assoc. simpl. 
  destruct (p ++ x0a :: _) as [|c l] eqn:E; [by destruct p|]. rewrite <- E.
  rewrite fgets_line by done. rewrite IH by (done || lia). done.
Qed.

(** A principal as an ACL file names it: a plain word. *)
Definition plain_principal (p : bytes) : Prop :=
  p <> [] /\ (forall c, c ∈ p -> isspace c = false /\ c <> nul /\ c <> ":"%byte) /\
  head p <> Some "#"%byte /\ p <> str "ANYUSER" /\ blen p < 8000.

Lemma isspace_nl : isspace x0a = true.
Proof. reflexivity. Qed.

Lemma trim_back_space c d l : isspace c = true -> trim_back (c :: d :: l) = trim_back (d :: l).
Proof. intros Hc. simpl. by rewrite Hc. Qed.
Lemma trim_back_keep c l : isspace c = false -> trim_back (c :: l) = c :: l.
Proof. intros Hc. destruct l; [done|]. simpl. by rewrite Hc. Qed.

Lemma plain_trim p : plain_principal p -> trim_end (p ++ [x0a]) = p.
Proof.
  intros (Hne & Hp & _). unfold trim_end. rewrite reverse_app.
  change (reverse [x0a] ++ reverse p) with (x0a :: reverse p).
  destruct (reverse p) as [|c l] eqn:E.
  { exfalso. apply Hne. apply (f_equal reverse) in E. by rewrite reverse_involutive in E. }
  assert (c ∈ p) as Hc by (apply elem_of_reverse; rewrite E; set_solver).
  rewrite trim_back_space, trim_back_keep by (done || by apply Hp).
  rewrite <- E. apply reverse_involutive.
Qed.

Lemma plain_skip p : plain_principal p -> skip_space p = p.
Proof.
  intros (Hne & Hp & _). destruct p as [|c p]; [done|]. simpl.
  by rewrite (proj1 (Hp c ltac:(set_solver))).
Qed.

Lemma plain_no_nul p : plain_principal p -> no_nul p.
Proof. intros (_ & Hp & _) Hin. by destruct (Hp nul Hin) as (_ & ? & _). Qed.

Lemma plain_parse p :
  plain_principal p -> acl_parse_line (p ++ [x0a]) = LineEntry p (str "princ", SchemePrinc).
Proof.
  intros Hp. unfold acl_parse_line. rewrite cstr_app_no_nul by by apply plain_no_nul.
  change (cstr [x0a]) with [x0a]. rewrite plain_trim, plain_skip by done.
  pose proof Hp as (Hne & Hc & Hhd & _ & Hlen).
  rewrite (proj2 (Z.leb_gt _ _)) by (rewrite blen_app; change (blen [x0a]) with 1; unfold BUFSIZ; lia).
  destruct p as [|c p]; [done|]. rewrite byte_eqb_neq by (simpl in Hhd; congruence).
  unfold has_byte. rewrite bool_decide_eq_false_2; [done|].
  intros Hin. by destruct (Hc _ Hin) as [? _].
Qed.

Lemma cut_None c s : c ∉ s -> cut c s = None.
Proof.
  induction s as [|d s IH]; intros Hn; [done|]. simpl. rewrite byte_eqb_neq by set_solver.
  rewrite IH by set_solver. done.
Qed.

Lemma plain_entry p def : plain_principal p -> acl_entry p def = (Some def, [], p).
Proof.
  intros (_ & Hc & _ & Hany & _). unfold acl_entry. rewrite (proj2 (bytes_eqb_false _ _) Hany).
  rewrite cut_None; [done|]. intros Hin. by destruct (Hc _ Hin) as (_ & _ & ?).
Qed.

Section theorems.
Context {S : Type} `{HasLog S} `{AclEnv}.
Implicit Types s : S.

Lemma acl_lines_plain user anonymous fuel aclfile ps : Forall plain_principal ps ->
  forall lineno s,
    acl_lines (acl_check user anonymous (Datatypes.S fuel)) aclfile lineno
      (map (fun p => p ++ [x0a]) ps) s =
    Ret (if bool_decide (user ∈ ps) then CONFIG_SUCCESS else CONFIG_NOMATCH) s.
Proof.
  induction 1 as [|p ps Hp _ IH]; intros lineno s; [done|]. cbn [acl_lines map].
  assert (acl_line (acl_check user anonymous (Datatypes.S fuel)) aclfile (lineno + 1) (p ++ [x0a]) s =
    Ret (if bytes_eqb user p then CONFIG_SUCCESS else CONFIG_NOMATCH) s) as Hl.
  { unfold acl_line. rewrite plain_parse by done.
    by rewrite (acl_check_unfold _ _ _ _ _ _ _ _ _ _ _ (plain_entry p _ Hp)). }
  unfold bind at 1. rewrite Hl. destruct (bytes_eqb user p) eqn:Hu.
  - apply bytes_eqb_true in Hu as ->. rewrite (bool_decide_eq_true_2 (p ∈ p :: _)) by apply list_elem_of_here. done.
  - apply bytes_eqb_false in Hu. simpl. rewrite IH.
    by rewrite (bool_decide_ext (user ∈ p :: ps) (user ∈ ps)) by (rewrite elem_of_cons; tauto).
Qed.

(** The statuses of a list of checks run one after the other. *)
Inductive visited {A X} (f : X -> M S A) : list X -> S -> list A -> S -> Prop :=
  | visited_nil s : visited f [] s [] s
  | visited_cons x xs s a s' as' s'' :
      f x s = Ret a s' -> visited f xs s' as' s'' -> visited f (x :: xs) s (a :: as') s''.

Lemma include_fold_visited (function : bytes -> M S config_status) files : forall status s r s',
  include_fold status_num function files status s = Ret r s' ->
  exists n sts, visited function (take n files) s sts s' /\
    ((exists pre, sts = pre ++ [r] /\ status_num r < -1 /\
        Forall (fun st => -1 <= status_num st) pre) \/
     (take n files = files /\ Forall (fun st => -1 <= status_num st) sts /\
        (r = status \/ r ∈ sts) /\ status_num status <= status_num r /\
        Forall (fun st => status_num st <= status_num r) sts)).
Proof.
  induction files as [|f files IH]; intros status s r s' E; simpl in E.
  { injection E as -> ->. exists 0%nat, []. split; [constructor|]. right.
    split; [done|]. split; [constructor|]. split; [by left|]. split; [lia|constructor]. }
  apply bind_Ret_inv in E as (last & s1 & E1 & E). destruct (Z.ltb_spec (status_num last) (-1)).
  { injection E as -> ->. exists 1%nat, [r]. split; [by repeat econstructor|].
    left. by exists []. }
  apply IH in E as (n & sts & Hv & Hor). exists (Datatypes.S n), (last :: sts).
  split; [by econstructor|]. destruct Hor as [(pre & -> & Hr & Hpre)|(Ht & Hall & Hin & Hle & Hmax)].
  - left. exists (last :: pre). split; [done|]. split; [done|]. by constructor.
  - right. split; [simpl; by rewrite Ht|]. split; [by constructor|].
    destruct (Z.ltb_spec (status_num status) (status_num last)).
    + split; [right; destruct Hin as [-> |]; set_solver|]. split; [lia|]. by constructor.
    + split; [destruct Hin as [-> |]; set_solver|]. split; [lia|]. constructor; [lia|done].
Qed.
End theorems.

(** * Theorems *)

(** C24: access is granted exactly when the first entry that decides grants
    it.  [server_config_acl_permit] returns true precisely when some entry of
    the rule's list succeeds and every entry before it gave no match; an error
    or an explicit deny reached first refuses access whatever follows. *)
Theorem acl_permit_first_decisive {S} `{HasLog S} `{AclEnv} fuel ru c (s s' : S) :
  server_config_acl_permit fuel ru c s = Ret true s' <->
  exists pre e post s1 sts,
    ru_acls ru = pre ++ e :: post /\
    visited (fun e => acl_check (c_user c) (c_anonymous c) fuel e (str "file", SchemeFile)
                        (ru_file ru) (ru_lineno ru)) pre s sts s1 /\
    Forall (fun st => st = CONFIG_NOMATCH) sts /\
    acl_check (c_user c) (c_anonymous c) fuel e (str "file", SchemeFile)
      (ru_file ru) (ru_lineno ru) s1 = Ret CONFIG_SUCCESS s'.
Proof.
  unfold server_config_acl_permit. generalize (ru_acls ru) as acls. intros acls.
  set (check := fun e => acl_check _ _ fuel e _ (ru_file ru) (ru_lineno ru)). split.
  - revert s. induction acls as [|e acls IH]; intros s E; [done|].
    simpl in E. apply bind_Ret_inv in E as (st & s1 & E1 & E).
    destruct st; simpl in E; try done.
    + injection E as ->. exists [], e, acls, s, []. split; [done|]. split; [constructor|]. done.
    + apply IH in E as (pre & e' & post & s2 & sts & -> & Hv & Hn & Hok).
      exists (e :: pre), e', post, s2, (CONFIG_NOMATCH :: sts). split; [done|].
      split; [by econstructor|]. split; [by constructor|done].
  - intros (pre & e & post & s1 & sts & -> & Hv & Hn & Hok).
    revert s sts Hv Hn. induction pre as [|e' pre IH]; intros s sts Hv Hn.
    + inversion Hv; subst. simpl. unfold bind. change (check e s1 = Ret CONFIG_SUCCESS s') in Hok.
      unfold check in Hok. by rewrite Hok.
    + inversion Hv as [|? ? ? a s2 as' ? Hf Hrest]; subst.
      apply Forall_cons_1 in Hn as [-> Hn]. simpl. unfold bind. unfold check in Hf. rewrite Hf.
      simpl. by eapply IH.
Qed.

(** Deny rules only deny.  A [deny:] entry never succeeds, and denying a
    deny neither grants nor denies access, as the manual says. *)
Lemma acl_deny_never_grants {S} `{HasLog S} `{AclEnv} user anonymous fuel entry def file lineno
    name prefix data (s s' : S) st :
  acl_entry entry def = (Some (name, SchemeDeny), prefix, data) ->
  acl_check user anonymous fuel entry def file lineno s = Ret st s' ->
  st <> CONFIG_SUCCESS /\
  (forall name' prefix' data',
     acl_entry data (str "princ", SchemePrinc) = (Some (name', SchemeDeny), prefix', data') ->
     st = CONFIG_NOMATCH \/ st = CONFIG_ERROR).
Proof.
  intros E Hr. destruct fuel as [|fuel]; [done|].
  rewrite (acl_check_unfold _ _ _ _ _ _ _ _ _ _ _ E) in Hr.
  apply bind_Ret_inv in Hr as (st1 & s1 & E1 & Hr). injection Hr as <- ->.
  split; [by destruct st1|]. intros name' prefix' data' E'. destruct fuel as [|fuel]; [done|].
  rewrite (acl_check_unfold _ _ _ _ _ _ _ _ _ _ _ E') in E1.
  apply bind_Ret_inv in E1 as (st2 & s2 & _ & E1). injection E1 as <- _. destruct st2; auto.
Qed.

(** Including a directory stops at the first file whose status is an
    error or a deny, and otherwise gives the greatest status, [CONFIG_NOMATCH]
    for none.  The files are those of the directory with valid names, in
    order. *)
Lemma acl_include_directory {S} `{HasLog S} `{AclEnv} included file lineno function (s s' : S) r :
  included <> file -> fs_isdir included = Some true -> fs_readdir included <> None ->
  acl_include included file lineno function s = Ret r s' ->
  exists n sts, visited function (take n (include_files included)) s sts s' /\
    ((exists pre, sts = pre ++ [r] /\ status_num r < -1 /\
        Forall (fun st => -1 <= status_num st) pre) \/
     (take n (include_files included) = include_files included /\
        Forall (fun st => -1 <= status_num st) sts /\
        (r = CONFIG_NOMATCH \/ r ∈ sts) /\
        Forall (fun st => status_num st <= status_num r) sts)).
Proof.
  intros Hne Hdir Hrd E. unfold acl_include in E. rewrite handle_include_fold in E by done.
  apply include_fold_visited in E as (n & sts & Hv & [Hl|(Ht & Hall & Hin & _ & Hmax)]);
    exists n, sts; (split; [done|]); [by left|by right].
Qed.

(** An ACL file of plain principals admits exactly them.  For a file
    whose lines are principals, [acl_check_file_internal] succeeds if the
    user is one of them and otherwise reports no match, logging nothing. *)
Lemma acl_file_principals {S} `{HasLog S} `{AclEnv} user anonymous fuel aclfile ps (s : S) :
  fs_read aclfile = Some (concat (map (fun p => p ++ [x0a]) ps)) ->
  Forall plain_principal ps ->
  acl_check_file_internal (acl_check user anonymous (Datatypes.S fuel)) aclfile s =
  Ret (if bool_decide (user ∈ ps) then CONFIG_SUCCESS else CONFIG_NOMATCH) s.
Proof.
  intros Hrd Hps. unfold acl_check_file_internal. rewrite Hrd.
  rewrite fgets_all_lines; [by apply acl_lines_plain| |].
  - eapply Forall_impl; [exact Hps|]. intros p (_ & Hc & _ & _ & Hlen). split.
    + intros Hin. by destruct (Hc _ Hin) as [? _].
    + unfold BUFSIZ, blen in *. lia.
  - induction ps as [|p ps IH]; simpl; [lia|]. rewrite !length_app. simpl.
    apply Forall_cons_1 in Hps as [_ Hps]. clear Hrd.
    assert (length ps <= length (concat (map (fun p => p ++ [x0a]) ps)))%nat; [|lia].
    clear. induction ps; simpl; [lia|]. rewrite !length_app. simpl. lia.
Qed.

(** For the rules of a configuration and one user some fuel is enough. *)
Lemma acl_loop_terminates {S} `{HasLog S} `{AclEnv} (rank : bytes -> nat) user anonymous acls :
  group_answers -> (forall f g, includes f g -> (rank g < rank f)%nat) ->
  exists n, forall k, (n <= k)%nat -> forall file lineno, returns (S:=S) (acl_permit_loop user anonymous k file lineno acls).
Proof.
  intros Hg Hrank.
  assert (forall e, e ∈ acls -> entry_terminates (S:=S) user anonymous e (str "file", SchemeFile)) as Hall.
  { intros e _.
    assert (exists n, forall g, opens e (str "file", SchemeFile) g -> (rank g < n)%nat) as [n Hn].
    { enough (forall m e def, (length e <= m)%nat -> def.2 = SchemePrinc \/ def.2 = SchemeFile ->
        exists n, forall g, opens e def g -> (rank g < n)%nat) as Hb by (eapply Hb; [done|by right]).
      clear e. induction m as [m IH] using lt_wf_ind. intros e def Hl Hdef.
      destruct (acl_entry e def) as [[[[name scheme]|] prefix] data] eqn:E;
        [|exists 0%nat; intros g Ho; inversion Ho; congruence].
      destruct (decide (scheme = SchemeDeny)) as [->|Hnd].
      - pose proof (default_scheme_not_deny _ _ _ _ _ Hdef E).
        destruct (IH (length data) ltac:(lia) data (str "princ", SchemePrinc)) as [n Hn]; [done|by left|].
        exists n. intros g Ho. inversion Ho as [? ? ? ? ? ? E' Hin|? ? ? ? ? ? E' Hin]; subst;
          rewrite E in E'; simplify_eq. by apply Hn.
      - exists (Datatypes.S (list_max (map rank (include_files data)))). intros g Ho.
        assert (g ∈ include_files data) as Hin.
        { inversion Ho; subst; congruence. }
        pose proof (proj1 (list_max_le (map rank (include_files data)) _) (le_n _)) as Hf.
        rewrite List.Forall_forall in Hf.
        enough (rank g <= list_max (map rank (include_files data)))%nat by lia.
        apply Hf, in_map. by apply list_elem_of_In. }
    eapply acl_check_terminates_rank; [done|done|done|by right|exact Hn]. }
  induction acls as [|e acls IH]; [exists 0%nat; intros; by eexists _, _|].
  destruct (Hall e ltac:(set_solver)) as [n1 H1]. destruct IH as [n2 H2]; [intros; apply Hall; set_solver|].
  exists (n1 + n2)%nat. intros k Hk file lineno s. simpl.
  destruct (H1 k ltac:(lia) file lineno s) as (st & s1 & E1).
  unfold bind. rewrite E1. destruct st; simpl; try by eexists _, _.
  apply H2. lia.
Qed.

(** The access check ends.  When included ACL files do not form a cycle
    (some rank decreases along every inclusion, deny rules and directories
    included) and the group database answers, enough fuel makes
    [server_config_acl_permit] return for every rule, user and state. *)
Lemma acl_permit_terminates {S} `{HasLog S} `{AclEnv} (rank : bytes -> nat) ru c :
  group_answers -> (forall f g, includes f g -> (rank g < rank f)%nat) ->
  exists n, forall k, (n <= k)%nat -> forall s : S, exists b s',
    server_config_acl_permit k ru c s = Ret b s'.
Proof.
  intros Hg Hrank. destruct (acl_loop_terminates (S:=S) rank (c_user c) (c_anonymous c) (ru_acls ru) Hg Hrank) as [n Hn].
  exists n. intros k Hk s. exact (Hn k Hk (ru_file ru) (ru_lineno ru) s).
Qed.

(** * Concrete instances of the theorems *)

(** A machine with two ACL files, one including the other, and a directory. *)
Definition demo_env : AclEnv := {|
  fs_isdir f := if bytes_eqb f (str "/acl/admins") then Some false
                else if bytes_eqb f (str "/acl/ops") then Some false
                else if bytes_eqb f (str "/acl") then Some true else None;
  fs_readdir f := if bytes_eqb f (str "/acl") then Some [str "."; str "admins"; str "ops"] else None;
  fs_read f := if bytes_eqb f (str "/acl/admins") then
                 Some (concat (map (fun p => p ++ [x0a]) [str "rra@EXAMPLE.ORG"; str "eagle@EXAMPLE.ORG"]))
               else if bytes_eqb f (str "/acl/ops") then
                 Some (str "include /acl/admins" ++ [x0a]) else None;
  have_gput := false; have_localgroup := false; have_pcre := false; have_regex := false;
  gput_open_ok := false; gput_check _ _ _ := false;
  pcre_match _ _ := RegexNoMatch; regex_match _ _ := RegexNoMatch;
  getgrnam_r _ := [(0, None)]; krb5_init_context := 0; krb5_parse_name _ := 0; krb5_aname_to_localname _ := NoLocalName; pw_gid _ := None;
|}.

Definition demo_client : client :=
  Client KindV2 0 None (str "127.0.0.1") 2 (str "eagle@EXAMPLE.ORG") false 0 0 true false.

Definition demo_rule (acls : list bytes) : rule :=
  Rule (str "/etc/remctl.conf") 1 (str "ls") (str "ALL") (str "/bin/ls") None 0 None None 0 0 None None acls.

Definition plain_principalb (p : bytes) : bool :=
  forallb (fun c => negb (isspace c) && negb (byte_eqb c nul) && negb (byte_eqb c ":")) p &&
  bool_decide (p <> []) && bool_decide (head p <> Some "#"%byte) &&
  bool_decide (p <> str "ANYUSER") && (blen p <? 8000).

Lemma plain_principalb_true p : plain_principalb p = true -> plain_principal p.
Proof.
  unfold plain_principalb. rewrite !andb_true_iff, !bool_decide_eq_true, Z.ltb_lt.
  intros ((((Hc & Hne) & Hhd) & Hany) & Hlen). split; [done|]. split; [|done].
  intros c Hin. apply list_elem_of_In in Hin. rewrite forallb_forall in Hc. specialize (Hc c Hin).
  rewrite !andb_true_iff, !negb_true_iff in Hc. destruct Hc as [[Hs Hn] Hcol].
  split; [done|]. split; intros ->; by rewrite byte_eqb_refl in *.
Qed.

Lemma acl_file_principals_witness :
  let _ := demo_env in
  acl_check_file_internal (acl_check (str "eagle@EXAMPLE.ORG") false 1) (str "/acl/admins") ([] : logs) =
  Ret CONFIG_SUCCESS [].
Proof.
  intros env.
  apply (acl_file_principals (str "eagle@EXAMPLE.ORG") false 0 (str "/acl/admins")
    [str "rra@EXAMPLE.ORG"; str "eagle@EXAMPLE.ORG"] ([] : logs)); [reflexivity|].
  apply Forall_cons_2; [apply plain_principalb_true; reflexivity|].
  apply Forall_cons_2; [apply plain_principalb_true; reflexivity|constructor].
Defined.

Lemma acl_deny_never_grants_witness :
  let _ := demo_env in
  acl_check (str "eagle@EXAMPLE.ORG") false 2 (str "deny:eagle@EXAMPLE.ORG") (str "file", SchemeFile)
    (str "/etc/remctl.conf") 1 ([] : logs) = Ret CONFIG_DENY [] /\
  CONFIG_DENY <> CONFIG_SUCCESS.
Proof.
  intros env.
  assert (acl_check (str "eagle@EXAMPLE.ORG") false 2 (str "deny:eagle@EXAMPLE.ORG") (str "file", SchemeFile)
    (str "/etc/remctl.conf") 1 ([] : logs) = Ret CONFIG_DENY []) as E by reflexivity.
  split; [exact E|].
  refine (proj1 (acl_deny_never_grants _ _ _ _ _ _ _ (str "deny") (str "deny") (str "eagle@EXAMPLE.ORG")
    _ _ _ _ E)).
  reflexivity.
Defined.

Lemma acl_include_directory_witness :
  let _ := demo_env in
  acl_include (str "/acl") (str "/etc/remctl.conf") 1
    (acl_check_file_internal (acl_check (str "eagle@EXAMPLE.ORG") false 2)) ([] : logs) = Ret CONFIG_SUCCESS [] /\
  exists n sts, visited (acl_check_file_internal (acl_check (str "eagle@EXAMPLE.ORG") false 2))
      (take n (include_files (str "/acl"))) ([] : logs) sts [] /\
    ((exists pre, sts = pre ++ [CONFIG_SUCCESS] /\ status_num CONFIG_SUCCESS < -1 /\
        Forall (fun st => -1 <= status_num st) pre) \/
     (take n (include_files (str "/acl")) = include_files (str "/acl") /\
        Forall (fun st => -1 <= status_num st) sts /\
        (CONFIG_SUCCESS = CONFIG_NOMATCH \/ CONFIG_SUCCESS ∈ sts) /\
        Forall (fun st => status_num st <= status_num CONFIG_SUCCESS) sts)).
Proof.
  intros env.
  assert (acl_include (str "/acl") (str "/etc/remctl.conf") 1
    (acl_check_file_internal (acl_check (str "eagle@EXAMPLE.ORG") false 2)) ([] : logs) = Ret CONFIG_SUCCESS [])
    as E by reflexivity.
  split; [exact E|]. eapply acl_include_directory; [..|exact E]; done.
Defined.

Lemma demo_rank :
  let _ := demo_env in
  forall f g, includes f g ->
    ((if bytes_eqb g (str "/acl/ops") then 1 else 0) < (if bytes_eqb f (str "/acl/ops") then 1 else 0))%nat.
Proof.
  intros env f g (content & raw & entry & def & Hrd & Hin & Hp & Ho). simpl in Hrd.
  destruct (bytes_eqb f (str "/acl/admins")) eqn:E1.
  - apply bytes_eqb_true in E1 as ->. injection Hrd as <-. exfalso.
    assert (raw = str "rra@EXAMPLE.ORG" ++ [x0a] \/ raw = str "eagle@EXAMPLE.ORG" ++ [x0a]) as [-> | ->]
      by (vm_compute in Hin; apply list_elem_of_In in Hin; vm_compute; naive_solver);
      vm_compute in Hp; injection Hp as <- <-; inversion Ho as [? ? ? ? ? ? E|? ? ? ? ? ? E]; subst;
      vm_compute in E; discriminate E.
  - destruct (bytes_eqb f (str "/acl/ops")) eqn:E2; [|done]. injection Hrd as <-.
    assert (raw = str "include /acl/admins" ++ [x0a]) as -> by (vm_compute in Hin; apply list_elem_of_In in Hin; vm_compute; naive_solver).
    vm_compute in Hp. injection Hp as <- <-.
    inversion Ho as [? ? ? ? ? ? E Hg|? ? ? ? ? ? E]; subst; vm_compute in E; [|discriminate E].
    injection E as _ _ <-. vm_compute in Hg. apply list_elem_of_singleton in Hg as ->.
    vm_compute. lia.
Qed.

Lemma acl_permit_terminates_witness :
  let _ := demo_env in
  exists n, forall k, (n <= k)%nat -> forall s : logs, exists b s',
    server_config_acl_permit k (demo_rule [str "/acl/ops"; str "deny:rra@EXAMPLE.ORG"]) demo_client s = Ret b s'.
Proof.
  intros env. eapply acl_permit_terminates.
  - intros g. exists [], 0, None, []. done.
  - exact demo_rank.
Defined.
