(* ===== verification/ConfLines.v ===== *)
(** The lines of a configuration file: the line buffer of [read_conf_file] in
    [server/config.c], as the block it is, with its refills, growth and
    overwritten continuations, and the reading of a file into logical lines
    without any buffer that it amounts to. *)

From S2P Require Import Prelude Effects CLib Acl.

(** * The line buffer *)

(** [char *buffer]: the size of its block, and the C string in it. *)
Record linebuf : Type := LineBuf { lb_size : Z; lb_data : bytes }.

Inductive fgot : Type := FgotLine (b : linebuf) (rest : bytes) | FgotEof | FgotUndef.

(** [fgets(buffer + off, n, file)]: at most [n - 1] bytes and a nul are
    written at [off], which must be in the block, as must be all that is
    written. *)
Definition fgets_at (off n : Z) (b : linebuf) (content : bytes) : fgot :=
  if (n <? 1) || (off <? 0) then FgotUndef
  else
    match content with
    | [] => FgotEof
    | _ =>
        let '(l, rest) := fgets (Z.to_nat (n - 1)) content in
        if off + blen l + 1 <=? lb_size b then
          FgotLine (LineBuf (lb_size b)
            (if off <=? blen (lb_data b) then cstr (ztake off (lb_data b) ++ l) else lb_data b)) rest
        else FgotUndef
    end.

(** The buffer is full or the line continues. *)
Definition ends_in (s : bytes) (c : byte) : bool :=
  match reverse s with d :: _ => byte_eqb d c | [] => false end.
Definition continues (buffer : bytes) : bool :=
  (2 <? blen buffer) &&
  (negb (ends_in buffer x0a) || ends_in (ztake (blen buffer - 1) buffer) "\").

Inductive more : Type :=
  | MoreLine (bufsize : Z) (b : linebuf) (lineno : Z) (rest : bytes)
  | MoreEof (lineno : Z)
  | MoreUndef.

(** [bufsize += 1024; buffer = xrealloc(buffer, bufsize)] with [int bufsize]. *)
Definition grow (bufsize : Z) (b : linebuf) : option (Z * linebuf) :=
  if bufsize + 1024 <=? INT_MAX then Some (bufsize + 1024, LineBuf (bufsize + 1024) (lb_data b)) else None.

(** The loop that completes the line in the buffer. *)
Fixpoint more_lines (fuel : nat) (bufsize : Z) (b : linebuf) (lineno : Z) (content : bytes) : option more :=
  match fuel with
  | O => None
  | S fuel =>
      let buffer := lb_data b in
      if continues buffer then
        match (if negb (ends_in buffer x0a) then '(bufsize, b) ← grow bufsize b; Some (bufsize, b, blen buffer, lineno)
               else Some (bufsize, b, blen buffer - 2, lineno + 1)) with
        | None => Some MoreUndef
        | Some (bufsize, b, length, lineno) =>
            match fgets_at length (bufsize - length) b content with
            | FgotEof => Some (MoreEof lineno)
            | FgotUndef => Some MoreUndef
            | FgotLine b rest => more_lines fuel bufsize b lineno rest
            end
        end
      else Some (MoreLine bufsize b lineno content)
  end.

(** How the reading of a file ends. *)
Inductive ending : Type := EndOfFile | NoFinalNewline (lineno : Z) | NoFinalLine (lineno : Z) | EndUndef.

Definition cons_line (l : Z * bytes) (r : option (list (Z * bytes) * ending)) :=
  '(ls, e) ← r; Some (l :: ls, e).

(** What the loop of [read_conf_file] makes of a file: numbered lines without
    their newlines, and the end. *)
Fixpoint logical_lines (fuel : nat) (bufsize : Z) (b : linebuf) (lineno : Z) (content : bytes)
    : option (list (Z * bytes) * ending) :=
  match fuel with
  | O => None
  | S fuel =>
      match fgets_at 0 bufsize b content with
      | FgotEof => Some ([], EndOfFile)
      | FgotUndef => Some ([], EndUndef)
      | FgotLine b rest =>
          let buffer := lb_data b in
          if (blen buffer =? 2) && negb (ends_in buffer x0a) then Some ([], NoFinalNewline lineno)
          else if blen buffer <? 2 then logical_lines fuel bufsize b lineno rest
          else
            match more_lines (S (length rest)) bufsize b lineno rest with
            | None => None
            | Some MoreUndef => Some ([], EndUndef)
            | Some (MoreEof lineno) => Some ([], NoFinalLine lineno)
            | Some (MoreLine bufsize b lineno rest) =>
                cons_line (lineno + 1, ztake (blen (lb_data b) - 1) (lb_data b))
                  (logical_lines fuel bufsize b (lineno + 1) rest)
            end
      end
  end.

(** * Logical lines

    The same without a buffer.  A file is cut at its newlines.  A line that
    ends in a backslash and has at least one byte before it continues on the
    next one.  Lines of less than two bytes, their newline included, are
    skipped without being counted, and what is left of at most two bytes is a
    line even at the end of the file, where it loses its last byte. *)

(** Reading a physical line: to the newline, or to the end of the file. *)
Fixpoint physical (content : bytes) : bytes * bytes :=
  match content with
  | [] => ([], [])
  | c :: content => if byte_eqb c x0a then ([c], content)
                    else let '(l, rest) := physical content in (c :: l, rest)
  end.

(** A line that continues, without its backslash and newline. *)
Definition continued (s : bytes) : option bytes :=
  match reverse s with
  | c :: d :: ((_ :: _) as keep) => if byte_eqb c x0a && byte_eqb d "\" then Some (reverse keep) else None
  | _ => None
  end.

(** A line that lacks its newline. *)
Definition unfinished (s : bytes) : bool := (2 <? blen s) && negb (ends_in s x0a).

(** A line with its continuations, its number and the rest of the file; or
    the number of the line that does not end. *)
Fixpoint ref_more (fuel : nat) (line : bytes) (lineno : Z) (content : bytes) : option (bytes * Z * bytes + Z) :=
  match fuel with
  | O => None
  | S fuel =>
      match continued line with
      | Some keep =>
          match content with
          | [] => Some (inr (lineno + 1))
          | _ => ref_more fuel (keep ++ (physical content).1) (lineno + 1) (physical content).2
          end
      | None => Some (if unfinished line then inr lineno else inl (line, lineno, content))
      end
  end.

Fixpoint ref_lines (fuel : nat) (lineno : Z) (content : bytes) : option (list (Z * bytes) * ending) :=
  match content with
  | [] => Some ([], EndOfFile)
  | _ =>
      match fuel with
      | O => None
      | S fuel =>
          let '(line, rest) := physical content in
          if (blen line =? 2) && negb (ends_in line x0a) then Some ([], NoFinalNewline lineno)
          else if blen line <? 2 then ref_lines fuel lineno rest
          else
            match ref_more (S (length rest)) line lineno rest with
            | None => None
            | Some (inr lineno) => Some ([], NoFinalLine lineno)
            | Some (inl (line, lineno, rest)) =>
                cons_line (lineno + 1, ztake (blen line - 1) line) (ref_lines fuel (lineno + 1) rest)
            end
      end
  end.

(** ** Their ends *)

Lemma ends_in_app a c d : ends_in (a ++ [c]) d = byte_eqb c d.
Proof. unfold ends_in. by rewrite reverse_snoc. Qed.

Lemma ends_in_app_r a b c : b <> [] -> ends_in (a ++ b) c = ends_in b c.
Proof.
  intros Hb. destruct b as [|x b _] using rev_ind; [done|]. by rewrite app_assoc, !ends_in_app.
Qed.

Lemma no_newline_ends l : x0a ∉ l -> ends_in l x0a = false.
Proof.
  intros Hl. destruct l as [|x l _] using rev_ind; [done|]. rewrite ends_in_app. apply byte_eqb_neq. set_solver.
Qed.

Lemma ztake_snoc (s : bytes) c : ztake (blen (s ++ [c]) - 1) (s ++ [c]) = s.
Proof. rewrite blen_app. change (blen [c]) with 1. rewrite Z.add_simpl_r. apply ztake_blen_app. Qed.

Lemma snoc3 (s : bytes) : 2 < blen s -> exists k d c, s = (k ++ [d]) ++ [c] /\ k <> [].
Proof.
  intros Hs. destruct s as [|c s _] using rev_ind; [done|]. destruct s as [|d k _] using rev_ind; [by rewrite blen_app in Hs|].
  exists k, d, c. split; [done|]. intros ->. done.
Qed.

Lemma continued_snoc k d c : k <> [] ->
  continued ((k ++ [d]) ++ [c]) = if byte_eqb c x0a && byte_eqb d "\" then Some k else None.
Proof.
  intros Hk. unfold continued. rewrite !reverse_snoc. destruct (reverse k) as [|x k'] eqn:E.
  - by apply (f_equal reverse) in E; rewrite reverse_involutive in E.
  - by rewrite <- E, reverse_involutive.
Qed.

Lemma continued_short s : blen s <= 2 -> continued s = None.
Proof.
  intros Hs. destruct s as [|c s _] using rev_ind; [done|]. destruct s as [|d s _] using rev_ind; [done|].
  destruct s as [|x s _] using rev_ind; [done|]. rewrite !blen_app in Hs. change (blen [c]) with 1 in Hs.
  change (blen [d]) with 1 in Hs. change (blen [x]) with 1 in Hs. pose proof (blen_nonneg s). lia.
Qed.

(** The code's test, and what it keeps of a line that continues. *)
Lemma continues_spec s : continues s = match continued s with Some _ => true | None => unfinished s end.
Proof.
  unfold continues, unfinished. destruct (Z.ltb_spec 2 (blen s)) as [Hs|Hs]; [|by rewrite continued_short].
  destruct (snoc3 s Hs) as (k & d & c & -> & Hk). rewrite continued_snoc, ztake_snoc, !ends_in_app by done.
  by destruct (byte_eqb c x0a), (byte_eqb d "\").
Qed.

Lemma continued_Some s keep : continued s = Some keep ->
  ends_in s x0a = true /\ 2 < blen s /\ keep = ztake (blen s - 2) s.
Proof.
  intros E. destruct (Z.lt_ge_cases 2 (blen s)) as [Hs|Hs]; [|by rewrite continued_short in E].
  destruct (snoc3 s Hs) as (k & d & c & -> & Hk). rewrite continued_snoc in E by done. rewrite ends_in_app.
  destruct (byte_eqb c x0a); [|done]. destruct (byte_eqb d "\"); [|done]. injection E as ->. split; [done|]. split; [done|].
  rewrite !blen_app. change (blen [c]) with 1. change (blen [d]) with 1.
  replace (_ - 2) with (blen keep) by lia. by rewrite <- app_assoc, ztake_blen_app.
Qed.

(** A line whose newline does not follow a backslash is finished. *)
Lemma finished_line s : ends_in s "\" = false -> continued (s ++ [x0a]) = None /\ unfinished (s ++ [x0a]) = false.
Proof.
  intros Hs. assert (continues (s ++ [x0a]) = false) as Hc.
  { unfold continues. rewrite ztake_snoc, ends_in_app, Hs. apply andb_false_r. }
  rewrite continues_spec in Hc. destruct (continued _); [done|]. by split.
Qed.

(** ** Physical lines and bounded reads *)

Lemma physical_app content : content = (physical content).1 ++ (physical content).2.
Proof.
  induction content as [|c content IH]; [done|]. simpl. destruct (byte_eqb c x0a); [done|].
  destruct (physical content) as [l rest]; simpl in *. by rewrite IH.
Qed.

Lemma physical_shorter content : content <> [] -> (length (physical content).2 < length content)%nat.
Proof.
  intros Hc. pose proof (physical_app content) as E. apply (f_equal length) in E. rewrite length_app in E.
  destruct content as [|c content]; [done|]. simpl in *.
  destruct (byte_eqb c x0a); [simpl in *; lia|]. destruct (physical content). simpl in *. lia.
Qed.

(** A physical line ends in a newline or at the end of the file. *)
Lemma physical_end content :
  ends_in (physical content).1 x0a = true \/ (physical content).2 = [].
Proof.
  induction content as [|c content IH]; [by right|]. simpl. destruct (byte_eqb c x0a) eqn:E.
  - left. unfold byte_eqb in E. apply bool_decide_eq_true in E as ->. done.
  - destruct (physical content) as [l rest]; simpl in *. destruct IH as [IH| ->]; [|by right]. left.
    destruct l as [|x l]; [done|]. by rewrite (ends_in_app_r [c] (x :: l)).
Qed.

Lemma fgets_app n content : content = (fgets n content).1 ++ (fgets n content).2.
Proof.
  revert n. induction content as [|c content IH]; intros [|n]; [done|done|done|]. simpl.
  destruct (byte_eqb c x0a); [done|]. specialize (IH n).
  destruct (fgets n content) as [l rest]; simpl in *. by rewrite IH.
Qed.

Lemma fgets_room n content : (length (fgets n content).1 <= n)%nat.
Proof.
  revert n. induction content as [|c content IH]; intros [|n]; simpl; try lia.
  destruct (byte_eqb c x0a); [simpl; lia|]. specialize (IH n). destruct (fgets n content). simpl in *. lia.
Qed.

Lemma fgets_shorter n content : content <> [] -> (length (fgets (S n) content).2 < length content)%nat.
Proof.
  intros Hc. destruct content as [|c content]; [done|]. simpl. destruct (byte_eqb c x0a); [simpl; lia|].
  pose proof (fgets_app n content) as E. destruct (fgets n content) as [l rest]. simpl in *.
  apply (f_equal length) in E. rewrite length_app in E. lia.
Qed.

Lemma fgets_no_nul n content : no_nul content -> no_nul (fgets n content).1 /\ no_nul (fgets n content).2.
Proof. intros H. apply no_nul_app. by rewrite <- fgets_app. Qed.

(** A bounded line is the whole line or fills the buffer without reaching its
    end. *)
Lemma fgets_physical n content :
  (fgets n content = physical content /\ (length (physical content).1 <= n)%nat) \/
  (length (fgets n content).1 = n /\ x0a ∉ (fgets n content).1 /\
   physical content = ((fgets n content).1 ++ (physical (fgets n content).2).1, (physical (fgets n content).2).2)).
Proof.
  revert n. induction content as [|c content IH]; intros [|n]; simpl; [by left; split; [done|simpl; lia]..| |].
  - right. split; [done|]. split; [set_solver|]. by destruct (byte_eqb c x0a); [|destruct (physical content)].
  - unfold byte_eqb. case_bool_decide as Hc; [left; split; [done|simpl; lia]|].
    destruct (IH n) as [[E El]|(El & Hn & E)].
    + left. rewrite E. destruct (physical content); simpl in *. split; [done|lia].
    + right. rewrite E. destruct (fgets n content) as [l rest]; simpl in *.
      split; [lia|]. split; [set_solver|done].
Qed.


(** * The buffer is invisible *)

(** What is still to be read of the line in the buffer. *)
Definition complete (buffer content : bytes) : bytes * bytes :=
  if ends_in buffer x0a then (buffer, content)
  else (buffer ++ (physical content).1, (physical content).2).

(** A complete line in the buffer, or a full buffer. *)
Lemma fgets_complete keep n content : content <> [] ->
  let '(l, rest) := fgets (S n) content in
  complete (keep ++ l) rest = (keep ++ (physical content).1, (physical content).2).
Proof.
  intros Hc. destruct (fgets_physical (S n) content) as [[E _]|(El & Hn & E)].
  - rewrite E. destruct (physical_end content) as [He|He]; destruct (physical content) as [l rest] eqn:Ep; simpl in *; unfold complete.
    + assert (l <> []) as Hl by (intros ->; done). by rewrite ends_in_app_r, He.
    + subst rest. destruct (ends_in (keep ++ l) x0a); [done|]. simpl. by rewrite app_nil_r.
  - destruct (fgets (S n) content) as [l rest]. simpl in *. rewrite E. unfold complete.
    rewrite ends_in_app_r by (intros ->; done). rewrite (no_newline_ends l) by done. simpl.
    by rewrite app_assoc.
Qed.

(** A line that does not end in a newline but has more to read fills the
    buffer. *)
Definition full (bufsize : Z) (buffer content : bytes) : Prop :=
  ends_in buffer x0a = true \/ content = [] \/ bufsize = blen buffer + 1.

Lemma fgets_full keep n content : content <> [] ->
  full (blen keep + Z.of_nat n + 1) (keep ++ (fgets n content).1) (fgets n content).2.
Proof.
  intros Hc. unfold full. destruct (fgets_physical n content) as [[E _]|(El & Hl & E)].
  - rewrite E. destruct (physical_end content) as [He| ->]; [|by right; left].
    left. rewrite ends_in_app_r; [done|]. by intros E0; rewrite E0 in He.
  - right. right. rewrite blen_app. unfold blen at 3. lia.
Qed.

(** The buffer's block has the size the code takes it to have, and holds a
    string. *)
Definition buf_ok (bufsize : Z) (b : linebuf) : Prop :=
  4 <= bufsize /\ lb_size b = bufsize /\ blen (lb_data b) <= bufsize - 1 /\ no_nul (lb_data b).

(** [int bufsize] is large enough for what is left of the file: every read
    takes at least a byte, and without nul bytes the buffer only grows when
    it is full. *)
Definition space (bufsize : Z) (keep content : bytes) : Prop :=
  bufsize + 1024 * blen content <= INT_MAX \/
  no_nul content /\ bufsize + 1024 <= INT_MAX /\ blen keep + blen content + 2049 <= INT_MAX.
Definition room (bufsize : Z) (buffer content : bytes) : Prop :=
  bufsize + 1024 * (blen content + 1) <= INT_MAX \/
  no_nul content /\ full bufsize buffer content /\
    bufsize + 1024 <= INT_MAX /\ blen buffer + blen content + 2049 <= INT_MAX.

Lemma room_grow bufsize buffer content : room bufsize buffer content -> ends_in buffer x0a = false ->
  bufsize + 1024 <= INT_MAX /\ (content <> [] -> space (bufsize + 1024) buffer content).
Proof.
  pose proof (blen_nonneg content). intros [Hr|(Hn & Hf & Hb & Ht)] He; [split; [lia|left; lia]|].
  split; [done|]. intros Hc. right. destruct Hf as [?|[?|Hf]]; [congruence|done|]. split; [done|lia].
Qed.

Lemma room_space bufsize buffer content keep : room bufsize buffer content -> blen keep <= blen buffer ->
  space bufsize keep content.
Proof. intros [Hr|(Hn & Hf & Hb & Ht)] Hk; [left; lia|right; split; [done|lia]]. Qed.

Lemma fgets_at_eof off n b : 1 <= n -> 0 <= off -> fgets_at off n b [] = FgotEof.
Proof. intros Hn Ho. unfold fgets_at. by rewrite (proj2 (Z.ltb_ge n 1)), (proj2 (Z.ltb_ge off 0)). Qed.

(** One read behind [keep]. *)
Lemma read_behind keep bufsize b content : content <> [] -> 4 <= bufsize -> blen keep + 2 <= bufsize ->
  lb_size b = bufsize -> no_nul keep -> keep = ztake (blen keep) (lb_data b) -> space bufsize keep content ->
  exists b' rest, fgets_at (blen keep) (bufsize - blen keep) b content = FgotLine b' rest /\
    buf_ok bufsize b' /\ room bufsize (lb_data b') rest /\ (length rest < length content)%nat /\
    (no_nul content -> complete (lb_data b') rest = (keep ++ (physical content).1, (physical content).2) /\
       no_nul rest /\ full bufsize (lb_data b') rest).
Proof.
  intros Hc Hb Hk Hsize Hnk Ek Hsp. pose proof (blen_nonneg keep). pose proof (blen_nonneg (lb_data b)).
  assert (blen keep <= blen (lb_data b)) as Hle by (apply (f_equal blen) in Ek; rewrite blen_ztake in Ek; lia).
  unfold fgets_at. destruct (Z.ltb_spec (bufsize - blen keep) 1); [lia|]. destruct (Z.ltb_spec (blen keep) 0); [lia|].
  cbn [orb]. set (n := Z.to_nat (bufsize - blen keep - 1)).
  assert (exists m, n = S m) as [m Em] by (exists (Z.to_nat (bufsize - blen keep - 2)); lia).
  pose proof (fgets_room n content) as Hroom. pose proof (fgets_shorter m content Hc) as Hsh.
  pose proof (fgets_complete keep m content Hc) as Hcmp. pose proof (fgets_full keep n content Hc) as Hfl.
  pose proof (fgets_no_nul n content) as Hnn. pose proof (f_equal blen (fgets_app n content)) as Happ. rewrite <- Em in Hsh, Hcmp.
  destruct content as [|x content]; [done|]. destruct (fgets n (x :: content)) as [l rest]. cbn [fst snd] in *.
  assert (blen keep + blen l + 1 <= bufsize) as Hl by (unfold blen in *; lia). rewrite Hsize.
  destruct (Z.leb_spec (blen keep + blen l + 1) bufsize); [|lia]. destruct (Z.leb_spec (blen keep) (blen (lb_data b))); [|lia].
  rewrite <- Ek. eexists _, rest. split; [done|]. cbn [lb_data].
  assert (full bufsize (keep ++ l) rest) as Hf by (replace bufsize with (blen keep + Z.of_nat n + 1) by lia; exact Hfl).
  split; [|split; [|split; [done|]]].
  - split; [done|]. split; [done|]. split; [|apply cstr_no_nul]. pose proof (blen_cstr (keep ++ l)).
    rewrite blen_app in *. simpl. lia.
  - destruct Hsp as [Hsp|(Hn & Hsp & Ht)]; [left|right].
    + unfold blen in *. lia.
    + destruct (Hnn Hn) as [Hn1 Hn2]. rewrite cstr_id by (by apply no_nul_app). split; [done|]. split; [done|].
      split; [done|]. rewrite !blen_app in *. lia.
  - intros Hn. destruct (Hnn Hn) as [Hn1 Hn2]. by rewrite cstr_id by (by apply no_nul_app).
Qed.

(** One pass of the loop that completes a line. *)
Lemma more_step fuel bufsize b lineno content :
  buf_ok bufsize b -> room bufsize (lb_data b) content -> continues (lb_data b) = true ->
  let '(keep, lineno') := match continued (lb_data b) with
                          | Some keep => (keep, lineno + 1)
                          | None => (lb_data b, lineno)
                          end in
  match content with
  | [] => more_lines (S fuel) bufsize b lineno content = Some (MoreEof lineno')
  | _ => exists bufsize' b' rest,
      more_lines (S fuel) bufsize b lineno content = more_lines fuel bufsize' b' lineno' rest /\
      buf_ok bufsize' b' /\ room bufsize' (lb_data b') rest /\ (length rest < length content)%nat /\
      (no_nul content -> complete (lb_data b') rest = (keep ++ (physical content).1, (physical content).2) /\
         no_nul rest /\ full bufsize' (lb_data b') rest)
  end.
Proof.
  intros (Hb & Hsize & Hlen & Hn) Hroom Hc. cbn [more_lines]. rewrite Hc. rewrite continues_spec in Hc.
  destruct (continued (lb_data b)) as [keep|] eqn:Ek.
  - destruct (continued_Some _ _ Ek) as (-> & H2 & E). cbn [negb].
    assert (blen keep = blen (lb_data b) - 2) as Hk by (rewrite E, blen_ztake; lia). rewrite <- Hk.
    destruct content as [|x content]; [by rewrite fgets_at_eof by lia|].
    destruct (read_behind keep bufsize b (x :: content)) as (b' & rest & Eg & Hrest);
      [done|done|lia|done|rewrite E; by apply no_nul_ztake|by rewrite Hk|eapply room_space; [done|lia]|].
    exists bufsize, b', rest. by rewrite Eg.
  - unfold unfinished in Hc. apply andb_true_iff in Hc as [H2%Z.ltb_lt Hc]. rewrite Hc. apply negb_true_iff in Hc.
    destruct (room_grow _ _ _ Hroom Hc) as [Hg Hsp]. unfold grow. destruct (Z.leb_spec (bufsize + 1024) INT_MAX); [|lia].
    cbn [mbind option_bind]. set (b2 := LineBuf _ _).
    destruct content as [|x content].
    { by rewrite fgets_at_eof by lia. }
    destruct (read_behind (lb_data b) (bufsize + 1024) b2 (x :: content)) as (b' & rest & Eg & Hrest);
      [done|lia|lia|done|done|symmetry; by apply ztake_ge|by apply Hsp|].
    exists (bufsize + 1024), b', rest. by rewrite Eg.
Qed.

Lemma more_lines_total fuel : forall bufsize b lineno content, (length content < fuel)%nat ->
  buf_ok bufsize b -> room bufsize (lb_data b) content ->
  match more_lines fuel bufsize b lineno content with
  | Some (MoreLine bufsize' b' n r) =>
      (length r <= length content)%nat /\ buf_ok bufsize' b' /\ room bufsize' (lb_data b') r /\ lineno <= n
  | Some (MoreEof n) => True
  | _ => False
  end.
Proof.
  induction fuel as [|fuel IH]; intros bufsize b lineno content Hf Hb Hroom; [lia|].
  destruct (continues (lb_data b)) eqn:Ec; [|cbn [more_lines]; rewrite Ec; repeat split; by (done || lia || apply Hb)].
  pose proof (more_step fuel bufsize b lineno content Hb Hroom Ec) as Hstep.
  set (p := match continued _ with Some _ => _ | None => _ end) in Hstep. destruct p as [keep lineno'] eqn:Ep.
  assert (lineno <= lineno') as Hln by (unfold p in Ep; destruct (continued _); injection Ep; lia).
  destruct content as [|x content]; [by rewrite Hstep|].
  destruct Hstep as (bufsize' & b' & rest & -> & Hb' & Hroom' & Hsh & _).
  specialize (IH bufsize' b' lineno' rest ltac:(lia) Hb' Hroom').
  destruct (more_lines _ _ _ _ _) as [[]|]; try done. destruct IH as (? & ? & ? & ?). split; [lia|]. split; [done|]. split; [done|lia].
Qed.

(** A file the code can read: of less than 2 MiB, or of less than 2 GiB
    without nul bytes. *)
Definition file_fits (content : bytes) : Prop :=
  1024 * (blen content + 1) <= INT_MAX \/ no_nul content /\ blen content + 2049 <= INT_MAX.

Lemma file_fits_space content : file_fits content -> space 1024 [] content.
Proof.
  pose proof (blen_nonneg content). intros [Hf|[Hn Hf]]; [left; lia|right]. split; [done|]. split; [by vm_compute|].
  rewrite blen_nil. lia.
Qed.

(** The first read of a line. *)
Lemma read_first bufsize b content : content <> [] -> 4 <= bufsize -> lb_size b = bufsize -> space bufsize [] content ->
  exists b' rest, fgets_at 0 bufsize b content = FgotLine b' rest /\
    buf_ok bufsize b' /\ room bufsize (lb_data b') rest /\ (length rest < length content)%nat /\
    (no_nul content -> complete (lb_data b') rest = physical content /\ no_nul rest /\ full bufsize (lb_data b') rest).
Proof.
  intros Hc Hb Hs Hsp. pose proof (read_behind [] bufsize b content Hc Hb ltac:(rewrite blen_nil; lia) Hs
    ltac:(by unfold no_nul; set_solver) eq_refl Hsp) as H. rewrite blen_nil, Z.sub_0_r in H. cbn [app] in H.
  by rewrite <- surjective_pairing in H.
Qed.

(** Reading stays within the buffer and comes to the end of the file. *)
Lemma logical_lines_total fuel : forall bufsize b lineno content, (length content < fuel)%nat ->
  4 <= bufsize -> lb_size b = bufsize -> space bufsize [] content ->
  exists ls e, logical_lines fuel bufsize b lineno content = Some (ls, e) /\ e <> EndUndef /\
    Forall (fun l => lineno < l.1 /\ no_nul l.2) ls.
Proof.
  induction fuel as [|fuel IH]; intros bufsize b lineno content Hf Hb Hs Hsp; [lia|]. cbn [logical_lines].
  destruct content as [|c content]; [rewrite fgets_at_eof by lia; by exists [], EndOfFile|].
  destruct (read_first bufsize b (c :: content)) as (b' & rest & -> & Hb' & Hroom & Hsh & _); [done..|].
  destruct (_ && _); [by exists [], (NoFinalNewline lineno)|].
  destruct (blen (lb_data b') <? 2).
  { apply IH; [lia|apply Hb'..|]. eapply room_space; [done|]. apply blen_nonneg. }
  pose proof (more_lines_total (S (length rest)) bufsize b' lineno rest ltac:(lia) Hb' Hroom) as Hm.
  destruct (more_lines _ _ _ _ _) as [[bufsize2 b2 n r|n|]|]; [|by exists [], (NoFinalLine n)|done..].
  destruct Hm as (Hr & (H4 & Hs2 & Hl2 & Hn2) & Hroom2 & Hn).
  destruct (IH bufsize2 b2 (n + 1) r) as (ls & e & -> & He & Hls); [lia|done|done| |].
  { eapply room_space; [done|]. apply blen_nonneg. }
  eexists (_ :: ls), e. split; [done|]. split; [done|]. constructor.
  - split; simpl; [lia|by apply no_nul_ztake].
  - eapply Forall_impl; [exact Hls|]. intros [n' l'] [H1 H2]. simpl in *. split; [lia|done].
Qed.

(** ** Against the reading without a buffer *)

Definition more_agree (m : option more) (r : option (bytes * Z * bytes + Z)) : Prop :=
  match m, r with
  | Some (MoreLine bufsize b n rest), Some (inl (line, n', rest')) =>
      buf_ok bufsize b /\ room bufsize (lb_data b) rest /\ line = lb_data b /\ n' = n /\ rest' = rest
  | Some (MoreEof n), Some (inr n') => n' = n
  | _, _ => False
  end.

(** A line the code has done with is complete. *)
Lemma complete_done bufsize buffer content : 4 <= bufsize -> continues buffer = false -> full bufsize buffer content ->
  complete buffer content = (buffer, content).
Proof.
  intros Hb Hc Hf. unfold complete. destruct (ends_in buffer x0a) eqn:En; [done|].
  destruct Hf as [?|[->|Hf]]; [congruence|by rewrite app_nil_r|].
  unfold continues in Hc. rewrite En in Hc. cbn [negb orb] in Hc. rewrite andb_true_r in Hc.
  apply Z.ltb_ge in Hc. lia.
Qed.

Lemma more_lines_ref fuel : forall fuel' bufsize b lineno content, (length content < fuel)%nat ->
  (length (complete (lb_data b) content).2 < fuel')%nat -> buf_ok bufsize b -> room bufsize (lb_data b) content ->
  no_nul content -> full bufsize (lb_data b) content ->
  more_agree (more_lines fuel bufsize b lineno content)
    (ref_more fuel' (complete (lb_data b) content).1 lineno (complete (lb_data b) content).2).
Proof.
  induction fuel as [|fuel IH]; intros fuel' bufsize b lineno content Hf Hf' Hb Hroom Hn Hfull; [lia|].
  destruct fuel' as [|fuel']; [lia|]. pose proof Hb as (H4 & _). destruct (continues (lb_data b)) eqn:Ec; cycle 1.
  { rewrite (complete_done bufsize) by done. cbn [more_lines ref_more fst snd]. rewrite Ec.
    rewrite continues_spec in Ec. destruct (continued _); [done|]. by rewrite Ec. }
  pose proof (more_step fuel bufsize b lineno content Hb Hroom Ec) as Hstep. rewrite continues_spec in Ec.
  destruct (continued (lb_data b)) as [keep|] eqn:Ek.
  - destruct (continued_Some _ _ Ek) as (En & _ & _). unfold complete in Hf' |- *. rewrite En in Hf' |- *.
    cbn [fst snd ref_more] in *. rewrite Ek.
    destruct content as [|x content]; [by rewrite Hstep|].
    destruct Hstep as (bufsize' & b' & rest & -> & Hb' & Hroom' & Hsh & Hc). destruct (Hc Hn) as (Ecmp & Hn' & Hfull').
    pose proof (physical_shorter (x :: content) ltac:(done)) as Hps.
    specialize (IH fuel' bufsize' b' (lineno + 1) rest ltac:(lia) ltac:(rewrite Ecmp; cbn [snd]; lia) Hb' Hroom' Hn' Hfull').
    by rewrite Ecmp in IH.
  - unfold unfinished in Ec. pose proof Ec as [H2 En%negb_true_iff]%andb_true_iff.
    destruct content as [|x content].
    + rewrite Hstep. unfold complete. rewrite En. cbn [fst snd physical]. rewrite app_nil_r. cbn [ref_more]. rewrite Ek.
      unfold unfinished. by rewrite Ec.
    + destruct Hstep as (bufsize' & b' & rest & -> & Hb' & Hroom' & Hsh & Hc). destruct (Hc Hn) as (Ecmp & Hn' & Hfull').
      assert (complete (lb_data b) (x :: content) = complete (lb_data b') rest) as E
        by (rewrite Ecmp; unfold complete; by rewrite En).
      rewrite E in Hf' |- *. apply IH; [lia|done..].
Qed.

Lemma ref_more_rest fuel : forall line lineno content line' n rest,
  ref_more fuel line lineno content = Some (inl (line', n, rest)) ->
  (length rest <= length content)%nat /\ (no_nul content -> no_nul rest).
Proof.
  induction fuel as [|fuel IH]; intros line lineno content line' n rest; [done|]. cbn [ref_more].
  destruct (continued line); [|destruct (unfinished line); [done|by intros [= <- <- <-]]].
  destruct content as [|c content]; [done|]. intros E. apply IH in E as [Hl Hn].
  pose proof (physical_shorter (c :: content) ltac:(done)). split; [lia|]. intros Hc. apply Hn.
  rewrite (physical_app (c :: content)) in Hc. by apply no_nul_app in Hc as [_ ?].
Qed.

Lemma logical_lines_ref fuel : forall fuel' bufsize b lineno content, (length content < fuel)%nat -> (length content <= fuel')%nat ->
  4 <= bufsize -> lb_size b = bufsize -> space bufsize [] content -> no_nul content ->
  exists ls e, logical_lines fuel bufsize b lineno content = Some (ls, e) /\ ref_lines fuel' lineno content = Some (ls, e).
Proof.
  induction fuel as [|fuel IH]; intros fuel' bufsize b lineno content Hf Hf' Hb Hs Hsp Hn; [lia|].
  cbn [logical_lines]. destruct content as [|c content].
  { rewrite fgets_at_eof by lia. exists [], EndOfFile. by destruct fuel'. }
  destruct fuel' as [|fuel']; [simpl in Hf'; lia|]. cbn [ref_lines].
  destruct (read_first bufsize b (c :: content)) as (b' & rest & -> & Hb' & Hroom & Hsh & Hc); [done..|].
  destruct (Hc Hn) as (Ecmp & Hn' & Hfull). pose proof Hb' as (_ & Hs' & _).
  destruct (physical (c :: content)) as [pl pr] eqn:Ep.
  pose proof (physical_shorter (c :: content) ltac:(done)) as Hps. rewrite Ep in Hps. cbn [snd] in Hps.
  pose proof (more_lines_ref (S (length rest)) (S (length pr)) bufsize b' lineno rest ltac:(lia)
    ltac:(rewrite Ecmp; simpl; lia) Hb' Hroom Hn' Hfull) as Hmore. rewrite Ecmp in Hmore. cbn [fst snd] in Hmore.
  assert ((pl = lb_data b' /\ pr = rest) \/ (2 < blen (lb_data b') /\ 2 < blen pl)) as Hcase.
  { destruct (continues (lb_data b')) eqn:Ec; [|rewrite (complete_done bufsize) in Ecmp by done; left; by injection Ecmp].
    unfold continues in Ec. apply andb_true_iff in Ec as [Ec%Z.ltb_lt _]. unfold complete in Ecmp.
    destruct (ends_in (lb_data b') x0a); [left; by injection Ecmp|right]. split; [done|].
    injection Ecmp as <- _. rewrite blen_app. pose proof (blen_nonneg (physical rest).1). lia. }
  assert ((blen pl =? 2) && negb (ends_in pl x0a) = (blen (lb_data b') =? 2) && negb (ends_in (lb_data b') x0a) /\
    (blen pl <? 2) = (blen (lb_data b') <? 2)) as [-> ->].
  { destruct Hcase as [[-> _]|[H1 H2]]; [done|].
    destruct (Z.eqb_spec (blen pl) 2); [lia|]. destruct (Z.eqb_spec (blen (lb_data b')) 2); [lia|].
    destruct (Z.ltb_spec (blen pl) 2); [lia|]. destruct (Z.ltb_spec (blen (lb_data b')) 2); [lia|]. done. }
  destruct (_ && _); [by eexists _, _|]. destruct (Z.ltb_spec (blen (lb_data b')) 2) as [Hlt|Hge].
  { destruct Hcase as [[_ ->]|[H1 _]]; [|lia]. apply IH; try done; [lia|lia|].
    eapply room_space; [done|]. apply blen_nonneg. }
  destruct (ref_more (S (length pr)) pl lineno pr) as [[[[line' n'] r']|n']|] eqn:Er;
    destruct (more_lines _ _ _ _ _) as [[bufsize2 b2 n r|n|]|]; try done; cbn [more_agree] in Hmore.
  - destruct Hmore as ((H4 & Hs2 & _) & Hroom2 & -> & -> & ->). apply ref_more_rest in Er as [Hr Hrn].
    destruct (IH fuel' bufsize2 b2 (n + 1) r) as (ls & e & -> & ->); [lia..|done| | |by eexists _, _].
    + eapply room_space; [done|]. apply blen_nonneg.
    + apply Hrn. rewrite (physical_app (c :: content)), Ep in Hn. by apply no_nul_app in Hn as [_ ?].
  - subst. by eexists _, _.
Qed.
