(* ===== verification/Config.v ===== *)
(** Loading the configuration: the parsing half of [server/config.c].

    A file is its contents; its line buffer is that of [ConfLines].  Included files take fuel, one unit per
    file. *)

From S2P Require Import Prelude Effects CLib Vector Server Acl ConfLines.

(** * The environment *)

Record passwd : Type := Passwd { pw_name : bytes; pw_uid : Z; pw_pwgid : Z }.

Class ConfEnv : Type := {
  getpwuid : Z -> option passwd;
  getpwnam : bytes -> option passwd;
}.

(** * server/config.c: options *)

Fixpoint is_option_from (first : bool) (p : bytes) : bool :=
  match p with
  | [] => false
  | c :: p =>
      if byte_eqb c "=" && negb first && negb (match p with [] => true | _ => false end) then true
      else if negb (is_alnum c) && negb (byte_eqb c "-") then false
      else is_option_from false p
  end.

Definition is_option (option : bytes) : bool :=
  match option with
  | [] => false
  | c :: _ => if negb (is_alpha c) then false else is_option_from true option
  end.

Definition convert_number (string : bytes) : option Z :=
  let '(arg, err, rest) := strtol string in
  if err || negb (match rest with [] => true | _ => false end) || (arg <=? 0) then None else Some arg.

(** * Loading *)

(** The state: the log and [struct config] with its capacity. *)
Record loading : Type := Loading {
  ld_log : list logline;
  ld_rules : list rule;
  ld_allocated : Z;
}.

#[export] Instance loading_HasLog : HasLog loading :=
  fun l s => Loading (ld_log s ++ [l]) (ld_rules s) (ld_allocated s).

(** [xcalloc(1, sizeof(struct rule))] and the first three fields. *)
Definition new_rule (command subcommand program : bytes) : rule :=
  Rule [] 0 command subcommand program None 0 None None 0 0 None None [].

Definition set_logmask m r := Rule (ru_file r) (ru_lineno r) (ru_command r) (ru_subcommand r) (ru_program r)
  m (ru_stdin_arg r) (ru_user r) (ru_sudo_user r) (ru_uid r) (ru_gid r) (ru_summary r) (ru_help r) (ru_acls r).
Definition set_stdin_arg n r := Rule (ru_file r) (ru_lineno r) (ru_command r) (ru_subcommand r) (ru_program r)
  (ru_logmask r) n (ru_user r) (ru_sudo_user r) (ru_uid r) (ru_gid r) (ru_summary r) (ru_help r) (ru_acls r).
Definition set_sudo u r := Rule (ru_file r) (ru_lineno r) (ru_command r) (ru_subcommand r) (ru_program r)
  (ru_logmask r) (ru_stdin_arg r) (ru_user r) u (ru_uid r) (ru_gid r) (ru_summary r) (ru_help r) (ru_acls r).
Definition set_user u uid gid r := Rule (ru_file r) (ru_lineno r) (ru_command r) (ru_subcommand r) (ru_program r)
  (ru_logmask r) (ru_stdin_arg r) u (ru_sudo_user r) uid gid (ru_summary r) (ru_help r) (ru_acls r).
Definition set_summary s r := Rule (ru_file r) (ru_lineno r) (ru_command r) (ru_subcommand r) (ru_program r)
  (ru_logmask r) (ru_stdin_arg r) (ru_user r) (ru_sudo_user r) (ru_uid r) (ru_gid r) s (ru_help r) (ru_acls r).
Definition set_help h r := Rule (ru_file r) (ru_lineno r) (ru_command r) (ru_subcommand r) (ru_program r)
  (ru_logmask r) (ru_stdin_arg r) (ru_user r) (ru_sudo_user r) (ru_uid r) (ru_gid r) (ru_summary r) h (ru_acls r).
Definition set_source file lineno acls r := Rule file lineno (ru_command r) (ru_subcommand r) (ru_program r)
  (ru_logmask r) (ru_stdin_arg r) (ru_user r) (ru_sudo_user r) (ru_uid r) (ru_gid r) (ru_summary r) (ru_help r) acls.

Section options.
Context {S : Type} `{HasLog S} `{ConfEnv}.

(** The loop over the list's elements: the mask, or the element in error. *)
Fixpoint logmask_values (l : list bytes) : list Z + bytes :=
  match l with
  | [] => inl [0]
  | x :: l =>
      match convert_number x with
      | None => inr x
      | Some mask =>
          if mask <? 0 then inr x
          else match logmask_values l with inl r => inl (u32 mask :: r) | inr e => inr e end
      end
  end.

Definition option_logmask (r : rule) (value name : bytes) (lineno : Z) : M S (config_status * rule) :=
  let* (string, logmask) := from_option_fault (cvector_split value "," None) in
  match logmask_values (cvector_strings string logmask) with
  | inl mask => ret (CONFIG_SUCCESS, set_logmask (Some mask) r)
  | inr bad =>
      do* warn "%s:%lu: invalid logmask parameter %s" [AStr name; AInt lineno; AStr bad] in
      ret (CONFIG_ERROR, set_logmask None r)
  end.

Definition option_stdin (r : rule) (value name : bytes) (lineno : Z) : M S (config_status * rule) :=
  if bytes_eqb value (str "last") then ret (CONFIG_SUCCESS, set_stdin_arg (-1) r)
  else
    match convert_number value with
    | Some n => ret (CONFIG_SUCCESS, set_stdin_arg n r)
    | None =>
        do* warn "%s:%lu: invalid stdin value %s" [AStr name; AInt lineno; AStr value] in
        ret (CONFIG_ERROR, r)
    end.

Definition option_sudo (r : rule) (value name : bytes) (lineno : Z) : M S (config_status * rule) :=
  ret (CONFIG_SUCCESS, set_sudo (Some value) r).

Definition option_user (r : rule) (value name : bytes) (lineno : Z) : M S (config_status * rule) :=
  let pw := match convert_number value with
            | Some uid => getpwuid (u32 uid)
            | None => getpwnam value
            end in
  match pw with
  | None =>
      do* warn "%s:%lu: invalid user value %s" [AStr name; AInt lineno; AStr value] in
      ret (CONFIG_ERROR, r)
  | Some pw => ret (CONFIG_SUCCESS, set_user (Some (pw_name pw)) (pw_uid pw) (pw_pwgid pw) r)
  end.

Definition option_summary (r : rule) (value name : bytes) (lineno : Z) : M S (config_status * rule) :=
  ret (CONFIG_SUCCESS, set_summary (Some value) r).

Definition option_help (r : rule) (value name : bytes) (lineno : Z) : M S (config_status * rule) :=
  ret (CONFIG_SUCCESS, set_help (Some value) r).

Definition options : list (bytes * (rule -> bytes -> bytes -> Z -> M S (config_status * rule))) :=
  [(str "help", option_help); (str "logmask", option_logmask); (str "stdin", option_stdin);
   (str "sudo", option_sudo); (str "summary", option_summary); (str "user", option_user)].

Definition parse_conf_option (r : rule) (option name : bytes) (lineno : Z) : M S (config_status * rule) :=
  match cut "=" option with
  | None =>
      do* warn "%s:%lu: invalid option %s" [AStr name; AInt lineno; AStr option] in
      ret (CONFIG_ERROR, r)
  | Some (key, value) =>
      match List.find (fun e => bytes_eqb e.1 key) options with
      | Some (_, parse) => parse r value name lineno
      | None =>
          do* warn "%s:%lu: unknown option %s" [AStr name; AInt lineno; AStr option] in
          ret (CONFIG_ERROR, r)
      end
  end.

(** The loop over the options; it stops at the first field that is none. *)
Fixpoint parse_options (r : rule) (fields : list bytes) (name : bytes) (lineno : Z)
    : M S (config_status * rule * list bytes) :=
  match fields with
  | [] => ret (CONFIG_SUCCESS, r, [])
  | option :: rest =>
      if negb (is_option option) then ret (CONFIG_SUCCESS, r, fields)
      else
        let* (s, r) := parse_conf_option r option name lineno in
        if bool_decide (s <> CONFIG_SUCCESS) then ret (s, r, fields)
        else parse_options r rest name lineno
  end.
End options.

Section read.
Context `{AclEnv} `{ConfEnv}.

(** [config->rules\[config->count\] = rule], the array growing as needed. *)
Definition add_rule (r : rule) : M loading unit :=
  let* s := gets id in
  let allocated := if blen (ld_rules s) =? ld_allocated s
                   then (if ld_allocated s <? 4 then 4 else ld_allocated s * 2) else ld_allocated s in
  let* rules := from_option_fault (store allocated (ld_rules s) r) in
  modify (fun s => Loading (ld_log s) rules allocated).

(** A complete line: [true] to go on, [false] for the [fail] label.
    [included] handles an included file. *)
Definition conf_line (included : bytes -> M loading config_status) (name : bytes) (lineno : Z)
    (buffer : bytes) : M loading bool :=
  match skip_space buffer with
  | [] => ret true
  | c :: _ =>
      if byte_eqb c "#" then ret true
      else
        let* line := from_option_fault (vector_split_space buffer None) in
        match v_strings line with
        | [s0; s1] =>
            if bytes_eqb s0 (str "include") then
              let* s := handle_include CONFIG_ERROR CONFIG_NOMATCH status_num s1 name lineno included in
              ret (negb (status_num s <? -1))
            else
              do* warn "%s:%lu: parse error" [AStr name; AInt lineno] in ret false
        | command :: subcommand :: program :: ((_ :: _) as fields) =>
            let* (s, r, acls) := parse_options (new_rule command subcommand program) fields name lineno in
            if bool_decide (s <> CONFIG_SUCCESS) then ret false
            else
              match acls with
              | [] => do* warn "%s:%lu: config parse error" [AStr name; AInt lineno] in ret false
              | _ => do* add_rule (set_source name lineno acls r) in ret true
              end
        | _ => do* warn "%s:%lu: parse error" [AStr name; AInt lineno] in ret false
        end
  end.

(** The loop over the file: the buffer, its size and the line number are its
    state. *)
Fixpoint conf_lines (fuel : nat) (included : bytes -> M loading config_status) (name : bytes)
    (bufsize : Z) (b : linebuf) (lineno : Z) (content : bytes) : M loading config_status :=
  match fuel with
  | O => fun _ => NoFuel
  | Datatypes.S fuel =>
      match fgets_at 0 bufsize b content with
      | FgotEof => ret CONFIG_SUCCESS
      | FgotUndef => fault
      | FgotLine b rest =>
          let buffer := lb_data b in
          if (blen buffer =? 2) && negb (ends_in buffer x0a) then
            do* warn "%s:%lu: no final newline" [AStr name; AInt lineno] in ret CONFIG_ERROR
          else if blen buffer <? 2 then conf_lines fuel included name bufsize b lineno rest
          else
            match more_lines (Datatypes.S (length rest)) bufsize b lineno rest with
            | None => fun _ => NoFuel
            | Some MoreUndef => fault
            | Some (MoreEof lineno) =>
                do* warn "%s:%lu: no final line or newline" [AStr name; AInt lineno] in ret CONFIG_ERROR
            | Some (MoreLine bufsize b lineno rest) =>
                let buffer := ztake (blen (lb_data b) - 1) (lb_data b) in
                let lineno := lineno + 1 in
                let* ok := conf_line included name lineno buffer in
                if (ok : bool) then conf_lines fuel included name bufsize b lineno rest
                else ret CONFIG_ERROR
            end
      end
  end.

Fixpoint read_conf_file (fuel : nat) (name : bytes) : M loading config_status :=
  match fuel with
  | O => fun _ => NoFuel
  | Datatypes.S fuel =>
      match fs_read name with
      | None => do* syswarn "cannot open config file %s" [AStr name] in ret CONFIG_ERROR
      | Some content =>
          conf_lines (Datatypes.S (length content)) (read_conf_file fuel) name 1024 (LineBuf 1024 []) 0 content
      end
  end.

(** [NULL] is [None]; the log is the caller's. *)
Definition server_config_load {S} `{HasLog S} (fuel : nat) (file : bytes) : M S (option config) := fun s =>
  let done (l : loading) (s : S) : S := foldl (fun s m => add_log m s) s (ld_log l) in
  match read_conf_file fuel file (Loading [] [] 0) with
  | Ret status l => Ret (if status_num status =? 0 then Some (ld_rules l) else None) (done l s)
  | Exit c l => Exit c (done l s)
  | Fault => Fault
  | NoFuel => NoFuel
  end.
End read.

Section fold.
Context `{AclEnv} `{ConfEnv}.

Fixpoint conf_fold (included : bytes -> M loading config_status) (name : bytes)
    (lines : list (Z * bytes)) (e : ending) : M loading config_status :=
  match lines with
  | [] =>
      match e with
      | EndOfFile => ret CONFIG_SUCCESS
      | NoFinalNewline lineno =>
          do* warn "%s:%lu: no final newline" [AStr name; AInt lineno] in ret CONFIG_ERROR
      | NoFinalLine lineno =>
          do* warn "%s:%lu: no final line or newline" [AStr name; AInt lineno] in ret CONFIG_ERROR
      | EndUndef => fault
      end
  | (lineno, buffer) :: lines =>
      let* ok := conf_line included name lineno buffer in
      if (ok : bool) then conf_fold included name lines e else ret CONFIG_ERROR
  end.

Lemma conf_lines_fold included name fuel : forall bufsize b lineno content ls e s,
  logical_lines fuel bufsize b lineno content = Some (ls, e) ->
  conf_lines fuel included name bufsize b lineno content s = conf_fold included name ls e s.
Proof.
  induction fuel as [|fuel IH]; intros bufsize b lineno content ls e s; cbn [conf_lines logical_lines]; [done|].
  destruct (fgets_at _ _ _ _) as [b' rest| |]; [|by intros [= <- <-]..]. destruct (_ && _); [by intros [= <- <-]|].
  destruct (_ <? 2); [apply IH|].
  destruct (more_lines (Datatypes.S (length rest)) bufsize b' lineno rest) as [[bufsize2 b2 n r|n|]|];
    [|by intros [= <- <-]..|done].
  unfold cons_line. destruct (logical_lines _ _ _ _ _) as [[ls' e']|] eqn:E; [|done]. intros [= <- <-].
  simpl. unfold bind. destruct (conf_line _ _ _ _ s) as [[] s1| | |]; try done. by apply IH.
Qed.
End fold.
