(* ===== verification/ConfigLoad.v ===== *)
(** Theorems about loading the configuration ([Config]). *)

From S2P Require Import Prelude Effects CLib Vector Server Acl ConfLines Config.

(** * Well-formed rules *)

(** A field of a line: nonempty, without nuls, spaces and tabs. *)
Definition word (w : bytes) : Prop := w <> [] /\ no_nul w /\ forall c, c ∈ w -> c ∉ [x20; x09].

Section wf.
Context `{ConfEnv}.

Definition passwd_known (pw : passwd) : Prop :=
  (exists uid, getpwuid uid = Some pw) \/ (exists name, getpwnam name = Some pw).

(** What the options may have set. *)
Record opts_ok (r : rule) : Prop := {
  oo_logmask : forall m, ru_logmask r = Some m ->
    exists l, m = l ++ [0] /\ Forall (fun n => 0 <= n < 2 ^ 32) l;
  oo_stdin : ru_stdin_arg r = -1 \/ 0 <= ru_stdin_arg r <= LONG_MAX;
  oo_user : match ru_user r with
            | None => ru_uid r = 0 /\ ru_gid r = 0
            | Some u => exists pw, passwd_known pw /\ u = pw_name pw /\ ru_uid r = pw_uid pw /\ ru_gid r = pw_pwgid pw
            end;
  oo_sudo : forall w, ru_sudo_user r = Some w -> word w;
  oo_summary : forall w, ru_summary r = Some w -> word w;
  oo_help : forall w, ru_help r = Some w -> word w;
}.

Record rule_ok (r : rule) : Prop := {
  rk_command : word (ru_command r);
  rk_subcommand : word (ru_subcommand r);
  rk_program : word (ru_program r);
  rk_lineno : 0 < ru_lineno r;
  rk_acls : ru_acls r <> [] /\ Forall word (ru_acls r) /\ forall a, head (ru_acls r) = Some a -> is_option a = false;
  rk_opts : opts_ok r;
}.

Record loading_ok (s : loading) : Prop := {
  lk_rules : Forall rule_ok (ld_rules s);
  lk_room : blen (ld_rules s) <= ld_allocated s;
}.

(** ** Options *)

Lemma convert_number_range s n : convert_number s = Some n -> 0 < n <= LONG_MAX.
Proof.
  unfold convert_number. pose proof (strtol_range s). destruct (strtol s) as [[v e] rest]. simpl in *.
  destruct (_ || (v <=? 0)) eqn:E; [done|]. intros [= <-].
  apply orb_false_iff in E as [_ E%Z.leb_gt]. lia.
Qed.

Lemma logmask_values_ok l m : logmask_values l = inl m ->
  exists r, m = r ++ [0] /\ Forall (fun n => 0 <= n < 2 ^ 32) r.
Proof.
  revert m. induction l as [|x l IH]; intros m; simpl; [intros [= <-]; by exists []|].
  destruct (convert_number x) as [n|]; [|done]. destruct (n <? 0); [done|].
  destruct (logmask_values l) as [r|]; [|done]. intros [= <-]. destruct (IH r eq_refl) as (r' & -> & Hr).
  exists (u32 n :: r'). split; [done|]. constructor; [apply u32_range|done].
Qed.

Context {S : Type} `{HasLog S}.

(** An option is accepted without a message, or refused with one. *)
Definition option_outcome (r : rule) (m : M S (config_status * rule)) : Prop := forall s,
  (exists r', m s = Ret (CONFIG_SUCCESS, r') s /\ (opts_ok r -> opts_ok r') /\
    ru_command r' = ru_command r /\ ru_subcommand r' = ru_subcommand r /\ ru_program r' = ru_program r) \/
  (exists r' l, m s = Ret (CONFIG_ERROR, r') (add_log l s)).

Lemma option_logmask_outcome r value name lineno : no_nul value -> option_outcome r (option_logmask r value name lineno).
Proof.
  intros Hv s. unfold option_logmask. destruct (cvector_split_ref value "," None) as (string & v & -> & _); [done..|].
  cbn [from_option_fault]. rewrite (bind_Ret _ _ s (string, v) s eq_refl).
  destruct (logmask_values (cvector_strings string v)) as [m|bad] eqn:Em.
  - left. eexists. split; [done|]. split; [|done]. intros [H1 H2 H3 H4 H5 H6]. split; try done.
    intros m' [= <-]. exact (logmask_values_ok _ _ Em).
  - right. by do 2 eexists.
Qed.

Lemma option_stdin_outcome r value name lineno : option_outcome r (option_stdin r value name lineno).
Proof.
  intros s. unfold option_stdin. destruct (bytes_eqb value _).
  - left. eexists. split; [done|]. split; [|done]. intros [H1 H2 H3 H4 H5 H6]. split; try done. by left.
  - destruct (convert_number value) as [n|] eqn:E; [|right; by do 2 eexists].
    apply convert_number_range in E. left. eexists. split; [done|]. split; [|done].
    intros [H1 H2 H3 H4 H5 H6]. split; try done. right. simpl. lia.
Qed.

Lemma option_user_outcome r value name lineno : option_outcome r (option_user r value name lineno).
Proof.
  intros s. unfold option_user.
  assert (forall pw, match convert_number value with Some uid => getpwuid (u32 uid) | None => getpwnam value end = Some pw ->
    passwd_known pw) as Hk.
  { intros pw. destruct (convert_number value); intros E; [left|right]; by eexists. }
  destruct (match convert_number value with Some _ => _ | None => _ end) as [pw|]; [|right; by do 2 eexists].
  left. eexists. split; [done|]. split; [|done]. intros [H1 H2 H3 H4 H5 H6]. split; try done.
  exists pw. by split; [apply Hk|].
Qed.

Lemma cut_elem c s a b : cut c s = Some (a, b) -> forall x, x ∈ b -> x ∈ s.
Proof.
  revert a. induction s as [|d s IH]; intros a; simpl; [done|]. destruct (byte_eqb d c).
  - intros [= <- <-]. set_solver.
  - destruct (cut c s) as [[a' b']|]; [|done]. intros [= <- <-] x Hx. right. by eapply IH.
Qed.

(** An option has a value. *)
Lemma is_option_cut p : forall first, is_option_from first p = true ->
  exists key value, cut "=" p = Some (key, value) /\ value <> [].
Proof.
  induction p as [|c p IH]; intros first; simpl; [done|]. destruct (byte_eqb c "=") eqn:Ec.
  - destruct p as [|d p]; [|intros _; by do 2 eexists].
    apply bool_decide_eq_true in Ec as ->. by rewrite andb_false_r.
  - simpl. destruct (negb (is_alnum c) && negb (byte_eqb c "-")); [done|].
    intros E. apply IH in E as (k & v & -> & Hv). by do 2 eexists.
Qed.

Lemma parse_conf_option_outcome r option name lineno : word option -> is_option option = true ->
  option_outcome r (parse_conf_option r option name lineno).
Proof.
  intros (_ & Hn & Hsp) Ho.
  assert (exists key value, cut "=" option = Some (key, value) /\ value <> []) as (key & value & Ec & Hv).
  { unfold is_option in Ho. destruct option as [|c option]; [done|]. destruct (negb _); [done|]. by eapply is_option_cut. }
  assert (word value) as Hw.
  { pose proof (cut_elem _ _ _ _ Ec) as Hin. split; [done|]. split; [unfold no_nul in *; set_solver|].
    intros c Hc. by apply Hsp, Hin. }
  unfold parse_conf_option. rewrite Ec. unfold options. cbn [List.find fst].
  destruct (bytes_eqb (str "help") key).
  { intros s. left. eexists. split; [done|]. split; [|done]. intros [H1 H2 H3 H4 H5 H6]. split; try done. by intros w [= <-]. }
  destruct (bytes_eqb (str "logmask") key); [apply option_logmask_outcome, Hw|].
  destruct (bytes_eqb (str "stdin") key); [apply option_stdin_outcome|].
  destruct (bytes_eqb (str "sudo") key).
  { intros s. left. eexists. split; [done|]. split; [|done]. intros [H1 H2 H3 H4 H5 H6]. split; try done. by intros w [= <-]. }
  destruct (bytes_eqb (str "summary") key).
  { intros s. left. eexists. split; [done|]. split; [|done]. intros [H1 H2 H3 H4 H5 H6]. split; try done. by intros w [= <-]. }
  destruct (bytes_eqb (str "user") key); [apply option_user_outcome|].
  intros s. right. by do 2 eexists.
Qed.

(** The options of a line: the rule and the fields that follow, or an error and a message. *)
Lemma parse_options_outcome name lineno fields : Forall word fields -> forall r s,
  (exists r' rest, parse_options r fields name lineno s = Ret (CONFIG_SUCCESS, r', rest) s /\
    (opts_ok r -> opts_ok r') /\ rest `suffix_of` fields /\
    (forall a, head rest = Some a -> is_option a = false) /\
    ru_command r' = ru_command r /\ ru_subcommand r' = ru_subcommand r /\ ru_program r' = ru_program r) \/
  (exists r' rest l, parse_options r fields name lineno s = Ret (CONFIG_ERROR, r', rest) (add_log l s)).
Proof.
  induction 1 as [|f fields Hf Hfs IH]; intros r s; simpl.
  - left. exists r, []. split; [done|]. split; [done|]. split; [done|]. by split.
  - destruct (is_option f) eqn:Eo; simpl; cycle 1.
    { left. exists r, (f :: fields). split; [done|]. split; [done|]. split; [done|]. split; [by intros a [= <-]|done]. }
    destruct (parse_conf_option_outcome r f name lineno Hf Eo s) as [(r1 & E & Hok & E1 & E2 & E3)|(r1 & l & E)];
      rewrite (bind_Ret _ _ _ _ _ E); simpl; [|right; by do 3 eexists].
    destruct (IH r1 s) as [(r2 & rest & -> & Hok2 & Hsuf & Hh & F1 & F2 & F3)|(r2 & rest & l & ->)]; [|right; by do 3 eexists].
    left. exists r2, rest. rewrite F1, F2, F3. split; [done|]. split; [auto|]. split; [by apply suffix_cons_r|done].
Qed.
End wf.

(** * Reading a file *)

Section load.
Context `{AclEnv} `{ConfEnv}.

(** What reading does to the configuration: rules and messages are only
    added, the configuration stays well formed, and no error is silent. *)
Definition conf_step (s : loading) (st : config_status) (s' : loading) : Prop :=
  loading_ok s' /\ (exists new, ld_log s' = ld_log s ++ new /\ (st = CONFIG_ERROR -> new <> [])) /\
  (exists rs, ld_rules s' = ld_rules s ++ rs) /\ st <> CONFIG_DENY.

Lemma conf_step_refl s st : loading_ok s -> st = CONFIG_SUCCESS \/ st = CONFIG_NOMATCH -> conf_step s st s.
Proof.
  intros Hs Hst. split; [done|]. split; [|split]; [| |by destruct Hst as [-> | ->]].
  - exists []. rewrite app_nil_r. split; [done|]. by destruct Hst as [-> | ->].
  - exists []. by rewrite app_nil_r.
Qed.

Lemma conf_step_trans s st s1 st' s' : conf_step s st s1 -> conf_step s1 st' s' -> conf_step s st' s'.
Proof.
  intros (_ & (l & El & _) & (r & Er) & _) (Hok & (l' & El' & Hl') & (r' & Er') & Hd).
  split; [done|]. split; [|split; [|done]].
  - exists (l ++ l'). rewrite El', El, app_assoc. split; [done|]. intros Hst%Hl' [_ E]%app_nil. done.
  - exists (r ++ r'). by rewrite Er', Er, app_assoc.
Qed.

Lemma conf_step_log s l : loading_ok s -> conf_step s CONFIG_ERROR (add_log l s).
Proof.
  intros [H1 H2]. split; [by split|]. split; [exists [l]; by split|]. split; [|done].
  exists []. by rewrite app_nil_r.
Qed.

Lemma conf_step_weaken s st st' s' : conf_step s st s' -> st' <> CONFIG_DENY ->
  (st' = CONFIG_ERROR -> st = CONFIG_ERROR) -> conf_step s st' s'.
Proof.
  intros (Hok & (l & El & Hl) & Hr & _) Hd Hst. split; [done|]. split; [|by split].
  exists l. split; [done|]. auto.
Qed.

(** An operation that takes every well-formed state one step. *)
Definition conf_op (m : M loading config_status) : Prop :=
  forall s, loading_ok s -> runs m (conf_step s) s.

Lemma include_fold_op function files : (forall f, f ∈ files -> conf_op (function f)) ->
  forall st, st = CONFIG_SUCCESS \/ st = CONFIG_NOMATCH -> conf_op (include_fold status_num function files st).
Proof.
  induction files as [|f files IH]; intros Hf st Hst s Hs; simpl; [apply runs_ret; by apply conf_step_refl|].
  apply runs_bind. eapply runs_mono; [apply Hf; [set_solver|done]|]. intros last s1 Hstep.
  destruct (status_num last <? -1) eqn:E; [by apply runs_ret|].
  assert (last = CONFIG_SUCCESS \/ last = CONFIG_NOMATCH) as Hl by (destruct last; simpl in E; try done; auto).
  eapply runs_mono; [apply IH; [set_solver| |apply Hstep]; destruct (status_num st <? status_num last); auto|].
  intros. by eapply conf_step_trans.
Qed.

Lemma handle_include_op included file lineno function :
  (forall f, f ∈ include_files included -> conf_op (function f)) ->
  conf_op (handle_include CONFIG_ERROR CONFIG_NOMATCH status_num included file lineno function).
Proof.
  intros Hf s Hs. destruct (decide (included = file)) as [E|Hne].
  { unfold handle_include. rewrite (proj2 (bytes_eqb_true _ _) E). by apply conf_step_log. }
  destruct (fs_isdir included) as [[]|] eqn:Ed.
  - destruct (fs_readdir included) as [entries|] eqn:Er.
    + unfold runs, wp. rewrite handle_include_fold by (done || by rewrite Er).
      apply include_fold_op; auto.
    + unfold handle_include. rewrite (proj2 (bytes_eqb_false _ _) Hne), Ed, Er. by apply conf_step_log.
  - unfold handle_include. rewrite (proj2 (bytes_eqb_false _ _) Hne), Ed. apply Hf; [|done].
    unfold include_files. rewrite Ed. set_solver.
  - unfold handle_include. rewrite (proj2 (bytes_eqb_false _ _) Hne), Ed. by apply conf_step_log.
Qed.

(** The fields of a line are words. *)
Lemma split_space_words buffer : no_nul buffer ->
  exists v, vector_split_space buffer None = Some v /\ v_strings v = words (is_sep [x20; x09]) buffer /\
    Forall word (v_strings v).
Proof.
  intros Hn. destruct (vector_split_multi_ref buffer [x20; x09] None Hn ltac:(done)) as (v & E & Ew & _).
  exists v. split; [exact E|]. split; [exact Ew|]. rewrite Ew. eapply Forall_impl; [apply words_plain|].
  intros w (H1 & H2 & H3). split; [done|]. split; [|done]. intros Hin. by apply Hn, H3.
Qed.

Lemma add_rule_runs r s : blen (ld_rules s) <= ld_allocated s ->
  runs (add_rule r) (fun _ s' => ld_rules s' = ld_rules s ++ [r] /\ ld_log s' = ld_log s /\
    blen (ld_rules s') <= ld_allocated s') s.
Proof.
  intros Hroom. unfold add_rule. apply runs_bind, wp_gets. set (cap := if _ =? _ then _ else _).
  assert (blen (ld_rules s) < cap) as Hcap.
  { unfold cap. cbv [id]. pose proof (blen_nonneg (ld_rules s)).
    destruct (Z.eqb_spec (blen (ld_rules s)) (ld_allocated s)); [|lia]. destruct (Z.ltb_spec (ld_allocated s) 4); lia. }
  cbv [id] in *. rewrite store_Some by done. apply runs_bind, wp_ret, wp_modify. split; [done|]. split; [done|].
  simpl. rewrite blen_app. change (blen [r]) with 1. lia.
Qed.

Lemma add_rule_op r s : loading_ok s -> rule_ok r ->
  runs (add_rule r) (fun _ s' => conf_step s CONFIG_SUCCESS s') s.
Proof.
  intros [Hr Hroom] Hok. eapply runs_mono; [by apply add_rule_runs|]. intros _ s' (Er & El & Hroom').
  split; [split; [|done]|split; [|split; [|done]]].
  - rewrite Er. apply Forall_app. split; [done|]. by constructor.
  - exists []. by rewrite app_nil_r.
  - by exists [r].
Qed.

Definition line_status (ok : bool) : config_status := if ok then CONFIG_SUCCESS else CONFIG_ERROR.

Lemma new_rule_opts a b c : opts_ok (new_rule a b c).
Proof. split; try done. by right. Qed.

(** A line adds a well-formed rule, is skipped, or is an error. *)
Lemma conf_line_op included name lineno buffer s : no_nul buffer -> 0 < lineno ->
  (forall v s1, vector_split_space buffer None = Some v -> v_strings v = [str "include"; s1] ->
     forall f, f ∈ include_files s1 -> conf_op (included f)) ->
  loading_ok s ->
  runs (conf_line included name lineno buffer) (fun ok s' => conf_step s (line_status ok) s') s.
Proof.
  intros Hn Hline Hinc Hs. unfold conf_line.
  destruct (skip_space buffer) as [|c ?]; [apply runs_ret, conf_step_refl; auto|].
  destruct (byte_eqb c "#"); [apply runs_ret, conf_step_refl; auto|].
  destruct (split_space_words buffer Hn) as (v & Ev & _ & Hw). rewrite Ev. apply runs_bind, wp_ret.
  specialize (Hinc v). destruct (v_strings v) as [|s0 [|s1 [|s2 [|s3 fields]]]] eqn:El; try by apply conf_step_log.
  - destruct (bytes_eqb s0 (str "include")) eqn:Ei; [|by apply conf_step_log].
    apply bytes_eqb_true in Ei as ->. apply runs_bind.
    eapply runs_mono; [apply handle_include_op; [by apply Hinc|done]|].
    intros st s' Hstep. apply runs_ret. eapply conf_step_weaken; [exact Hstep|by destruct (negb _)|].
    destruct Hstep as (_ & _ & _ & Hd). by destruct st.
  - clear Hinc. assert (word s0 /\ word s1 /\ word s2 /\ Forall word (s3 :: fields)) as (W0 & W1 & W2 & Wf).
    { rewrite !Forall_cons in Hw. rewrite Forall_cons. tauto. }
    destruct (parse_options_outcome name lineno (s3 :: fields) Wf (new_rule s0 s1 s2) s) as
      [(r & rest & E & Ho & Hsuf & Hh & E1 & E2 & E3)|(r & rest & msg & E)]; apply runs_bind; unfold runs, wp; rewrite E.
    + case_bool_decide; [done|]. destruct rest as [|a rest]; [by apply conf_step_log|].
      change (runs (do* add_rule (set_source name lineno (a :: rest) r) in ret true)
        (fun ok s' => conf_step s (line_status ok) s') s).
      apply runs_bind. eapply runs_mono; [apply add_rule_op; [done|]|intros [] s' Hst; by apply runs_ret].
      destruct (Ho (new_rule_opts _ _ _)) as [O1 O2 O3 O4 O5 O6]. split; simpl; rewrite ?E1, ?E2, ?E3; try done.
      split; [done|]. split; [|exact Hh]. destruct Hsuf as [pre Hsuf]. rewrite Hsuf in Wf. by apply Forall_app in Wf as [_ ?].
    + case_bool_decide; [|done]. by apply conf_step_log.
Qed.

Lemma conf_fold_op included name ls e : e <> EndUndef -> Forall (fun l => 0 < l.1 /\ no_nul l.2) ls ->
  (forall l v s1, l ∈ ls -> vector_split_space l.2 None = Some v -> v_strings v = [str "include"; s1] ->
     forall f, f ∈ include_files s1 -> conf_op (included f)) ->
  conf_op (conf_fold included name ls e).
Proof.
  intros He. induction 1 as [|[n l] ls [Hn Hl] _ IH]; intros Hinc s Hs; simpl.
  - destruct e; [by apply runs_ret, conf_step_refl; auto|by apply conf_step_log..|done].
  - apply runs_bind. eapply runs_mono; [apply conf_line_op; [done|done| |done]|].
    { intros v s1. apply (Hinc (n, l)). left. }
    intros ok s' Hst. destruct ok; [|by apply runs_ret].
    eapply runs_mono; [apply IH; [|apply Hst]|intros; by eapply conf_step_trans].
    intros l' v s1 Hin. apply Hinc. by right.
Qed.

(** The lines of a file. *)
Definition file_lines (content : bytes) : option (list (Z * bytes) * ending) :=
  logical_lines (Datatypes.S (length content)) 1024 (LineBuf 1024 []) 0 content.

(** File [f] has a line that includes file [g]. *)
Definition conf_includes (f g : bytes) : Prop := exists content ls e l v s1,
  fs_read f = Some content /\ file_lines content = Some (ls, e) /\ l ∈ ls /\
  vector_split_space l.2 None = Some v /\ v_strings v = [str "include"; s1] /\ g ∈ include_files s1.

(** Every file is within what the code can read. *)
Definition files_fit : Prop := forall f content, fs_read f = Some content -> file_fits content.

Lemma read_conf_file_op (rank : bytes -> nat) : files_fit ->
  (forall f g, conf_includes f g -> (rank g < rank f)%nat) ->
  forall fuel name, (rank name < fuel)%nat -> conf_op (read_conf_file fuel name).
Proof.
  intros Hfit Hrank. induction fuel as [|fuel IH]; intros name Hf s Hs; [lia|]. cbn [read_conf_file].
  destruct (fs_read name) as [content|] eqn:Ec; [|by apply conf_step_log].
  destruct (logical_lines_total (Datatypes.S (length content)) 1024 (LineBuf 1024 []) 0 content) as (ls & e & El & He & Hls);
    [lia..|done|by eapply file_fits_space, Hfit|].
  unfold runs, wp. rewrite (conf_lines_fold _ _ _ _ _ _ _ _ _ _ El).
  apply conf_fold_op; [done|done| |done]. intros l v s1 Hl Ev Es g Hg. apply IH.
  assert (rank g < rank name)%nat; [|lia]. apply Hrank. by exists content, ls, e, l, v, s1.
Qed.

Lemma conf_lines_status included name fuel : forall bufsize b lineno content,
  triple (fun _ => True) (conf_lines fuel included name bufsize b lineno content) (fun st _ => st <> CONFIG_NOMATCH).
Proof.
  induction fuel as [|fuel IH]; intros bufsize b lineno content; cbn [conf_lines]; [by intros s _|].
  destruct (fgets_at _ _ _ _) as [b' rest| |]; [|by apply triple_ret|by intros s _].
  destruct (_ && _); [by intros s _|]. destruct (_ <? 2); [apply IH|].
  destruct (more_lines _ _ _ _ _) as [[bufsize2 b2 n r|n|]|]; [|by intros s _..].
  eapply triple_bind with (R := fun _ _ => True); [by intros s _; destruct (conf_line _ _ _ _ s)|].
  intros []; [apply IH|by apply triple_ret].
Qed.

Lemma read_conf_file_status fuel name s st s' : read_conf_file fuel name s = Ret st s' -> st <> CONFIG_NOMATCH.
Proof.
  destruct fuel as [|fuel]; [done|]. cbn [read_conf_file]. destruct (fs_read name) as [content|]; [|by intros [= <- <-]].
  intros E. exact (triple_Ret _ _ _ _ _ _ (conf_lines_status _ _ _ _ _ _ _) I E).
Qed.

Lemma loading_empty_ok : loading_ok (Loading [] [] 0).
Proof. by split. Qed.
End load.

(** * Theorems *)

(** C25: the type of a loaded configuration, and that loading never fails silently.  When the include lines
    do not form a cycle ([rank] decreases along them) and every file has less than 2 MiB, or less than 2 GiB
    and no nul bytes, [server_config_load] terminates, reads and writes within the line buffer and the array
    of rules, and does not overflow the buffer's [int] size; a configuration it returns consists of well-formed rules: command, subcommand,
    program, ACLs and option values are nonempty words, there is at least one ACL and the first one does
    not look like an option, the mask list is zero-terminated and holds unsigned integers, the stdin
    argument is "last" or within a [long], user and group ids come from the password database; and when
    it returns [NULL] at least one message was logged. *)
Theorem config_load_wellformed `{AclEnv} `{ConfEnv} (rank : bytes -> nat) fuel file log :
  files_fit -> (forall f g, conf_includes f g -> (rank g < rank f)%nat) -> (rank file < fuel)%nat ->
  exists r new, server_config_load (S:=logs) fuel file log = Ret r (log ++ new) /\
    match r with Some cfg => Forall rule_ok cfg | None => new <> [] end.
Proof.
  intros Hfit Hrank Hf. unfold server_config_load.
  pose proof (read_conf_file_op rank Hfit Hrank fuel file Hf _ loading_empty_ok) as Hop. unfold runs, wp in Hop.
  destruct (read_conf_file fuel file _) as [st l| | |] eqn:E; [|done..].
  apply read_conf_file_status in E. destruct Hop as ([Hr _] & (new & El & Hn) & _ & Hd).
  simpl in El. eexists _, (ld_log l). split.
  - f_equal. rewrite El. clear. revert log. induction new as [|x new IH]; intros log; simpl; [by rewrite app_nil_r|].
    rewrite IH. change (add_log x log) with (log ++ [x]). by rewrite <- app_assoc.
  - destruct st; simpl; [exact Hr|done|rewrite El; by apply Hn|done].
Qed.

(** A configuration on disk for the witnesses: two rules, one of them in an included file. *)
Definition nl : bytes := [x0a].
#[local] Instance conf_demo_env : AclEnv := {|
  fs_isdir f := if bytes_eqb f (str "/etc/remctl.d/backup") then Some false else None;
  fs_readdir _ := None;
  fs_read f :=
    if bytes_eqb f (str "/etc/remctl.conf") then
      Some (str "# comment" ++ nl ++ str "account passwd /bin/pw logmask=3,4 stdin=last \" ++ nl ++
            str "  /etc/acl princ:a@B" ++ nl ++ str "include /etc/remctl.d/backup" ++ nl)
    else if bytes_eqb f (str "/etc/remctl.d/backup") then Some (str "backup ALL /bin/backup user=bob ANYUSER" ++ nl)
    else None;
  have_gput := false; have_localgroup := false; have_pcre := false; have_regex := false;
  gput_open_ok := false; gput_check _ _ _ := false;
  pcre_match _ _ := RegexNoMatch; regex_match _ _ := RegexNoMatch;
  getgrnam_r _ := []; krb5_init_context := 0; krb5_parse_name _ := 0; krb5_aname_to_localname _ := NoLocalName; pw_gid _ := None;
|}.
#[local] Instance conf_demo_pw : ConfEnv := {|
  getpwuid _ := None;
  getpwnam n := if bytes_eqb n (str "bob") then Some (Passwd (str "bob") 1001 100) else None;
|}.

Definition conf_demo_rules : config :=
  [Rule (str "/etc/remctl.conf") 3 (str "account") (str "passwd") (str "/bin/pw") (Some [3; 4; 0]) (-1) None None 0 0 None None
     [str "/etc/acl"; str "princ:a@B"];
   Rule (str "/etc/remctl.d/backup") 1 (str "backup") (str "ALL") (str "/bin/backup") None 0 (Some (str "bob")) None 1001 100
     None None [str "ANYUSER"]].

Example conf_demo_load : server_config_load (S:=logs) 2 (str "/etc/remctl.conf") [] = Ret (Some conf_demo_rules) [].
Proof. vm_compute. reflexivity. Qed.

Definition conf_demo_rank_of (f : bytes) : nat := if bytes_eqb f (str "/etc/remctl.conf") then 1 else 0.

Lemma conf_demo_rank f g : conf_includes f g -> (conf_demo_rank_of g < conf_demo_rank_of f)%nat.
Proof.
  intros (content & ls & e & l & v & s1 & Ec & El & Hl & Ev & Es & Hg). unfold fs_read, conf_demo_env in Ec.
  destruct (bytes_eqb f (str "/etc/remctl.conf")) eqn:E1; [apply bytes_eqb_true in E1 as ->|];
    [|destruct (bytes_eqb f (str "/etc/remctl.d/backup")) eqn:E2; [apply bytes_eqb_true in E2 as ->|done]];
    injection Ec as <-; vm_compute in El; injection El as <- <-;
    repeat (apply elem_of_cons in Hl as [->|Hl]; [|try (by apply not_elem_of_nil in Hl)]);
    vm_compute in Ev; injection Ev as <-; vm_compute in Es; try discriminate Es.
  injection Es as <-. vm_compute in Hg. apply list_elem_of_singleton in Hg as ->. vm_compute. lia.
Qed.

Lemma conf_demo_fits : files_fit.
Proof.
  intros f content E. left. unfold fs_read, conf_demo_env in E.
  destruct (bytes_eqb f _); [|destruct (bytes_eqb f _); [|done]]; injection E as <-; by vm_compute.
Qed.

Lemma config_load_wellformed_witness :
  exists r new, server_config_load (S:=logs) 2 (str "/etc/remctl.conf") [] = Ret r ([] ++ new) /\
    match r with Some cfg => Forall rule_ok cfg | None => new <> [] end.
Proof.
  refine (config_load_wellformed conf_demo_rank_of 2 (str "/etc/remctl.conf") [] conf_demo_fits conf_demo_rank _). vm_compute. lia.
Defined.



(** A continued line of one byte that ends the file without a newline loses
    the byte it continues with. *)
Example short_continuation :
  ref_lines 9 0 (str "a\" ++ nl ++ str "b") = Some ([(2, str "a")], EndOfFile) /\
  file_lines (str "a\" ++ nl ++ str "b") = Some ([(2, str "a")], EndOfFile).
Proof. by split; vm_compute. Qed.
