(* ===== verification/ConfigPrint.v ===== *)
(** Writing and reading back: what a configuration file stands for.

    A configuration as an administrator would write it, its text, and the
    rules it means, without reference to [server/config.c]; loading the text
    ([Config]) gives the rules. *)

From S2P Require Import Prelude Effects CLib Vector Server Acl ConfLines Config ConfigLoad.

(** * The language of configuration files *)

Inductive conf_opt : Type :=
  | OptHelp (value : bytes) | OptLogmask (ns : list Z) | OptStdin (n : Z) | OptStdinLast
  | OptSudo (value : bytes) | OptSummary (value : bytes) | OptUser (name : bytes) (pw : passwd).

Record conf_entry : Type := ConfEntry {
  ce_command : bytes;
  ce_subcommand : bytes;
  ce_program : bytes;
  ce_opts : list conf_opt;
  ce_acls : list bytes;
}.

Definition render_opt (o : conf_opt) : bytes :=
  match o with
  | OptHelp v => str "help=" ++ v
  | OptLogmask ns => str "logmask=" ++ join_ref (str ",") (map decimal ns)
  | OptStdin n => str "stdin=" ++ decimal n
  | OptStdinLast => str "stdin=last"
  | OptSudo v => str "sudo=" ++ v
  | OptSummary v => str "summary=" ++ v
  | OptUser name _ => str "user=" ++ name
  end.

Definition entry_fields (e : conf_entry) : list bytes :=
  [ce_command e; ce_subcommand e; ce_program e] ++ map render_opt (ce_opts e) ++ ce_acls e.
Definition entry_line (e : conf_entry) : bytes := join_ref (str " ") (entry_fields e).
Definition render (es : list conf_entry) : bytes := concat (map (fun e => entry_line e ++ [x0a]) es).

Definition apply_opt (r : rule) (o : conf_opt) : rule :=
  match o with
  | OptHelp v => set_help (Some v) r
  | OptLogmask ns => set_logmask (Some (ns ++ [0])) r
  | OptStdin n => set_stdin_arg n r
  | OptStdinLast => set_stdin_arg (-1) r
  | OptSudo v => set_sudo (Some v) r
  | OptSummary v => set_summary (Some v) r
  | OptUser _ pw => set_user (Some (pw_name pw)) (pw_uid pw) (pw_pwgid pw) r
  end.

Definition entry_rule (file : bytes) (lineno : Z) (e : conf_entry) : rule :=
  set_source file lineno (ce_acls e)
    (foldl apply_opt (new_rule (ce_command e) (ce_subcommand e) (ce_program e)) (ce_opts e)).
Fixpoint entry_rules (file : bytes) (lineno : Z) (es : list conf_entry) : config :=
  match es with
  | [] => []
  | e :: es => entry_rule file (lineno + 1) e :: entry_rules file (lineno + 1) es
  end.

(** A field that stays one on its line. *)
Definition field_ok (w : bytes) : Prop := word w /\ x0a ∉ w.

Section language.
Context `{ConfEnv}.

Definition opt_ok (o : conf_opt) : Prop :=
  match o with
  | OptHelp v | OptSudo v | OptSummary v => field_ok v
  | OptLogmask ns => ns <> [] /\ Forall (fun n => 0 < n < 2 ^ 32) ns
  | OptStdin n => 0 < n <= LONG_MAX
  | OptStdinLast => True
  | OptUser name pw => field_ok name /\ convert_number name = None /\ getpwnam name = Some pw
  end.

Record entry_ok (e : conf_entry) : Prop := {
  eo_names : field_ok (ce_command e) /\ field_ok (ce_subcommand e) /\ field_ok (ce_program e);
  eo_start : forall c, head (ce_command e) = Some c -> isspace c = false /\ c <> "#"%byte;
  eo_opts : Forall opt_ok (ce_opts e);
  eo_acls : ce_acls e <> [] /\ Forall field_ok (ce_acls e);
  eo_first : forall a, head (ce_acls e) = Some a -> is_option a = false;
  eo_end : forall a, last (ce_acls e) = Some a -> ends_in a "\" = false;
}.

(** ** Numbers *)

Lemma convert_decimal n : 0 < n <= LONG_MAX -> convert_number (decimal n) = Some n.
Proof.
  intros Hn. unfold LONG_MAX in Hn.
  destruct (digits_dec 20 n []) as (k & Hk & E); [simpl; lia|lia|]. fold (decimal n) in E.
  pose proof (decimal_digits n ltac:(lia)) as Hd.
  unfold convert_number, strtol. destruct (decimal n) as [|c s] eqn:Ed; [simpl in E; destruct k; [lia|done]|].
  apply Forall_cons_1 in Hd as [Hc _]. destruct (digit_plain c Hc) as (Hs & Hm & Hp & _).
  cbn [skip_space]. rewrite Hs. rewrite (byte_eqb_neq c "-"), (byte_eqb_neq c "+") by done.
  rewrite E. simpl digits. destruct k; [lia|]. rewrite Z.mul_1_l.
  destruct (Z.ltb_spec LONG_MAX n); [unfold LONG_MAX in *; lia|].
  destruct (Z.ltb_spec n LONG_MIN); [unfold LONG_MIN in *; lia|]. cbn [orb negb].
  destruct (Z.leb_spec n 0); [lia|done].
Qed.
(** ** Options *)

(** Free of nuls and of what separates fields and lines. *)
Definition plain (s : bytes) : Prop := forall c, c ∈ s -> c ∉ [nul; x20; x09; x0a].
Definition plainb (s : bytes) : bool := forallb (fun c => negb (bool_decide (c ∈ [nul; x20; x09; x0a]))) s.

Lemma plainb_plain s : plainb s = true -> plain s.
Proof.
  intros H' c Hc. unfold plainb in H'. rewrite forallb_forall in H'. apply list_elem_of_In in Hc.
  specialize (H' c Hc). by case_bool_decide.
Qed.

Lemma plain_app a b : plain a -> plain b -> plain (a ++ b).
Proof. intros Ha Hb c. rewrite elem_of_app. intros [?|?]; auto. Qed.

Lemma field_plain w : field_ok w <-> w <> [] /\ plain w.
Proof.
  unfold field_ok, word, plain, no_nul. split.
  - intros ((Hn & H0 & Hs) & Hl). split; [done|]. intros c Hc. specialize (Hs c Hc).
    rewrite !not_elem_of_cons in *. repeat split; try set_solver.
  - intros (Hn & Hp). split; [split; [done|split]|].
    + intros Hc. apply Hp in Hc. set_solver.
    + intros c Hc. apply Hp in Hc. set_solver.
    + intros Hc. apply Hp in Hc. set_solver.
Qed.

Lemma dec_go_nonempty fuel : forall n rest, rest <> [] \/ fuel <> 0%nat -> dec_go fuel n rest <> [].
Proof.
  induction fuel as [|fuel IH]; intros n rest [Hr|Hf]; cbn [dec_go]; try done; destruct (n <? 10); try done;
    apply IH; by left.
Qed.

Lemma decimal_plain n : 0 < n -> decimal n <> [] /\ plain (decimal n) /\ ","%byte ∉ decimal n.
Proof.
  intros Hn. pose proof (decimal_digits n Hn) as Hd. split; [|split].
  - apply dec_go_nonempty. by right.
  - intros c Hc. rewrite Forall_forall in Hd. by apply (digit_plain c), Hd.
  - intros Hc. rewrite Forall_forall in Hd. apply Hd in Hc. done.
Qed.

Lemma join_plain l : l <> [] -> Forall (fun s => s <> [] /\ plain s) l ->
  join_ref (str ",") l <> [] /\ plain (join_ref (str ",") l).
Proof.
  induction l as [|x [|y l] IH]; intros Hl Hf; [done| |]; apply Forall_cons_1 in Hf as [[Hx Hp] Hf]; [done|].
  change (join_ref (str ",") (x :: y :: l)) with (x ++ str "," ++ join_ref (str ",") (y :: l)).
  destruct IH as [_ IH]; [done..|]. split; [by destruct x|].
  apply plain_app; [done|]. apply plain_app; [by apply plainb_plain|done].
Qed.

Lemma logmask_plain ns : ns <> [] -> Forall (fun n => 0 < n <= LONG_MAX) ns ->
  join_ref (str ",") (map decimal ns) <> [] /\ plain (join_ref (str ",") (map decimal ns)).
Proof.
  intros Hn Hf. apply join_plain; [by destruct ns|]. apply Forall_map. eapply Forall_impl; [exact Hf|].
  intros n [Hr _]. by destruct (decimal_plain n Hr) as (? & ? & _).
Qed.

(** Numbers that [unsigned int] can hold. *)
Lemma logmask_small ns : Forall (fun n => 0 < n < 2 ^ 32) ns ->
  Forall (fun n => 0 < n <= LONG_MAX) ns /\ map u32 ns = ns.
Proof.
  induction 1 as [|n ns Hn _ [IH1 IH2]]; [by split|]. split; [constructor; [unfold LONG_MAX; lia|done]|].
  simpl. by rewrite u32_small, IH2 by lia.
Qed.

(** The value of an option. *)
Lemma render_opt_shape o : opt_ok o -> exists key v, render_opt o = key ++ v /\ v <> [] /\ plain v /\
  (key = str "help=" \/ key = str "logmask=" \/ key = str "stdin=" \/ key = str "sudo=" \/ key = str "summary=" \/ key = str "user=").
Proof.
  destruct o as [v|ns|n| |v|v|name pw]; simpl; intros Ho.
  - apply field_plain in Ho as [? ?]. exists (str "help="), v. auto 12.
  - destruct Ho as [Hn [Hf _]%logmask_small]. destruct (logmask_plain ns Hn Hf). eexists (str "logmask="), _. auto 12.
  - destruct (decimal_plain n (proj1 Ho)) as (? & ? & _). eexists (str "stdin="), _. auto 12.
  - exists (str "stdin="), (str "last"). repeat split; [done|by apply plainb_plain|auto 12].
  - apply field_plain in Ho as [? ?]. exists (str "sudo="), v. auto 12.
  - apply field_plain in Ho as [? ?]. exists (str "summary="), v. auto 12.
  - destruct Ho as [[? ?]%field_plain _]. exists (str "user="), name. auto 12.
Qed.

Lemma render_opt_ok o : opt_ok o -> is_option (render_opt o) = true /\ field_ok (render_opt o).
Proof.
  intros Ho. destruct (render_opt_shape o Ho) as (key & v & -> & Hv & Hp & Hk). rewrite field_plain. split.
  - destruct v as [|c v]; [done|]. by destruct_or! Hk; subst key.
  - split; [by destruct v; [|destruct_or! Hk; subst key]|].
    apply plain_app; [|done]. apply plainb_plain. by destruct_or! Hk; subst key.
Qed.

Lemma logmask_values_decimal ns : Forall (fun n => 0 < n <= LONG_MAX) ns ->
  logmask_values (map decimal ns) = inl (map u32 ns ++ [0]).
Proof.
  induction 1 as [|n ns Hn _ IH]; simpl; [done|]. rewrite convert_decimal by done.
  destruct (Z.ltb_spec n 0); [lia|]. by rewrite IH.
Qed.

Context {S : Type} `{HasLog S}.

Lemma parse_logmask r ns name lineno (s : S) : ns <> [] -> Forall (fun n => 0 < n <= LONG_MAX) ns ->
  parse_conf_option r (render_opt (OptLogmask ns)) name lineno s =
    Ret (CONFIG_SUCCESS, set_logmask (Some (map u32 ns ++ [0])) r) s.
Proof.
  intros Hn Hf. destruct (logmask_plain ns Hn Hf) as [_ Hp].
  change (option_logmask r (join_ref (str ",") (map decimal ns)) name lineno s =
    Ret (CONFIG_SUCCESS, set_logmask (Some (map u32 ns ++ [0])) r) s).
  unfold option_logmask. set (value := join_ref _ _) in *.
  assert (no_nul value) as Hnn by (intros Hc; apply Hp in Hc; set_solver).
  destruct (cvector_split_ref value "," None) as (string & v & -> & _ & Es & _); [done..|].
  cbn [from_option_fault]. rewrite (bind_Ret _ _ s (string, v) s eq_refl). rewrite Es. unfold value.
  change (str ",") with [","%byte]. rewrite split_join.
  - by rewrite logmask_values_decimal.
  - by destruct ns.
  - apply Forall_map. eapply Forall_impl; [exact Hf|]. intros n [Hr _]. by apply decimal_plain.
Qed.

Lemma parse_render_opt r o name lineno (s : S) : opt_ok o ->
  parse_conf_option r (render_opt o) name lineno s = Ret (CONFIG_SUCCESS, apply_opt r o) s.
Proof.
  destruct o as [v|ns|n| |v|v|uname pw]; simpl; intros Ho; try reflexivity.
  - destruct Ho as [Hn [Hf E]%logmask_small]. pose proof (parse_logmask r ns name lineno s Hn Hf) as Hp.
    by rewrite E in Hp.
  - change (option_stdin r (decimal n) name lineno s = Ret (CONFIG_SUCCESS, set_stdin_arg n r) s).
    unfold option_stdin. rewrite convert_decimal by done. destruct (bytes_eqb (decimal n) _) eqn:E; [|done].
    apply bytes_eqb_true in E. pose proof (decimal_digits n ltac:(lia)) as Hd. rewrite E in Hd.
    apply Forall_cons_1 in Hd as [Hd _]. done.
  - change (option_user r uname name lineno s = Ret (CONFIG_SUCCESS, set_user (Some (pw_name pw)) (pw_uid pw) (pw_pwgid pw) r) s).
    unfold option_user. destruct Ho as (_ & -> & ->). done.
Qed.

Lemma parse_options_render opts acls name lineno (s : S) : Forall opt_ok opts ->
  (forall a, head acls = Some a -> is_option a = false) -> forall r,
  parse_options r (map render_opt opts ++ acls) name lineno s =
  Ret (CONFIG_SUCCESS, foldl apply_opt r opts, acls) s.
Proof.
  intros Ho Ha. induction Ho as [|o opts Ho _ IH]; intros r; simpl.
  - destruct acls as [|a acls]; [done|]. simpl. by rewrite (Ha a).
  - rewrite (proj1 (render_opt_ok o Ho)). simpl.
    rewrite (bind_Ret _ _ _ _ _ (parse_render_opt r o name lineno s Ho)). simpl. apply IH.
Qed.
End language.

(** * Lines *)

Lemma words_join fields : Forall word fields -> words (is_sep [x20; x09]) (join_ref (str " ") fields) = fields.
Proof.
  assert (forall w, word w -> forall c, c ∈ w -> is_sep [x20; x09] c = false) as Hw.
  { intros w (_ & _ & Hw) c Hc. unfold is_sep, has_byte. apply bool_decide_eq_false. by apply Hw. }
  assert (forall w : bytes, w <> [] -> nonempty w = true) as Hne.
  { intros [|c w] Hn; [done|]. unfold nonempty. rewrite blen_cons. pose proof (blen_nonneg w).
    destruct (Z.eqb_spec (1 + blen w) 0); [lia|done]. }
  unfold words. induction fields as [|x [|y fields] IH]; intros Hf; [done| |]; apply Forall_cons_1 in Hf as [Hx Hf].
  - simpl. rewrite <- (app_nil_r x) at 1. rewrite split_ref_app by eauto. simpl. by rewrite Hne by apply Hx.
  - change (join_ref (str " ") (x :: y :: fields)) with (x ++ x20 :: join_ref (str " ") (y :: fields)).
    rewrite split_ref_app, split_ref_sep by eauto. cbn [List.filter]. rewrite Hne by apply Hx. by rewrite IH.
Qed.

Lemma physical_line l rest : x0a ∉ l -> physical (l ++ x0a :: rest) = (l ++ [x0a], rest).
Proof.
  induction l as [|c l IH]; intros Hl; [done|]. simpl. rewrite byte_eqb_neq by set_solver.
  rewrite IH by set_solver. done.
Qed.

Section entries.
Context `{ConfEnv}.

Lemma entry_fields_ok e : entry_ok e -> Forall field_ok (entry_fields e).
Proof.
  intros [(H1 & H2 & H3) _ Ho [_ Ha] _ _]. unfold entry_fields.
  rewrite !Forall_app, !Forall_cons, Forall_nil. split; [done|]. split; [|done].
  apply Forall_map. eapply Forall_impl; [exact Ho|]. intros o Ho'. by apply render_opt_ok.
Qed.

Lemma join_bytes c sep l : c ∉ sep -> Forall (fun w => c ∉ w) l -> c ∉ join_ref sep l.
Proof.
  intros Hs. induction l as [|x [|y l] IH]; intros Hf; [set_solver| |]; apply Forall_cons_1 in Hf as [Hx Hf]; [done|].
  change (join_ref sep (x :: y :: l)) with (x ++ sep ++ join_ref sep (y :: l)). rewrite !not_elem_of_app. auto.
Qed.

Lemma join_snoc sep l w : exists pre, join_ref sep (l ++ [w]) = pre ++ w.
Proof.
  induction l as [|x l [pre IH]]; [by exists []|]. simpl. destruct (l ++ [w]) as [|y k] eqn:E; [by destruct l|].
  exists (x ++ sep ++ pre). rewrite IH. by rewrite <- !app_assoc.
Qed.

(** The line of an entry: nothing in it makes the reader stop or go on. *)
Lemma entry_line_ok e : entry_ok e ->
  no_nul (entry_line e) /\ x0a ∉ entry_line e /\ 2 <= blen (entry_line e) /\ ends_in (entry_line e) "\" = false /\
  exists c l, entry_line e = c :: l /\ isspace c = false /\ c <> "#"%byte.
Proof.
  intros Hok. pose proof (entry_fields_ok e Hok) as Hf. destruct Hok as [(H1 & H2 & H3) Hst _ [Hne Ha] _ Hend].
  assert (forall c, (forall w, field_ok w -> c ∉ w) -> c ∉ str " " -> c ∉ entry_line e) as Hno.
  { intros c Hc Hs. apply join_bytes; [done|]. eapply Forall_impl; [exact Hf|]. auto. }
  split; [|split; [|split; [|split]]].
  - apply Hno; [|by vm_compute; set_solver]. intros w [(_ & Hw & _) _]. exact Hw.
  - apply Hno; [|by vm_compute; set_solver]. by intros w [_ Hw].
  - change (entry_line e) with (ce_command e ++ str " " ++ join_ref (str " ") (tail (entry_fields e))).
    rewrite !blen_app. change (blen (str " ")) with 1.
    assert (1 <= blen (ce_command e)).
    { destruct H1 as [(Hc & _) _]. destruct (ce_command e) as [|c l]; [done|]. rewrite blen_cons. pose proof (blen_nonneg l). lia. }
    pose proof (blen_nonneg (join_ref (str " ") (tail (entry_fields e)))). lia.
  - unfold entry_line, entry_fields. destruct (ce_acls e) as [|a acls _] using rev_ind; [done|].
    rewrite !app_assoc. destruct (join_snoc (str " ") (([ce_command e; ce_subcommand e; ce_program e] ++ map render_opt (ce_opts e)) ++ acls) a) as [pre ->].
    apply Forall_app in Ha as [_ Ha]. apply Forall_cons_1 in Ha as [[(Ha & _) _] _].
    rewrite ends_in_app_r by done. apply Hend. by rewrite last_snoc.
  - unfold entry_line. destruct H1 as [(Hc & _) _]. destruct (ce_command e) as [|c l] eqn:E; [done|].
    destruct (Hst c eq_refl) as [Hs Hh]. unfold entry_fields. rewrite E. simpl.
    exists c. eexists. split; [reflexivity|done].
Qed.
(** The numbered lines of a rendered configuration. *)
Fixpoint number (lineno : Z) (es : list conf_entry) : list (Z * bytes) :=
  match es with
  | [] => []
  | e :: es => (lineno + 1, entry_line e) :: number (lineno + 1) es
  end.

Lemma render_no_nul es : Forall entry_ok es -> no_nul (render es).
Proof.
  unfold render. induction 1 as [|e es He _ IH]; simpl; [by intros ?%not_elem_of_nil|].
  apply no_nul_app. split; [|done]. apply no_nul_app. split; [by apply entry_line_ok|by vm_compute; set_solver].
Qed.

Lemma ref_lines_render es : Forall entry_ok es -> forall fuel lineno, (length (render es) <= fuel)%nat ->
  ref_lines fuel lineno (render es) = Some (number lineno es, EndOfFile).
Proof.
  induction 1 as [|e es He _ IH]; intros fuel lineno Hf; [by destruct fuel|].
  destruct (entry_line_ok e He) as (_ & Hnl & Hlen & Hend & _).
  change (render (e :: es)) with ((entry_line e ++ [x0a]) ++ render es) in *. rewrite <- app_assoc in *.
  change ([x0a] ++ render es) with (x0a :: render es) in *.
  destruct fuel as [|fuel]; [rewrite length_app in Hf; simpl in Hf; lia|].
  assert (blen (entry_line e ++ [x0a]) = blen (entry_line e) + 1) as Hb by (by rewrite blen_app).
  assert (ztake (blen (entry_line e ++ [x0a]) - 1) (entry_line e ++ [x0a]) = entry_line e) as Ht.
  { rewrite Hb, Z.add_simpl_r. apply ztake_blen_app. }
  destruct (finished_line _ Hend) as [Hc Hu].
  pose proof (physical_line (entry_line e) (render es) Hnl) as Hp.
  destruct (entry_line e ++ x0a :: render es) as [|c content] eqn:E; [by apply app_nil in E as [_ ?]|].
  cbn [ref_lines]. rewrite Hp.
  destruct (Z.eqb_spec (blen (entry_line e ++ [x0a])) 2); [lia|]. cbn [andb].
  destruct (Z.ltb_spec (blen (entry_line e ++ [x0a])) 2); [lia|]. cbn [ref_more]. rewrite Hc, Hu, Ht.
  rewrite IH; [done|]. apply (f_equal length) in E. rewrite length_app in E. simpl in *. lia.
Qed.

Context `{AclEnv}.

(** Such a line adds the rule it stands for. *)
Lemma conf_line_entry included name lineno e s : entry_ok e -> blen (ld_rules s) <= ld_allocated s ->
  runs (conf_line included name lineno (entry_line e)) (fun ok s' => ok = true /\
    ld_rules s' = ld_rules s ++ [entry_rule name lineno e] /\ ld_log s' = ld_log s /\
    blen (ld_rules s') <= ld_allocated s') s.
Proof.
  intros He Hroom. pose proof (entry_fields_ok e He) as Hf.
  destruct (entry_line_ok e He) as (Hn & _ & _ & _ & c & l & El & Hsp & Hh).
  unfold conf_line. rewrite El at 1. cbn [skip_space]. rewrite Hsp, byte_eqb_neq by done.
  destruct (split_space_words (entry_line e) Hn) as (v & -> & Ev & _). apply runs_bind, wp_ret.
  assert (v_strings v = entry_fields e) as ->.
  { rewrite Ev. apply words_join. eapply Forall_impl; [exact Hf|]. by intros w [? _]. }
  destruct He as [_ _ Ho [Hne _] Hfirst _]. unfold entry_fields. cbn [app].
  destruct (map render_opt (ce_opts e) ++ ce_acls e) as [|f fs] eqn:E; [by apply app_nil in E as [_ ?]|].
  rewrite <- E. apply runs_bind. unfold runs, wp. rewrite parse_options_render by done.
  case_bool_decide; [done|]. destruct (ce_acls e) as [|a acls] eqn:Ea; [done|].
  change (runs (do* add_rule (set_source name lineno (a :: acls)
      (foldl apply_opt (new_rule (ce_command e) (ce_subcommand e) (ce_program e)) (ce_opts e))) in ret true)
    (fun ok s' => ok = true /\ ld_rules s' = ld_rules s ++ [entry_rule name lineno e] /\ ld_log s' = ld_log s /\
       blen (ld_rules s') <= ld_allocated s') s).
  rewrite <- Ea. apply runs_bind. eapply runs_mono; [by apply add_rule_runs|]. intros [] s' ?. by apply runs_ret.
Qed.

Lemma conf_fold_render included name es : Forall entry_ok es -> forall lineno s, blen (ld_rules s) <= ld_allocated s ->
  runs (conf_fold included name (number lineno es) EndOfFile) (fun st s' => st = CONFIG_SUCCESS /\
    ld_rules s' = ld_rules s ++ entry_rules name lineno es /\ ld_log s' = ld_log s) s.
Proof.
  induction 1 as [|e es He _ IH]; intros lineno s Hs; simpl.
  - apply runs_ret. by rewrite app_nil_r.
  - apply runs_bind. eapply runs_mono; [by apply conf_line_entry|]. intros ok s1 (-> & Er & El & Hroom).
    eapply runs_mono; [by apply IH|]. intros st s2 (-> & Er2 & El2). rewrite Er2, El2, Er, El.
    by rewrite <- app_assoc.
Qed.
End entries.

(** ** A test for well-formed entries *)

#[export] Instance passwd_eq_dec : EqDecision passwd.
Proof. solve_decision. Defined.

Definition fieldb (w : bytes) : bool := match w with [] => false | _ => plainb w end.

Section test.
Context `{ConfEnv}.

Definition optb (o : conf_opt) : bool :=
  match o with
  | OptHelp v | OptSudo v | OptSummary v => fieldb v
  | OptLogmask ns => negb (blen ns =? 0) && forallb (fun n => (0 <? n) && (n <? 2 ^ 32)) ns
  | OptStdin n => (0 <? n) && (n <=? LONG_MAX)
  | OptStdinLast => true
  | OptUser name pw =>
      fieldb name && match convert_number name with None => true | Some _ => false end &&
      bool_decide (getpwnam name = Some pw)
  end.

Definition entry_okb (e : conf_entry) : bool :=
  (fieldb (ce_command e) && fieldb (ce_subcommand e) && fieldb (ce_program e)) &&
  match ce_command e with c :: _ => negb (isspace c) && negb (byte_eqb c "#") | [] => false end &&
  forallb optb (ce_opts e) && forallb fieldb (ce_acls e) &&
  match ce_acls e with a :: _ => negb (is_option a) | [] => false end &&
  match last (ce_acls e) with Some a => negb (ends_in a "\") | None => true end.

Lemma fieldb_ok w : fieldb w = true -> field_ok w.
Proof. rewrite field_plain. destruct w; [done|]. intros E. split; [done|by apply plainb_plain]. Qed.

Lemma forallb_Forall {A} (f : A -> bool) (P : A -> Prop) l :
  (forall x, f x = true -> P x) -> forallb f l = true -> Forall P l.
Proof. intros HP. rewrite forallb_forall, Forall_forall. intros Hf x Hx. apply HP, Hf. by apply list_elem_of_In. Qed.

Lemma in_range n : (0 <? n) && (n <=? LONG_MAX) = true -> 0 < n <= LONG_MAX.
Proof. rewrite andb_true_iff, Z.ltb_lt, Z.leb_le. done. Qed.

Lemma optb_ok o : optb o = true -> opt_ok o.
Proof.
  destruct o as [v|ns|n| |v|v|name pw]; simpl; rewrite ?andb_true_iff; intros E; try by apply fieldb_ok.
  - destruct E as [En Ef]. split; [by destruct ns|]. revert Ef. apply forallb_Forall. intros n. by rewrite andb_true_iff, !Z.ltb_lt.
  - by apply in_range, andb_true_iff.
  - done.
  - destruct E as [[E1 E2] E3]. split; [by apply fieldb_ok|]. split; [by destruct (convert_number name)|].
    by apply bool_decide_eq_true in E3.
Qed.

Lemma entry_okb_ok e : entry_okb e = true -> entry_ok e.
Proof.
  unfold entry_okb. rewrite !andb_true_iff. intros (((((E1 & E2) & E3) & E4) & E5) & E6). split.
  - destruct E1 as [[? ?] ?]. split; [|split]; by apply fieldb_ok.
  - destruct (ce_command e) as [|c l]; [done|]. intros c' [= <-]. apply andb_true_iff in E2 as [Es Eh].
    apply negb_true_iff in Es, Eh. split; [done|]. by apply bool_decide_eq_false in Eh.
  - exact (forallb_Forall _ _ _ optb_ok E3).
  - split; [by destruct (ce_acls e)|]. exact (forallb_Forall _ _ _ fieldb_ok E4).
  - destruct (ce_acls e) as [|a l]; [done|]. intros a' [= <-]. by apply negb_true_iff in E5.
  - intros a Ha. rewrite Ha in E6. by apply negb_true_iff in E6.
Qed.
End test.

(** * Theorems *)

(** C26: the round trip of configuration files.  A file that lists entries (commands with their program,
    options in any order and number, and ACLs, the numbers in decimal) one per line, and has less than
    2 GiB, loads, without any message, as exactly the rules the entries stand for, in their order and with
    their line numbers, also when lines are longer than the buffer starts with.  Numbers in a log mask have
    to be below 2^32: others stand for themselves in the manual, but not for the code ([logmask_overflow]). *)
Theorem config_roundtrip `{AclEnv} `{ConfEnv} es file fuel log :
  fs_read file = Some (render es) -> Forall entry_ok es -> blen (render es) + 2049 <= INT_MAX ->
  server_config_load (S:=logs) (S fuel) file log = Ret (Some (entry_rules file 0 es)) log.
Proof.
  intros Hf Hes Hsize. unfold server_config_load. cbn [read_conf_file]. rewrite Hf.
  pose proof (render_no_nul es Hes) as Hn.
  destruct (logical_lines_ref (S (length (render es))) (length (render es)) 1024 (LineBuf 1024 []) 0 (render es))
    as (ls & e & El & Er); [lia|lia|lia|done|apply file_fits_space; by right|done|].
  rewrite ref_lines_render in Er by done. injection Er as <- <-.
  rewrite (conf_lines_fold _ _ _ _ _ _ _ _ _ _ El).
  pose proof (conf_fold_render (read_conf_file fuel) file es Hes 0 (Loading [] [] 0) ltac:(done)) as Hc.
  unfold runs, wp in Hc. destruct (conf_fold _ _ _ _ _) as [st l| | |]; [|done..].
  destruct Hc as (-> & -> & ->). done.
Qed.

Definition print_demo : list conf_entry :=
  [ConfEntry (str "account") (str "passwd") (str "/bin/pw") [OptLogmask [3; 17]; OptStdinLast; OptUser (str "bob") (Passwd (str "bob") 1001 100)]
     [str "/etc/acl"; str "princ:a@B"];
   ConfEntry (str "backup") (str "ALL") (str "/bin/backup") [OptStdin 2; OptHelp (str "--help")] [str "ANYUSER"]].

#[local] Instance print_demo_env : AclEnv := {|
  fs_isdir _ := None;
  fs_readdir _ := None;
  fs_read f := if bytes_eqb f (str "/c") then Some (render print_demo) else None;
  have_gput := false; have_localgroup := false; have_pcre := false; have_regex := false;
  gput_open_ok := false; gput_check _ _ _ := false;
  pcre_match _ _ := RegexNoMatch; regex_match _ _ := RegexNoMatch;
  getgrnam_r _ := []; krb5_init_context := 0; krb5_parse_name _ := 0; krb5_aname_to_localname _ := NoLocalName; pw_gid _ := None;
|}.
#[local] Instance print_demo_pw : ConfEnv := {|
  getpwuid _ := None;
  getpwnam n := if bytes_eqb n (str "bob") then Some (Passwd (str "bob") 1001 100) else None;
|}.

Lemma print_demo_ok : Forall entry_ok print_demo.
Proof. apply (forallb_Forall _ _ _ entry_okb_ok). vm_compute. reflexivity. Qed.

Lemma config_roundtrip_witness :
  server_config_load (S:=logs) 1 (str "/c") [] = Ret (Some (entry_rules (str "/c") 0 print_demo)) [].
Proof. refine (config_roundtrip print_demo (str "/c") 0 [] _ print_demo_ok _); [reflexivity|by vm_compute]. Defined.
