(* ===== verification/Process.v ===== *)
(** Running a command: the event handlers and the event loop of
    [server/process.c], with the callbacks each protocol installs
    ([server/server-v2.c], [server/server-v1.c], [server/server-ssh.c]).

    libevent, fork and the child are the script of a [child]; the handlers it
    calls are the code's. *)

From stdpp Require Import pretty.
From S2P Require Import Prelude Effects Net Tokens Command Server.

(** * State *)

(** The read callbacks [bufferevent_setcb] installs. *)
Inductive read_cb : Type :=
  | CbNone
  | CbOutputV2          (* handle_output, server-v2.c *)
  | CbOutputFull        (* handle_output_full, server-v1.c *)
  | CbDiscard           (* handle_output_discard, server-v1.c *)
  | CbOutputSsh.        (* handle_output, server-ssh.c *)

Record bufferevent : Type := Bufferevent {
  be_input : bytes;
  be_read : bool;       (* EV_READ enabled *)
  be_write : bool;      (* EV_WRITE enabled *)
  be_readcb : read_cb;
  be_writecb : bool;    (* server_handle_input_end installed *)
  be_low : Z;
  be_high : Z;
}.

Definition no_bufferevent : bufferevent := Bufferevent [] false false CbNone false 0 0.

Definition be_set_input d b := Bufferevent d (be_read b) (be_write b) (be_readcb b) (be_writecb b) (be_low b) (be_high b).
Definition be_set_read x b := Bufferevent (be_input b) x (be_write b) (be_readcb b) (be_writecb b) (be_low b) (be_high b).
Definition be_set_write x b := Bufferevent (be_input b) (be_read b) x (be_readcb b) (be_writecb b) (be_low b) (be_high b).
Definition be_set_cb r w b := Bufferevent (be_input b) (be_read b) (be_write b) r w (be_low b) (be_high b).
Definition be_set_watermark l h b := Bufferevent (be_input b) (be_read b) (be_write b) (be_readcb b) (be_writecb b) l h.

(** [struct process] while the event loop runs. *)
Record running (C : Type) : Type := Running {
  rn_world : world C;
  rn_process : process;
  rn_pid : Z;
  rn_stdinout_fd : Z;
  rn_stderr_fd : Z;
  rn_inout : bufferevent;
  rn_err : bufferevent;
  rn_reaped : bool;
  rn_saw_error : bool;
  rn_saw_output : bool;
  rn_break : bool;      (* event_base_got_break *)
  rn_exit : bool;       (* event_base_loopexit has been called *)
}.
Arguments Running {C}.
Arguments rn_world {C}.
Arguments rn_process {C}.
Arguments rn_pid {C}.
Arguments rn_stdinout_fd {C}.
Arguments rn_stderr_fd {C}.
Arguments rn_inout {C}.
Arguments rn_err {C}.
Arguments rn_reaped {C}.
Arguments rn_saw_error {C}.
Arguments rn_saw_output {C}.
Arguments rn_break {C}.
Arguments rn_exit {C}.

Section process.
Context {C : Type} `{GssMech C}.
Implicit Types r : running C.

Definition rn_set_world w r : running C := Running w (rn_process r) (rn_pid r) (rn_stdinout_fd r)
  (rn_stderr_fd r) (rn_inout r) (rn_err r) (rn_reaped r) (rn_saw_error r) (rn_saw_output r) (rn_break r) (rn_exit r).
Definition rn_set_process p r : running C := Running (rn_world r) p (rn_pid r) (rn_stdinout_fd r)
  (rn_stderr_fd r) (rn_inout r) (rn_err r) (rn_reaped r) (rn_saw_error r) (rn_saw_output r) (rn_break r) (rn_exit r).
Definition rn_set_child pid f1 f2 r : running C := Running (rn_world r) (rn_process r) pid f1 f2
  (rn_inout r) (rn_err r) (rn_reaped r) (rn_saw_error r) (rn_saw_output r) (rn_break r) (rn_exit r).
Definition rn_set_reaped x r : running C := Running (rn_world r) (rn_process r) (rn_pid r) (rn_stdinout_fd r)
  (rn_stderr_fd r) (rn_inout r) (rn_err r) x (rn_saw_error r) (rn_saw_output r) (rn_break r) (rn_exit r).
Definition rn_set_saw_output x r : running C := Running (rn_world r) (rn_process r) (rn_pid r) (rn_stdinout_fd r)
  (rn_stderr_fd r) (rn_inout r) (rn_err r) (rn_reaped r) (rn_saw_error r) x (rn_break r) (rn_exit r).

(** [process->saw_error = true; event_base_loopbreak(process->loop);] *)
Definition rn_set_broken r : running C := Running (rn_world r) (rn_process r) (rn_pid r) (rn_stdinout_fd r)
  (rn_stderr_fd r) (rn_inout r) (rn_err r) (rn_reaped r) true (rn_saw_output r) true (rn_exit r).

(** [event_base_loopexit(process->loop, NULL)]. *)
Definition rn_set_exit r : running C := Running (rn_world r) (rn_process r) (rn_pid r) (rn_stdinout_fd r)
  (rn_stderr_fd r) (rn_inout r) (rn_err r) (rn_reaped r) (rn_saw_error r) (rn_saw_output r) (rn_break r) true.

Definition rn_bev (st : stream) r : bufferevent :=
  match st with OutStream => rn_inout r | ErrStream => rn_err r end.
Definition rn_set_bev (st : stream) b r : running C :=
  Running (rn_world r) (rn_process r) (rn_pid r) (rn_stdinout_fd r) (rn_stderr_fd r)
    (match st with OutStream => b | ErrStream => rn_inout r end)
    (match st with OutStream => rn_err r | ErrStream => b end)
    (rn_reaped r) (rn_saw_error r) (rn_saw_output r) (rn_break r) (rn_exit r).

Definition on_bev (st : stream) (f : bufferevent -> bufferevent) : M (running C) unit :=
  modify (fun r => rn_set_bev st (f (rn_bev st r)) r).
Definition on_world {A} (m : M (world C) A) : M (running C) A := zoom rn_world rn_set_world m.
Definition on_process (f : process -> process) : M (running C) unit :=
  modify (fun r => rn_set_process (f (rn_process r)) r).

Definition set_p_status s p :=
  Process (p_command p) (p_argv p) (p_rule p) (p_input p) (p_output p) s.
Definition set_p_output o p :=
  Process (p_command p) (p_argv p) (p_rule p) (p_input p) o (p_status p).
Definition set_p_input i p :=
  Process (p_command p) (p_argv p) (p_rule p) i (p_output p) (p_status p).

(** ** Handlers *)

Definition server_handle_io_event (st : stream) (eof error reading : bool) (errno : Z)
    : M (running C) unit :=
  if eof then on_bev st (be_set_read false)
  else if error && ((errno =? ECONNRESET) || (errno =? EPIPE)) then on_bev st (be_set_write false)
  else
    do* on_world (if reading then syswarn "read from process failed" []
                  else syswarn "write to standard input failed" []) in
    do* on_world (client_error ERROR_INTERNAL (str "Internal failure")) in
    modify rn_set_broken.

(** [shutdown] on the socket pair succeeds. *)
Definition server_handle_input_end : M (running C) unit :=
  on_bev OutStream (be_set_write false).

(** [status] is what [waitpid] stores when it returns a pid. *)
Definition handle_exit (status : option Z) : M (running C) unit :=
  match status with
  | Some s =>
      do* on_process (set_p_status s) in
      do* modify (rn_set_reaped true) in
      modify rn_set_exit
  | None => ret tt
  end.

Definition stream_num (st : stream) : Z := match st with OutStream => 1 | ErrStream => 2 end.

(** [bufferevent_get_input] and a call that empties it. *)
Definition take_input (st : stream) : M (running C) bytes :=
  let* b := gets (rn_bev st) in
  do* on_bev st (be_set_input []) in
  ret (be_input b).

(** [handle_output] of server-v2.c. *)
Definition v2_handle_output (st : stream) : M (running C) unit :=
  do* modify (rn_set_saw_output true) in
  let* buf := take_input st in
  let* ok := on_world (server_v2_send_output (stream_num st) buf) in
  if negb ok then modify rn_set_broken else ret tt.

Definition handle_output_discard (st : stream) : M (running C) unit :=
  do* take_input st in ret tt.

Definition has_input (p : process) : bool :=
  match p_input p with Some _ => true | None => false end.

Definition handle_output_full (st : stream) : M (running C) unit :=
  let* buf := take_input st in
  do* on_process (set_p_output (Some buf)) in
  let* writecb := gets (fun r => has_input (rn_process r)) in
  on_bev st (be_set_cb CbDiscard writecb).

(** [handle_output] of server-ssh.c: [evbuffer_write] keeps what the
    descriptor does not accept. *)
Definition ssh_handle_output (st : stream) : M (running C) unit :=
  do* modify (rn_set_saw_output true) in
  let* b := gets (rn_bev st) in
  let* n := on_world match st with
                     | OutStream => zoom w_stdout put_stdout (sys_write (be_input b))
                     | ErrStream => zoom w_stderr put_stderr (sys_write (be_input b))
                     end in
  if n <? 0 then
    do* on_world (syswarn "error sending output" []) in
    do* on_world (on_client (set_fatal true)) in
    modify rn_set_broken
  else on_bev st (be_set_input (zdrop n (be_input b))).

Definition call_readcb (st : stream) : M (running C) unit :=
  let* b := gets (rn_bev st) in
  match be_readcb b with
  | CbNone => ret tt
  | CbOutputV2 => v2_handle_output st
  | CbOutputFull => handle_output_full st
  | CbDiscard => handle_output_discard st
  | CbOutputSsh => ssh_handle_output st
  end.

(** One event of the script.  libevent reads only while reading is
    enabled, and calls a callback only when one is installed. *)
Definition dispatch (ev : bevent) : M (running C) unit :=
  match ev with
  | EvData st d => on_bev st (fun b => if be_read b then be_set_input (be_input b ++ d) b else b)
  | EvRead st => call_readcb st
  | EvWritten =>
      let* b := gets rn_inout in
      if be_writecb b then server_handle_input_end else ret tt
  | EvIo st eof error reading errno => server_handle_io_event st eof error reading errno
  | EvChild status => handle_exit status
  end.

(** ** Setup *)

Definition server_v2_command_setup : M (running C) unit :=
  let* writecb := gets (fun r => has_input (rn_process r)) in
  do* on_bev OutStream (be_set_cb CbOutputV2 writecb) in
  do* on_bev OutStream (be_set_watermark 0 TOKEN_MAX_OUTPUT) in
  do* on_bev ErrStream (be_set_read true) in
  do* on_bev ErrStream (be_set_cb CbOutputV2 false) in
  on_bev ErrStream (be_set_watermark 0 TOKEN_MAX_OUTPUT).

Definition server_v1_command_setup : M (running C) unit :=
  let* writecb := gets (fun r => has_input (rn_process r)) in
  do* on_bev OutStream (be_set_cb CbOutputFull writecb) in
  on_bev OutStream (be_set_watermark TOKEN_MAX_OUTPUT_V1 TOKEN_MAX_OUTPUT_V1).

Definition command_setup : M (running C) unit :=
  let* writecb := gets (fun r => has_input (rn_process r)) in
  do* on_bev OutStream (be_set_cb CbOutputSsh writecb) in
  do* on_bev OutStream (be_set_watermark 0 TOKEN_MAX_OUTPUT) in
  do* on_bev ErrStream (be_set_read true) in
  do* on_bev ErrStream (be_set_cb CbOutputSsh false) in
  on_bev ErrStream (be_set_watermark 0 TOKEN_MAX_OUTPUT).

Definition client_setup : M (running C) unit :=
  let* kind := on_world (client_get c_kind) in
  match kind with
  | KindV1 => server_v1_command_setup
  | KindV2 => server_v2_command_setup
  | KindSsh => command_setup
  end.

(** The child's side of [start]: environment, privileges, program. *)
Definition child_env (c : client) (p : process) : list (bytes * bytes) :=
  [(str "REMUSER", c_user c); (str "REMOTE_USER", c_user c); (str "REMOTE_ADDR", c_ipaddress c)] ++
  match c_hostname c with Some h => [(str "REMOTE_HOST", h)] | None => [] end ++
  [(str "REMCTL_COMMAND", p_command p); (str "REMOTE_EXPIRES", str (pretty (u64 (c_expires c))))].

Definition child_exec (c : client) (p : process) (ru : rule) : exec :=
  Exec (match ru_sudo_user ru with None => ru_program ru | Some _ => PATH_SUDO end)
    (p_argv p) (child_env c p)
    (match ru_user ru with
     | Some u => if 0 <? ru_uid ru then Some (u, ru_gid ru, ru_uid ru) else None
     | None => None
     end)
    (p_input p).

Definition start_fail : M (running C) unit :=
  do* on_world (client_error ERROR_INTERNAL (str "Internal failure")) in
  modify rn_set_broken.

Definition start (sp : spawn) : M (running C) unit :=
  let* protocol := on_world (client_get c_protocol) in
  match sp with
  | SpawnNoSocket => do* on_world (syswarn "cannot create stdin and stdout socket pair" []) in start_fail
  | SpawnNoErrSocket => do* on_world (syswarn "cannot create stderr socket pair" []) in start_fail
  | SpawnNoFork => do* on_world (syswarn "cannot fork" []) in start_fail
  | SpawnOk pid fd1 fd2 =>
      let* c := on_world (gets w_client) in
      let* p := gets rn_process in
      let* ru := from_option_fault (p_rule p) in
      do* on_world (modify (fun w => put_execs (w_execs w ++ [child_exec c p ru]) w)) in
      do* modify (rn_set_child pid fd1 (if 1 <? protocol then fd2 else 0)) in
      do* modify (rn_set_bev OutStream (be_set_write (has_input p) (be_set_read true no_bufferevent))) in
      do* on_process (set_p_input (match p_input p with Some _ => Some [] | None => None end)) in
      do* modify (rn_set_bev ErrStream no_bufferevent) in
      client_setup
  end.

(** ** The event loop *)

Fixpoint run_events (evs : list bevent) : M (running C) unit :=
  match evs with
  | [] => ret tt
  | ev :: evs =>
      do* dispatch ev in
      let* broken := gets rn_break in
      if (broken : bool) then ret tt else run_events evs
  end.

(** [event_base_dispatch]: after the events of the script nothing more happens,
    and the call returns only if a handler has stopped the loop. *)
Definition event_base_dispatch (evs : list bevent) : M (running C) unit :=
  let* broken := gets rn_break in
  do* (if (broken : bool) then ret tt else run_events evs) in
  let* broken := gets rn_break in
  let* exited := gets rn_exit in
  if broken || exited then ret tt else forever.

(** [while (process->saw_output && !event_base_got_break(loop))]: a run of
    the loop past the script finds nothing to do. *)
Fixpoint run_rounds (rounds : list (list bevent)) : M (running C) unit :=
  let* saw := gets rn_saw_output in
  let* broken := gets rn_break in
  if saw && negb broken then
    do* modify (rn_set_saw_output false) in
    match rounds with
    | [] => ret tt
    | r :: rounds => do* run_events r in run_rounds rounds
    end
  else ret tt.

Definition close_fd (fd : Z) : M (running C) unit :=
  on_world (modify (fun w => put_closed (w_closed w ++ [fd]) w)).

(** [waitpid(process->pid, &process->status, 0)]. *)
Definition wait_child (ch : child) : M (running C) unit :=
  match ch_wait ch with
  | Some status => on_process (set_p_status status)
  | None => forever
  end.

(** The end of [server_process_run], from closing the descriptors on. *)
Definition end_process (ch : child) : M (running C) bool :=
  let* fd := gets rn_stdinout_fd in
  do* close_fd fd in
  let* protocol := on_world (client_get c_protocol) in
  do* (if 1 <? protocol then let* fd := gets rn_stderr_fd in close_fd fd else ret tt) in
  let* broken := gets rn_break in
  if (broken : bool) then
    let* reaped := gets rn_reaped in
    do* (if negb reaped then wait_child ch else ret tt) in
    ret false
  else
    let* p := gets rn_process in
    do* (match p_output p with
         | None =>
             if protocol =? 1 then
               let* buf := take_input OutStream in on_process (set_p_output (Some buf))
             else ret tt
         | Some _ => ret tt
         end) in
    ret true.

Definition run_process (ch : child) : M (running C) bool :=
  do* start (ch_spawn ch) in
  do* event_base_dispatch (ch_main ch) in
  do* modify (rn_set_saw_output true) in
  do* run_rounds (ch_rounds ch) in
  end_process ch.

(** A machine out of processes, when the script has no more children. *)
Definition no_child : child := Child SpawnNoFork [] [] (Some 0).

Definition next_child : M (world C) child := fun w =>
  match w_children w with
  | [] => Ret no_child w
  | ch :: rest => Ret ch (put_children rest w)
  end.

Definition server_process_run (p : process) : M (world C) (bool * process) :=
  let* ch := next_child in
  fun w =>
    match run_process ch (Running w p 0 0 0 no_bufferevent no_bufferevent false false false false false) with
    | Ret ok r => Ret (ok, rn_process r) (rn_world r)
    | Exit c r => Exit c (rn_world r)
    | Fault => Fault
    | NoFuel => NoFuel
    end.
End process.
