(* ===== verification/Commands.v ===== *)
(** Running commands: [server/commands.c] and [server_log_command] of
    [server/logging.c].

    [acl_fuel] bounds the recursion of the access check; [Acl] shows when a
    bound is enough. *)

From S2P Require Import Prelude Effects Net Tokens Command Vector Server Acl Process.

(** * server/logging.c *)

(** The scan of the zero-terminated mask list. *)
Fixpoint mask_scan (mask : list Z) (i : Z) : bool :=
  match mask with
  | [] => false
  | j :: mask => if j =? 0 then false else if j =? i then true else mask_scan mask i
  end.

Definition str_masked : bytes := str "**MASKED**".
Definition str_data : bytes := str "**DATA**".

(** What stands for argument [i] in the log, if not the argument itself;
    [last] says that it is the last one. *)
Definition log_mask (ru : option rule) (i : Z) (last : bool) : option bytes :=
  match ru with
  | None => None
  | Some ru =>
      let arg := match ru_logmask ru with
                 | None => None
                 | Some mask => if mask_scan mask i then Some str_masked else None
                 end in
      if (0 <? i) && ((ru_stdin_arg ru =? i) || ((ru_stdin_arg ru =? -1) && last))
      then Some str_data else arg
  end.

Fixpoint log_args (ru : option rule) (i : Z) (argv : list bytes) (masked : vector) : option vector :=
  match argv with
  | [] => Some masked
  | a :: argv =>
      masked ← match log_mask ru i (match argv with [] => true | _ => false end) with
               | Some arg => vector_add masked arg
               | None => vector_addn masked a (blen a)
               end;
      log_args ru (i + 1) argv masked
  end.

Definition log_printable (c : byte) : byte :=
  if (bs c <? 9) || ((9 <? bs c) && (bs c <? 32)) || (bs c =? 127) then "."%byte else c.

Definition server_log_command {S} `{HasLog S} (argv : list bytes) (ru : option rule) (user : bytes)
    : M S unit :=
  let* masked := from_option_fault (log_args ru 0 argv vector_new) in
  let* command := vector_join masked (str " ") in
  notice "COMMAND from %s: %s" [AStr user; AStr (map log_printable command)].

(** * server/commands.c *)

Definition line_matches (ru : rule) (command subcommand : option bytes) : bool :=
  let okay := bytes_eqb (ru_command ru) (str "ALL") in
  let okay := match command with
              | Some c => okay || bytes_eqb (ru_command ru) c
              | None => okay || bytes_eqb (ru_command ru) (str "EMPTY")
              end in
  if okay then
    bytes_eqb (ru_subcommand ru) (str "ALL") ||
    match subcommand with
    | Some s => bytes_eqb (ru_subcommand ru) s
    | None => bytes_eqb (ru_subcommand ru) (str "EMPTY")
    end
  else false.

Fixpoint find_config_line (cfg : config) (command subcommand : option bytes) : option rule :=
  match cfg with
  | [] => None
  | ru :: cfg => if line_matches ru command subcommand then Some ru
                 else find_config_line cfg command subcommand
  end.

(** [strrchr(path, '/')] and what follows it, or the whole path. *)
Fixpoint program_name_from (s base : bytes) : bytes :=
  match s with
  | [] => base
  | c :: s => program_name_from s (if byte_eqb c "/" then s else base)
  end.
Definition program_name (path : bytes) : bytes := program_name_from path path.

Definition WIFEXITED (status : Z) : bool := Z.land status 127 =? 0.
Definition WEXITSTATUS (status : Z) : Z := Z.land (Z.shiftr status 8) 255.

(** [create_argv_command]: the argument vector, and the input buffer if an
    argument goes to standard input.  [i] counts the arguments. *)
Fixpoint splice_args (stdin_arg i : Z) (argv : list bytes) : list bytes * option bytes :=
  match argv with
  | [] => ([], None)
  | a :: argv =>
      let '(rest, input) := splice_args stdin_arg (i + 1) argv in
      if i =? stdin_arg then (rest, Some (default a input))
      else (x_strndup a (blen a) :: rest, input)
  end.

Definition create_argv_command (ru : rule) (argv : list bytes) : list bytes * option bytes :=
  let count := blen argv in
  let prefix := match ru_sudo_user ru with
                | Some u => [PATH_SUDO; str "-u"; u; str "--"; ru_program ru]
                | None => [program_name (ru_program ru)]
                end in
  let stdin_arg := if ru_stdin_arg ru =? -1 then u64 (count - 1) else u64 (ru_stdin_arg ru) in
  let '(args, input) := splice_args stdin_arg 1 (tail argv) in
  (prefix ++ args, input).

Definition create_argv_help (path command : bytes) (subcommand : option bytes) : list bytes :=
  [program_name path; command] ++ match subcommand with Some s => [s] | None => [] end.

Section commands.
Context {C : Type} `{GssMech C} `{AclEnv}.
Context (acl_fuel : nat).
Implicit Types w : world C.

Definition acl_permit (ru : rule) : M (world C) bool :=
  let* c := gets w_client in
  server_config_acl_permit acl_fuel ru c.

Definition error_ (code : error_codes) (msg : string) : M (world C) unit :=
  do* client_error code (str msg) in ret tt.

(** The loop of [server_send_summary]: the last [process], [status_all],
    [ok_any] and the collected output. *)
Fixpoint summary_loop (cfg : config) (process : process) (status_all : Z) (ok_any : bool)
    (output : option bytes) : M (world C) (Server.process * Z * bool * option bytes) :=
  match cfg with
  | [] => ret (process, status_all, ok_any, output)
  | ru :: cfg =>
      let process := empty_process in
      let* permitted := acl_permit ru in
      if negb permitted then summary_loop cfg process status_all ok_any output
      else
        match ru_summary ru with
        | None => summary_loop cfg process status_all ok_any output
        | Some summary =>
            let req_argv := [program_name (ru_program ru); summary] ++
              (if bytes_eqb (ru_subcommand ru) (str "ALL") || bytes_eqb (ru_subcommand ru) (str "EMPTY")
               then [] else [ru_subcommand ru]) in
            let process := Process summary req_argv (Some ru) None None 0 in
            let* (ok, process) := server_process_run process in
            if (ok : bool) then
              let* protocol := client_get c_protocol in
              let* output :=
                (if protocol =? 1 then
                   let* o := from_option_fault (p_output process) in
                   ret (Some (default [] output ++ o))
                 else ret output) in
              summary_loop cfg process (if negb (p_status process =? 0) then p_status process else status_all)
                true output
            else summary_loop cfg process status_all true output
        end
  end.

Definition server_send_summary (cfg : config) : M (world C) unit :=
  let* protocol := client_get c_protocol in
  let* (process, status_all, ok_any, output) :=
    summary_loop cfg empty_process 0 false (if protocol =? 1 then Some [] else None) in
  let status_all := if WIFEXITED status_all then WEXITSTATUS (p_status process) else -1 in
  if (ok_any : bool) then do* client_finish output status_all in ret tt
  else
    let* user := client_get c_user in
    do* notice "summary request from user %s, but no defined summaries" [AStr user] in
    error_ ERROR_UNKNOWN_COMMAND "Unknown command".

(** Command and subcommand are free of nuls: [true] to go on. *)
Definition check_nuls (user : bytes) (argv : list bytes) : M (world C) bool :=
  let fail (what : string) : M (world C) bool :=
    do* notice "%s from user %s contains nul octet" [AStr (str what); AStr user] in
    do* error_ ERROR_BAD_COMMAND "Invalid command token" in
    ret false in
  match argv with
  | [] => ret true
  | a :: argv =>
      if has_byte nul a then fail "command"
      else match argv with
           | b :: _ => if has_byte nul b then fail "subcommand" else ret true
           | [] => ret true
           end
  end.

(** The loop over the arguments, from [argv\[i\]] on. *)
Fixpoint check_arg_nuls (ru : option rule) (help : bool) (user : bytes) (i : Z) (argv : list bytes)
    : M (world C) bool :=
  match argv with
  | [] => ret true
  | a :: rest =>
      let skip := match ru with
                  | Some ru => (negb help && (i =? ru_stdin_arg ru)) ||
                               (match rest with [] => ru_stdin_arg ru =? -1 | _ => false end)
                  | None => false
                  end in
      if negb skip && has_byte nul a then
        do* notice "argument %lu from user %s contains nul octet" [AInt i; AStr user] in
        do* error_ ERROR_BAD_COMMAND "Invalid command token" in
        ret false
      else check_arg_nuls ru help user (i + 1) rest
  end.

Definition sub_log (subcommand : option bytes) : list larg :=
  match subcommand with
  | None => [AStr []; AStr []]
  | Some s => [AStr (str " "); AStr s]
  end.

(** From the program's argument vector on: run it and report. *)
Definition run_and_finish (p : process) : M (world C) Z :=
  let* (ok, p) := server_process_run p in
  if (ok : bool) then
    let status := if WIFEXITED (p_status p) then WEXITSTATUS (p_status p) else -1 in
    do* client_finish (p_output p) status in
    ret status
  else ret (p_status p).

(** From the check of the arguments on. *)
Definition run_matched (ru : option rule) (help : bool) (command : bytes)
    (subcommand helpsubcommand : option bytes) (argv : list bytes) : M (world C) Z :=
  let* user := client_get c_user in
  let* ok := check_arg_nuls ru help user 1 (tail argv) in
  if negb ok then ret (-1) else
  do* server_log_command argv ru user in
  match ru with
  | None =>
      do* notice "unknown command %s%s%s from user %s"
        ([AStr command] ++ sub_log subcommand ++ [AStr user]) in
      do* error_ ERROR_UNKNOWN_COMMAND "Unknown command" in
      ret (-1)
  | Some ru =>
      let* permitted := acl_permit ru in
      if negb permitted then
        do* notice "access denied: user %s, command %s%s%s"
          ([AStr user; AStr command] ++ sub_log subcommand) in
        do* error_ ERROR_ACCESS "Access denied" in
        ret (-1)
      else if help then
        match ru_help ru with
        | None =>
            do* notice "command %s from user %s has no defined help" [AStr command; AStr user] in
            do* error_ ERROR_NO_HELP "No help defined for command" in
            ret (-1)
        | Some h =>
            run_and_finish (Process command (create_argv_help (ru_program ru) h helpsubcommand)
                              (Some ru) None None 0)
        end
      else
        let '(req_argv, input) := create_argv_command ru argv in
        run_and_finish (Process command req_argv (Some ru) input None 0)
  end.

Definition server_run_command (cfg : config) (argv : list bytes) : M (world C) Z :=
  let* user := client_get c_user in
  match argv with
  | [] =>
      do* notice "empty command from user %s" [AStr user] in
      do* error_ ERROR_BAD_COMMAND "Invalid command token" in
      ret (-1)
  | arg0 :: args =>
      let* ok := check_nuls user argv in
      if negb ok then ret (-1) else
      let command := x_strndup arg0 (blen arg0) in
      let subcommand := (fun a => x_strndup a (blen a)) <$> head args in
      let ru := find_config_line cfg (Some command) subcommand in
      match ru with
      | None =>
          if bytes_eqb command (str "help") then
            do* (match args with
                 | _ :: _ :: _ :: _ =>
                     do* notice "help command from user %s has more than three arguments" [AStr user] in
                     error_ ERROR_TOOMANY_ARGS "Too many arguments for help command"
                 | _ => ret tt
                 end) in
            match subcommand with
            | None => do* server_send_summary cfg in ret (-1)
            | Some sub =>
                let helpsubcommand := (fun a => x_strndup a (blen a)) <$> args !! 1%nat in
                run_matched (find_config_line cfg (Some sub) helpsubcommand) true command
                  subcommand helpsubcommand argv
            end
          else run_matched None false command subcommand None argv
      | Some _ => run_matched ru false command subcommand None argv
      end
  end.
End commands.

(** * A concrete server for the witnesses

    A client connected over protocol two, and one child process that prints
    ["ok"] and exits with status 0. *)
Definition demo_child (status : Z) : child :=
  Child (SpawnOk 7 5 6)
    [EvData OutStream (str "ok"); EvRead OutStream; EvIo OutStream true false true 0;
     EvChild (Some (Z.shiftl status 8))] [[]] (Some 0).

Definition demo_world (children : list child) : world unit :=
  World null_chan demo_client [] children [] [] null_net null_net.
