(* ===== verification/Execs.v ===== *)
(** What the server executes: which operations leave the history of executed
    programs alone, and that a command runs only under a rule that permits
    it. *)

From S2P Require Import Prelude Effects Net Tokens Command Vector Server Acl Process Commands.

(** * Observations the senders and the handlers do not change *)

(** A view of the world that the log does not affect. *)
Class LogQuiet {C X : Type} (f : world C -> X) : Prop :=
  quiet_log : forall l w, f (put_log l w) = f w.

(** A view of the world that the connection, the log, the output descriptors
    and the fatal and keep-alive flags do not affect. *)
Class Quiet {C X : Type} (f : world C -> X) : Prop := {
  quiet_chan : forall ch w, f (put_chan ch w) = f w;
  quiet_logs :: LogQuiet f;
  quiet_stdout : forall n w, f (put_stdout n w) = f w;
  quiet_stderr : forall n w, f (put_stderr n w) = f w;
  quiet_fatal : forall b w, f (put_client (set_fatal b (w_client w)) w) = f w;
}.

#[export] Instance quiet_execs {C} : Quiet (C:=C) w_execs.
Proof. by split. Qed.
#[export] Instance quiet_kind {C} : Quiet (C:=C) (fun w => c_kind (w_client w)).
Proof. by split. Qed.
#[export] Instance quiet_user {C} : Quiet (C:=C) (fun w => c_user (w_client w)).
Proof. by split. Qed.
#[export] Instance quiet_anonymous {C} : Quiet (C:=C) (fun w => c_anonymous (w_client w)).
Proof. by split. Qed.

Section log_quiet.
Context {C : Type} `{GssMech C} {X : Type} (f : world C -> X) `{!LogQuiet f}.

Lemma keeps_log l : keeps f (modify (add_log l)).
Proof. apply keeps_modify. intros w. apply quiet_log. Qed.
Lemma keeps_warn fmt args : keeps f (warn fmt args).
Proof. apply keeps_log. Qed.
Lemma keeps_syswarn fmt args : keeps f (syswarn fmt args).
Proof. apply keeps_log. Qed.
Lemma keeps_notice fmt args : keeps f (notice fmt args).
Proof. apply keeps_log. Qed.
Lemma keeps_die {A} fmt args : keeps (A:=A) f (die fmt args).
Proof. apply keeps_bind; [apply keeps_log|intros; apply keeps_exit]. Qed.
Lemma keeps_client_get {A} (g : client -> A) : keeps f (client_get g).
Proof. apply keeps_gets. Qed.
End log_quiet.

Section quiet.
Context {C : Type} `{GssMech C} {X : Type} (f : world C -> X) `{!Quiet f}.

Lemma keeps_on_chan {A} (m : M (chan C) A) : keeps f (on_chan m).
Proof. apply keeps_zoom. apply quiet_chan. Qed.
Lemma keeps_fatal : keeps f (on_client (set_fatal true)).
Proof. apply keeps_modify. intros w. apply quiet_fatal. Qed.
End quiet.

#[export] Hint Resolve keeps_warn keeps_syswarn keeps_notice keeps_die keeps_on_chan keeps_fatal
  keeps_client_get keeps_log : keeps.

(** Walk through the code with the hints. *)
Ltac keeps :=
  repeat first
    [ progress intros
    | solve [auto with keeps typeclass_instances]
    | apply keeps_bind
    | match goal with
      | |- keeps _ (match ?x with _ => _ end) => destruct x
      end ].

Section senders.
Context {C : Type} `{GssMech C} {X : Type} (f : world C -> X) `{!Quiet f}.

Lemma keeps_warn_token what status : keeps f (warn_token what status).
Proof. unfold warn_token, warn_gssapi. keeps. Qed.
Hint Resolve keeps_warn_token : keeps.
Lemma keeps_v2_send what tok : keeps f (v2_send what tok).
Proof. unfold v2_send, server_send. keeps. Qed.
Hint Resolve keeps_v2_send : keeps.
Lemma keeps_v1_send output st : keeps f (server_v1_send_output output st).
Proof. unfold server_v1_send_output, server_send. keeps. Qed.
Hint Resolve keeps_v1_send : keeps.
Lemma keeps_send_error code msg : keeps f (send_error code msg).
Proof. unfold send_error. keeps; apply keeps_zoom; apply quiet_stderr. Qed.
Hint Resolve keeps_send_error : keeps.
Lemma keeps_v2_output st d : keeps f (server_v2_send_output st d).
Proof. unfold server_v2_send_output. keeps. Qed.
Lemma keeps_client_error code msg : keeps f (client_error code msg).
Proof.
  simpl. unfold server_v2_send_error, server_v1_send_error. keeps.
Qed.
Lemma keeps_client_finish output st : keeps f (client_finish output st).
Proof. simpl. unfold server_v2_command_finish, command_finish. keeps. Qed.
Lemma keeps_error_ code msg : keeps f (error_ code msg).
Proof. unfold error_. apply keeps_bind; [apply keeps_client_error|keeps]. Qed.
End senders.

#[export] Hint Resolve keeps_warn_token keeps_v2_send keeps_v1_send keeps_send_error
  keeps_v2_output keeps_client_error keeps_client_finish keeps_error_ : keeps.

Section handlers.
Context {C : Type} `{GssMech C} {X : Type} (f : world C -> X) `{!Quiet f}.
Definition of_world : running C -> X := fun r => f (rn_world r).

Lemma keeps_on_world {A} (m : M (world C) A) : keeps f m -> keeps of_world (on_world m).
Proof.
  intros Hm r. specialize (Hm (rn_world r)). unfold on_world, zoom, of_world.
  by destruct (m (rn_world r)).
Qed.
Lemma keeps_on_bev st g : keeps of_world (on_bev st g).
Proof. by apply keeps_modify. Qed.
Lemma keeps_on_process g : keeps of_world (on_process g).
Proof. by apply keeps_modify. Qed.
Lemma keeps_broken : keeps of_world (modify rn_set_broken).
Proof. by apply keeps_modify. Qed.
Lemma keeps_saw b : keeps of_world (modify (rn_set_saw_output b)).
Proof. by apply keeps_modify. Qed.
Lemma keeps_reaped b : keeps of_world (modify (rn_set_reaped b)).
Proof. by apply keeps_modify. Qed.
Lemma keeps_loopexit : keeps of_world (modify rn_set_exit).
Proof. by apply keeps_modify. Qed.
Hint Resolve keeps_on_world keeps_on_bev keeps_on_process keeps_broken keeps_saw keeps_reaped keeps_loopexit : keeps.

Lemma keeps_dispatch ev : keeps of_world (dispatch ev).
Proof.
  assert (forall st, keeps of_world (take_input st)) as Ht by (intros; unfold take_input; keeps).
  destruct ev as [st d|st| |st eof err rd errno|status]; simpl.
  - keeps.
  - unfold call_readcb, v2_handle_output, handle_output_full, handle_output_discard, ssh_handle_output.
    keeps; apply keeps_on_world; keeps;
      apply keeps_zoom; intros; (apply quiet_stdout || apply quiet_stderr).
  - unfold server_handle_input_end. keeps.
  - unfold server_handle_io_event. keeps; apply keeps_on_world; keeps.
  - unfold handle_exit. keeps.
Qed.
Hint Resolve keeps_dispatch : keeps.

Lemma keeps_run_events evs : keeps of_world (run_events evs).
Proof. induction evs as [|ev evs IH]; simpl; keeps. Qed.
Hint Resolve keeps_run_events : keeps.

Lemma keeps_event_dispatch evs : keeps of_world (event_base_dispatch evs).
Proof. unfold event_base_dispatch. keeps. Qed.

Lemma keeps_wait_child ch : keeps of_world (wait_child ch).
Proof. unfold wait_child. keeps. Qed.
Hint Resolve keeps_event_dispatch keeps_wait_child : keeps.

Lemma keeps_run_rounds rounds : keeps of_world (run_rounds rounds).
Proof. induction rounds as [|evs rounds IH]; simpl; keeps. Qed.

Lemma keeps_client_setup : keeps of_world client_setup.
Proof.
  unfold client_setup, server_v2_command_setup, server_v1_command_setup, command_setup.
  keeps; apply keeps_on_world; keeps.
Qed.
End handlers.

#[export] Hint Resolve keeps_on_world keeps_on_bev keeps_on_process keeps_broken keeps_saw
  keeps_reaped keeps_loopexit keeps_run_events keeps_event_dispatch keeps_wait_child keeps_run_rounds keeps_client_setup keeps_dispatch : keeps.

(** * The access check only logs *)

Section acl.
Context {C : Type} `{GssMech C} `{AclEnv} {X : Type} (f : world C -> X) `{!LogQuiet f}.
Context (user : bytes) (anonymous : bool).

Lemma keeps_include {A} error nomatch (num : A -> Z) included file lineno (function : bytes -> M (world C) A) :
  (forall g, keeps f (function g)) ->
  keeps f (handle_include error nomatch num included file lineno function).
Proof.
  intros Hf. unfold handle_include. destruct (bytes_eqb included file); [keeps|].
  destruct (fs_isdir included) as [[]|]; [|apply Hf|keeps].
  destruct (fs_readdir included) as [entries|]; [|keeps].
  generalize nomatch. induction entries as [|e entries IH]; intros status; [keeps|].
  destruct (negb (valid_filename e)); [apply IH|]. apply keeps_bind; [apply Hf|]. intros last.
  destruct (num last <? -1); [keeps|apply IH].
Qed.

Lemma keeps_acl_check fuel : forall entry def file lineno,
  keeps f (acl_check user anonymous fuel entry def file lineno).
Proof.
  induction fuel as [|fuel IH]; intros entry def file lineno; [by intros w|]. simpl.
  destruct (acl_entry entry def) as [[[[name scheme]|] prefix] data]; [|keeps].
  assert (keeps f (unsupported name file lineno)) as Hun by (unfold unsupported; keeps).
  destruct scheme.
  - apply keeps_include. intros g. unfold acl_check_file_internal.
    destruct (fs_read g) as [content|]; [|keeps].
    generalize 0. induction (fgets_all (length content) BUFSIZ content) as [|raw lines IHl]; intros lineno0; simpl; [keeps|].
    apply keeps_bind; [unfold acl_line; keeps|]. intros st. destruct (bool_decide _); [keeps|apply IHl].
  - unfold acl_check_princ. keeps.
  - unfold acl_check_anyuser. keeps.
  - keeps.
  - unfold acl_check_gput. keeps.
  - unfold acl_check_localgroup. destruct have_localgroup; [|done].
    apply keeps_bind; [|intros [?|[gr|]]; [keeps| |keeps]; apply keeps_bind; [unfold user_to_localname; keeps|keeps]].
    induction (getgrnam_r data) as [|[st res] calls IHc]; [by intros w|]. simpl. keeps.
  - unfold acl_check_pcre, regex_failed. keeps.
  - unfold acl_check_regex, regex_failed. keeps.
Qed.

Lemma keeps_permit_loop fuel file lineno acls :
  keeps f (acl_permit_loop user anonymous fuel file lineno acls).
Proof.
  induction acls as [|e acls IH]; simpl; [keeps|].
  apply keeps_bind; [apply keeps_acl_check|]. keeps.
Qed.
End acl.

Lemma keeps_acl_permit {C} `{GssMech C} `{AclEnv} {X} (f : world C -> X) `{!LogQuiet f} fuel ru :
  keeps f (acl_permit fuel ru).
Proof.
  unfold acl_permit, server_config_acl_permit. apply keeps_bind; [keeps|]. intros. by apply keeps_permit_loop.
Qed.
#[export] Hint Resolve keeps_acl_permit : keeps.

(** * What a process run executes *)

Section execs.
Context {C : Type} `{GssMech C} `{AclEnv}.
Implicit Types w : world C.

(** [w'] has executed at most one more program than [w]: [p]'s, under its
    rule. *)
Definition ran_at_most w w' (p : process) : Prop :=
  w_execs w' = w_execs w \/
  exists ru, p_rule p = Some ru /\ w_execs w' = w_execs w ++ [child_exec (w_client w) p ru].

Lemma start_ran w p r sp u r' :
  rn_world r = w -> rn_process r = p -> start sp r = Ret u r' -> ran_at_most w (rn_world r') p.
Proof.
  intros <- <- E. unfold start in E.
  apply bind_Ret_inv in E as (protocol & r0 & E0 & E). injection E0 as _ <-.
  assert (rn_set_world (rn_world r) r = r) as Hr by (by destruct r). rewrite Hr in E.
  destruct sp as [pid fd1 fd2| | |].
  2-4: left; eapply (keeps_Ret (of_world w_execs)); [|exact E];
    unfold start_fail; keeps; apply keeps_on_world; keeps.
  apply bind_Ret_inv in E as (c & r1 & E1 & E). injection E1 as <- <-. rewrite Hr in E.
  apply bind_Ret_inv in E as (p' & r1 & E1 & E). injection E1 as <- <-.
  apply bind_Ret_inv in E as (ru & r1 & E1 & E).
  destruct (p_rule (rn_process r)) as [ru'|] eqn:Eru; [|done]. injection E1 as -> <-.
  apply bind_Ret_inv in E as (u1 & r1 & E1 & E). injection E1 as _ <-.
  right. exists ru. split; [done|].
  set (r1 := rn_set_world _ r) in E.
  assert (of_world w_execs r' = of_world w_execs r1) as Hk.
  { eapply (keeps_Ret (of_world w_execs)); [|exact E]. keeps; by apply keeps_modify. }
  exact Hk.
Qed.

Lemma process_run_ran w p ok p' w' :
  server_process_run p w = Ret (ok, p') w' -> ran_at_most w w' p.
Proof.
  intros E. unfold server_process_run in E. apply bind_Ret_inv in E as (ch & w1 & E1 & E).
  assert (w_execs w1 = w_execs w /\ w_client w1 = w_client w) as [Hx Hc].
  { unfold next_child in E1. destruct (w_children w); by injection E1 as _ <-. }
  destruct (run_process ch _) as [ok' r'| | |] eqn:Er; [|done..]. injection E as _ _ <-.
  unfold run_process in Er. apply bind_Ret_inv in Er as (u & r1 & Es & Er).
  assert (of_world w_execs r' = of_world w_execs r1) as Hk.
  { eapply (keeps_Ret (of_world w_execs)); [|exact Er]. unfold end_process, close_fd, take_input.
    keeps; try (apply keeps_on_world; keeps); by apply keeps_modify. }
  unfold of_world in Hk. apply (start_ran w1 p) in Es; [|done|done].
  unfold ran_at_most in *. rewrite Hk, <- Hx, <- Hc. exact Es.
Qed.
End execs.

(** * Commands run under rules that permit them *)

Section commands.
Context {C : Type} `{GssMech C} `{AclEnv}.
Context (acl_fuel : nat).
Implicit Types w : world C.

(** [x] is the program of rule [ru], run for the user of [w] (with that
    user's name in its environment) after the access check of [ru] granted
    that user access. *)
Definition permitted_exec w (ru : rule) (x : exec) : Prop :=
  exists w1 w2 p c, acl_permit acl_fuel ru w1 = Ret true w2 /\
    c_user (w_client w1) = c_user (w_client w) /\
    c_anonymous (w_client w1) = c_anonymous (w_client w) /\
    c_user c = c_user (w_client w) /\
    p_rule p = Some ru /\ x = child_exec c p ru.

(** The history grew by permitted executions under rules of [P]. *)
Definition grew w w' (P : rule -> Prop) (n : nat) : Prop := exists new,
  w_execs w' = w_execs w ++ new /\ (length new <= n)%nat /\
  Forall (fun x => exists ru, P ru /\ permitted_exec w ru x) new.

Lemma grew_same w w' P n : w_execs w' = w_execs w -> grew w w' P n.
Proof. intros E. exists []. rewrite app_nil_r. split; [done|]. split; [simpl; lia|done]. Qed.

Definition same_user w w' : Prop :=
  c_user (w_client w') = c_user (w_client w) /\ c_anonymous (w_client w') = c_anonymous (w_client w).

Lemma permitted_exec_user w w' ru x : same_user w w' -> permitted_exec w' ru x -> permitted_exec w ru x.
Proof.
  intros [Hu Ha] (w1 & w2 & p & c & E & Eu & Ea & Ec & Hp & Hx). exists w1, w2, p, c.
  split; [done|]. split_and!; congruence.
Qed.

Lemma grew_app w w1 w2 P n m :
  same_user w w1 -> grew w w1 P n -> grew w1 w2 P m -> grew w w2 P (n + m).
Proof.
  intros Hu (new & E & Hl & Hf) (new' & E' & Hl' & Hf'). exists (new ++ new').
  rewrite E', E, app_assoc. split; [done|]. split; [rewrite length_app; lia|].
  apply Forall_app. split; [done|]. eapply Forall_impl; [exact Hf'|].
  intros x (ru & Hru & Hx). exists ru. split; [done|]. by eapply permitted_exec_user.
Qed.

Lemma same_execs w w' P n x : w_execs w' = x -> w_execs w = x -> grew w w' P n.
Proof. intros. apply grew_same. congruence. Qed.

Lemma keeps_process_run {X} (f : world C -> X) `{!Quiet f} p :
  (forall c w, f (put_children c w) = f w) -> (forall x w, f (put_execs x w) = f w) ->
  (forall x w, f (put_closed x w) = f w) -> keeps f (server_process_run p).
Proof.
  intros Hch Hex Hcl. unfold server_process_run. apply keeps_bind.
  { intros w. unfold next_child. destruct (w_children w); [done|apply Hch]. }
  intros ch w. set (r0 := Running w p _ _ _ _ _ _ _ _ _ _).
  destruct (run_process ch r0) as [ok r| | |] eqn:E; [|done..].
  change (of_world f r = of_world f r0). eapply (keeps_Ret (of_world f)); [|exact E].
  unfold run_process, end_process, start, start_fail, close_fd, take_input.
  keeps; try (apply keeps_on_world; keeps); try (apply keeps_modify; intros; (done || apply Hcl || apply Hex)).
Qed.

Lemma process_run_user p w r w' : server_process_run p w = Ret r w' -> same_user w w'.
Proof.
  intros E. split.
  - exact (keeps_Ret (fun w => c_user (w_client w)) _ _ _ _
      (keeps_process_run (fun w => c_user (w_client w)) p ltac:(done) ltac:(done) ltac:(done)) E).
  - exact (keeps_Ret (fun w => c_anonymous (w_client w)) _ _ _ _
      (keeps_process_run (fun w => c_anonymous (w_client w)) p ltac:(done) ltac:(done) ltac:(done)) E).
Qed.

Lemma quiet_user_pair {A} (m : M (world C) A) w a w' :
  (forall X (f : world C -> X), Quiet f -> keeps f m) -> m w = Ret a w' ->
  same_user w w' /\ w_execs w' = w_execs w.
Proof.
  intros Hk E. split; [split|].
  - exact (keeps_Ret _ _ _ _ _ (Hk _ (fun w => c_user (w_client w)) _) E).
  - exact (keeps_Ret _ _ _ _ _ (Hk _ (fun w => c_anonymous (w_client w)) _) E).
  - exact (keeps_Ret _ _ _ _ _ (Hk _ w_execs _) E).
Qed.

Lemma run_and_finish_grew w0 w p ru st w' (P : rule -> Prop) w1 :
  acl_permit acl_fuel ru w1 = Ret true w -> same_user w0 w1 -> same_user w0 w ->
  w_execs w = w_execs w0 -> P ru -> p_rule p = Some ru ->
  run_and_finish p w = Ret st w' -> grew w0 w' P 1.
Proof.
  intros Eacl [Hu Ha] [Hu' Ha'] Hex HP Hp E. unfold run_and_finish in E.
  apply bind_Ret_inv in E as ([ok p'] & w2 & Erun & E).
  pose proof (process_run_ran _ _ _ _ _ Erun) as Hran.
  assert (w_execs w' = w_execs w2) as Hk.
  { eapply (keeps_Ret w_execs); [|exact E]. keeps. }
  destruct Hran as [Hs|(ru' & Hru & Hs)].
  - apply grew_same. congruence.
  - exists [child_exec (w_client w) p ru]. rewrite Hk, Hs, Hex.
    assert (ru' = ru) as -> by congruence. split; [done|]. split; [simpl; lia|].
    apply Forall_cons_2; [|constructor]. exists ru. split; [done|].
    exists w1, w, p, (w_client w). done.
Qed.
End commands.

Section run_command.
Context {C : Type} `{GssMech C} `{AclEnv}.
Context (acl_fuel : nat).
Implicit Types w : world C.

(** Operations that execute nothing and keep the user, as one hint. *)
Lemma quiet_step {A} (m : M (world C) A) w0 w a w' :
  (forall X (f : world C -> X), Quiet f -> keeps f m) -> same_user w0 w /\ w_execs w = w_execs w0 ->
  m w = Ret a w' -> same_user w0 w' /\ w_execs w' = w_execs w0.
Proof.
  intros Hk [[Hu Ha] Hx] E. destruct (quiet_user_pair m w a w' Hk E) as [[Hu' Ha'] Hx'].
  split; [split|]; congruence.
Qed.

Lemma log_command_quiet argv ru user X (f : world C -> X) :
  LogQuiet f -> keeps f (server_log_command argv ru user).
Proof.
  intros Hq. unfold server_log_command. apply keeps_bind; [keeps|]. intros v.
  apply keeps_bind; [apply keeps_vector_join|keeps].
Qed.

Lemma arg_nuls_quiet ru help user argv X (f : world C -> X) : Quiet f ->
  forall i, keeps f (check_arg_nuls ru help user i argv).
Proof. intros Hq. induction argv as [|a argv IH]; intros i; simpl; keeps. Qed.

Lemma run_matched_grew ru help command sub helpsub argv w0 w st w' :
  same_user w0 w /\ w_execs w = w_execs w0 ->
  run_matched acl_fuel ru help command sub helpsub argv w = Ret st w' ->
  grew acl_fuel w0 w' (fun ru' => ru = Some ru') 1.
Proof.
  intros Hw E. unfold run_matched in E.
  apply bind_Ret_inv in E as (user & w1 & E1 & E). injection E1 as _ <-.
  apply bind_Ret_inv in E as (ok & w1 & E1 & E).
  apply (quiet_step _ w0) in E1; [|intros; by apply arg_nuls_quiet|done].
  destruct ok; simpl in E; [|injection E as _ <-; apply grew_same, E1].
  apply bind_Ret_inv in E as (u & w2 & E2 & E).
  apply (quiet_step _ w0) in E2; [|intros; by apply log_command_quiet, _|done].
  destruct ru as [ru|];
    [|apply (quiet_step _ w0) in E; [apply grew_same, E|intros; keeps|done]].
  apply bind_Ret_inv in E as (permitted & w3 & E3 & E).
  pose proof E3 as Hacl. apply (quiet_step _ w0) in E3; [|intros; keeps|done].
  destruct permitted; simpl in E;
    [|apply (quiet_step _ w0) in E; [apply grew_same, E|intros; keeps|done]].
  destruct E2 as [Hu2 Hx2], E3 as [Hu3 Hx3].
  destruct help; [destruct (ru_help ru) as [h|]|].
  - refine (run_and_finish_grew acl_fuel w0 w3 _ ru st w' (fun ru' => Some ru = Some ru') w2
      Hacl Hu2 Hu3 Hx3 eq_refl _ E); reflexivity.
  - apply (quiet_step _ w0) in E; [apply grew_same, E|intros; keeps|done].
  - destruct (create_argv_command ru argv) as [req_argv input].
    refine (run_and_finish_grew acl_fuel w0 w3 _ ru st w' (fun ru' => Some ru = Some ru') w2
      Hacl Hu2 Hu3 Hx3 eq_refl _ E); reflexivity.
Qed.

Lemma summary_loop_grew cfg cfg0 : cfg ⊆ cfg0 -> forall p sa ok out w0 w n r w',
  same_user w0 w -> grew acl_fuel w0 w (fun ru => ru ∈ cfg0) n ->
  summary_loop acl_fuel cfg p sa ok out w = Ret r w' ->
  exists m, same_user w0 w' /\ grew acl_fuel w0 w' (fun ru => ru ∈ cfg0) m.
Proof.
  induction cfg as [|ru cfg IH]; intros Hsub p sa ok out w0 w n r w' Hu Hg E.
  { injection E as _ <-. by exists n. }
  simpl in E. apply bind_Ret_inv in E as (permitted & w1 & E1 & E).
  pose proof E1 as Hacl. apply (quiet_user_pair) in E1 as [Hu1 Hx1]; [|intros; keeps].
  assert (same_user w0 w1) as Hu01 by (destruct Hu, Hu1; split; congruence).
  assert (grew acl_fuel w0 w1 (fun ru => ru ∈ cfg0) n) as Hg1.
  { destruct Hg as (new & Ex & Hl & Hf). exists new. by rewrite Hx1. }
  assert (cfg ⊆ cfg0) as Hsub' by set_solver.
  destruct permitted; simpl in E; [|by eapply IH].
  destruct (ru_summary ru) as [summary|]; [|by eapply IH].
  apply bind_Ret_inv in E as ([ok1 p1] & w2 & E2 & E).
  pose proof (process_run_user _ _ _ _ E2) as Hu2.
  pose proof (process_run_ran _ _ _ _ _ E2) as Hran. simpl in Hran.
  assert (same_user w0 w2) as Hu02 by (destruct Hu01, Hu2; split; congruence).
  assert (grew acl_fuel w1 w2 (fun ru => ru ∈ cfg0) 1) as Hstep.
  { destruct Hran as [Hs|(ru' & [= <-] & Hs)]; [by apply grew_same|].
    eexists [_]. split; [exact Hs|]. split; [simpl; lia|]. apply Forall_cons_2; [|constructor].
    exists ru. split; [set_solver|]. eexists w, w1, _, (w_client w1).
    destruct Hu1. split_and!; [exact Hacl|congruence..| |reflexivity]; [congruence..|done]. }
  pose proof (grew_app _ _ _ _ _ _ _ Hu01 Hg1 Hstep) as Hg2.
  destruct ok1; [|by eapply IH].
  apply bind_Ret_inv in E as (protocol & w3 & E3 & E). injection E3 as _ <-.
  apply bind_Ret_inv in E as (out' & w3 & E3 & E).
  assert (w3 = w2) as ->; [|by eapply IH].
  destruct (protocol =? 1); [|by injection E3].
  apply bind_Ret_inv in E3 as (o & w4 & E4 & E3). injection E3 as _ <-.
  unfold from_option_fault in E4. destruct (p_output p1); [by injection E4|done].
Qed.

Lemma send_summary_grew cfg w0 w u w' :
  same_user w0 w /\ w_execs w = w_execs w0 -> server_send_summary acl_fuel cfg w = Ret u w' ->
  exists n, grew acl_fuel w0 w' (fun ru => ru ∈ cfg) n.
Proof.
  intros [Hu Hx] E. unfold server_send_summary in E.
  apply bind_Ret_inv in E as (protocol & w1 & E1 & E). injection E1 as _ <-.
  apply bind_Ret_inv in E as ([[[p sa] ok] out] & w1 & E1 & E).
  eapply summary_loop_grew in E1 as (n & Hu1 & Hg); [|done|done|by apply (grew_same _ w0 w _ 0%nat)].
  assert (w_execs w' = w_execs w1) as Hk by (eapply (keeps_Ret w_execs); [|exact E]; keeps).
  exists n. destruct Hg as (new & Ex & Hl & Hf). exists new. by rewrite Hk.
Qed.

(** The rule a command runs under: the first line that matches the command,
    or for the help command, when none does, the first line that matches its
    arguments (the second one up to any nul). *)
Definition selected_rule (cfg : config) (argv : list bytes) (ru : rule) : Prop :=
  find_config_line cfg (argv !! 0%nat) (argv !! 1%nat) = Some ru \/
  (find_config_line cfg (argv !! 0%nat) (argv !! 1%nat) = None /\ argv !! 0%nat = Some (str "help") /\
   argv !! 1%nat <> None /\ find_config_line cfg (argv !! 1%nat) (cstr <$> argv !! 2%nat) = Some ru).

Lemma find_config_line_in cfg c s ru : find_config_line cfg c s = Some ru -> ru ∈ cfg.
Proof.
  induction cfg as [|r cfg IH]; simpl; [done|].
  destruct (line_matches r c s); [intros [= ->]|intros ?%IH]; set_solver.
Qed.

Lemma selected_in cfg argv ru : selected_rule cfg argv ru -> ru ∈ cfg.
Proof. intros [?|(_ & _ & _ & ?)]; by eapply find_config_line_in. Qed.

Lemma check_nuls_args user argv w b w' : check_nuls user argv w = Ret b w' -> b = true ->
  match argv with
  | [] => True
  | a :: rest => no_nul a /\ match rest with [] => True | b :: _ => no_nul b end
  end.
Proof.
  intros E ->. unfold check_nuls in E. destruct argv as [|a rest]; [done|].
  destruct (has_byte nul a) eqn:Ea; [by apply bind_Ret_inv in E as (? & ? & _ & (? & ? & _ & ?)%bind_Ret_inv)|].
  split; [by apply bool_decide_eq_false in Ea|].
  destruct rest as [|b' rest]; [done|].
  destruct (has_byte nul b') eqn:Eb; [by apply bind_Ret_inv in E as (? & ? & _ & (? & ? & _ & ?)%bind_Ret_inv)|].
  by apply bool_decide_eq_false in Eb.
Qed.

Lemma check_nuls_quiet user argv X (f : world C -> X) : Quiet f -> keeps f (check_nuls user argv).
Proof. intros Hq. unfold check_nuls. keeps. Qed.

Lemma grew_weaken w w' (P Q : rule -> Prop) n m :
  grew acl_fuel w w' P n -> (forall ru, P ru -> Q ru) -> (n <= m)%nat -> grew acl_fuel w w' Q m.
Proof.
  intros (new & E & Hl & Hf) HPQ Hm. exists new. split; [done|]. split; [lia|].
  eapply Forall_impl; [exact Hf|]. intros x (ru & Hru & Hx). exists ru. auto.
Qed.

(** An ordinary command, or help for one: at most one program runs, that of
    the selected rule. *)
Lemma selected_grew cfg argv w st w' :
  server_run_command acl_fuel cfg argv w = Ret st w' ->
  grew acl_fuel w w' (selected_rule cfg argv) 1 \/
  (argv = [str "help"] /\ exists n, grew acl_fuel w w' (fun ru => ru ∈ cfg) n).
Proof.
  intros E. unfold server_run_command in E.
  apply bind_Ret_inv in E as (user & w1 & E1 & E). injection E1 as _ <-.
  destruct argv as [|arg0 args].
  { left. apply grew_same. eapply (keeps_Ret w_execs); [|exact E]. keeps. }
  apply bind_Ret_inv in E as (ok & w1 & E1 & E).
  pose proof (check_nuls_args _ _ _ _ _ E1) as Hnul.
  apply (quiet_step _ w) in E1; [|intros; by apply check_nuls_quiet|done].
  destruct ok; simpl in E; [|injection E as _ <-; left; apply grew_same, E1].
  destruct (Hnul eq_refl) as [Hn0 Hn1]. rewrite x_strndup_all in E by done.
  assert ((fun a => x_strndup a (blen a)) <$> head args = args !! 0%nat) as Hsub.
  { destruct args as [|b args]; [done|]. simpl. by rewrite x_strndup_all by naive_solver. }
  rewrite Hsub in E. clear Hsub.
  destruct (find_config_line cfg (Some arg0) (args !! 0%nat)) as [ru|] eqn:Ef.
  { left. eapply run_matched_grew in E; [|exact E1]. eapply grew_weaken; [exact E| |done].
    intros ru' [= <-]. by left. }
  destruct (bytes_eqb arg0 (str "help")) eqn:Eh.
  2: { left. eapply run_matched_grew in E; [|exact E1]. eapply grew_weaken; [exact E|done|done]. }
  apply bytes_eqb_true in Eh as ->.
  apply bind_Ret_inv in E as (u & w2 & E2 & E).
  apply (quiet_step _ w) in E2; [|intros; keeps|done].
  destruct args as [|sub args]; simpl in E.
  - right. split; [done|]. apply bind_Ret_inv in E as (u' & w3 & E3 & E). injection E as _ <-.
    by eapply send_summary_grew in E3.
  - left. eapply run_matched_grew in E; [|exact E2]. eapply grew_weaken; [exact E| |done].
    intros ru Hru. right. split_and!; [done..|]. rewrite <- Hru. simpl.
    destruct args as [|b args]; [done|]. simpl. by rewrite x_strndup_cstr.
Qed.

(** C4: no program runs that the ACL of its own rule does not permit.  When
    [server_run_command] returns, the history of executed programs has grown
    only by programs of configuration lines whose access check had granted
    the connection's user (whose name is in the program's environment)
    access during this call.  For everything but a bare help request there
    is at most one, and it belongs to the first configuration line that
    matches the command. *)
Theorem command_execs_permitted cfg argv w st w' :
  server_run_command acl_fuel cfg argv w = Ret st w' ->
  exists new, w_execs w' = w_execs w ++ new /\
    Forall (fun x => exists ru, ru ∈ cfg /\ permitted_exec acl_fuel w ru x) new /\
    (argv <> [str "help"] -> (length new <= 1)%nat /\
       Forall (fun x => exists ru, selected_rule cfg argv ru /\ permitted_exec acl_fuel w ru x) new).
Proof.
  intros [(new & Ex & Hl & Hf)|[-> (n & new & Ex & Hl & Hf)]]%selected_grew; exists new.
  - split; [done|]. split; [|done]. eapply Forall_impl; [exact Hf|].
    intros x (ru & Hru & Hx). exists ru. split; [by eapply selected_in|done].
  - done.
Qed.
End run_command.

Lemma command_execs_permitted_witness :
  let _ := null_mech in let _ := demo_env in
  let cfg := [demo_rule [str "file:/acl/ops"]] in
  let argv := [str "ls"; str "-l"] in
  let w := demo_world [demo_child 0] in
  exists w', server_run_command 4 cfg argv w = Ret 0 w' /\
    exists new, w_execs w' = w_execs w ++ new /\
      Forall (fun x => exists ru, ru ∈ cfg /\ permitted_exec 4 w ru x) new /\
      (argv <> [str "help"] -> (length new <= 1)%nat /\
         Forall (fun x => exists ru, selected_rule cfg argv ru /\ permitted_exec 4 w ru x) new).
Proof.
  intros mech env cfg argv w.
  assert (exists w', server_run_command 4 cfg argv w = Ret 0 w') as [w' E]
    by (eexists; vm_compute; reflexivity).
  exists w'. split; [exact E|]. exact (command_execs_permitted 4 cfg argv w 0 w' E).
Defined.
