(* ===== verification/Responses.v ===== *)
(** What the server answers over protocol two: every command ends in one
    STATUS or ERROR message, and a help request with too many arguments in
    two. *)

From S2P Require Import Prelude Effects Net Tokens Command Vector Server Acl Process Commands Execs.

(** A message that ends the answer to a command. *)
Definition is_final (tok : bytes) : bool :=
  match tok with
  | _ :: ty :: _ => (bu ty =? MESSAGE_STATUS) || (bu ty =? MESSAGE_ERROR)
  | _ => false
  end.

Definition finals (sent : list (Z * bytes)) : Z := blen (filter (fun t => is_final t.2 = true) sent).

Lemma finals_snoc sent t : finals (sent ++ [t]) = finals sent + (if is_final t.2 then 1 else 0).
Proof.
  unfold finals. rewrite filter_app, blen_app. destruct (is_final t.2) eqn:E.
  - by rewrite filter_cons_True by done.
  - rewrite filter_cons_False by (rewrite E; done). done.
Qed.

Section responses.
Context {C : Type} `{GssMech C} `{AclEnv}.
Context (acl_fuel : nat).
Implicit Types w : world C.

(** What the counting looks at. *)
Definition answer w : client_kind * bool * list (Z * bytes) :=
  (c_kind (w_client w), c_fatal (w_client w), ch_sent (w_chan w)).

#[export] Instance answer_log : LogQuiet answer.
Proof. done. Qed.

(** A protocol two connection that has sent [n] final messages, or has
    failed. *)
Definition answered (n : Z) w : Prop :=
  c_kind (w_client w) = KindV2 /\
  (c_fatal (w_client w) = true \/ finals (ch_sent (w_chan w)) = n).

Lemma answered_keeps {A} n (m : M (world C) A) :
  keeps answer m -> triple (answered n) m (fun _ => answered n).
Proof.
  intros Hm. apply (keeps_triple answer m
    (fun v => v.1.1 = KindV2 /\ (v.1.2 = true \/ finals v.2 = n)) Hm).
Qed.

(** Every v2 sender adds its message. *)
Lemma v2_send_answered what tok n :
  triple (answered n) (v2_send what tok) (fun ok w =>
    answered (n + (if is_final tok then 1 else 0)) w /\ (ok = false -> c_fatal (w_client w) = true)).
Proof.
  intros w [Hk Hw]. unfold v2_send, bind. rewrite server_send_eq. unfold on_chan, zoom.
  destruct (token_send_priv_returns (c_fd (w_client w)) v2_flags tok TIMEOUT (w_chan w)) as [-> |Hs]; [done|].
  unfold runs, wp in Hs. destruct (token_send_priv _ v2_flags tok TIMEOUT (w_chan w)) as [st ch| | |]; [|done..].
  destruct Hs as (Hok & _ & _). destruct (status_ok st) eqn:Est; simpl.
  - apply bool_decide_eq_true in Est as ->. split; [|done]. split; [done|]. simpl.
    rewrite (Hok eq_refl), finals_snoc. destruct Hw as [?|Hw]; [by left|right]. by rewrite Hw.
  - set (w1 := put_chan ch w).
    assert (keeps answer (warn_token what st)) as Hwarn.
    { unfold warn_token, warn_gssapi. keeps. }
    specialize (Hwarn w1). destruct (warn_token what st w1) as [u w2| | |]; [|done..].
    injection Hwarn as Hk' _ _. split; [|done]. split; [|by left]. change (c_kind (w_client w2) = KindV2). by rewrite Hk'.
Qed.

Lemma v2_output_answered st d n :
  triple (answered n) (server_v2_send_output st d) (fun ok w =>
    answered n w /\ (ok = false -> c_fatal (w_client w) = true)).
Proof.
  unfold server_v2_send_output. destruct (_ || _); [by intros w|].
  destruct (_ <=? _); [by intros w|]. eapply triple_conseq; [apply v2_send_answered|done|].
  intros ok w. simpl. by rewrite Z.add_0_r.
Qed.

Lemma on_kind_answered {A} (m1 m2 m3 : M (world C) A) P Q :
  (forall w, P w -> c_kind (w_client w) = KindV2) -> triple P m2 Q ->
  triple P (let* kind := client_get c_kind in
            match kind with KindV1 => m1 | KindV2 => m2 | KindSsh => m3 end) Q.
Proof. intros HP Hm w Hw. unfold bind. simpl. rewrite (HP w Hw). by apply Hm. Qed.

Lemma client_error_answered code msg n :
  triple (answered n) (client_error code msg) (fun _ => answered (n + 1)).
Proof.
  simpl. apply on_kind_answered; [by intros w [? _]|]. unfold server_v2_send_error.
  destruct (_ <=? _); [by intros w|]. eapply triple_conseq; [apply v2_send_answered|done|].
  intros ok w [Hw _]. exact Hw.
Qed.

Lemma client_finish_answered output st n :
  triple (answered n) (client_finish output st) (fun _ => answered (n + 1)).
Proof.
  simpl. apply on_kind_answered; [by intros w [? _]|]. unfold server_v2_command_finish.
  eapply triple_conseq; [apply v2_send_answered|done|]. intros ok w [Hw _]. exact Hw.
Qed.

Lemma error_answered code msg n :
  triple (answered n) (error_ code msg) (fun _ => answered (n + 1)).
Proof.
  unfold error_. eapply triple_bind; [apply client_error_answered|]. intros. by apply triple_ret.
Qed.

(** ** Running the process *)

(** The loop's break flag is [b], and [n] final messages have been sent. *)
Definition at_ (b : bool) (n : Z) (r : running C) : Prop :=
  rn_break r = b /\ answered n (rn_world r).

(** The loop goes on, or it was broken off by something that has been
    answered. *)
Definition mid (n : Z) (r : running C) : Prop := at_ false n r \/ at_ true (n + 1) r.

Lemma on_world_triple {A} b (m : M (world C) A) P Q :
  triple P m Q -> triple (fun r => rn_break r = b /\ P (rn_world r)) (on_world m)
                    (fun a r => rn_break r = b /\ Q a (rn_world r)).
Proof.
  intros Hm r [Hb HP]. specialize (Hm _ HP). unfold on_world, zoom. by destruct (m (rn_world r)).
Qed.

Lemma on_world_keeps {A} b n (m : M (world C) A) :
  keeps answer m -> triple (at_ b n) (on_world m) (fun _ => at_ b n).
Proof. intros Hm. apply (on_world_triple b m (answered n) (fun _ => answered n)). by apply answered_keeps. Qed.

Lemma modify_at b n f :
  (forall r, rn_break (f r) = rn_break r /\ rn_world (f r) = rn_world r) ->
  triple (at_ b n) (modify f) (fun _ => at_ b n).
Proof. intros Hf. apply triple_modify. intros r [<- Hr]. destruct (Hf r) as [? Hw]. by split; [|rewrite Hw]. Qed.

Lemma broken_at b n : triple (at_ b n) (modify rn_set_broken) (fun _ => at_ true n).
Proof. apply triple_modify. by intros r [_ Hr]. Qed.

Lemma gets_at {A} b n (f : running C -> A) : triple (at_ b n) (gets f) (fun _ => at_ b n).
Proof. by intros r Hr. Qed.

Lemma on_bev_at b n st f : triple (at_ b n) (on_bev st f) (fun _ => at_ b n).
Proof. by apply modify_at. Qed.

Lemma take_input_at b n st : triple (at_ b n) (take_input st) (fun _ => at_ b n).
Proof. by intros r Hr. Qed.

Lemma mid_false {A} n (m : M (running C) A) P :
  triple P m (fun _ => at_ false n) -> triple P m (fun _ => mid n).
Proof. intros Hm. eapply triple_conseq; [exact Hm|done|]. by left. Qed.
Lemma mid_true {A} n (m : M (running C) A) P :
  triple P m (fun _ => at_ true (n + 1)) -> triple P m (fun _ => mid n).
Proof. intros Hm. eapply triple_conseq; [exact Hm|done|]. by right. Qed.

(** A connection that has failed is answered any number of times. *)
Lemma failed_answered n m w : c_fatal (w_client w) = true -> answered n w -> answered m w.
Proof. intros Hf [Hk _]. split; [done|by left]. Qed.

Lemma v2_handle_output_mid n st : triple (at_ false n) (v2_handle_output st) (fun _ => mid n).
Proof.
  unfold v2_handle_output. eapply triple_bind; [by apply modify_at|]. intros ?.
  eapply triple_bind; [apply take_input_at|]. intros buf.
  eapply triple_bind; [eapply on_world_triple, v2_output_answered|]. intros ok.
  destruct ok; simpl.
  - apply triple_ret. intros r (Hb & Hr & _). by left.
  - apply mid_true. eapply (triple_conseq (at_ false (n + 1))); [apply broken_at| |done].
    intros r (Hb & Hw & Hf). split; [exact Hb|]. eapply failed_answered; [by apply Hf|exact Hw].
Qed.

Lemma ssh_handle_output_mid n st : triple (at_ false n) (ssh_handle_output st) (fun _ => mid n).
Proof.
  unfold ssh_handle_output. eapply triple_bind; [by apply modify_at|]. intros ?.
  eapply triple_bind; [apply gets_at|]. intros b.
  eapply triple_bind; [apply on_world_keeps; destruct st; by apply keeps_zoom|]. intros k.
  destruct (k <? 0); [|apply mid_false, on_bev_at].
  eapply triple_bind; [apply on_world_keeps; keeps|]. intros ?.
  eapply triple_bind; [apply (on_world_triple false _ (answered n) (fun _ => answered (n + 1)))|].
  { apply triple_modify. intros w [Hk _]. split; [done|by left]. }
  intros ?. apply mid_true, broken_at.
Qed.

Lemma io_event_mid n st eof error reading errno :
  triple (at_ false n) (server_handle_io_event st eof error reading errno) (fun _ => mid n).
Proof.
  unfold server_handle_io_event. destruct eof; [apply mid_false, on_bev_at|].
  destruct (_ && _); [apply mid_false, on_bev_at|].
  eapply triple_bind; [apply on_world_keeps; destruct reading; keeps|]. intros ?.
  eapply triple_bind; [apply on_world_triple, client_error_answered|]. intros ?.
  apply mid_true, broken_at.
Qed.

Lemma dispatch_mid n ev : triple (at_ false n) (dispatch ev) (fun _ => mid n).
Proof.
  destruct ev as [st d|st| |st eof err rd errno|status]; simpl.
  - apply mid_false, on_bev_at.
  - unfold call_readcb. eapply triple_bind; [apply gets_at|]. intros b. destruct (be_readcb b).
    + apply triple_ret; by left.
    + apply v2_handle_output_mid.
    + unfold handle_output_full. apply mid_false. eapply triple_bind; [apply take_input_at|]. intros buf.
      eapply triple_bind; [by apply modify_at|]. intros ?.
      eapply triple_bind; [apply gets_at|]. intros x. apply on_bev_at.
    + unfold handle_output_discard. eapply triple_bind; [apply take_input_at|]. intros. apply triple_ret; by left.
    + apply ssh_handle_output_mid.
  - eapply triple_bind; [apply gets_at|]. intros b.
    destruct (be_writecb b); [apply mid_false, on_bev_at|apply triple_ret; by left].
  - apply io_event_mid.
  - destruct status; simpl; [|apply triple_ret; by left].
    apply mid_false. do 2 (eapply triple_bind; [by apply modify_at|]; intros ?). by apply modify_at.
Qed.

Lemma run_events_mid n evs : triple (at_ false n) (run_events evs) (fun _ => mid n).
Proof.
  induction evs as [|ev evs IH]; simpl; [apply triple_ret; by left|].
  eapply triple_bind; [apply dispatch_mid|]. intros ? r Hr. unfold bind. simpl.
  destruct Hr as [Hr|Hr]; pose proof Hr as [Hb _]; rewrite Hb; [by apply IH|by right].
Qed.

Lemma event_dispatch_mid n evs : triple (mid n) (event_base_dispatch evs) (fun _ => mid n).
Proof.
  unfold event_base_dispatch. eapply triple_bind; [apply triple_gets|]. intros broken.
  eapply triple_bind with (R := fun _ => mid n).
  { intros r [Hr ->]. destruct Hr as [Hr|Hr]; pose proof Hr as [Hb _]; rewrite Hb.
    - by apply run_events_mid.
    - by right. }
  intros ? r Hr. unfold bind, gets. by destruct (_ || _).
Qed.

Lemma run_rounds_mid n rounds : triple (mid n) (run_rounds rounds) (fun _ => mid n).
Proof.
  induction rounds as [|evs rounds IH]; intros r Hr; simpl; unfold bind; simpl.
  - by destruct (_ && _).
  - destruct Hr as [Hr|Hr]; pose proof Hr as [Hb _]; rewrite Hb; simpl.
    2: { rewrite andb_false_r. by right. }
    destruct (rn_saw_output r && true); simpl; [|by left].
    assert (at_ false n (rn_set_saw_output false r)) as Hr' by done.
    exact (triple_bind (at_ false n) (run_events evs) (fun _ => run_rounds rounds) _ _
              (run_events_mid n evs) (fun _ => IH) _ Hr').
Qed.

Lemma start_mid n sp : triple (at_ false n) (start sp) (fun _ => mid n).
Proof.
  assert (forall text, triple (at_ false n) (do* on_world (syswarn text []) in start_fail) (fun _ => mid n)) as Hfail.
  { intros text. eapply triple_bind; [apply on_world_keeps; keeps|]. intros ?. unfold start_fail.
    eapply triple_bind; [apply on_world_triple, client_error_answered|]. intros ?.
    apply mid_true, broken_at. }
  unfold start. eapply triple_bind; [apply on_world_keeps; keeps|]. intros protocol.
  destruct sp as [pid fd1 fd2| | |]; [|apply Hfail..]. apply mid_false.
  eapply triple_bind; [apply on_world_keeps; keeps|]. intros c.
  eapply triple_bind; [apply gets_at|]. intros p.
  eapply triple_bind; [by apply (triple_from_option _ _ (fun _ => at_ false n))|]. intros ru.
  eapply triple_bind; [apply on_world_keeps, keeps_modify; done|]. intros ?.
  do 4 (eapply triple_bind; [by apply modify_at|]; intros ?).
  unfold client_setup, server_v1_command_setup, server_v2_command_setup, command_setup.
  eapply triple_bind; [apply on_world_keeps; keeps|]. intros [].
  all: repeat (eapply triple_bind; [first [by apply gets_at|by apply on_bev_at]|]; intros ?).
  all: apply on_bev_at.
Qed.

(** A process that was run leaves the answer to its caller, a process that
    could not be run to the end has been answered. *)
Lemma process_run_answered p n :
  triple (answered n) (server_process_run p) (fun r => answered (if r.1 then n else n + 1)).
Proof.
  intros w Hw. unfold server_process_run, bind.
  assert (exists ch w1, next_child w = Ret ch w1 /\ answer w1 = answer w) as (ch & w1 & -> & Ha).
  { unfold next_child. destruct (w_children w) as [|c rest]; eauto. }
  assert (answered n w1) as Hw1.
  { pose proof (answered_keeps n next_child) as Hk. unfold answered in *. unfold answer in Ha. congruence. }
  set (r0 := Running _ _ _ _ _ _ _ _ _ _ _ _).
  assert (triple (at_ false n) (run_process ch)
    (fun ok r => answered (if ok then n else n + 1) (rn_world r))) as Hrun; cycle 1.
  { specialize (Hrun r0 ltac:(done)). by destruct (run_process ch r0). }
  unfold run_process, end_process. eapply triple_bind; [apply start_mid|]. intros ?.
  eapply triple_bind with (R := fun _ => mid n); [apply event_dispatch_mid|].
  intros ?. eapply triple_bind with (R := fun _ => mid n); [by apply triple_modify|]. intros ?.
  eapply triple_bind; [apply run_rounds_mid|]. intros ? r Hr.
  set (Q := fun (ok : bool) r => answered (if ok then n else n + 1) (rn_world r)).
  assert (forall b m (k : M (running C) bool), at_ b m r -> triple (at_ b m) k Q ->
    match k r with Ret ok r => Q ok r | _ => True end) as Hgo by (intros b m k Hb Hk; by apply Hk).
  destruct Hr as [Hr|Hr]; (eapply Hgo; [exact Hr|]).
  all: eapply triple_bind; [apply gets_at|]; intros fd.
  all: eapply triple_bind; [apply on_world_keeps, keeps_modify; done|]; intros ?.
  all: eapply triple_bind; [apply on_world_keeps; keeps|]; intros protocol.
  - eapply triple_bind with (R := fun _ => at_ false n).
    { destruct (1 <? protocol); [|by apply triple_ret].
      eapply triple_bind; [apply gets_at|]; intros fd2. apply on_world_keeps, keeps_modify; done. }
    intros ? r1 [Hb Hr1]. unfold bind. simpl. rewrite Hb.
    destruct (p_output (rn_process r1)); simpl; [exact Hr1|].
    destruct (protocol =? 1); exact Hr1.
  - eapply triple_bind with (R := fun _ => at_ true (n + 1)).
    { destruct (1 <? protocol); [|by apply triple_ret].
      eapply triple_bind; [apply gets_at|]; intros fd2. apply on_world_keeps, keeps_modify; done. }
    intros ? r1 [Hb Hr1]. unfold bind. simpl. rewrite Hb.
    destruct (rn_reaped r1); [exact Hr1|]. unfold wait_child. destruct (ch_wait ch); [exact Hr1|done].
Qed.

(** ** Commands *)

Lemma run_and_finish_answered p n :
  triple (answered n) (run_and_finish p) (fun _ => answered (n + 1)).
Proof.
  unfold run_and_finish. eapply triple_bind; [apply process_run_answered|]. intros [ok p']; simpl.
  destruct ok; [|by apply triple_ret].
  eapply triple_bind; [apply client_finish_answered|]. intros ?. by apply triple_ret.
Qed.

(** Log something, report an error and give up. *)
Lemma notice_error_answered {A} text args code msg (a : A) n :
  triple (answered n) (do* notice text args in do* error_ code msg in ret a) (fun _ => answered (n + 1)).
Proof.
  eapply triple_bind; [apply answered_keeps, keeps_notice, _|]. intros ?.
  eapply triple_bind; [apply error_answered|]. intros ?. by apply triple_ret.
Qed.

Definition checked n (ok : bool) w : Prop := answered (if ok then n else n + 1) w.

Lemma fail_checked text args code msg n :
  triple (answered n) (do* notice text args in do* error_ code msg in ret false) (checked n).
Proof.
  eapply triple_bind; [apply answered_keeps, keeps_notice, _|]. intros ?.
  eapply triple_bind; [apply error_answered|]. intros ?. by apply triple_ret.
Qed.

Lemma check_nuls_answered user argv n : triple (answered n) (check_nuls user argv) (checked n).
Proof.
  unfold check_nuls. destruct argv as [|a argv]; [by apply triple_ret|].
  destruct (has_byte nul a); [apply fail_checked|]. destruct argv as [|b argv]; [by apply triple_ret|].
  destruct (has_byte nul b); [apply fail_checked|by apply triple_ret].
Qed.

Lemma check_arg_nuls_answered ru help user argv n : forall i,
  triple (answered n) (check_arg_nuls ru help user i argv) (checked n).
Proof.
  induction argv as [|a argv IH]; intros i; [by apply triple_ret|]. simpl.
  destruct (negb _ && _); [apply fail_checked|apply IH].
Qed.

Lemma run_matched_answered ru help command sub helpsub argv n :
  triple (answered n) (run_matched acl_fuel ru help command sub helpsub argv) (fun _ => answered (n + 1)).
Proof.
  unfold run_matched. eapply triple_bind; [apply answered_keeps; keeps|]. intros user.
  eapply triple_bind; [apply check_arg_nuls_answered|]. intros ok. unfold checked.
  destruct ok; simpl; [|by apply triple_ret].
  eapply triple_bind; [apply answered_keeps, log_command_quiet, _|]. intros ?.
  destruct ru as [ru|]; [|apply notice_error_answered].
  eapply triple_bind; [apply answered_keeps, keeps_acl_permit, _|]. intros permitted.
  destruct permitted; simpl; [|apply notice_error_answered].
  destruct help; [destruct (ru_help ru); [apply run_and_finish_answered|apply notice_error_answered]|].
  destruct (create_argv_command ru argv). apply run_and_finish_answered.
Qed.

Definition answered_from (n : Z) w : Prop := exists m, n <= m /\ answered m w.

Lemma triple_from {A} n k (m : M (world C) A) :
  0 <= k -> (forall n, triple (answered n) m (fun _ w => answered n w \/ answered (n + k) w)) ->
  triple (answered_from n) m (fun _ => answered_from n).
Proof.
  intros Hk Hm w (x & Hx & Hw). specialize (Hm x w Hw). destruct (m w) as [a w'| | |]; [|done..].
  destruct Hm; [exists x|exists (x + k)]; (split; [lia|done]).
Qed.

Lemma summary_loop_answered cfg n : forall p sa ok out,
  triple (answered_from n) (summary_loop acl_fuel cfg p sa ok out) (fun _ => answered_from n).
Proof.
  assert (forall A (m : M (world C) A), keeps answer m ->
    triple (answered_from n) m (fun _ => answered_from n)) as Hkeep.
  { intros A m Hm. apply (triple_from n 0); [lia|]. intros x.
    eapply triple_conseq; [by apply answered_keeps|done|]. by left. }
  induction cfg as [|ru cfg IH]; intros p sa ok out; simpl; [by apply triple_ret|].
  eapply triple_bind; [apply Hkeep, keeps_acl_permit, _|]. intros permitted.
  destruct permitted; simpl; [|apply IH]. destruct (ru_summary ru); [|apply IH].
  eapply triple_bind.
  { apply (triple_from n 1); [lia|]. intros x. eapply triple_conseq; [apply process_run_answered|done|].
    intros [[] p'] w Hw; simpl in Hw; auto. }
  intros [ok1 p1]. destruct ok1; [|apply IH].
  eapply triple_bind; [apply Hkeep; keeps|]. intros protocol.
  eapply triple_bind; [apply Hkeep; destruct (protocol =? 1); keeps|]. intros out'. apply IH.
Qed.

Lemma send_summary_answered cfg n :
  triple (answered n) (server_send_summary acl_fuel cfg) (fun _ => answered_from (n + 1)).
Proof.
  unfold server_send_summary. eapply triple_bind; [apply answered_keeps; keeps|]. intros protocol.
  eapply triple_bind.
  { eapply triple_conseq; [apply (summary_loop_answered cfg n)| |done]. intros w Hw. exists n. split; [lia|done]. }
  intros [[[p sa] ok] out] w (m & Hm & Hw).
  assert (forall k : M (world C) unit, triple (answered m) k (fun _ => answered (m + 1)) ->
    match k w with Ret _ w' => answered_from (n + 1) w' | _ => True end) as Hgo.
  { intros k Hk. specialize (Hk w Hw). destruct (k w); [|done..]. exists (m + 1). split; [lia|done]. }
  apply Hgo. destruct ok.
  - eapply triple_bind; [apply client_finish_answered|]. intros ?. by apply triple_ret.
  - eapply triple_bind; [apply answered_keeps; keeps|]. intros user.
    eapply triple_bind; [apply answered_keeps, keeps_notice, _|]. intros ?. apply error_answered.
Qed.

(** A help request that names more than a command and a subcommand. *)
Definition help_too_many (cfg : config) (argv : list bytes) : bool :=
  match argv with
  | a :: b :: _ :: _ :: _ =>
      negb (has_byte nul a) && negb (has_byte nul b) && bytes_eqb a (str "help") &&
      negb (bool_decide (is_Some (find_config_line cfg (Some a) (Some b))))
  | _ => false
  end.

Definition command_end (cfg : config) (argv : list bytes) (n : Z) w : Prop :=
  (argv <> [str "help"] /\ answered (n + if help_too_many cfg argv then 2 else 1) w) \/
  (argv = [str "help"] /\ answered_from (n + 1) w).

Lemma command_end_one cfg argv n w :
  help_too_many cfg argv = false -> answered (n + 1) w -> command_end cfg argv n w.
Proof.
  intros Ht Hw. destruct (decide (argv = [str "help"])); [right|left; by rewrite Ht].
  split; [done|]. exists (n + 1). split; [lia|done].
Qed.

(** The report of too many arguments comes on top of the answer. *)
Lemma too_many_answered (l : list bytes) user n :
  triple (answered n)
    (match l with
     | _ :: _ :: _ :: _ =>
         do* notice "help command from user %s has more than three arguments" [AStr user] in
         error_ ERROR_TOOMANY_ARGS "Too many arguments for help command"
     | _ => ret tt
     end) (fun _ => answered (n + if 2 <? blen l then 1 else 0)).
Proof.
  destruct l as [|x [|y [|z l]]]; try (apply triple_ret; intros w; by rewrite Z.add_0_r).
  rewrite (proj2 (Z.ltb_lt 2 _)) by zlist.
  eapply triple_bind; [apply answered_keeps, keeps_notice, _|]. intros ?. apply error_answered.
Qed.

(** What a pass or a failure of the first checks says of the command. *)
Lemma check_nuls_facts cfg user a args n :
  triple (answered n) (check_nuls user (a :: args)) (fun ok w => checked n ok w /\
    if ok then no_nul a /\ match args with [] => True | b :: _ => no_nul b end
    else help_too_many cfg (a :: args) = false).
Proof.
  intros w Hw. pose proof (check_nuls_answered user (a :: args) n w Hw) as Hc.
  pose proof (check_nuls_args user (a :: args) w) as Hnul.
  destruct (check_nuls user (a :: args) w) as [ok w1| | |] eqn:E; [|done..]. split; [done|].
  destruct ok; [by apply (Hnul true w1)|]. unfold check_nuls in E. unfold help_too_many.
  destruct args as [|b [|c [|d args]]]; try done.
  destruct (has_byte nul a); [done|]. by destruct (has_byte nul b).
Qed.

Lemma run_command_end cfg argv n :
  triple (answered n) (server_run_command acl_fuel cfg argv) (fun _ => command_end cfg argv n).
Proof.
  unfold server_run_command. eapply triple_bind; [apply answered_keeps; keeps|]. intros user.
  assert (forall A (m : M (world C) A), help_too_many cfg argv = false ->
    triple (answered n) m (fun _ => answered (n + 1)) ->
    triple (answered n) m (fun _ => command_end cfg argv n)) as Hone.
  { intros A m Ht Hm. eapply triple_conseq; [exact Hm|done|]. intros. by apply command_end_one. }
  destruct argv as [|a args]; [apply Hone; [done|apply notice_error_answered]|].
  eapply triple_bind; [apply check_nuls_facts|]. intros ok.
  apply (triple_pre (checked n ok)). intros Hfacts. destruct ok; simpl negb; cbv iota.
  2: { apply triple_ret. intros w Hw. by apply command_end_one. }
  destruct Hfacts as [Hn0 Hn1]. rewrite x_strndup_all by done. change (checked n true) with (answered n).
  assert ((fun a => x_strndup a (blen a)) <$> head args = args !! 0%nat) as Hsub.
  { destruct args as [|b args]; [done|]. simpl. by rewrite x_strndup_all by naive_solver. }
  rewrite Hsub. clear Hsub.
  destruct (find_config_line cfg (Some a) (args !! 0%nat)) as [ru|] eqn:Ef.
  { apply Hone; [|apply run_matched_answered]. unfold help_too_many.
    destruct args as [|b [|c [|d args]]]; try done. simpl in Ef. rewrite Ef. simpl. by rewrite andb_false_r. }
  destruct (bytes_eqb a (str "help")) eqn:Eh; cycle 1.
  { apply Hone; [|apply run_matched_answered]. unfold help_too_many. rewrite Eh.
    destruct args as [|b [|c [|d args]]]; try done. by rewrite andb_false_r. }
  pose proof Eh as ->%bytes_eqb_true. eapply triple_bind; [apply too_many_answered|]. intros ?.
  destruct args as [|b args]; simpl.
  - eapply triple_bind; [rewrite Z.add_0_r; apply send_summary_answered|]. intros ?.
    apply triple_ret. by right.
  - eapply triple_conseq; [apply run_matched_answered|done|]. intros st w' Hw'. left. split; [done|].
    replace (if help_too_many cfg (str "help" :: b :: args) then 2 else 1) with
      ((if 2 <? blen (b :: args) then 1 else 0) + 1); [by rewrite Z.add_assoc|].
    unfold help_too_many. destruct args as [|c [|d args]]; try done.
    rewrite (proj2 (Z.ltb_lt 2 _)) by zlist. simpl in Ef. rewrite Ef.
    unfold has_byte. by rewrite !bool_decide_eq_false_2 by done.
Qed.

(** C12: a command is answered.  When [server_run_command] returns on a
    protocol two connection that has not failed, it has sent exactly one
    final message (STATUS or ERROR), with two exceptions: a help request with
    too many arguments is answered twice, and a bare help request, which may
    also report summary programs that could not be run before its own final
    message, at least once. *)
Theorem command_answered cfg argv w st w' :
  c_kind (w_client w) = KindV2 -> server_run_command acl_fuel cfg argv w = Ret st w' ->
  c_fatal (w_client w') = true \/
  exists k, finals (ch_sent (w_chan w')) = finals (ch_sent (w_chan w)) + k /\ 1 <= k /\
    (argv <> [str "help"] -> k = if help_too_many cfg argv then 2 else 1).
Proof.
  intros Hk E. pose proof (triple_Ret _ _ _ _ _ _
    (run_command_end cfg argv (finals (ch_sent (w_chan w)))) (conj Hk (or_intror eq_refl)) E) as Hend.
  destruct Hend as [[Hne [_ [Hf|Hn]]]|[-> (m & Hm & _ & [Hf|Hn])]]; [by left| |by left|].
  - right. eexists. split; [exact Hn|]. by destruct (help_too_many cfg argv).
  - right. exists (m - finals (ch_sent (w_chan w))). split; [lia|]. split; [lia|done].
Qed.
End responses.

Lemma command_answered_witness :
  let _ := null_mech in let _ := demo_env in
  let w := demo_world [] in
  let argv := [str "help"; str "ls"; str "-a"; str "-l"] in
  exists st w', server_run_command 4 [] argv w = Ret st w' /\ c_kind (w_client w) = KindV2 /\
    (c_fatal (w_client w') = true \/
     exists k, finals (ch_sent (w_chan w')) = finals (ch_sent (w_chan w)) + k /\ 1 <= k /\
       (argv <> [str "help"] -> k = if help_too_many [] argv then 2 else 1)).
Proof.
  intros mech env w argv.
  assert (exists st w', server_run_command 4 [] argv w = Ret st w') as (st & w' & E)
    by (do 2 eexists; vm_compute; reflexivity).
  exists st, w'. split; [exact E|]. split; [done|].
  exact (command_answered 4 [] argv w st w' eq_refl E).
Defined.
