(* ===== verification/Serve.v ===== *)
(** The server's message loops: [server/server-v2.c] from
    [server_v2_read_token] on, and [server_v1_handle_messages] of
    [server/server-v1.c].

    [char] is signed.  Reading a byte past a token is a [Fault], and so is
    freeing a pointer into the middle of one.  A connection gives finitely
    many bytes and a token takes at least five, which bounds the loops. *)

From S2P Require Import Prelude Effects Net Tokens Command Server Acl Commands.

(** The [char *buffer] of [server_v2_handle_command]. *)
Inductive cbuf : Type :=
  | BNull
  | BHeap (d : bytes)     (* allocated by [xmalloc] or [xrealloc] *)
  | BToken (d : bytes).   (* the token's data behind its four byte header *)

Definition cbuf_null (b : cbuf) : bool := match b with BNull => true | _ => false end.
Definition cbuf_data (b : cbuf) : bytes := match b with BNull => [] | BHeap d | BToken d => d end.

(** [xrealloc(buffer, size)] and the [memcpy] behind the old content; [realloc]
    of size 0 frees the block and returns [NULL]. *)
Definition cbuf_append (b : cbuf) (d : bytes) : cbuf :=
  match b with
  | BNull => BHeap d
  | _ => let all := cbuf_data b ++ d in if blen all =? 0 then BNull else BHeap all
  end.

Section serve.
Context {C : Type} `{GssMech C} `{AclEnv}.
Context (acl_fuel : nat).
Implicit Types w : world C.

(** A byte of a token as a [char]. *)
Definition char_of (i : nat) (tok : bytes) : M (world C) Z := from_option_fault (bs <$> tok !! i).

Definition cbuf_free (b : cbuf) : M (world C) unit :=
  match b with BToken _ => fault | _ => ret tt end.

Definition server_recv : M (world C) (token_status * Z * bytes) :=
  let* fd := client_get c_fd in on_chan (token_recv_priv fd TOKEN_MAX_LENGTH TIMEOUT).

Lemma server_recv_eq w :
  server_recv w = on_chan (token_recv_priv (c_fd (w_client w)) TOKEN_MAX_LENGTH TIMEOUT) w.
Proof. done. Qed.

(** ** server/server-v2.c *)

Definition server_v2_read_token : M (world C) (token_status * bytes) :=
  let* (status, _, tok) := server_recv in
  do* (if negb (status_ok status) then
         do* warn_token "receiving token" status in
         if negb (bool_decide (status = TOKEN_FAIL_EOF)) && negb (bool_decide (status = TOKEN_FAIL_SOCKET))
         then do* client_error ERROR_BAD_TOKEN (str "Invalid token") in ret tt
         else ret tt
       else ret tt) in
  ret (status, tok).

(** The token, unless the pending command is to be aborted. *)
Definition server_v2_read_continuation : M (world C) (option bytes) :=
  let* (status, tok) := server_v2_read_token in
  if negb (status_ok status) then do* on_client (set_fatal true) in ret None
  else
    let* p0 := char_of 0 tok in
    if negb (p0 =? 2) && negb (p0 =? 3) then do* server_v2_send_version in ret None
    else
      let* p1 := char_of 1 tok in
      if p1 =? MESSAGE_QUIT then do* on_client (set_keepalive false) in ret None
      else if negb (p1 =? MESSAGE_COMMAND) then
        do* warn "unexpected message type %d from client" [AInt p1] in
        do* client_error ERROR_UNEXPECTED_MESSAGE (str "Unexpected message") in
        ret None
      else ret (Some tok).

(** One token of the accumulation loop; the loop ends with the complete
    command, or with the value [result] at the label [fail]. *)
Definition handle_command_body (st : bytes * cbuf * bool * bool)
    : M (world C) (bytes * cbuf * bool * bool + (bool + cbuf * bool)) :=
  let '(tok, buffer, allocated, continued) := st in
  let total := blen (cbuf_data buffer) in
  let fail (result : bool) := do* cbuf_free buffer in ret (inr (inl result)) in
  let* p2 := char_of 2 tok in
  do* on_client (set_keepalive (negb (p2 =? 0))) in
  if TOKEN_MAX_DATA <? blen tok then
    do* warn "command data length %lu exceeds 64KB" [AInt (blen tok)] in
    let* result := client_error ERROR_TOOMUCH_DATA (str "Too much data") in
    fail result
  else
    let* p3 := char_of 3 tok in
    if ((p3 =? 1) && continued) || ((1 <? p3) && negb continued) || (3 <? p3) then
      do* warn "bad continue status %d" [AInt p3] in
      let* result := client_error ERROR_BAD_COMMAND (str "Invalid command token") in
      fail result
    else
      let continued := (p3 =? 1) || (p3 =? 2) in
      let data := zdrop 4 tok in
      if u64 (COMMAND_MAX_DATA - total) <=? blen data then
        do* warn "total command length %lu exceeds %lu" [AInt (blen data + total); AInt COMMAND_MAX_DATA] in
        let* result := client_error ERROR_TOOMUCH_DATA (str "Too much data") in
        fail result
      else
        let '(buffer, allocated) :=
          if continued || negb (cbuf_null buffer) then (cbuf_append buffer data, true)
          else (buffer, allocated) in
        if (continued : bool) then
          let* next := server_v2_read_continuation in
          match next with
          | None => do* cbuf_free buffer in ret (inr (inl false))
          | Some tok => ret (inl (tok, buffer, allocated, continued))
          end
        else ret (inr (inr (if cbuf_null buffer then BToken data else buffer, allocated))).

(** Enough for the tokens that can still arrive. *)
Definition serve_fuel w : nat := Datatypes.S (length (rd_bytes (k_read (ch_net (w_chan w))))).

Definition not_fatal : M (world C) bool := client_get (fun c => negb (c_fatal c)).

Definition server_v2_handle_command (cfg : config) (tok : bytes) : M (world C) bool :=
  let* fuel := gets serve_fuel in
  let* r := loop fuel handle_command_body (tok, BNull, false, false) in
  match r with
  | inl result =>
      let* ok := not_fatal in
      ret (if (ok : bool) then result else false)
  | inr (buffer, allocated) =>
      let* argv := server_parse_command (cbuf_data buffer) in
      do* (if (allocated : bool) then cbuf_free buffer else ret tt) in
      match argv with
      | None => not_fatal
      | Some argv =>
          do* server_run_command acl_fuel cfg argv in
          not_fatal
      end
  end.

Definition server_v2_handle_token (cfg : config) (tok : bytes) : M (world C) bool :=
  let* p0 := char_of 0 tok in
  if negb (p0 =? 2) && negb (p0 =? 3) then server_v2_send_version
  else
    let* p1 := char_of 1 tok in
    if p1 =? MESSAGE_COMMAND then server_v2_handle_command cfg tok
    else if p1 =? MESSAGE_NOOP then server_v3_send_noop
    else if p1 =? MESSAGE_QUIT then do* on_client (set_keepalive false) in ret false
    else
      do* warn "unknown message type %d from client" [AInt p1] in
      client_error ERROR_UNKNOWN_MESSAGE (str "Unknown message").

Definition handle_messages_body (cfg : config) (_ : unit) : M (world C) (unit + unit) :=
  let* (status, tok) := server_v2_read_token in
  if negb (status_ok status) then ret (inr tt)
  else
    let* ok := server_v2_handle_token cfg tok in
    if negb ok then ret (inr tt)
    else
      let* keepalive := client_get c_keepalive in
      ret (if (keepalive : bool) then inl tt else inr tt).

Definition server_v2_handle_messages (cfg : config) : M (world C) unit :=
  do* on_client (set_keepalive true) in
  let* fuel := gets serve_fuel in
  loop fuel (handle_messages_body cfg) tt.

(** ** server/server-v1.c *)

Definition server_v1_handle_messages (cfg : config) : M (world C) unit :=
  let* (status, _, tok) := server_recv in
  if negb (status_ok status) then
    do* warn_token "receiving command token" status in
    if bool_decide (status = TOKEN_FAIL_LARGE) then
      do* client_error ERROR_TOOMUCH_DATA (str "Too much data") in ret tt
    else if negb (bool_decide (status = TOKEN_FAIL_EOF)) then
      do* client_error ERROR_BAD_TOKEN (str "Invalid token") in ret tt
    else ret tt
  else if TOKEN_MAX_DATA <? blen tok then
    do* warn "command data length %lu exceeds 64KB" [AInt (blen tok)] in
    do* client_error ERROR_TOOMUCH_DATA (str "Too much data") in ret tt
  else
    let* argv := server_parse_command tok in
    match argv with
    | None => ret tt
    | Some argv => do* server_run_command acl_fuel cfg argv in ret tt
    end.
End serve.
