(* ===== verification/Accept.v ===== *)
(** Accepting a connection: [server_new_client] and [server_free_client] of
    [server/generic.c], and [handle_connection] of [server/remctld.c].

    The accepting side of GSS-API and what the system knows of the peer are
    the class [GssServer]. *)

From S2P Require Import Prelude Effects Net Tokens Command Server Acl Commands Serve.

(** What one call of [gss_accept_sec_context] gives. *)
Record accept_step (C N : Type) : Type := AcceptStep {
  ga_major : Z;
  ga_token : bytes;
  ga_flags : Z;
  ga_name : N;
  ga_time : Z;
  ga_ctx : C;
}.
Arguments AcceptStep {C N}.
Arguments ga_major {C N}.
Arguments ga_token {C N}.
Arguments ga_flags {C N}.
Arguments ga_name {C N}.
Arguments ga_time {C N}.
Arguments ga_ctx {C N}.

(** [accept_start] is [GSS_C_NO_CONTEXT]; [gss_display_name] also says whether
    the name is anonymous.  The peer is what [getpeername] and the two calls
    of [getnameinfo] give: [None] when the first fails, then the address or
    an error, then the name if there is one. *)
Class GssServer (C : Type) : Type := {
  accept_cred : Type;
  accept_name : Type;
  accept_start : C;
  gss_accept_sec_context : option accept_cred -> C -> bytes -> accept_step C accept_name;
  gss_display_name : accept_name -> Z * bytes * bool;
  peer_name : option ((Z + bytes) * option bytes);
}.

Section accept.
Context {C : Type} `{GssMech C} `{GssServer C}.
Implicit Types w : world C.

Definition open_token (fd status_flags : Z) (tok : bytes) : M (world C) token_status :=
  on_chan (on_net (token_send fd status_flags tok TIMEOUT)).
Definition accept_token (fd : Z) : M (world C) (token_status * Z * bytes) :=
  on_chan (on_net (token_recv fd TOKEN_MAX_LENGTH TIMEOUT)).

(** One pass of the negotiation loop on [client->protocol] and
    [client->context]; [inr None] is [goto fail]. *)
Definition accept_body (fd : Z) (creds : option accept_cred) (st : Z * C)
    : M (world C) (Z * C + option (Z * accept_step C accept_name)) :=
  let* (status, flags, tok) := accept_token fd in
  if negb (status_ok status) then
    do* warn_token "receiving context token" status in ret (inr None)
  else if negb (flags =? TOKEN_CONTEXT) && negb (flags =? Z.lor TOKEN_CONTEXT TOKEN_PROTOCOL) then
    do* warn "bad token flags %d in context token" [AInt flags] in ret (inr None)
  else
    let protocol := if flags =? TOKEN_CONTEXT then 1 else st.1 in
    let step := gss_accept_sec_context creds st.2 tok in
    let major := ga_major step in
    let* status :=
      if blen (ga_token step) =? 0 then ret TOKEN_OK
      else open_token fd (context_flags protocol) (ga_token step) in
    if negb (status_ok status) then
      do* warn_token "sending context token" status in ret (inr None)
    else if negb (major =? GSS_S_COMPLETE) && negb (major =? GSS_S_CONTINUE_NEEDED) then
      do* warn_gssapi "while accepting context" in ret (inr None)
    else if major =? GSS_S_CONTINUE_NEEDED then ret (inl (protocol, ga_ctx step))
    else ret (inr (Some (protocol, step))).

Definition new_client_kind (protocol : Z) : client_kind := if protocol =? 1 then KindV1 else KindV2.

(** The initial token's protocol, or [None] for other flags. *)
Definition initial_protocol (flags : Z) : option Z :=
  if flags =? Z.lor TOKEN_NOOP (Z.lor TOKEN_CONTEXT_NEXT TOKEN_PROTOCOL) then Some 2
  else if flags =? Z.lor TOKEN_NOOP TOKEN_CONTEXT_NEXT then Some 1
  else None.

(** From the initial token to the established context. *)
Definition accept_context (fd : Z) (creds : option accept_cred) : M (world C) (option (Z * accept_step C accept_name)) :=
  let* (status, flags, _) := accept_token fd in
  if negb (status_ok status) then
    do* warn_token "receiving initial token" status in ret None
  else
    match initial_protocol flags with
    | None => do* warn "bad token flags %d in initial token" [AInt flags] in ret None
    | Some protocol =>
        let* fuel := gets serve_fuel in
        loop fuel (accept_body fd creds) (protocol, accept_start)
    end.

(** True with the client struct and the context in the state, or false for
    [NULL]. *)
Definition server_new_client (fd : Z) (creds : option accept_cred) : M (world C) bool :=
  match peer_name with
  | None => do* syswarn "cannot get peer address" [] in ret false
  | Some (inl status, _) =>
      do* syswarn "cannot translate IP address of client: %s" [AGai status] in ret false
  | Some (inr ipaddress, hostname) =>
      let* result := accept_context fd creds in
      match result with
      | None => ret false
      | Some (protocol, step) =>
          if (1 <? protocol) && negb (flags_acceptable (ga_flags step)) then
            do* warn "client did not negotiate appropriate GSS-API flags" [] in ret false
          else
            let '(major, user, anonymous) := gss_display_name (ga_name step) in
            if negb (major =? GSS_S_COMPLETE) then
              do* warn_gssapi "while displaying client name" in ret false
            else
              let* now := on_chan (on_net sys_time) in
              do* modify (fun w =>
                put_client (Client (new_client_kind protocol) fd hostname ipaddress protocol user anonymous
                                   (ga_flags step) (now + ga_time step) false false)
                  (put_chan (Chan (ch_net (w_chan w)) (ga_ctx step) (ch_sent (w_chan w))) w)) in
              ret true
      end
  end.

(** [close] of the connection's descriptor. *)
Definition close_connection (fd : Z) : M (world C) unit :=
  modify (fun w => put_closed (w_closed w ++ [fd]) w).

(** Deleting the context is taken to succeed. *)
Definition server_free_client (fd : Z) : M (world C) unit :=
  if 0 <=? fd then close_connection fd else ret tt.

Context `{AclEnv} (acl_fuel : nat).

Definition handle_connection (fd : Z) (cfg : config) (creds : option accept_cred) : M (world C) unit :=
  let* ok := server_new_client fd creds in
  if negb ok then close_connection fd
  else
    let* protocol := client_get c_protocol in
    do* (if protocol =? 1 then server_v1_handle_messages acl_fuel cfg
         else server_v2_handle_messages acl_fuel cfg) in
    server_free_client fd.
End accept.
