(* ===== verification/Daemon.v ===== *)
(** The server program: [server/remctld.c].

    [daemon] is the state of the parent: its sockets and messages
    ([listener]), the flags the signal handlers set, the children it has
    forked, and the world of the one connection it serves itself when it is
    run from inetd.  What happens from one pass of the accept loop to the next
    (signals, children that have exited, the next connection, the result of
    [fork], the files) is a script of [round]s.  The child of a [fork] is the
    definition [daemon_child]. *)

From S2P Require Import Prelude Effects CLib Getopt Net Tokens Connect NetAddr Listen Command Server Acl Config Process Commands Serve Accept.

Definition ECHILD : Z := 10.
Definition SD_LISTEN_FDS_START : Z := 3.
Definition STDIN_FILENO : Z := 0.

(** What the system answers when the daemon starts: systemd, [raise], and the
    calls that write the PID file ([mkstemp] gives the name it made of the
    template, and whether it could create the file). *)
Class Startup : Type := {
  sd_listen_fds : Z;
  sd_notify : Z;
  raise_stop : Z;
  mkstemp : bytes -> bytes * bool;
  fdopen_ok : bool;
  fprintf_ok : bool;
  rename_ok : bool;
}.

(** The GSS-API calls of [acquire_creds]. *)
Class ServerCreds (C : Type) `{GssServer C} : Type := {
  server_name : Type;
  gss_import_user : bytes -> Z * server_name;
  gss_acquire_cred : server_name -> Z * accept_cred;
}.

(** One pass of the accept loop: the signals that came since the last one,
    the children [waitpid] gives and how it ends (the errno of a failure),
    the files as they are then, the calls of [select] and [accept], and the
    result of [fork]. *)
Record round (C : Type) : Type := Round {
  rd_child : bool;
  rd_config : bool;
  rd_exit : bool;
  rd_reaped : list (Z * Z);
  rd_waitpid : option Z;
  rd_files : AclEnv;
  rd_wait : wait_result;
  rd_accept : accept_result C;
  rd_fork : Z;
}.
Arguments Round {C}.
Arguments rd_child {C}.
Arguments rd_config {C}.
Arguments rd_exit {C}.
Arguments rd_reaped {C}.
Arguments rd_waitpid {C}.
Arguments rd_files {C}.
Arguments rd_wait {C}.
Arguments rd_accept {C}.
Arguments rd_fork {C}.

(** A child: its process id, its descriptor and connection, the peer, and the
    configuration it was forked with. *)
Record job (C : Type) : Type := Job {
  j_pid : Z;
  j_fd : Z;
  j_chan : chan C;
  j_peer : sockaddr;
  j_config : config;
}.
Arguments Job {C}.
Arguments j_pid {C}.
Arguments j_fd {C}.
Arguments j_chan {C}.
Arguments j_peer {C}.
Arguments j_config {C}.

Record daemon (C : Type) : Type := Daemon {
  d_net : listener C;
  d_child : bool;                  (* child_signaled *)
  d_config : bool;                 (* config_signaled *)
  d_exit : bool;                   (* exit_signaled *)
  d_rounds : list (round C);
  d_jobs : list (job C);
  d_pidfile : option bytes;
  d_world : world C;
  d_getopt : getopt_state;
}.
Arguments Daemon {C}.
Arguments d_net {C}.
Arguments d_child {C}.
Arguments d_config {C}.
Arguments d_exit {C}.
Arguments d_rounds {C}.
Arguments d_jobs {C}.
Arguments d_pidfile {C}.
Arguments d_world {C}.
Arguments d_getopt {C}.

(** [struct options]. *)
Record options : Type := Options {
  op_debug : bool;
  op_foreground : bool;
  op_log_stdout : bool;
  op_standalone : bool;
  op_suspend : bool;
  op_port : Z;
  op_service : option bytes;
  op_config_path : bytes;
  op_pid_path : option bytes;
  op_bindaddrs : list bytes;
}.

(** [WIFSIGNALED] and [WTERMSIG] of <sys/wait.h>. *)
Definition WTERMSIG (status : Z) : Z := Z.land status 127.
Definition WIFSIGNALED (status : Z) : bool := negb (WTERMSIG status =? 0) && negb (WTERMSIG status =? 127).

Section daemon.
Context {C : Type} `{GssMech C} `{GssServer C} {HC : ServerCreds C} `{Inet} `{InetPrint} `{Passive} `{ConfEnv} `{Startup}.
Context (acl_fuel conf_fuel : nat).
Implicit Types d : daemon C.

Definition put_net n d : daemon C := Daemon n (d_child d) (d_config d) (d_exit d) (d_rounds d) (d_jobs d) (d_pidfile d) (d_world d) (d_getopt d).
Definition put_flags c r e d : daemon C := Daemon (d_net d) c r e (d_rounds d) (d_jobs d) (d_pidfile d) (d_world d) (d_getopt d).
Definition put_rounds rs d : daemon C := Daemon (d_net d) (d_child d) (d_config d) (d_exit d) rs (d_jobs d) (d_pidfile d) (d_world d) (d_getopt d).
Definition put_jobs js d : daemon C := Daemon (d_net d) (d_child d) (d_config d) (d_exit d) (d_rounds d) js (d_pidfile d) (d_world d) (d_getopt d).
Definition put_pidfile p d : daemon C := Daemon (d_net d) (d_child d) (d_config d) (d_exit d) (d_rounds d) (d_jobs d) p (d_world d) (d_getopt d).
Definition put_dworld w d : daemon C := Daemon (d_net d) (d_child d) (d_config d) (d_exit d) (d_rounds d) (d_jobs d) (d_pidfile d) w (d_getopt d).
Definition put_dgetopt g d : daemon C := Daemon (d_net d) (d_child d) (d_config d) (d_exit d) (d_rounds d) (d_jobs d) (d_pidfile d) (d_world d) g.

#[export] Instance daemon_HasLog : HasLog (daemon C) := fun m d => put_net (add_log m (d_net d)) d.

Definition on_lis {A} (m : M (listener C) A) : M (daemon C) A := zoom d_net put_net m.

(** ** Credentials *)

Definition acquire_creds (service : bytes) : M (daemon C) (option accept_cred) :=
  let '(major, name) := gss_import_user (service ++ [nul]) in
  if negb (major =? GSS_S_COMPLETE) then
    do* warn "GSS-API error %s" [AStr (str "while importing name")] in ret None
  else
    let '(major, creds) := gss_acquire_cred name in
    if negb (major =? GSS_S_COMPLETE) then
      do* warn "GSS-API error %s" [AStr (str "while acquiring credentials")] in ret None
    else ret (Some creds).

(** ** Children *)

Definition log_child (pid status : Z) : M (daemon C) unit :=
  if WIFEXITED status then
    if negb (WEXITSTATUS status =? 0) then
      warn "child %lu exited with %d" [AInt pid; AInt (WEXITSTATUS status)]
    else ret tt
  else if WIFSIGNALED status then
    warn "child %lu died on signal %d" [AInt pid; AInt (WTERMSIG status)]
  else warn "child %lu died" [AInt pid].

Fixpoint log_children (reaped : list (Z * Z)) : M (daemon C) unit :=
  match reaped with
  | [] => ret tt
  | (pid, status) :: reaped => do* log_child pid status in log_children reaped
  end.

(** The process after [fork] returns 0, on the world of its connection. *)
Definition daemon_child `{AclEnv} (fds : list Z) (s : Z) (cfg : config) (creds : option accept_cred) : M (world C) unit :=
  do* modify (fun w => put_closed (w_closed w ++ fds) w) in
  do* handle_connection acl_fuel s cfg creds in
  exit_with 0.

(** ** Sockets *)

Definition is_ipv6 (s : bytes) : bool := bool_decide (is_Some (inet_pton6 s)).

Definition listen_or_die (fd : Z) : M (daemon C) unit :=
  let* r := on_lis (listen_on fd) in
  if r <? 0 then sysdie "error listening on socket" [] else ret tt.

Fixpoint listen_all (fds : list Z) : M (daemon C) unit :=
  match fds with [] => ret tt | fd :: fds => do* listen_or_die fd in listen_all fds end.

Fixpoint bind_addresses (addrs : list bytes) (port : Z) : M (daemon C) (list Z) :=
  match addrs with
  | [] => ret []
  | addr :: addrs =>
      let* fd := on_lis (if is_ipv6 addr then network_bind_ipv6 SOCK_STREAM addr port
                         else network_bind_ipv4 SOCK_STREAM addr port) in
      match fd with
      | None => sysdie "cannot bind to address %s, port %hu" [AStr addr; AInt port]
      | Some fd =>
          do* listen_or_die fd in
          let* fds := bind_addresses addrs port in
          ret (fd :: fds)
      end
  end.

Definition bind_sockets (o : options) : M (daemon C) (list Z) :=
  let status := sd_listen_fds in
  if status <? 0 then die "using systemd-bound sockets failed: %s" [AErr (- status)]
  else if 0 <? status then
    ret (map (fun i => SD_LISTEN_FDS_START + i) (seqZ 0 status))
  else
    match op_bindaddrs o with
    | [] =>
        let* (ok, fds) := on_lis (network_bind_all SOCK_STREAM (op_port o)) in
        if negb ok then sysdie "cannot bind any sockets" []
        else do* listen_all fds in ret fds
    | addrs => bind_addresses addrs (op_port o)
    end.

(** ** The accept loop *)

(** The signals of a round and its [select] and [accept]. *)
Definition begin_round (r : round C) : M (daemon C) unit :=
  modify (fun d =>
    put_flags (d_child d || rd_child r) (d_config d || rd_config r) (d_exit d || rd_exit r)
      (put_net (put_waits [rd_wait r] (put_accepts [rd_accept r] (d_net d))) d)).

Definition reap_children (r : round C) : M (daemon C) unit :=
  let* signaled := gets d_child in
  if signaled then
    do* modify (fun d => put_flags false (d_config d) (d_exit d) d) in
    do* log_children (rd_reaped r) in
    match rd_waitpid r with
    | Some errno => if negb (errno =? ECHILD) then sysdie "waitpid failed" [] else ret tt
    | None => ret tt
    end
  else ret tt.

Definition reread_config (r : round C) (o : options) (cfg : config) : M (daemon C) config :=
  let* signaled := gets d_config in
  if signaled then
    do* modify (fun d => put_flags (d_child d) false (d_exit d) d) in
    do* notice "re-reading configuration" [] in
    let* cfg := @server_config_load (rd_files r) _ _ _ conf_fuel (op_config_path o) in
    match cfg with
    | None => die "cannot load configuration file %s" [AStr (op_config_path o)]
    | Some cfg => ret cfg
    end
  else ret cfg.

(** The parent after [accept]. *)
Definition fork_child (r : round C) (s : Z) (peer : sockaddr) (cfg : config) : M (daemon C) unit :=
  if rd_fork r <? 0 then
    do* syswarn "forking a new child failed" [] in
    warn "sleeping ten seconds in the hope we recover..." []
  else
    let* a := on_lis (on_lkern (sock s)) in
    do* modify (fun d => put_jobs (d_jobs d ++ [Job (rd_fork r) s (at_chan a) peer cfg]) d) in
    on_lis (close_socket s).

(** One pass; [inr] is [break]. *)
Definition daemon_body (o : options) (fds : list Z) (cfg : config) : M (daemon C) (config + config) :=
  let* rounds := gets d_rounds in
  match rounds with
  | [] => fun _ => NoFuel
  | r :: rounds =>
      do* modify (put_rounds rounds) in
      do* begin_round r in
      do* reap_children r in
      let* cfg := reread_config r o cfg in
      let* exiting := gets d_exit in
      if exiting then do* notice "signal received, exiting" [] in ret (inr cfg)
      else
        let* s := on_lis (network_accept_any fds) in
        match s with
        | None =>
            let* errno := on_lis (on_lkern get_errno) in
            if negb (errno =? EINTR) then sysdie "error accepting incoming connection" []
            else ret (inl cfg)
        | Some (s, peer) => do* fork_child r s peer cfg in ret (inl cfg)
        end
  end.

Fixpoint close_all (fds : list Z) : M (daemon C) unit :=
  match fds with [] => ret tt | fd :: fds => do* on_lis (close_socket fd) in close_all fds end.

Definition write_pidfile (pid : Z) (path : bytes) : M (daemon C) unit :=
  let '(template, made) := mkstemp (path ++ str ".XXXXXX") in
  if negb made then sysdie "cannot create temporary PID file %s" [AStr template]
  else if negb fdopen_ok then sysdie "cannot reopen temporary PID file %s" [AStr template]
  else if negb fprintf_ok then sysdie "cannot write to temporary PID file %s" [AStr template]
  else if negb rename_ok then sysdie "cannot rename temporary PID file to %s" [AStr path]
  else modify (put_pidfile (Some (decimal pid ++ [x0a]))).

(** [sigaction] succeeds. *)
Definition server_daemon (pid : Z) (o : options) (cfg : config) : M (daemon C) unit :=
  let* fds := bind_sockets o in
  do* match op_pid_path o with Some path => write_pidfile pid path | None => ret tt end in
  do* notice "starting" [] in
  do* (if sd_notify <? 0 then warn "cannot notify systemd of startup: %s" [AErr (- sd_notify)] else ret tt) in
  do* (if op_suspend o && (raise_stop <? 0) then syswarn "cannot notify upstart of startup" [] else ret tt) in
  let* rounds := gets d_rounds in
  let* _ := loop (Datatypes.S (length rounds)) (daemon_body o fds) cfg in
  do* match op_pid_path o with Some _ => modify (put_pidfile None) | None => ret tt end in
  close_all fds.

(** ** main *)

Definition on_dworld {A} (m : M (world C) A) : M (daemon C) A := zoom d_world put_dworld m.
Definition on_dgetopt {A} (m : M getopt_state A) : M (daemon C) A := zoom d_getopt put_dgetopt m.

(** The text it prints is not kept. *)
Definition remctld_usage {A} (status : Z) : M (daemon C) A := exit_with status.

Definition remctld_optstring : bytes := str "b:dFf:hk:mP:p:Ss:vZ".

Context (posixly : bool) (CONFIG_FILE : bytes).

Definition initial_options : options :=
  Options false false false false false 4373 None CONFIG_FILE None [].

(** One option; the environment that [-k] changes is not part of the model. *)
Definition remctld_option (o : options) : M (daemon C) (options + options) :=
  let* option := on_dgetopt (getopt posixly remctld_optstring) in
  let* arg := gets (fun d => optarg (d_getopt d)) in
  let '(Options debug fg out alone suspend port service config pid addrs) := o in
  if option =? EOF then ret (inr o)
  else if option =? bs "b" then
    let* a := from_option_fault arg in
    ret (inl (Options debug fg out alone suspend port service config pid (addrs ++ [a])))
  else if option =? bs "d" then ret (inl (Options true fg out alone suspend port service config pid addrs))
  else if option =? bs "F" then ret (inl (Options debug true out alone suspend port service config pid addrs))
  else if option =? bs "f" then
    let* a := from_option_fault arg in
    ret (inl (Options debug fg out alone suspend port service a pid addrs))
  else if option =? bs "h" then remctld_usage 0
  else if option =? bs "k" then ret (inl o)
  else if option =? bs "m" then ret (inl (Options debug fg out true suspend port service config pid addrs))
  else if option =? bs "P" then ret (inl (Options debug fg out alone suspend port service config arg addrs))
  else if option =? bs "p" then
    let* a := from_option_fault arg in
    let '(tmp_port, _, rest) := strtol a in
    if negb (bool_decide (rest = [])) || (tmp_port <? 1) || (Z.shiftl 1 16 - 1 <? tmp_port) then
      die "invalid port number %ld" [AInt tmp_port]
    else ret (inl (Options debug fg out alone suspend (u16 tmp_port) service config pid addrs))
  else if option =? bs "S" then ret (inl (Options debug fg true alone suspend port service config pid addrs))
  else if option =? bs "s" then ret (inl (Options debug fg out alone suspend port arg config pid addrs))
  else if option =? bs "v" then exit_with 0
  else if option =? bs "Z" then ret (inl (Options debug fg out alone true port service config pid addrs))
  else remctld_usage 1.

(** [daemonized] is the result of [daemon], [pid] that of [getpid]. *)
Definition remctld_main `{AclEnv} (daemonized pid : Z) (argv : list bytes) : M (daemon C) Z :=
  do* modify (put_dgetopt (getopt_init argv)) in
  let* o := loop (Datatypes.S (argv_size argv)) remctld_option initial_options in
  if (0 <? blen (op_bindaddrs o)) && negb (op_standalone o) then
    die "-b only makes sense in combination with -m" []
  else if op_suspend o && negb (op_standalone o) then
    die "-Z only makes sense in combination with -m" []
  else if op_standalone o && negb (op_foreground o) && negb (daemonized =? 0) then
    sysdie "cannot daemonize" []
  else
    let* cfg := server_config_load conf_fuel (op_config_path o) in
    match cfg with
    | None => die "cannot read configuration file %s" [AStr (op_config_path o)]
    | Some cfg =>
        let* creds :=
          match op_service o with
          | None => ret None
          | Some service =>
              let* creds := acquire_creds service in
              match creds with
              | None => die "unable to acquire creds, aborting" []
              | Some creds => ret (Some creds)
              end
          end in
        do* (if negb (op_standalone o) then on_dworld (handle_connection acl_fuel STDIN_FILENO cfg creds)
             else server_daemon pid o cfg) in
        ret 0
    end.
End daemon.
