(* ===== verification/Handshake.v ===== *)
(** The negotiation between [internal_open] of [client/open.c] and
    [server_new_client] of [server/generic.c]: both ends that succeed agree on
    the protocol and on the context. *)

From S2P Require Import Prelude Effects CLib Net Tokens Connect Command Client ClientFraming Open ApiSafe Server Acl Commands Serve Accept.

(** * The mechanism *)

(** What RFC 2743 promises of the context-establishment calls, in terms of
    whose turn it is: a token is produced exactly if the other side still
    expects one, and [GSS_S_CONTINUE_NEEDED] means that the other side will
    send one.  [client_turn a b t done] is the initiator's turn on [t] when the
    acceptor is [done] or not; [server_turn a b t done] the reverse. *)
Class GssHandshake (C : Type) `{GssLaws C} `{GssClient C} `{GssServer C}
    (cred : option gss_cred) (name : gss_name) (creds : option accept_cred) : Type := {
  client_turn : C -> C -> option bytes -> bool -> Prop;
  server_turn : C -> C -> bytes -> bool -> Prop;
  established a b := gss_sync a b /\ gss_sync b a;
  turn_start : client_turn GSS_C_NO_CONTEXT accept_start None false;
  turn_init : forall a b t fin, client_turn a b t fin ->
    let s := gss_init_sec_context cred name a wanted_gss_flags t in
    gi_major s = GSS_S_COMPLETE \/ gi_major s = GSS_S_CONTINUE_NEEDED ->
    if fin then gi_token s = [] /\ gi_major s = GSS_S_COMPLETE /\ established (gi_ctx s) b
    else gi_token s <> [] /\ server_turn (gi_ctx s) b (gi_token s) (gi_major s =? GSS_S_COMPLETE);
  turn_accept : forall a b t fin, server_turn a b t fin ->
    let s := gss_accept_sec_context creds b t in
    ga_major s = GSS_S_COMPLETE \/ ga_major s = GSS_S_CONTINUE_NEEDED ->
    if fin then ga_token s = [] /\ ga_major s = GSS_S_COMPLETE /\ established a (ga_ctx s)
    else ga_token s <> [] /\ client_turn a (ga_ctx s) (Some (ga_token s)) (ga_major s =? GSS_S_COMPLETE);
}.

(** * What each end sends and receives *)

Lemma token_wire_inj f t f' t' r r' :
  0 <= f < 256 -> 0 <= f' < 256 -> blen t < 2 ^ 32 -> blen t' < 2 ^ 32 ->
  token_wire f t ++ r = token_wire f' t' ++ r' -> f = f' /\ t = t' /\ r = r'.
Proof.
  intros Hf Hf' Ht Ht' E. unfold token_wire in E. rewrite <- !app_assoc in E.
  apply app_inj_1 in E as [Eb E]; [|done]. assert (f = f') as ->.
  { injection Eb as Eb. apply (f_equal bu) in Eb. rewrite !bu_bz in Eb. unfold u8 in Eb.
    rewrite !Z.mod_small in Eb by done. done. }
  apply app_inj_1 in E as [El E]; [|done]. apply (f_equal of_be32) in El.
  rewrite !of_be32_be32, !u32_small in El by (pose proof (blen_nonneg t); pose proof (blen_nonneg t'); lia).
  apply app_inj_1 in E as [-> ->]; [done|]. unfold blen in El. lia.
Qed.

(** The token [tok] of a context in protocol [p] as it goes out, if there is
    one. *)
Definition context_wire (p : Z) (tok : bytes) : bytes :=
  if blen tok =? 0 then [] else token_wire (context_flags p) tok.

Lemma context_flags_range p : 0 <= context_flags p < 256.
Proof. unfold context_flags. by destruct (1 <? p). Qed.

(** The protocol after a received context token. *)
Definition client_protocol (p flags : Z) : Z :=
  if (1 <? p) && negb (Z.land flags TOKEN_PROTOCOL =? TOKEN_PROTOCOL) then 1 else p.
Definition server_protocol (p flags : Z) : Z := if flags =? TOKEN_CONTEXT then 1 else p.

Section runs.
Context {C : Type} `{HL : GssLaws C} {HG : GssClient C} {HS : GssServer C}.
Context (cred : option gss_cred) (name : gss_name) (creds : option accept_cred).

(** The initiator's loop from protocol, context and token on: what it sends,
    what it receives, and the protocol, context and flags it ends with. *)
Inductive client_run : Z -> C -> option bytes -> bytes -> bytes -> Z -> C -> Z -> Prop :=
  | client_done p a t (s := gss_init_sec_context cred name a wanted_gss_flags t) :
      gi_major s = GSS_S_COMPLETE -> blen (gi_token s) < 2 ^ 32 ->
      client_run p a t (context_wire p (gi_token s)) [] p (gi_ctx s) (gi_flags s)
  | client_next p a t (s := gss_init_sec_context cred name a wanted_gss_flags t) fl tok sent recv p' a' f :
      gi_major s = GSS_S_CONTINUE_NEEDED -> blen (gi_token s) < 2 ^ 32 ->
      0 <= fl < 256 -> blen tok < 2 ^ 32 ->
      client_run (client_protocol p fl) (gi_ctx s) (Some tok) sent recv p' a' f ->
      client_run p a t (context_wire p (gi_token s) ++ sent) (token_wire fl tok ++ recv) p' a' f.

(** The acceptor's loop: what it receives and sends, and its last step. *)
Inductive server_run : Z -> C -> bytes -> bytes -> Z -> accept_step C accept_name -> Prop :=
  | server_done p b fl tok (s := gss_accept_sec_context creds b tok) :
      0 <= fl < 256 -> blen tok < 2 ^ 32 -> ga_major s = GSS_S_COMPLETE -> blen (ga_token s) < 2 ^ 32 ->
      server_run p b (token_wire fl tok) (context_wire (server_protocol p fl) (ga_token s)) (server_protocol p fl) s
  | server_next p b fl tok (s := gss_accept_sec_context creds b tok) recv sent p' r :
      0 <= fl < 256 -> blen tok < 2 ^ 32 -> ga_major s = GSS_S_CONTINUE_NEEDED -> blen (ga_token s) < 2 ^ 32 ->
      server_run (server_protocol p fl) (ga_ctx s) recv sent p' r ->
      server_run p b (token_wire fl tok ++ recv) (context_wire (server_protocol p fl) (ga_token s) ++ sent) p' r.

Context {HH : GssHandshake C cred name creds}.

Lemma context_wire_token p tok : tok <> [] -> context_wire p tok = token_wire (context_flags p) tok.
Proof. intros Ht. unfold context_wire. destruct (Z.eqb_spec (blen tok) 0) as [E|]; [by apply blen_0 in E|done]. Qed.

(** The acceptor follows the initiator's protocol, which then stays. *)
Lemma server_follows p q : p = 1 \/ p = 2 /\ q = 2 -> server_protocol q (context_flags p) = p.
Proof. by intros [-> |[-> ->]]. Qed.
Lemma client_stays p : p = 1 \/ p = 2 -> client_protocol p (context_flags p) = p.
Proof. by intros [-> | ->]. Qed.

(** The initiator's last turn, when the acceptor has finished. *)
Lemma client_last p a b t sent recv p' a' f : client_turn a b t true -> client_run p a t sent recv p' a' f ->
  p' = p /\ sent = [] /\ recv = [] /\ established a' b.
Proof.
  intros Hturn Hrun. inversion Hrun as [? ? ? s Hmaj|? ? ? s fl tok ? ? ? ? ? Hmaj]; subst.
  - destruct (turn_init _ _ _ _ Hturn (or_introl Hmaj)) as (E & _ & Hest). fold s in E. rewrite E. done.
  - destruct (turn_init _ _ _ _ Hturn (or_intror Hmaj)) as (_ & Hc & _). fold s in Hc. by rewrite Hmaj in Hc.
Qed.

(** The acceptor's last turn, when the initiator has finished. *)
Lemma server_last q a b tok recv sent q' r fl rest rest' :
  server_turn a b tok true -> server_run q b recv sent q' r -> 0 <= fl < 256 -> blen tok < 2 ^ 32 ->
  token_wire fl tok ++ rest = recv ++ rest' ->
  q' = server_protocol q fl /\ rest = rest' /\ sent = [] /\ established a (ga_ctx r).
Proof.
  intros Hturn Hrun Hfl Htok E.
  inversion Hrun as [? ? fl' tok' s Hfl' Htok' Hmaj|? ? fl' tok' s recv2 sent2 ? ? Hfl' Htok' Hmaj]; subst.
  - apply token_wire_inj in E as (<- & <- & <-); [|done..].
    destruct (turn_accept _ _ _ _ Hturn (or_introl Hmaj)) as (E & _ & Hest). fold s in E. by rewrite E.
  - rewrite <- app_assoc in E. apply token_wire_inj in E as (<- & <- & E); [|done..].
    destruct (turn_accept _ _ _ _ Hturn (or_intror Hmaj)) as (_ & Hc & _). fold s in Hc. by rewrite Hmaj in Hc.
Qed.

(** The two loops run in step: every token is received as it was sent, and
    nothing beyond them. *)
Lemma runs_agree p a t sent recv p' a' f : client_run p a t sent recv p' a' f ->
  forall q b recv' sent' q' r xs xr yr ys, client_turn a b t false -> (p = 1 \/ p = 2 /\ q = 2) ->
  server_run q b recv' sent' q' r ->
  sent ++ xs = recv' ++ xr -> recv ++ yr = sent' ++ ys ->
  p' = q' /\ established a' (ga_ctx r) /\ xs = xr /\ yr = ys.
Proof.
  induction 1 as [p a t s Hmaj Hlen|p a t s fl tok sent recv p' a' f Hmaj Hlen Hfl Htok Hrun IH];
    intros q b recv' sent' q' r xs xr yr ys Hturn Hpq Hsrv Hsend Hrecv;
    pose proof (turn_init _ _ _ _ Hturn (ltac:(auto))) as Hinit; cbv beta iota in Hinit; fold s in Hinit;
    destruct Hinit as [Hne Hsturn]; rewrite context_wire_token in Hsend by done; rewrite Hmaj in Hsturn.
  - destruct (server_last _ _ _ _ _ _ _ _ _ _ _ Hsturn Hsrv (context_flags_range p) Hlen Hsend) as (-> & -> & -> & Hest).
    by rewrite server_follows.
  - rewrite <- app_assoc in Hsend.
    inversion Hsrv as [? ? fl' tok' s' Hfl' Htok' Hmaj' Hlen'|? ? fl' tok' s' recv2 sent2 ? ? Hfl' Htok' Hmaj' Hlen' Hrun']; subst;
      [|rewrite <- app_assoc in Hsend];
      (apply token_wire_inj in Hsend as (<- & <- & Hsend); [|apply context_flags_range|done..]);
      rewrite server_follows in * by done;
      pose proof (turn_accept _ _ _ _ Hsturn (ltac:(auto))) as Hacc; cbv beta iota in Hacc; fold s' in Hacc;
      destruct Hacc as [Hne' Hcturn]; rewrite Hmaj' in Hcturn; rewrite context_wire_token in Hrecv by done;
      rewrite <- app_assoc in Hrecv.
    + apply token_wire_inj in Hrecv as (-> & -> & Hrecv); [|done|apply context_flags_range|done..].
      destruct (client_last _ _ _ _ _ _ _ _ _ Hcturn Hrun) as (-> & -> & -> & Hest).
      rewrite client_stays by tauto. done.
    + rewrite <- app_assoc in Hrecv. apply token_wire_inj in Hrecv as (-> & -> & Hrecv); [|done|apply context_flags_range|done..].
      rewrite client_stays in * by tauto. refine (IH _ _ _ _ _ _ _ _ _ _ Hcturn _ Hrun' Hsend Hrecv). tauto.
Qed.
End runs.

(** * The code runs the loops *)

Section client_side.
Context {C : Type} {HM : GssMech C} {HG : GssClient C} {HI : Inet}.
Implicit Types w : api C.

Definition api_out w : bytes := n_out (ch_net (cl_chan (ap_cl w))).
Definition api_in w : bytes := rd_bytes (k_read (ch_net (cl_chan (ap_cl w)))).
Definition api_protocol w : Z := r_protocol (cl_r (ap_cl w)).

Lemma open_send_wire flags tok w : connected (ap_cl w) ->
  runs (open_send flags tok) (fun st w' => still (ap_cl w) (ap_cl w') /\ api_protocol w' = api_protocol w /\
    api_in w' = api_in w /\
    (st = TOKEN_OK -> api_out w' = api_out w ++ token_wire flags tok /\ blen tok < 2 ^ 32)) w.
Proof.
  intros Hc. apply runs_on_cl, runs_bind, runs_field, runs_on_fd; [done|]. intros fd Hfd. apply runs_on_net.
  eapply runs_mono; [by apply token_send_wire|]. intros st n [Ek Hok]. split; [done|]. split; [done|].
  split; [|exact Hok]. unfold api_in. simpl. by rewrite Ek.
Qed.

Lemma open_recv_wire w : connected (ap_cl w) ->
  runs open_recv (fun '(st, fl, tok) w' => still (ap_cl w) (ap_cl w') /\ api_protocol w' = api_protocol w /\
    api_out w' = api_out w /\
    (st = TOKEN_OK -> 0 <= fl < 256 /\ blen tok < 2 ^ 32 /\ api_in w = token_wire fl tok ++ api_in w')) w.
Proof.
  intros Hc. apply runs_on_cl, runs_bind, runs_field, runs_on_fd; [done|]. intros fd Hfd. apply runs_on_net.
  eapply runs_mono; [by apply token_recv_sound|]. intros [[st fl] tok] n ((_ & Eo & _) & _ & Hok).
  split; [done|]. split; [done|]. split; [exact Eo|]. intros E. by destruct (Hok E) as (? & _ & ? & ?).
Qed.

(** What one pass sends and receives. *)
Lemma context_body_wire cred name t a w : connected (ap_cl w) ->
  let s := gss_init_sec_context cred name a wanted_gss_flags t in
  let sent w' := api_out w' = api_out w ++ context_wire (api_protocol w) (gi_token s) /\ blen (gi_token s) < 2 ^ 32 in
  runs (context_body cred name (t, a)) (fun r w' =>
    match r with
    | inl (t', a') => connected (ap_cl w') /\ gi_major s = GSS_S_CONTINUE_NEEDED /\ a' = gi_ctx s /\ sent w' /\
        exists fl tok, t' = Some tok /\ 0 <= fl < 256 /\ blen tok < 2 ^ 32 /\
          api_protocol w' = client_protocol (api_protocol w) fl /\ api_in w = token_wire fl tok ++ api_in w'
    | inr (Some (a', f)) => gi_major s = GSS_S_COMPLETE /\ a' = gi_ctx s /\ f = gi_flags s /\ sent w' /\
        api_protocol w' = api_protocol w /\ api_in w' = api_in w
    | inr None => True
    end) w.
Proof.
  intros Hc s sent. unfold context_body. cbn [fst snd]. fold s. apply runs_bind, runs_on_cl, runs_field.
  replace (put_cl (ap_cl w) w) with w by by destruct w. fold (api_protocol w). apply runs_bind.
  eapply runs_mono with (Q := fun st w' => still (ap_cl w) (ap_cl w') /\ api_protocol w' = api_protocol w /\
    api_in w' = api_in w /\ (st = TOKEN_OK -> sent w')).
  { unfold sent, context_wire. destruct (Z.eqb_spec (blen (gi_token s)) 0) as [E|].
    - apply runs_ret. rewrite app_nil_r, E. done.
    - by apply open_send_wire. }
  intros st w1 (S1 & P1 & I1 & Hs1). destruct (status_ok st) eqn:Est; cbn [negb].
  2:{ apply runs_bind, holds_token_error. intros w2 _. by apply runs_ret. }
  unfold status_ok in Est. apply bool_decide_eq_true in Est. specialize (Hs1 Est).
  destruct (Z.eqb_spec (gi_major s) GSS_S_COMPLETE) as [E1|E1], (Z.eqb_spec (gi_major s) GSS_S_CONTINUE_NEEDED) as [E2|E2];
    cbn [andb negb].
  - by rewrite E1 in E2.
  - apply runs_ret. done.
  - assert (connected (ap_cl w1)) as Hc1 by (by eapply still_connected).
    apply runs_bind. eapply runs_mono; [by apply open_recv_wire|]. intros [[st2 fl] tok] w2 (S2 & P2 & O2 & Hok).
    destruct (status_ok st2) eqn:Est2; cbn [negb].
    2:{ apply runs_bind, holds_token_error. intros w3 _. by apply runs_ret. }
    unfold status_ok in Est2. apply bool_decide_eq_true in Est2. destruct (Hok Est2) as (Hfl & Htok & Hin).
    apply runs_bind. eapply runs_mono with (Q := fun _ w3 => still (ap_cl w2) (ap_cl w3) /\ api_out w3 = api_out w2 /\
      api_in w3 = api_in w2 /\ api_protocol w3 = client_protocol (api_protocol w) fl).
    { unfold client_protocol. destruct ((1 <? api_protocol w) && _);
        [by apply runs_on_cl, runs_update|apply runs_ret; rewrite P2; done]. }
    intros [] w3 (S3 & O3 & I3 & P3). apply runs_ret. split; [eapply still_connected; [exact S3|]; by eapply still_connected|].
    split; [done|]. split; [done|]. unfold sent in *. split; [by rewrite O3, O2|].
    exists fl, tok. rewrite I3, <- I1. done.
  - apply runs_bind, holds_gssapi_error. intros w2 _. by apply runs_ret.
Qed.

Lemma client_loop cred name : forall fuel t a w a' f w', connected (ap_cl w) ->
  loop fuel (context_body cred name) (t, a) w = Ret (Some (a', f)) w' ->
  exists sent recv, client_run cred name (api_protocol w) a t sent recv (api_protocol w') a' f /\
    api_out w' = api_out w ++ sent /\ api_in w = recv ++ api_in w'.
Proof.
  induction fuel as [|fuel IH]; intros t a w a' f w' Hc E; [done|]. rewrite loop_S in E.
  apply bind_Ret_inv in E as (r & w1 & E1 & E). pose proof (context_body_wire cred name t a w Hc) as Hr.
  unfold runs, wp in Hr. rewrite E1 in Hr. destruct r as [[t1 a1]|[[a1 f1]|]].
  - destruct Hr as (Hc1 & Hmaj & -> & [Ho Hlen] & fl & tok & -> & Hfl & Htok & P1 & Hin).
    destruct (IH _ _ _ _ _ _ Hc1 E) as (sent & recv & Hrun & Ho' & Hin'). rewrite P1 in Hrun.
    eexists _, _. split; [by eapply client_next|]. split; [by rewrite Ho', Ho, app_assoc|by rewrite Hin, Hin', app_assoc].
  - injection E as -> -> ->. destruct Hr as (Hmaj & -> & -> & [Ho Hlen] & P1 & Hin). rewrite P1.
    eexists _, _. split; [by apply client_done|]. by rewrite Hin.
  - done.
Qed.
End client_side.

Section client_negotiate.
Context {C : Type} {HM : GssMech C} {HG : GssClient C} {HI : Inet}.
Implicit Types w : api C.

Lemma negotiate_wire cred name w w' : connected (ap_cl w) -> internal_negotiate cred name w = Ret true w' ->
  exists sent recv f,
    client_run cred name (api_protocol w) GSS_C_NO_CONTEXT None sent recv (api_protocol w') (ch_ctx (cl_chan (ap_cl w'))) f /\
    api_out w' = api_out w ++ token_wire initial_flags [] ++ sent /\ api_in w = recv ++ api_in w' /\
    (1 < api_protocol w' -> flags_acceptable f = true).
Proof.
  intros Hc E. unfold internal_negotiate in E. apply bind_Ret_inv in E as (st & w1 & E1 & E).
  pose proof (open_send_wire initial_flags [] w Hc) as Hs. unfold runs, wp in Hs. rewrite E1 in Hs.
  destruct Hs as (S1 & P1 & I1 & Hs). destruct (status_ok st) eqn:Est; cbn [negb] in E.
  2:{ by apply bind_Ret_inv in E as (? & ? & _ & ?). }
  unfold status_ok in Est. apply bool_decide_eq_true in Est. destruct (Hs Est) as [Ho _].
  apply bind_Ret_inv in E as (fuel & w1' & Ef & E). injection Ef as <- <-.
  apply bind_Ret_inv in E as (r & w2 & E2 & E). destruct r as [[ctx f]|]; [|done].
  destruct (client_loop _ _ _ _ _ _ _ _ _ (still_connected _ _ S1 Hc) E2) as (sent & recv & Hrun & Ho2 & Hi2).
  apply bind_Ret_inv in E as (p & w2' & Ep & E).
  assert (p = api_protocol w2 /\ w2' = w2) as [-> ->] by (unfold on_cl, zoom, field, gets in Ep; destruct w2; by injection Ep as <- <-).
  destruct ((1 <? api_protocol w2) && negb (flags_acceptable f)) eqn:Ereq.
  { by apply bind_Ret_inv in E as (? & ? & _ & ?). }
  apply bind_Ret_inv in E as ([] & w3 & E3 & E). injection E as <-. unfold on_cl, zoom, modify in E3. injection E3 as <-.
  exists sent, recv, f. rewrite P1 in Hrun. split; [exact Hrun|]. unfold api_out, api_in, api_protocol in *. simpl.
  split; [by rewrite Ho2, Ho, <- app_assoc|]. split; [by rewrite <- Hi2, I1|].
  intros Hp. apply andb_false_iff in Ereq as [Ereq|Ereq]; [by apply Z.ltb_ge in Ereq; lia|by apply negb_false_iff in Ereq].
Qed.
End client_negotiate.

Section server_side.
Context {C : Type} {HM : GssMech C} {HS : GssServer C}.
Context (creds : option accept_cred).
Implicit Types w : world C.

Definition srv_out w : bytes := n_out (ch_net (w_chan w)).
Definition srv_in w : bytes := rd_bytes (k_read (ch_net (w_chan w))).

Lemma runs_on_chan {A} (m : M (chan C) A) (Q : A -> world C -> Prop) w :
  runs m (fun a ch => Q a (put_chan ch w)) (w_chan w) -> runs (on_chan m) Q w.
Proof. unfold runs, wp, on_chan, zoom. by destruct (m (w_chan w)). Qed.

(** Only the check of [FD_SET] depends on the descriptor. *)
Lemma accept_token_below fd : below (accept_token (C:=C) fd) (accept_token 0).
Proof. unfold accept_token, on_chan, on_net. below. Qed.

Lemma open_token_below fd flags tok : below (open_token (C:=C) fd flags tok) (open_token 0 flags tok).
Proof. unfold open_token, on_chan, on_net. below. Qed.

#[local] Hint Resolve accept_token_below open_token_below : below.

Lemma accept_body_below fd st : below (accept_body fd creds st) (accept_body 0 creds st).
Proof. unfold accept_body. below. Qed.

Lemma accept_token_wire w :
  runs (accept_token 0) (fun '(st, fl, tok) w' => srv_out w' = srv_out w /\
    (st = TOKEN_OK -> 0 <= fl < 256 /\ blen tok < 2 ^ 32 /\ srv_in w = token_wire fl tok ++ srv_in w')) w.
Proof.
  apply runs_on_chan, runs_on_net. eapply runs_mono; [apply token_recv_sound, selectable_0|].
  intros [[st fl] tok] n ((_ & Eo & _) & _ & Hok). split; [exact Eo|].
  intros E. by destruct (Hok E) as (? & _ & ? & ?).
Qed.

Lemma open_token_wire flags tok w :
  runs (open_token 0 flags tok) (fun st w' => srv_in w' = srv_in w /\
    (st = TOKEN_OK -> srv_out w' = srv_out w ++ token_wire flags tok /\ blen tok < 2 ^ 32)) w.
Proof.
  apply runs_on_chan, runs_on_net. eapply runs_mono; [apply token_send_wire, selectable_0|]. intros st n [Ek Hok].
  split; [|exact Hok]. unfold srv_in. simpl. by rewrite Ek.
Qed.

Lemma warn_token_returns what st w : exists w', warn_token what st w = Ret tt w'.
Proof. unfold warn_token, warn_gssapi, warn, syswarn, bind, gets, modify. destruct st; by eexists. Qed.

(** What one pass receives and sends. *)
Lemma accept_body_wire q b w :
  runs (accept_body 0 creds (q, b)) (fun r w' =>
    match r with
    | inl (q', b') => exists fl tok (s := gss_accept_sec_context creds b tok),
        0 <= fl < 256 /\ blen tok < 2 ^ 32 /\ ga_major s = GSS_S_CONTINUE_NEEDED /\ q' = server_protocol q fl /\
        b' = ga_ctx s /\ blen (ga_token s) < 2 ^ 32 /\ srv_in w = token_wire fl tok ++ srv_in w' /\
        srv_out w' = srv_out w ++ context_wire q' (ga_token s)
    | inr (Some (q', r)) => exists fl tok (s := gss_accept_sec_context creds b tok),
        0 <= fl < 256 /\ blen tok < 2 ^ 32 /\ ga_major s = GSS_S_COMPLETE /\ q' = server_protocol q fl /\
        r = s /\ blen (ga_token s) < 2 ^ 32 /\ srv_in w = token_wire fl tok ++ srv_in w' /\
        srv_out w' = srv_out w ++ context_wire q' (ga_token s)
    | inr None => True
    end) w.
Proof.
  unfold accept_body. apply runs_bind. eapply runs_mono; [apply accept_token_wire|].
  intros [[st fl] tok] w1 [O1 Hok]. destruct (status_ok st) eqn:Est; cbn [negb].
  2:{ apply runs_bind. destruct (warn_token_returns "receiving context token" st w1) as [w2 E2].
      unfold runs, wp. by rewrite E2. }
  unfold status_ok in Est. apply bool_decide_eq_true in Est. destruct (Hok Est) as (Hfl & Htok & Hin).
  destruct (_ && _); [by apply runs_bind, runs_modify, runs_ret|].
  cbn [fst snd]. fold (server_protocol q fl). set (s := gss_accept_sec_context creds b tok). apply runs_bind.
  eapply runs_mono with (Q := fun st w' => srv_in w' = srv_in w1 /\
    (st = TOKEN_OK -> srv_out w' = srv_out w1 ++ context_wire (server_protocol q fl) (ga_token s) /\ blen (ga_token s) < 2 ^ 32)).
  { unfold context_wire. destruct (Z.eqb_spec (blen (ga_token s)) 0) as [E|].
    - apply runs_ret. rewrite app_nil_r, E. done.
    - apply open_token_wire. }
  intros st2 w2 (I2 & Hs2). destruct (status_ok st2) eqn:Est2; cbn [negb].
  2:{ apply runs_bind. destruct (warn_token_returns "sending context token" st2 w2) as [w3 E3].
      unfold runs, wp. by rewrite E3. }
  unfold status_ok in Est2. apply bool_decide_eq_true in Est2. destruct (Hs2 Est2) as [Ho Hlen].
  rewrite <- I2 in Hin. rewrite O1 in Ho.
  destruct (Z.eqb_spec (ga_major s) GSS_S_COMPLETE) as [E1|E1], (Z.eqb_spec (ga_major s) GSS_S_CONTINUE_NEEDED) as [E2|E2];
    cbn [andb negb].
  - by rewrite E1 in E2.
  - apply runs_ret. by exists fl, tok.
  - apply runs_ret. by exists fl, tok.
  - by apply runs_bind, runs_modify, runs_ret.
Qed.

Lemma server_loop fd : forall fuel q b w q' r w',
  loop fuel (accept_body fd creds) (q, b) w = Ret (Some (q', r)) w' ->
  exists recv sent, server_run creds q b recv sent q' r /\ srv_in w = recv ++ srv_in w' /\ srv_out w' = srv_out w ++ sent.
Proof.
  induction fuel as [|fuel IH]; intros q b w q' r w' E; [done|]. rewrite loop_S in E.
  apply bind_Ret_inv in E as (x & w1 & E1 & E). pose proof (accept_body_wire q b w) as Hr.
  apply (below_runs _ _ _ _ (accept_body_below fd (q, b))) in Hr as [Hr|Hr]; [by rewrite Hr in E1|].
  unfold runs, wp in Hr. rewrite E1 in Hr. destruct x as [[q1 b1]|[[q1 r1]|]]; [| |done];
    destruct Hr as (fl & tok & Hfl & Htok & Hmaj & -> & -> & Hlen & Hin & Ho).
  - destruct (IH _ _ _ _ _ _ E) as (recv & sent & Hrun & Hin' & Ho').
    eexists _, _. split; [by apply (server_next creds q b fl tok)|]. split; [by rewrite Hin, Hin', app_assoc|by rewrite Ho', Ho, app_assoc].
  - injection E as <- <- <-. eexists _, _. split; [by apply (server_done creds q b fl tok)|]. done.
Qed.

Lemma server_negotiate fd w w' : server_new_client fd creds w = Ret true w' ->
  exists fl tok q recv sent r, 0 <= fl < 256 /\ blen tok < 2 ^ 32 /\ initial_protocol fl = Some q /\
    server_run creds q accept_start recv sent (c_protocol (w_client w')) r /\
    srv_in w = token_wire fl tok ++ recv ++ srv_in w' /\ srv_out w' = srv_out w ++ sent /\
    ch_ctx (w_chan w') = ga_ctx r /\ c_kind (w_client w') = new_client_kind (c_protocol (w_client w')) /\
    (1 < c_protocol (w_client w') -> flags_acceptable (c_flags (w_client w')) = true).
Proof.
  unfold server_new_client. destruct peer_name as [[[status|ip] host]|]; intros E;
    [by apply bind_Ret_inv in E as (? & ? & _ & ?)| |by apply bind_Ret_inv in E as (? & ? & _ & ?)].
  apply bind_Ret_inv in E as (res & w1 & E1 & E). destruct res as [[q' r]|]; [|done].
  unfold accept_context in E1. apply bind_Ret_inv in E1 as ([[st fl] tok] & w0 & E0 & E1).
  pose proof (accept_token_wire w) as Hr. apply (below_runs _ _ _ _ (accept_token_below fd)) in Hr as [Hr|Hr]; [by rewrite Hr in E0|].
  unfold runs, wp in Hr. rewrite E0 in Hr. destruct Hr as [O0 Hok].
  destruct (status_ok st) eqn:Est; cbn [negb] in E1; [|by apply bind_Ret_inv in E1 as (? & ? & _ & ?)].
  unfold status_ok in Est. apply bool_decide_eq_true in Est. destruct (Hok Est) as (Hfl & Htok & Hin).
  destruct (initial_protocol fl) as [q|] eqn:Eq; [|by apply bind_Ret_inv in E1 as (? & ? & _ & ?)].
  apply bind_Ret_inv in E1 as (fuel & w0' & Ef & E1). injection Ef as <- <-.
  apply server_loop in E1 as (recv & sent & Hrun & Hin1 & Ho1).
  destruct ((1 <? q') && negb (flags_acceptable (ga_flags r))) eqn:Ereq; [by apply bind_Ret_inv in E as (? & ? & _ & ?)|].
  destruct (gss_display_name (ga_name r)) as [[major user] anon].
  destruct (negb (major =? GSS_S_COMPLETE)); [by apply bind_Ret_inv in E as (? & ? & _ & ?)|].
  apply bind_Ret_inv in E as (now & w2 & E2 & E). apply bind_Ret_inv in E as ([] & w3 & E3 & E).
  injection E3 as <-. injection E as <-.
  assert (srv_in w2 = srv_in w1 /\ srv_out w2 = srv_out w1) as [I2 O2].
  { unfold on_chan, on_net, zoom, sys_time in E2. unfold srv_in, srv_out.
    destruct (k_clock _) as [|t [|u k]]; injection E2 as <- <-; by destruct w1 as [[[]]]. }
  exists fl, tok, q, recv, sent, r. unfold srv_in, srv_out in *. simpl. rewrite I2, O2, Hin, Hin1, Ho1, O0.
  repeat split; try done; try lia. intros Hp.
  apply andb_false_iff in Ereq as [Ereq|Ereq]; [by apply Z.ltb_ge in Ereq; lia|by apply negb_false_iff in Ereq].
Qed.
End server_side.

(** C6: the two ends of a negotiation agree.  Suppose [internal_open] gets
    through its negotiation and [server_new_client] gives a client, each on a
    stream that begins with what the other wrote.  Then both speak the same
    protocol, their contexts belong together in both directions, protocol two
    has the required flags, and neither has read beyond the negotiation. *)
Theorem handshake_agreement {C} `{HL : GssLaws C} {HG : GssClient C} {HS : GssServer C} {HI : Inet}
    cred name creds {HH : GssHandshake C cred name creds} (w w' : api C) fd (sw sw' : world C) sent answered rest rest' :
  connected (ap_cl w) -> 1 <= r_protocol (cl_r (ap_cl w)) <= 2 ->
  internal_negotiate cred name w = Ret true w' -> server_new_client fd creds sw = Ret true sw' ->
  api_out w' = api_out w ++ sent -> srv_in sw = sent ++ rest ->
  srv_out sw' = srv_out sw ++ answered -> api_in w = answered ++ rest' ->
  r_protocol (cl_r (ap_cl w')) = c_protocol (w_client sw') /\
  c_kind (w_client sw') = (if r_protocol (cl_r (ap_cl w')) =? 1 then KindV1 else KindV2) /\
  gss_sync (ch_ctx (cl_chan (ap_cl w'))) (ch_ctx (w_chan sw')) /\
  gss_sync (ch_ctx (w_chan sw')) (ch_ctx (cl_chan (ap_cl w'))) /\
  (r_protocol (cl_r (ap_cl w')) = 2 -> flags_acceptable (c_flags (w_client sw')) = true) /\
  srv_in sw' = rest /\ api_in w' = rest'.
Proof.
  intros Hc Hp Ec Es Hco Hsi Hso Hci.
  destruct (negotiate_wire _ _ _ _ Hc Ec) as (cs & cr & f & Hcrun & Hco' & Hci' & _).
  destruct (server_negotiate _ _ _ _ Es) as (fl & tok & q & sr & ss & r & Hfl & Htok & Hq & Hsrun & Hsi' & Hso' & Hctx & Hkind & Hreq).
  rewrite Hco in Hco'. apply app_inv_head in Hco' as ->. rewrite Hso in Hso'. apply app_inv_head in Hso' as ->.
  rewrite Hsi in Hsi'. rewrite <- app_assoc in Hsi'.
  apply token_wire_inj in Hsi' as (<- & <- & Hsi'); [|by vm_compute|done|done|done].
  injection Hq as <-. rewrite Hci in Hci'. unfold api_protocol in *.
  assert (r_protocol (cl_r (ap_cl w)) = 1 \/ r_protocol (cl_r (ap_cl w)) = 2 /\ 2 = 2) as Hp' by lia.
  destruct (runs_agree _ _ _ _ _ _ _ _ _ _ _ Hcrun _ _ _ _ _ _ _ _ _ _ turn_start Hp' Hsrun Hsi' (eq_sym Hci'))
    as (Ep & [Hs1 Hs2] & <- & <-).
  rewrite Hctx, Ep. repeat split; try done. intros E2. apply Hreq. lia.
Qed.

(** A mechanism with one token each way. *)
Definition null_server : GssServer unit := {|
  accept_cred := unit;
  accept_name := unit;
  accept_start := tt;
  gss_accept_sec_context _ _ _ := AcceptStep GSS_S_COMPLETE (str "welcome") wanted_gss_flags tt 3600 tt;
  gss_display_name _ := (GSS_S_COMPLETE, str "user@REALM", false);
  peer_name := Some (inr (str "192.0.2.1"), None);
|}.

Definition null_handshake cred name creds :
  @GssHandshake unit null_mech null_laws null_client null_server cred name creds.
Proof.
  refine {| client_turn := fun _ _ t fin => fin = match t with None => false | Some _ => true end;
            server_turn := fun _ _ _ fin => fin = false |}.
  - done.
  - intros a b [t|] fin -> s _; split; [done|split; done|done|done].
  - intros a b t fin -> s _. split; done.
Defined.

(** A client on an open connection and a server, each with what the other
    writes. *)
Definition demo_opening : @api unit null_client :=
  Api (Cl (set_protocol 2 (set_fd (Some 3) (cl_r demo_cl))) (Chan (Net [RdData null_welcome] [] [] [] [] 0 false) tt []) {[3]})
      [] 0 [] false None.
Definition demo_accepting : world unit :=
  World (Chan (Net [RdData (token_wire initial_flags []); RdData (token_wire (context_flags 2) (str "hello"))] [] [] [] [] 0 false) tt [])
        (Client KindV2 0 None [] 2 [] false 0 0 false false) [] [] [] [] null_net null_net.

Lemma handshake_agreement_witness :
  let _ := null_mech in let _ := null_laws in let _ := null_client in let _ := null_server in let _ := null_inet in
  exists w' sw', internal_negotiate None tt demo_opening = Ret true w' /\ server_new_client 4 None demo_accepting = Ret true sw' /\
    r_protocol (cl_r (ap_cl w')) = c_protocol (w_client sw') /\
    c_kind (w_client sw') = (if r_protocol (cl_r (ap_cl w')) =? 1 then KindV1 else KindV2) /\
    gss_sync (ch_ctx (cl_chan (ap_cl w'))) (ch_ctx (w_chan sw')) /\
    gss_sync (ch_ctx (w_chan sw')) (ch_ctx (cl_chan (ap_cl w'))) /\
    (r_protocol (cl_r (ap_cl w')) = 2 -> flags_acceptable (c_flags (w_client sw')) = true) /\
    srv_in sw' = [] /\ api_in w' = [].
Proof.
  intros mech laws gss srv inet.
  assert (exists w', internal_negotiate None tt demo_opening = Ret true w' /\
    api_out w' = [] ++ (token_wire initial_flags [] ++ token_wire (context_flags 2) (str "hello"))) as (w' & Ec & Ho)
    by (eexists; split; vm_compute; reflexivity).
  assert (exists sw', server_new_client 4 None demo_accepting = Ret true sw' /\ srv_out sw' = [] ++ null_welcome) as (sw' & Es & Hso)
    by (eexists; split; vm_compute; reflexivity).
  exists w', sw'. split; [exact Ec|]. split; [exact Es|].
  apply (@handshake_agreement unit null_mech null_laws null_client null_server null_inet None tt None (null_handshake None tt None)
    demo_opening w' 4 demo_accepting sw' (token_wire initial_flags [] ++ token_wire (context_flags 2) (str "hello")) null_welcome [] []); [|done|exact Ec|exact Es|exact Ho| |exact Hso|].
  - exists 3. split; [done|]. simpl. split; [set_solver|by left].
  - by vm_compute.
  - by vm_compute.
Defined.
