(* ===== verification/Termination.v ===== *)
(** Every connection ends: whatever a client sends, the loops of the server
    stop, because each pass takes a token off the connection and nothing puts
    any back. *)

From S2P Require Import Prelude Effects Net Tokens Command Vector Server Acl Process Commands Execs Serve Accept Handshake.

(** * Ending *)

(** [m] does not run for ever, and if it returns, [Q] holds.  It may also
    exit, or do something undefined. *)
Definition settles {S A} (m : M S A) (Q : A -> S -> Prop) (s : S) : Prop :=
  match m s with
  | Ret a s' => Q a s'
  | NoFuel => False
  | _ => True
  end.

Section settles.
Context {S : Type}.

Lemma settles_ret {A} (a : A) (Q : A -> S -> Prop) s : Q a s -> settles (ret a) Q s.
Proof. done. Qed.
Lemma settles_mono {A} (m : M S A) (Q Q' : A -> S -> Prop) s :
  settles m Q s -> (forall a s', Q a s' -> Q' a s') -> settles m Q' s.
Proof. unfold settles. destruct (m s); auto. Qed.
Lemma settles_bind {A B} (m : M S A) (k : A -> M S B) (Q : B -> S -> Prop) s :
  settles m (fun a s' => settles (k a) Q s') s -> settles (bind m k) Q s.
Proof. unfold settles, bind. by destruct (m s). Qed.
Lemma settles_gets {A} (f : S -> A) (Q : A -> S -> Prop) s : Q (f s) s -> settles (gets f) Q s.
Proof. done. Qed.
Lemma settles_modify f (Q : unit -> S -> Prop) s : Q tt (f s) -> settles (modify f) Q s.
Proof. done. Qed.
Lemma runs_settles {A} (m : M S A) (Q : A -> S -> Prop) s : runs m Q s -> settles m Q s.
Proof. unfold runs, wp, settles. by destruct (m s). Qed.

Lemma settles_ends {A} (m : M S A) (Q : A -> S -> Prop) s : settles m Q s -> m s <> NoFuel.
Proof. unfold settles. by destruct (m s). Qed.

(** A loop whose body decreases [mu] ends. *)
Lemma settles_loop {A B} (body : A -> M S (A + B)) (I : A -> S -> Prop) (mu : A -> S -> nat) (Q : B -> S -> Prop) :
  (forall a s, I a s -> settles (body a) (fun r s' =>
     match r with inl a' => I a' s' /\ (mu a' s' < mu a s)%nat | inr b => Q b s' end) s) ->
  forall fuel a s, I a s -> (mu a s < fuel)%nat -> settles (loop fuel body a) Q s.
Proof.
  intros Hb. induction fuel as [|fuel IH]; intros a s Hi Hf; [lia|]. cbn [loop]. apply settles_bind.
  eapply settles_mono; [by apply Hb|]. intros [a'|b] s' Hr; [|by apply settles_ret].
  destruct Hr as [Hi' Hlt]. apply IH; [done|lia].
Qed.
End settles.

(** * Operations that read nothing off the connection, or only tokens *)

Section steady.
Context {C : Type} `{HG : GssMech C}.

Definition left_to_read (w : world C) : nat := to_read (ch_net (w_chan w)).

(** The user a connection belongs to. *)
Definition ident (w : world C) : bytes * bool := (c_user (w_client w), c_anonymous (w_client w)).

(** The next programs end: the daemon is told of the exit of a child while it
    waits for it, and [waitpid] returns. *)
Definition program_ends (ch : child) : Prop :=
  match ch_spawn ch with SpawnOk _ _ _ => exists s, EvChild (Some s) ∈ ch_main ch | _ => True end /\
  is_Some (ch_wait ch).
Definition programs_end (w : world C) : Prop := Forall program_ends (w_children w).

Definition before (w w' : world C) : Prop :=
  (left_to_read w' <= left_to_read w)%nat /\ programs_end w' /\ ident w' = ident w.

Lemma before_refl w : programs_end w -> before w w.
Proof. done. Qed.

Lemma before_trans w w1 w2 : before w w1 -> before w1 w2 -> before w w2.
Proof. intros (? & ? & ?) (? & ? & ?). split; [lia|]. split; [done|congruence]. Qed.

Lemma before_ends w w' : before w w' -> programs_end w'.
Proof. by intros (_ & ? & _). Qed.

Context {S : Type} (p : S -> world C).

Definition steady {A} (m : M S A) : Prop := forall s, programs_end (p s) -> settles m (fun _ s' => before (p s) (p s')) s.

Lemma steady_ret {A} (a : A) : steady (ret a).
Proof. intros s Hs. by apply settles_ret. Qed.
Lemma steady_fault {A} : steady (A:=A) fault.
Proof. done. Qed.
Lemma steady_exit {A} c : steady (A:=A) (exit_with c).
Proof. done. Qed.
Lemma steady_bind {A B} (m : M S A) (k : A -> M S B) : steady m -> (forall a, steady (k a)) -> steady (bind m k).
Proof.
  intros Hm Hk s Hs. apply settles_bind. eapply settles_mono; [by apply Hm|]. intros a s1 H1.
  eapply settles_mono; [apply Hk; exact (before_ends _ _ H1)|]. intros b s2. by apply before_trans.
Qed.
Lemma steady_gets {A} (f : S -> A) : steady (gets f).
Proof. intros s Hs. by apply settles_gets. Qed.
Lemma steady_modify f : (forall s, programs_end (p s) -> before (p s) (p (f s))) -> steady (modify f).
Proof. intros Hf s Hs. apply settles_modify. by apply Hf. Qed.
Lemma steady_option {A} (o : option A) : steady (from_option_fault o).
Proof. destruct o; [apply steady_ret|apply steady_fault]. Qed.

(** What returns and keeps the connection and the user is steady. *)
Lemma steady_keeps {A} (m : M S A) : keeps (fun s => (ch_net (w_chan (p s)), w_children (p s), ident (p s))) m ->
  (forall s, m s <> NoFuel) -> steady m.
Proof.
  intros Hk Hr s Hs. unfold settles. pose proof (Hr s). destruct (m s) as [a s'| | |] eqn:E; [|done..].
  pose proof (keeps_Ret _ _ _ _ _ Hk E) as Ek. injection Ek as E1 E2 E3 E4.
  split; [unfold left_to_read; by rewrite E1|]. split; [unfold programs_end in *; by rewrite E2|]. unfold ident. congruence.
Qed.
End steady.

Create HintDb steady.
#[export] Hint Resolve steady_ret steady_fault steady_exit steady_gets steady_option before_refl : steady.
#[export] Hint Extern 1 (steady _ (modify _)) => apply steady_modify; intros; done : steady.

Ltac steady :=
  repeat first
    [ progress intros
    | solve [auto with steady typeclass_instances]
    | apply steady_bind
    | match goal with
      | |- steady _ (match ?x with _ => _ end) => destruct x
      end ].

(** * The server *)

Section server.
Context {C : Type} `{HG : GssMech C}.
Abbreviation steadyw := (steady (C:=C) (fun w : world C => w)).
Implicit Types w : world C.

Lemma steady_on_chan {A} (m m0 : M (chan C) A) : below m m0 ->
  (forall c, runs m0 (fun _ c' => (to_read (ch_net c') <= to_read (ch_net c))%nat) c) -> steadyw (on_chan m).
Proof.
  intros Hb Hm w Hw. pose proof (below_runs _ _ _ _ Hb (Hm (w_chan w))) as Hr. unfold settles, on_chan, zoom.
  destruct Hr as [->|Hr]; [done|]. unfold runs, wp in Hr.
  destruct (m (w_chan w)) as [a c'| | |]; [|done..]. by split.
Qed.

Lemma steady_server_send flags tok : steadyw (server_send flags tok).
Proof.
  unfold server_send. apply steady_bind; [apply steady_gets|]. intros fd. eapply steady_on_chan; [apply token_send_priv_below|].
  intros c. apply token_send_priv_reads, selectable_0.
Qed.

Lemma steady_log (l : logline) : steadyw (modify (add_log l)).
Proof. by apply steady_modify. Qed.

Lemma steady_fatal b : steadyw (on_client (set_fatal b)).
Proof. by apply steady_modify. Qed.
Lemma steady_keepalive b : steadyw (on_client (set_keepalive b)).
Proof. by apply steady_modify. Qed.

#[local] Hint Resolve steady_server_send steady_log steady_fatal steady_keepalive : steady.
#[local] Hint Unfold warn syswarn notice : steady.
#[local] Hint Extern 1 (steady _ (warn _ _)) => apply steady_log : steady.
#[local] Hint Extern 1 (steady _ (syswarn _ _)) => apply steady_log : steady.
#[local] Hint Extern 1 (steady _ (notice _ _)) => apply steady_log : steady.
#[local] Hint Extern 1 (steady _ (client_get _)) => apply steady_gets : steady.

Lemma steady_die {A} fmt args : steadyw (die (A:=A) fmt args).
Proof. unfold die. steady. Qed.
#[local] Hint Resolve steady_die : steady.

Lemma steady_warn_token what status : steadyw (warn_token what status).
Proof. unfold warn_token, warn_gssapi. steady. Qed.
#[local] Hint Resolve steady_warn_token : steady.

Lemma steady_v2_send what tok : steadyw (v2_send what tok).
Proof. unfold v2_send. steady. Qed.
#[local] Hint Resolve steady_v2_send : steady.

Lemma steady_send_output stream output : steadyw (server_v2_send_output stream output).
Proof. unfold server_v2_send_output. steady. Qed.

Lemma steady_v1_send output status : steadyw (server_v1_send_output output status).
Proof. unfold server_v1_send_output. steady. Qed.
#[local] Hint Resolve steady_v1_send steady_send_output : steady.

Lemma steady_xwrite_stderr buf : steadyw (zoom w_stderr put_stderr (xwrite buf)).
Proof.
  intros w Hw. pose proof (xwrite_wp buf 0 (w_stderr w)) as Hr. unfold settles, zoom. unfold runs, wp in Hr.
  by destruct (xwrite buf (w_stderr w)).
Qed.
#[local] Hint Resolve steady_xwrite_stderr : steady.

Lemma steady_client_error code msg : steadyw (client_error code msg).
Proof. simpl. unfold server_v2_send_error, server_v1_send_error, send_error. steady. Qed.

Lemma steady_client_finish output status : steadyw (client_finish output status).
Proof. simpl. unfold server_v2_command_finish, command_finish. steady. Qed.
#[local] Hint Resolve steady_client_error steady_client_finish : steady.

Lemma steady_error code msg : steadyw (error_ code msg).
Proof. unfold error_. steady. Qed.

Lemma steady_version : steadyw server_v2_send_version.
Proof. unfold server_v2_send_version. steady. Qed.
Lemma steady_noop : steadyw server_v3_send_noop.
Proof. unfold server_v3_send_noop. steady. Qed.
End server.

#[export] Hint Resolve steady_server_send steady_log steady_fatal steady_keepalive steady_die steady_warn_token
  steady_v2_send steady_v1_send steady_send_output steady_client_error steady_client_finish steady_error steady_version
  steady_noop : steady.
#[export] Hint Extern 1 (steady _ (warn _ _)) => apply steady_log : steady.
#[export] Hint Extern 1 (steady _ (syswarn _ _)) => apply steady_log : steady.
#[export] Hint Extern 1 (steady _ (notice _ _)) => apply steady_log : steady.
#[export] Hint Extern 1 (steady _ (client_get _)) => apply steady_gets : steady.

(** * Running a command *)

Section process.
Context {C : Type} `{HG : GssMech C}.
Abbreviation steadyw := (steady (C:=C) (fun w : world C => w)).
Abbreviation steadyr := (steady (C:=C) (rn_world (C:=C))).

Lemma steady_on_world {A} (m : M (world C) A) : steadyw m -> steadyr (on_world m).
Proof. intros Hm r Hw. pose proof (Hm (rn_world r) Hw) as Hr. unfold settles, on_world, zoom in *. by destruct (m (rn_world r)). Qed.

Lemma steady_on_bev st f : steadyr (on_bev st f).
Proof. by apply steady_modify. Qed.
Lemma steady_on_process f : steadyr (on_process f).
Proof. by apply steady_modify. Qed.
#[local] Hint Resolve steady_on_world steady_on_bev steady_on_process : steady.

Lemma steady_take_input st : steadyr (take_input st).
Proof. unfold take_input. steady. Qed.
#[local] Hint Resolve steady_take_input : steady.

Lemma steady_ssh_write (std : stream) buf : steadyw (match std with
  | OutStream => zoom w_stdout put_stdout (sys_write buf)
  | ErrStream => zoom w_stderr put_stderr (sys_write buf) end).
Proof.
  apply steady_keeps.
  - destruct std; by apply keeps_zoom.
  - intros w. destruct std; unfold zoom, sys_write; by repeat case_match.
Qed.
#[local] Hint Resolve steady_ssh_write : steady.

Lemma steady_call_readcb st : steadyr (call_readcb st).
Proof.
  unfold call_readcb, v2_handle_output, handle_output_full, handle_output_discard, ssh_handle_output. steady;
    apply steady_on_world; steady.
Qed.
#[local] Hint Resolve steady_call_readcb : steady.

Lemma steady_dispatch ev : steadyr (dispatch ev).
Proof.
  unfold dispatch, server_handle_input_end, server_handle_io_event, handle_exit. steady; apply steady_on_world; steady.
Qed.

Lemma steady_start sp : steadyr (start sp).
Proof.
  unfold start, start_fail, client_setup, server_v1_command_setup, server_v2_command_setup, command_setup.
  steady; apply steady_on_world; steady.
Qed.
#[local] Hint Resolve steady_dispatch steady_start : steady.

Lemma steady_run_events evs : steadyr (run_events evs).
Proof. induction evs; cbn [run_events]; steady. Qed.
#[local] Hint Resolve steady_run_events : steady.

Lemma steady_run_rounds rounds : steadyr (run_rounds rounds).
Proof. induction rounds; cbn [run_rounds]; steady. Qed.

(** ** The event loop stops when the program has ended *)

Lemma keeps_exited_dispatch ev : match ev with EvChild _ => True | _ => keeps (rn_exit (C:=C)) (dispatch ev) end.
Proof.
  assert (forall A (m : M (world C) A), keeps rn_exit (on_world m)) as Hw by (intros; by apply keeps_zoom).
  assert (forall st, keeps (rn_exit (C:=C)) (take_input st)) as Ht
    by (intros; unfold take_input, on_bev; repeat (apply keeps_bind; intros); first [apply keeps_gets|by apply keeps_modify|apply keeps_ret]).
  destruct ev; [..|done]; unfold dispatch, call_readcb, server_handle_io_event, server_handle_input_end, v2_handle_output,
    handle_output_full, handle_output_discard, ssh_handle_output, on_bev, on_process;
    repeat (intros; match goal with
    | |- keeps _ (modify _) => by apply keeps_modify
    | |- keeps _ (on_world _) => apply Hw
    | |- keeps _ (take_input _) => apply Ht
    | |- keeps _ (gets _) => apply keeps_gets
    | |- keeps _ (ret _) => apply keeps_ret
    | |- keeps _ (bind _ _) => apply keeps_bind
    | |- keeps _ (match ?x with _ => _ end) => destruct x
    end).
Qed.

Lemma dispatch_exited ev (r : running C) u r' : dispatch ev r = Ret u r' ->
  (rn_exit r = true -> rn_exit r' = true) /\ (forall s, ev = EvChild (Some s) -> rn_exit r' = true).
Proof.
  intros E. pose proof (keeps_exited_dispatch ev) as Hk.
  destruct ev as [st d|st| |st eof err rd errno|[status|]]; cbv iota in Hk.
  1-4: pose proof (keeps_Ret _ _ _ _ _ Hk E) as Ek; split; [congruence|done].
  - by injection E as <- <-.
  - by injection E as <- <-.
Qed.

(** The loop has a reason to stop once the events are over. *)
Definition stopping (evs : list bevent) (r : running C) : Prop :=
  rn_break r = true \/ rn_exit r = true \/ exists s, EvChild (Some s) ∈ evs.

Lemma run_events_stopping evs : forall r u r', run_events evs r = Ret u r' -> stopping evs r -> rn_break r = false ->
  stopping [] r'.
Proof.
  induction evs as [|ev evs IH]; intros r u r' E Hs Hb; [by injection E as _ <-|].
  apply bind_Ret_inv in E as (u1 & r1 & E1 & E). apply bind_Ret_inv in E as (b & r2 & E2 & E). injection E2 as <- <-.
  destruct (rn_break r1) eqn:Eb; [injection E as _ <-; by left|].
  eapply IH; [exact E| |done]. right. destruct (dispatch_exited _ _ _ _ E1) as [Hk Hd].
  destruct Hs as [Hs|[Hs|[s [Hs|Hs]%elem_of_cons]]]; [congruence|left; auto| |right; eauto].
  left. by apply (Hd s).
Qed.

Lemma event_dispatch_settles evs r : stopping evs r -> programs_end (rn_world r) ->
  settles (event_base_dispatch evs) (fun _ r' => before (rn_world r) (rn_world r')) r.
Proof.
  intros Hs Hp. unfold event_base_dispatch. apply settles_bind, settles_gets, settles_bind.
  assert (settles (if rn_break r then ret tt else run_events evs)
    (fun _ r' => before (rn_world r) (rn_world r') /\ stopping [] r') r) as Hr.
  { destruct (rn_break r) eqn:Eb; [apply settles_ret; split; [done|by left]|].
    pose proof (steady_run_events evs r Hp) as Hr. unfold settles in *.
    destruct (run_events evs r) as [u r'| | |] eqn:E; [|done..]. split; [done|]. by eapply run_events_stopping. }
  eapply settles_mono; [exact Hr|]. intros ? r' [Hb Hs']. apply settles_bind, settles_gets, settles_bind, settles_gets.
  destruct Hs' as [->|[->|(s & Hs')]]; [by apply settles_ret|rewrite orb_true_r; by apply settles_ret|by apply elem_of_nil in Hs'].
Qed.

(** [start] leaves a reason to stop: the program that ends, or the failure. *)
Lemma start_stopping ch r u r' : program_ends ch -> start (ch_spawn ch) r = Ret u r' -> stopping (ch_main ch) r'.
Proof.
  intros [He _] E. unfold start in E. apply bind_Ret_inv in E as (protocol & r1 & _ & E).
  destruct (ch_spawn ch); [right; by right|left..].
  all: apply bind_Ret_inv in E as (? & r2 & _ & E); apply bind_Ret_inv in E as (? & r3 & _ & E); by injection E as _ <-.
Qed.

Lemma steady_end_process ch : is_Some (ch_wait ch) -> steadyr (end_process ch).
Proof.
  intros [s Hs]. unfold end_process, close_fd, wait_child. rewrite Hs. steady; apply steady_on_world; steady.
Qed.
#[local] Hint Resolve steady_run_rounds steady_end_process : steady.

Lemma run_process_settles ch r : program_ends ch -> programs_end (rn_world r) ->
  settles (run_process ch) (fun _ r' => before (rn_world r) (rn_world r')) r.
Proof.
  intros Hch Hr. unfold run_process. apply settles_bind.
  assert (settles (start (ch_spawn ch)) (fun _ r' => before (rn_world r) (rn_world r') /\ stopping (ch_main ch) r') r) as Hs.
  { pose proof (steady_start (ch_spawn ch) r Hr) as Hs. unfold settles in *.
    destruct (start (ch_spawn ch) r) as [u r'| | |] eqn:E; [|done..]. split; [done|]. by eapply start_stopping. }
  eapply settles_mono; [exact Hs|]. intros ? r1 [H1 Hs1]. pose proof (before_ends _ _ H1) as Hr1.
  apply settles_bind. eapply settles_mono; [by apply event_dispatch_settles|]. intros ? r2 H2.
  pose proof (before_trans _ _ _ H1 H2) as H12. pose proof (before_ends _ _ H2) as Hr2.
  eassert (steadyr _) as Hrest; [|eapply settles_mono; [by apply Hrest|]; intros ? ? H3; by eapply before_trans].
  destruct Hch as [_ Hw]. steady.
Qed.

Lemma steady_process_run p : steadyw (server_process_run p).
Proof.
  intros w Hw. unfold server_process_run. apply settles_bind. unfold next_child.
  assert (forall ch w1, before w w1 -> program_ends ch -> settles (fun w =>
    match run_process ch (Running w p 0 0 0 no_bufferevent no_bufferevent false false false false false) with
    | Ret ok r => Ret (ok, rn_process r) (rn_world r)
    | Exit c r => Exit c (rn_world r)
    | Fault => Fault
    | NoFuel => NoFuel
    end) (fun _ w' => before w w') w1) as Hgo.
  { intros ch w1 H1 Hch. pose proof (run_process_settles ch
      (Running w1 p 0 0 0 no_bufferevent no_bufferevent false false false false false) Hch (before_ends _ _ H1)) as Hr.
    unfold settles in *. destruct (run_process ch _); [by eapply before_trans|done..]. }
  unfold settles at 1. unfold programs_end in Hw. destruct (w_children w) as [|ch rest] eqn:Ec.
  - apply Hgo; [split; [done|]; split; [|done]; unfold programs_end; by rewrite Ec|done].
  - apply Forall_cons in Hw as [Hch Hrest]. apply Hgo; [|done]. by split.
Qed.
End process.

#[export] Hint Resolve steady_process_run : steady.

(** * Commands *)

Section commands.
Context {C : Type} `{HG : GssMech C} `{HA : AclEnv}.
Context (acl_fuel : nat) (cfg : config) (user : bytes) (anonymous : bool).
Abbreviation steadyw := (steady (C:=C) (fun w : world C => w)).
Implicit Types w : world C.

(** The access check of every line of the configuration returns for the user. *)
Hypothesis acl_returns : forall ru, ru ∈ cfg -> forall w,
  exists b w', acl_permit_loop user anonymous acl_fuel (ru_file ru) (ru_lineno ru) (ru_acls ru) w = Ret b w'.

(** Steady for the connections of the user. *)
Definition serves w : Prop := ident w = (user, anonymous) /\ programs_end w.
Definition steadyu {A} (m : M (world C) A) : Prop := forall w, serves w -> settles m (fun _ w' => before w w') w.

Lemma serves_before w w' : before w w' -> serves w -> serves w'.
Proof. intros (_ & He & Hi) [? ?]. split; [congruence|done]. Qed.

Lemma steadyu_steady {A} (m : M (world C) A) : steadyw m -> steadyu m.
Proof. intros Hm w [_ Hw]. by apply Hm. Qed.

Lemma steadyu_bind {A B} (m : M (world C) A) (k : A -> M (world C) B) :
  steadyu m -> (forall a, steadyu (k a)) -> steadyu (bind m k).
Proof.
  intros Hm Hk w Hw. apply settles_bind. eapply settles_mono; [by apply Hm|]. intros a w1 H1.
  eapply settles_mono; [apply Hk; exact (serves_before _ _ H1 Hw)|]. intros b w2. by apply before_trans.
Qed.

#[local] Instance connection_quiet : LogQuiet (fun w : world C => (ch_net (w_chan w), w_children w, ident w)).
Proof. done. Qed.

Lemma steadyu_acl ru : ru ∈ cfg -> steadyu (acl_permit acl_fuel ru).
Proof.
  intros Hru w [Hw He]. unfold settles. destruct (acl_returns ru Hru w) as (b & w' & E).
  assert (acl_permit acl_fuel ru w = Ret b w') as E'.
  { injection Hw as E1 E2. unfold acl_permit, server_config_acl_permit. unfold bind, gets. by rewrite E1, E2. }
  rewrite E'. pose proof (keeps_Ret _ _ _ _ _ (keeps_acl_permit (fun w => (ch_net (w_chan w), w_children w, ident w)) acl_fuel ru) E') as Ek.
  injection Ek as E1 E2 E3 E4. split; [unfold left_to_read; by rewrite E1|].
  split; [unfold programs_end in *; by rewrite E2|]. unfold ident. congruence.
Qed.

Lemma steady_vector_join v sep : steadyw (vector_join v sep).
Proof.
  assert (forall b, steadyw (massert b)) as Hm by (intros []; cbn [massert]; auto with steady).
  unfold vector_join. destruct (_ =? 0); [apply steady_ret|]. apply steady_bind; intros.
  - unfold join_size. apply steady_bind; [|intros; apply steady_bind; [apply Hm|intros; apply steady_ret]].
    generalize 0. induction (v_strings v) as [|x l IH]; intros size; [apply steady_ret|].
    apply steady_bind; [apply Hm|intros; apply IH].
  - generalize true, (@nil byte). induction (v_strings v) as [|x l IH]; intros first out; [apply steady_ret|].
    apply steady_bind; [apply Hm|intros; apply IH].
Qed.

Lemma steady_log_command argv ru u : steadyw (server_log_command argv ru u).
Proof. unfold server_log_command. steady. apply steady_vector_join. Qed.

Lemma steady_check_arg_nuls ru help u i argv : steadyw (check_arg_nuls ru help u i argv).
Proof. revert i. induction argv; intros i; cbn [check_arg_nuls]; steady. Qed.

Lemma steady_check_nuls u argv : steadyw (check_nuls u argv).
Proof. unfold check_nuls. steady. Qed.

Lemma steady_run_and_finish pr : steadyw (run_and_finish pr).
Proof. unfold run_and_finish. steady. Qed.
#[local] Hint Resolve steady_log_command steady_check_arg_nuls steady_check_nuls steady_run_and_finish : steady.

Ltac steadyu :=
  repeat first
    [ progress intros
    | apply steadyu_acl; solve [auto]
    | apply steadyu_steady; solve [steady]
    | match goal with
      | |- steadyu (bind _ _) => apply steadyu_bind
      | |- steadyu (let _ := _ in _) => cbv zeta
      | |- steadyu (match ?x with _ => _ end) => destruct x eqn:?
      end ].

Lemma steadyu_run_matched ru help command sub helpsub argv : (forall r, ru = Some r -> r ∈ cfg) ->
  steadyu (run_matched acl_fuel ru help command sub helpsub argv).
Proof. intros Hru. unfold run_matched. steadyu. Qed.

Lemma steadyu_summary l : (forall ru, ru ∈ l -> ru ∈ cfg) -> forall pr status ok output,
  steadyu (summary_loop acl_fuel l pr status ok output).
Proof.
  induction l as [|ru l IH]; intros Hl pr status ok output; cbn [summary_loop]; [steadyu|].
  assert (ru ∈ cfg) as Hru by (apply Hl; set_solver).
  assert (forall pr status ok output, steadyu (summary_loop acl_fuel l pr status ok output)) as IH'
    by (apply IH; intros; apply Hl; set_solver).
  steadyu; apply IH'.
Qed.

Lemma steadyu_send_summary : steadyu (server_send_summary acl_fuel cfg).
Proof.
  assert (forall pr status ok output, steadyu (summary_loop acl_fuel cfg pr status ok output)) as Hs
    by (by apply steadyu_summary).
  unfold server_send_summary. steadyu. apply Hs.
Qed.

Lemma steadyu_run_command argv : steadyu (server_run_command acl_fuel cfg argv).
Proof.
  assert (forall c s ru, find_config_line cfg c s = Some ru -> ru ∈ cfg) as Hf by apply find_config_line_in.
  unfold server_run_command.
  steadyu; first [apply steadyu_send_summary|apply steadyu_run_matched; intros; simplify_eq; by eapply Hf].
Qed.

(** * The message loops *)

(** Reading a token makes progress. *)
Lemma server_recv_settles w : programs_end w ->
  settles server_recv (fun '(st, _, _) w' => before w w' /\
    (st = TOKEN_OK -> (left_to_read w' + 5 <= left_to_read w)%nat)) w.
Proof.
  intros Hw. unfold settles. rewrite server_recv_eq. unfold on_chan, zoom. set (fd := c_fd (w_client w)).
  pose proof (token_recv_priv_reads 0 TOKEN_MAX_LENGTH TIMEOUT (w_chan w) (selectable_0 _)) as Hr.
  apply (below_runs _ _ _ _ (token_recv_priv_below fd _ _)) in Hr as [->|Hr]; [done|]. unfold runs, wp in Hr.
  destruct (token_recv_priv fd _ _ (w_chan w)) as [[[st fl] tok] c'| | |]; [|done..]. destruct Hr as [Hle Hlt].
  by repeat split.
Qed.

Lemma read_token_settles w : programs_end w -> settles server_v2_read_token (fun '(st, tok) w' => before w w' /\
    (st = TOKEN_OK -> (left_to_read w' + 5 <= left_to_read w)%nat)) w.
Proof.
  intros Hw. unfold server_v2_read_token. apply settles_bind. eapply settles_mono; [by apply server_recv_settles|].
  intros [[st fl] tok] w1 [Hb Hlt]. apply settles_bind. eapply settles_mono.
  - eassert (steadyw _) as Hs; [|apply Hs; exact (before_ends _ _ Hb)]. steady.
  - intros [] w2 H2. apply settles_ret. split; [by eapply before_trans|]. intros Hok. destruct H2. specialize (Hlt Hok). lia.
Qed.

(** Progress that [r] stands for. *)
Definition progress {A} (made : A -> bool) w (r : A) w' : Prop :=
  before w w' /\ (made r = true -> (left_to_read w' + 5 <= left_to_read w)%nat).

Lemma settles_after {A} (m : M (world C) A) w w1 (Q : A -> world C -> Prop) : before w w1 -> steadyw m ->
  (forall a w2, before w1 w2 -> before w w2 -> Q a w2) -> settles m Q w1.
Proof.
  intros Hb Hm HQ. eapply settles_mono; [apply Hm; exact (before_ends _ _ Hb)|]. intros a w2 H2. apply HQ; [done|]. by eapply before_trans.
Qed.

Lemma progress_stop {A B} (made : A -> bool) (m : M (world C) B) (a : A) w w1 : before w w1 -> steadyw m -> made a = false ->
  settles (do* m in ret a) (progress made w) w1.
Proof.
  intros Hb Hm Ha. apply settles_bind. eapply settles_after; [exact Hb|exact Hm|]. intros b w2 _ H2. apply settles_ret.
  split; [done|]. congruence.
Qed.

Lemma char_settles {A} i tok (k : Z -> M (world C) A) (Q : A -> world C -> Prop) w :
  (forall z, settles (k z) Q w) -> settles (let* z := char_of i tok in k z) Q w.
Proof. intros Hk. apply settles_bind. unfold char_of. destruct (tok !! i); [by apply settles_ret|done]. Qed.

Definition is_some {A} (o : option A) : bool := match o with Some _ => true | None => false end.

Lemma read_continuation_settles w : programs_end w -> settles server_v2_read_continuation (progress is_some w) w.
Proof.
  intros Hr. unfold server_v2_read_continuation. apply settles_bind. eapply settles_mono; [by apply read_token_settles|].
  intros [st tok] w1 [Hb Hlt]. destruct (status_ok st) eqn:Est; cbn [negb]; [|by apply progress_stop; [|steady|]].
  apply char_settles. intros p0. destruct (_ && _); [by apply progress_stop; [|steady|]|].
  apply char_settles. intros p1. destruct (_ =? _); [by apply progress_stop; [|steady|]|].
  destruct (negb _).
  - assert (steadyw (warn "unexpected message type %d from client" [AInt p1])) as Hw by steady.
    apply settles_bind. eapply settles_after; [exact Hb|exact Hw|]. intros [] w2 _ H2. by apply progress_stop; [|steady|].
  - apply settles_ret. split; [done|]. intros _. apply Hlt. by destruct st.
Qed.

(** Accumulating a command ends. *)
Lemma command_loop_settles fuel st w : programs_end w -> (left_to_read w < fuel)%nat ->
  settles (loop fuel handle_command_body st) (fun _ w' => before w w') w.
Proof.
  intros Hr Hf. apply (settles_loop handle_command_body (fun _ w' => before w w') (fun _ w' => left_to_read w')); [|done|done].
  intros [[[tok buffer] allocated] continued] w1 Hb. unfold handle_command_body.
  assert (forall (m : M (world C) bool) (k : bool -> M (world C) (bytes * cbuf * bool * bool + (bool + cbuf * bool))) w2,
    before w w2 -> steadyw m -> (forall b, exists r, k b = (do* cbuf_free buffer in ret (inr r))) ->
    settles (let* b := m in k b) (fun r w' => match r with
      | inl a' => before w w' /\ (left_to_read w' < left_to_read w1)%nat | inr _ => before w w' end) w2) as Hfail.
  { intros m k w2 H2 Hm Hk. apply settles_bind. eapply settles_after; [exact H2|exact Hm|]. intros b w3 _ H3.
    destruct (Hk b) as [r ->]. apply settles_bind. unfold cbuf_free. destruct buffer; [..|done]; by apply settles_ret, settles_ret. }
  apply char_settles. intros p2. apply settles_bind. eapply settles_after; [exact Hb|apply steady_keepalive|].
  intros [] w2 H12 H2. 
  assert (forall fmt args, steadyw (warn fmt args)) as Hw by (intros; steady).
  destruct (_ <? _).
  { apply settles_bind. eapply settles_after; [exact H2|apply Hw|]. intros [] w3 _ H3.
    apply (Hfail _ _ w3 H3); [steady|]. intros b. by eexists. }
  apply char_settles. intros p3. destruct (_ || _).
  { apply settles_bind. eapply settles_after; [exact H2|apply Hw|]. intros [] w3 _ H3.
    apply (Hfail _ _ w3 H3); [steady|]. intros b. by eexists. }
  destruct (_ <=? _).
  { apply settles_bind. eapply settles_after; [exact H2|apply Hw|]. intros [] w3 _ H3.
    apply (Hfail _ _ w3 H3); [steady|]. intros b. by eexists. }
  destruct (if _ || _ then _ else _) as [buffer' allocated']. destruct (_ || _).
  - apply settles_bind. eapply settles_mono; [apply read_continuation_settles; exact (before_ends _ _ H2)|]. intros [tok'|] w3 [H3 Hlt].
    + apply settles_ret. split; [by eapply before_trans|]. specialize (Hlt eq_refl). destruct H12. lia.
    + apply settles_bind. assert (before w w3) by (by eapply before_trans).
      unfold cbuf_free. destruct buffer'; [..|done]; by apply settles_ret, settles_ret.
  - by apply settles_ret.
Qed.
(** Parsing a command ends: each argument takes its header. *)
Lemma steady_parse_command buffer : steadyw (server_parse_command buffer).
Proof.
  assert (forall fmt args code msg, steadyw (parse_fail fmt args code msg)) as Hfail
    by (intros; unfold parse_fail; steady).
  assert (forall argc, steadyw (loop (Datatypes.S (Datatypes.length buffer))
    (parse_args_body buffer (blen buffer) argc) (4, []))) as Hloop.
  { intros argc w Hr. apply (settles_loop _ (fun _ w' => before w w') (fun st _ => Z.to_nat (blen buffer - st.1)));
      [|done|simpl; unfold blen; lia].
    intros [q argv] w1 Hb. unfold parse_args_body. destruct (Z.leb_spec q (blen buffer - 4)); [|by apply settles_ret].
    destruct (_ <=? _).
    { apply settles_bind. eapply settles_after; [exact Hb|apply Hfail|]. intros r w2 _ H2. by apply settles_ret. }
    apply settles_bind. destruct (zsub q 4 buffer) as [tmp|] eqn:Et; [|done]. apply settles_ret.
    assert (0 <= of_be32 tmp) as Hpos.
    { unfold zsub in Et. case_bool_decide as Hin; [|done]. injection Et as <-. apply of_be32_range.
      assert (blen (ztake 4 (zdrop q buffer)) = 4) as Hl by zlist. unfold blen in Hl. lia. }
    destruct (_ <? _).
    { apply settles_bind. eapply settles_after; [exact Hb|apply Hfail|]. intros r w2 _ H2. by apply settles_ret. }
    apply settles_bind. destruct (zsub (q + 4) _ buffer); [|done]. apply settles_ret, settles_ret.
    simpl. split; [done|lia]. }
  unfold server_parse_command. steady; auto.
Qed.

Definition never_more w (_ : bool) w' : Prop := before w w'.

Lemma not_fatal_steady : steadyw not_fatal.
Proof. unfold not_fatal. steady. Qed.

Lemma steadyu_handle_command tok : steadyu (server_v2_handle_command acl_fuel cfg tok).
Proof.
  intros w Hw. unfold server_v2_handle_command. apply settles_bind, settles_gets, settles_bind.
  eapply settles_mono; [apply command_loop_settles; [apply Hw|unfold serve_fuel, left_to_read, to_read; lia]|].
  intros r w1 H1. pose proof (serves_before _ _ H1 Hw) as Hw1.
  eapply settles_mono; [|intros a w2 H2; eapply before_trans; [exact H1|exact H2]].
  destruct r as [result|[buffer allocated]].
  - apply settles_bind. eapply settles_mono; [apply not_fatal_steady, Hw1|]. intros b w2 H2. by apply settles_ret.
  - eassert (steadyu _) as Hs; [|by apply Hs]. apply steadyu_bind; [apply steadyu_steady, steady_parse_command|].
    intros argv. apply steadyu_bind; [apply steadyu_steady; unfold cbuf_free; steady|]. intros _.
    destruct argv; [apply steadyu_bind; [apply steadyu_run_command|]; intros; apply steadyu_steady, not_fatal_steady|].
    apply steadyu_steady, not_fatal_steady.
Qed.

Lemma steadyu_handle_token tok : steadyu (server_v2_handle_token acl_fuel cfg tok).
Proof.
  assert (forall i, steadyw (char_of i tok)) as Hc by (intros; unfold char_of; apply steady_option).
  unfold server_v2_handle_token.
  apply steadyu_bind; [by apply steadyu_steady|]. intros p0. destruct (_ && _); [apply steadyu_steady, steady_version|].
  apply steadyu_bind; [by apply steadyu_steady|]. intros p1. destruct (_ =? _); [apply steadyu_handle_command|].
  apply steadyu_steady. steady.
Qed.

(** The message loop ends. *)
Lemma steadyu_handle_messages : steadyu (server_v2_handle_messages acl_fuel cfg).
Proof.
  intros w Hw. unfold server_v2_handle_messages. apply settles_bind, settles_modify, settles_bind, settles_gets.
  set (w1 := put_client _ w). assert (before w w1) as H01 by (by destruct Hw).
  apply (settles_loop _ (fun _ w' => before w w') (fun _ w' => left_to_read w')); [|done|unfold serve_fuel, left_to_read, to_read; lia].
  intros [] w2 H2. unfold handle_messages_body. apply settles_bind. eapply settles_mono; [apply read_token_settles; exact (before_ends _ _ H2)|].
  intros [st tok] w3 [H3 Hlt]. assert (before w w3) as H03 by (by eapply before_trans).
  destruct (status_ok st) eqn:Est; cbn [negb]; [|by apply settles_ret].
  assert (left_to_read w3 + 5 <= left_to_read w2)%nat as Hmade by (apply Hlt; by destruct st).
  apply settles_bind. eapply settles_mono; [apply steadyu_handle_token; exact (serves_before _ _ H03 Hw)|]. intros ok w4 H4.
  assert (before w w4) as H04 by (by eapply before_trans). destruct ok; cbn [negb]; [|by apply settles_ret].
  apply settles_bind, settles_gets, settles_ret. destruct (c_keepalive _); [|done]. split; [done|]. destruct H4. lia.
Qed.

Lemma steadyu_v1_messages : steadyu (server_v1_handle_messages acl_fuel cfg).
Proof.
  intros w Hw. unfold server_v1_handle_messages. apply settles_bind. eapply settles_mono; [apply server_recv_settles, Hw|].
  intros [[st fl] tok] w1 [H1 _]. pose proof (serves_before _ _ H1 Hw) as Hw1.
  eapply settles_mono; [|intros a w2 H2; eapply before_trans; [exact H1|exact H2]].
  eassert (steadyu _) as Hs; [|by apply Hs].
  destruct (negb (status_ok st)); [apply steadyu_steady; steady|]. destruct (_ <? _); [apply steadyu_steady; steady|].
  apply steadyu_bind; [apply steadyu_steady, steady_parse_command|]. intros [argv|]; [|apply steadyu_steady; steady].
  apply steadyu_bind; [apply steadyu_run_command|]. intros. apply steadyu_steady. steady.
Qed.
End commands.

(** * Connections *)

Section connections.
Context {C : Type} `{HG : GssMech C} `{HS : GssServer C}.
Implicit Types w : world C.

Lemma accept_token_settles fd w : programs_end w -> settles (accept_token fd) (fun '(st, _, _) w' =>
  before w w' /\ (st = TOKEN_OK -> (left_to_read w' + 5 <= left_to_read w)%nat)) w.
Proof.
  intros Hw. pose proof (token_recv_reads 0 TOKEN_MAX_LENGTH TIMEOUT (ch_net (w_chan w)) (selectable_0 _)) as Hr.
  unfold settles, accept_token, on_chan, on_net, zoom.
  apply (below_runs _ _ _ _ (token_recv_below fd _ _)) in Hr as [->|Hr]; [done|]. unfold runs, wp in Hr.
  destruct (token_recv fd _ _ (ch_net (w_chan w))) as [[[st fl] tok] n| | |]; [|done..]. destruct Hr. by repeat split.
Qed.

Lemma steady_open_token fd fl tok : steady (fun w : world C => w) (open_token fd fl tok).
Proof.
  eapply steady_on_chan; [apply below_zoom, token_send_below|]. intros c. apply runs_on_net.
  eapply runs_mono; [apply token_send_reads, selectable_0|]. intros st n En. simpl. unfold to_read. by rewrite En.
Qed.

#[local] Instance quiet_children : Quiet (C:=C) w_children.
Proof. by split. Qed.

Lemma keeps_accept_context fd creds : keeps (w_children (C:=C)) (accept_context fd creds).
Proof.
  unfold accept_context, accept_token. keeps. apply keeps_loop. intros st.
  unfold accept_body, accept_token, open_token, warn_gssapi. keeps.
Qed.

Lemma keeps_new_client fd creds : keeps (w_children (C:=C)) (server_new_client fd creds).
Proof.
  pose proof (keeps_accept_context fd creds). unfold server_new_client, warn_gssapi. keeps. by apply keeps_modify.
Qed.

(** A message, and the end of a step. *)
Lemma steady_then {A} (m : M (world C) unit) (a : A) (Q : A -> world C -> Prop) w : programs_end w ->
  steady (fun w => w) m -> (forall w', Q a w') -> settles (do* m in ret a) Q w.
Proof. intros Hw Hm HQ. apply settles_bind. eapply settles_mono; [by apply Hm|]. intros. by apply settles_ret. Qed.

(** The negotiation ends. *)
Lemma accept_context_settles fd creds w : programs_end w -> settles (accept_context fd creds) (fun _ _ => True) w.
Proof.
  intros Hw. unfold accept_context. apply settles_bind. eapply settles_mono; [by apply accept_token_settles|].
  intros [[st fl] tok] w1 [[_ [Hw1 _]] _]. destruct (negb _); [apply steady_then; [done|steady|done]|].
  destruct (initial_protocol fl) as [protocol|]; [|apply steady_then; [done|steady|done]].
  apply settles_bind, settles_gets.
  apply (settles_loop _ (fun _ w' => programs_end w') (fun _ w' => left_to_read w'));
    [|done|unfold serve_fuel, left_to_read, to_read; lia].
  intros [protocol' ctx] w2 Hw2. unfold accept_body. apply settles_bind.
  eapply settles_mono; [by apply accept_token_settles|].
  intros [[st' fl'] tok'] w3 [[_ [Hw3 _]] Hlt].
  destruct (status_ok st') eqn:Est; cbn [negb]; [|apply steady_then; [done|steady|done]].
  assert (left_to_read w3 + 5 <= left_to_read w2)%nat as Hmade by (apply Hlt; by destruct st').
  destruct (_ && _); [apply steady_then; [done|steady|done]|]. apply settles_bind.
  set (tok_out := ga_token _).
  assert (forall p, steady (fun w : world C => w)
    (if blen tok_out =? 0 then ret TOKEN_OK else open_token fd (context_flags p) tok_out)) as Ho
    by (intros p; destruct (_ =? 0); [apply steady_ret|apply steady_open_token]).
  eapply settles_mono; [by apply Ho|]. intros st2 w4 [H4 [Hw4 _]].
  destruct (negb _); [apply steady_then; [done|steady|done]|].
  destruct (_ && _); [apply steady_then; [done|unfold warn_gssapi; steady|done]|].
  destruct (ga_major _ =? GSS_S_CONTINUE_NEEDED); [|by apply settles_ret].
  apply settles_ret. split; [done|]. lia.
Qed.

Lemma settles_children {A} (m : M (world C) A) w : keeps w_children m -> settles m (fun _ _ => True) w ->
  programs_end w -> settles m (fun _ w' => programs_end w') w.
Proof.
  intros Hk Hs Hw. specialize (Hk w). unfold settles, programs_end in *. destruct (m w); [by rewrite Hk|done..].
Qed.

Lemma new_client_settles fd creds w : programs_end w ->
  settles (server_new_client fd creds) (fun _ w' => programs_end w') w.
Proof.
  intros Hw. assert (settles (server_new_client fd creds) (fun _ _ => True) w) as Hs.
  { unfold server_new_client.
    destruct peer_name as [[[status|ip] hostname]|]; [apply steady_then; [done|steady|done]| |apply steady_then; [done|steady|done]].
    apply settles_bind. eapply settles_mono; [apply settles_children;
      [apply keeps_accept_context|by apply accept_context_settles|done]|].
    intros [[protocol step]|] w1 Hw1; [|by apply settles_ret].
    destruct (_ && _); [apply steady_then; [done|steady|done]|]. destruct (gss_display_name _) as [[major user] anonymous].
    destruct (negb _); [apply steady_then; [done|unfold warn_gssapi; steady|done]|]. apply settles_bind.
    unfold settles at 1, on_chan, on_net, zoom, sys_time.
    destruct (k_clock (ch_net (w_chan w1))) as [|t [|]]; by apply settles_bind, settles_modify, settles_ret. }
  apply settles_children; [apply keeps_new_client|exact Hs|done].
Qed.

Lemma close_settles fd w : settles (close_connection fd) (fun _ w' => 0 <= fd -> fd ∈ w_closed w') w.
Proof. apply settles_modify. simpl. set_solver. Qed.
End connections.

(** C21: every connection ends if the programs it runs do.  When included ACL
    files form no cycle, the group database answers, and the exit of every
    program that is started is reported to the event loop and reaped by
    [waitpid], then whatever the client sends and whatever GSS-API, the network
    and the programs do, enough recursion in the access check makes
    [handle_connection] stop: the negotiation, the accumulation of commands,
    the parsing, the event loop, the wait for a program and the message loop
    never go on forever, and a connection that is done has been closed.  The
    process may also exit, or stop in undefined behaviour, which this theorem
    does not exclude ([short_command_overread] and
    [empty_continuation_invalid_free] say where it can). *)
Theorem connection_terminates {C} `{HG : GssMech C} `{HS : GssServer C} `{HA : AclEnv} (rank : bytes -> nat) fd cfg creds
    (w : world C) :
  group_answers -> (forall f g, includes f g -> (rank g < rank f)%nat) -> programs_end w ->
  exists n, forall k, (n <= k)%nat ->
    match handle_connection k fd cfg creds w with
    | Ret _ w' => 0 <= fd -> fd ∈ w_closed w'
    | NoFuel => False
    | Exit _ _ | Fault => True
    end.
Proof.
  intros Hg Hrank Hw. unfold handle_connection. pose proof (new_client_settles fd creds w Hw) as Hn. unfold settles in Hn.
  unfold bind at 1. destruct (server_new_client fd creds w) as [ok w1|c w1| |]; [|by exists 0%nat; intros..|done].
  destruct ok; cbn [negb]; [|exists 0%nat; intros k _; apply (close_settles fd)].
  destruct (ident w1) as [user anonymous] eqn:Ew.
  assert (exists n, forall ru, ru ∈ cfg -> forall k, (n <= k)%nat -> forall w, exists b w',
    acl_permit_loop (S:=world C) user anonymous k (ru_file ru) (ru_lineno ru) (ru_acls ru) w = Ret b w') as [n Hall].
  { induction cfg as [|ru cfg' IH]; [exists 0%nat; intros ru Hru; by apply elem_of_nil in Hru|].
    destruct (acl_loop_terminates (S:=world C) rank user anonymous (ru_acls ru) Hg Hrank) as [n1 H1]. destruct IH as [n2 H2].
    exists (n1 + n2)%nat. intros ru' [->|Hru']%elem_of_cons k Hk w2; [apply H1; lia|apply H2; [done|lia]]. }
  exists n. intros k Hk. assert (forall ru, ru ∈ cfg -> forall w, exists b w',
    acl_permit_loop user anonymous k (ru_file ru) (ru_lineno ru) (ru_acls ru) w = Ret b w') as Hr by (intros; by apply Hall).
  match goal with |- match ?m w1 with _ => _ end => change (settles m (fun _ w' => 0 <= fd -> fd ∈ w_closed w') w1) end.
  apply settles_bind, settles_gets, settles_bind. eapply settles_mono.
  - eassert (steadyu user anonymous _) as Hs; [|by apply Hs]. destruct (_ =? 1).
    + by apply steadyu_v1_messages.
    + by apply steadyu_handle_messages.
  - intros [] w2 _. unfold server_free_client. destruct (Z.leb_spec 0 fd); [apply close_settles|].
    apply settles_ret. lia.
Qed.

(** A connection with one command for the rules of a user, and a program that
    ends. *)
Definition ending_child : child :=
  Child (SpawnOk 7 5 6) [EvIo OutStream true false true 0; EvChild (Some 0)] [] (Some 0).
Definition demo_accepting_child : world unit := put_children [ending_child] demo_accepting.

Lemma connection_terminates_witness :
  let _ := null_mech in let _ := null_server in let _ := demo_env in
  exists n, forall k, (n <= k)%nat ->
    match handle_connection k 4 [demo_rule [str "/acl/ops"]] None demo_accepting_child with
    | Ret _ w' => 0 <= 4 -> 4 ∈ w_closed w'
    | NoFuel => False
    | Exit _ _ | Fault => True
    end.
Proof.
  intros mech server env. eapply connection_terminates.
  - intros g. exists [], 0, None, []. done.
  - exact demo_rank.
  - apply Forall_singleton. split; [|by exists 0]. exists 0. right. left.
Defined.

(** The condition on programs is needed: while a program closes its output but
    does not exit, the event loop waits. *)
Example process_waits_for_exit :
  let _ := null_mech in
  server_process_run (Process (str "ls") [str "ls"] (Some (demo_rule [])) None None 0)
    (put_children [Child (SpawnOk 7 5 6) [EvIo OutStream true false true 0; EvIo ErrStream true false true 0; EvChild None] [] (Some 0)]
       demo_accepting) = NoFuel.
Proof. reflexivity. Qed.
