(* ===== verification/DaemonSpec.v ===== *)
(** The accept loop of remctld, theorems: every connection goes to one child,
    with the configuration then in force, and the parent keeps no descriptor
    of it; a signal to exit ends the loop. *)

From S2P Require Import Prelude Effects CLib Getopt Net Tokens Connect NetAddr Listen Command Server Acl Config Process Commands Execs Serve Accept Daemon Handshake.

Section accept_loop.
Context {C : Type} `{HG : GssMech C} `{HS : GssServer C} {HC : ServerCreds C} `{HI : Inet} `{HP : InetPrint} `{HA : Passive} `{HE : ConfEnv} `{HD : Startup}.
Context (acl_fuel conf_fuel : nat) (o : options) (fds : list Z).
Implicit Types d : daemon C.
Implicit Types r : round C.

(** * What a round amounts to *)

(** The configuration after the round's reload. *)
Definition reloaded r (cfg cfg' : config) : Prop :=
  if rd_config r then
    exists status l, @read_conf_file (rd_files r) _ conf_fuel (op_config_path o) (Loading [] [] 0) = Ret status l /\
      status_num status = 0 /\ cfg' = ld_rules l
  else cfg' = cfg.

(** No child that cannot be waited for. *)
Definition reap_ok r : Prop := rd_child r = true -> rd_waitpid r = None \/ rd_waitpid r = Some ECHILD.

(** [select] or [accept] is interrupted, or a socket is ready. *)
Definition wait_ok r : Prop :=
  match rd_wait r with
  | inl e => e = EINTR
  | inr ready => (exists fd, fd ∈ fds /\ fd ∈ ready) /\
      match rd_accept r with inl e => e = EINTR | inr _ => True end
  end.

(** The connection of the round's child. *)
Abbreviation task := (Z * chan C * sockaddr * config)%type.

Definition round_task (cfg : config) r : list task :=
  match rd_wait r, rd_accept r with
  | inr _, inr (ch, peer) => if rd_fork r <? 0 then [] else [(rd_fork r, ch, peer, cfg)]
  | _, _ => []
  end.

Definition task_of (j : job C) : task := (j_pid j, j_chan j, j_peer j, j_config j).

(** The rounds up to a signal to exit, the tasks they give to children, and
    the configuration at the end. *)
Inductive serves : config -> list (round C) -> list task -> config -> Prop :=
  | serves_exit cfg cfg' r rs :
      reap_ok r -> reloaded r cfg cfg' -> rd_exit r = true -> serves cfg (r :: rs) [] cfg'
  | serves_round cfg cfg' r rs ts cfg2 :
      reap_ok r -> reloaded r cfg cfg' -> rd_exit r = false -> wait_ok r ->
      serves cfg' rs ts cfg2 -> serves cfg (r :: rs) (round_task cfg' r ++ ts) cfg2.

(** * The state between rounds *)

(** Only messages and scripts differ. *)
Definition quiet d d' : Prop :=
  kn_fds (li_kern (d_net d')) = kn_fds (li_kern (d_net d)) /\
  kn_socks (li_kern (d_net d')) = kn_socks (li_kern (d_net d)) /\
  li_waits (d_net d') = li_waits (d_net d) /\ li_accepts (d_net d') = li_accepts (d_net d) /\
  d_rounds d' = d_rounds d /\ d_jobs d' = d_jobs d /\ d_pidfile d' = d_pidfile d.

Definition flags d : bool * bool * bool := (d_child d, d_config d, d_exit d).

Definition quietly d (fl : bool * bool * bool) d' : Prop := quiet d d' /\ flags d' = fl.

Lemma quiet_refl d : quiet d d.
Proof. done. Qed.

Lemma quietly_trans d d1 d2 fl fl' : quietly d fl d1 -> quietly d1 fl' d2 -> quietly d fl' d2.
Proof. intros [Q1 _] [Q2 ?]. split; [|done]. unfold quiet in *. intuition congruence. Qed.

Lemma runs_log m (Q : unit -> daemon C -> Prop) d : (forall d', quietly d (flags d) d' -> Q tt d') ->
  runs (modify (add_log m)) Q d.
Proof. intros HQ. by apply runs_modify, HQ. Qed.

Lemma log_children_runs reaped : forall d, runs (log_children reaped) (fun _ d' => quietly d (flags d) d') d.
Proof.
  induction reaped as [|[pid status] reaped IH]; intros d; cbn [log_children]; [by apply runs_ret|].
  apply runs_bind. eapply runs_mono with (Q := fun _ d' => quietly d (flags d) d').
  - unfold log_child. repeat case_match; try (by apply runs_ret); by apply runs_log.
  - intros [] d1 Q1. eapply runs_mono; [apply IH|]. intros [] d2 Q2.
    eapply quietly_trans; [exact Q1|]. destruct Q1 as [_ <-]. done.
Qed.

Lemma reap_children_runs r d b c : reap_ok r -> flags d = (rd_child r, b, c) ->
  runs (reap_children r) (fun _ d' => quietly d (false, b, c) d') d.
Proof.
  intros Hok Hfl. unfold reap_children. apply runs_bind, runs_gets. injection Hfl as E1 E2 E3. rewrite E1.
  destruct (rd_child r) eqn:Er; [|apply runs_ret; split; [done|unfold flags; congruence]].
  apply runs_bind, runs_modify, runs_bind. eapply runs_mono; [apply log_children_runs|]. intros [] d1 Q1.
  assert (quietly d (false, b, c) d1) as Q2 by (destruct Q1 as [Q1 F1]; split; [exact Q1|]; rewrite F1; unfold flags; simpl; congruence).
  destruct (Hok Er) as [-> | ->]; by apply runs_ret.
Qed.

Lemma add_logs_quiet ms : forall d, quietly d (flags d) (foldl (fun d m => add_log m d) d ms).
Proof.
  induction ms as [|m ms IH]; intros d; [done|]. simpl.
  apply (quietly_trans d (add_log m d) _ (flags d)); [done|]. exact (IH (add_log m d)).
Qed.

Lemma reread_runs r cfg cfg' d a c : reloaded r cfg cfg' -> flags d = (a, rd_config r, c) ->
  runs (reread_config conf_fuel r o cfg) (fun x d' => x = cfg' /\ quietly d (a, false, c) d') d.
Proof.
  intros Hl Hfl. unfold reread_config. apply runs_bind, runs_gets. injection Hfl as E1 E2 E3. rewrite E2.
  unfold reloaded in Hl. destruct (rd_config r) eqn:Er.
  - destruct Hl as (status & l & E & Est & ->). apply runs_bind, runs_modify, runs_bind, runs_log. intros d1 Q1.
    apply runs_bind. unfold runs, wp, server_config_load. rewrite E. rewrite Est. cbn [Z.eqb].
    unfold ret. split; [done|]. eapply quietly_trans; [exact Q1|].
    destruct (add_logs_quiet (ld_log l) d1) as [Q2 F2]. split; [exact Q2|]. rewrite F2. destruct Q1 as [_ ->].
    unfold flags. simpl. congruence.
  - subst cfg'. apply runs_ret. split; [done|]. split; [done|]. unfold flags. congruence.
Qed.

(** Sockets are open descriptors. *)
Definition socks_open d : Prop :=
  forall fd, is_Some (kn_socks (li_kern (d_net d)) !! fd) -> fd ∈ kn_fds (li_kern (d_net d)).

Lemma runs_on_lis {A} (m : M (listener C) A) (Q : A -> daemon C -> Prop) d :
  runs m (fun a l => Q a (put_net l d)) (d_net d) -> runs (on_lis m) Q d.
Proof. unfold runs, wp, on_lis, zoom. by destruct (m (d_net d)). Qed.

Lemma find_ready (ready : list Z) fd : fd ∈ fds -> fd ∈ ready ->
  exists i s, list_find (fun fd => fd ∈ ready) fds = Some (i, s).
Proof.
  intros H1 H2. destruct (list_find _ fds) as [[i s]|] eqn:E; [by eexists _, _|].
  apply list_find_None in E. rewrite Forall_forall in E. by destruct (E fd H1).
Qed.

(** The next connection, and the child that gets it. *)
Definition after_round d (cfg : config) r d' : Prop :=
  map task_of (d_jobs d') = map task_of (d_jobs d) ++ round_task cfg r /\
  d_rounds d' = d_rounds d /\ d_pidfile d' = d_pidfile d /\ flags d' = flags d /\ socks_open d' /\
  (0 <= rd_fork r -> kn_fds (li_kern (d_net d')) = kn_fds (li_kern (d_net d))).

Lemma accept_runs r cfg d : fit_fd_set fds -> wait_ok r -> socks_open d ->
  li_waits (d_net d) = [rd_wait r] -> li_accepts (d_net d) = [rd_accept r] ->
  runs (let* s := on_lis (network_accept_any fds) in
        match s with
        | None =>
            let* errno := on_lis (on_lkern get_errno) in
            if negb (errno =? EINTR) then sysdie "error accepting incoming connection" []
            else ret (inl cfg)
        | Some (s, peer) => do* fork_child r s peer cfg in ret (inl cfg)
        end)
    (fun x d' => x = inl (A:=config) (B:=config) cfg /\ after_round d cfg r d') d.
Proof.
  intros Hfit Hok Hopen Ew Ea. apply runs_bind, runs_on_lis. unfold network_accept_any, network_wait_any.
  apply runs_bind, runs_bind, FD_SETS_runs; [done|]. apply runs_bind, runs_gets. rewrite Ew. unfold wait_ok in Hok. unfold after_round, round_task.
  assert (forall js : list task, js ++ [] = js) as Happ by (intros; apply app_nil_r).
  destruct (rd_wait r) as [e|ready].
  { subst e. apply runs_bind, runs_modify, runs_bind, runs_on_lkern, runs_modify, runs_ret, runs_ret.
    apply runs_bind, runs_on_lis, runs_on_lkern, runs_gets. simpl. apply runs_ret. by rewrite Happ. }
  destruct Hok as [(fd & Hfd & Hready) Hacc]. destruct (find_ready ready fd Hfd Hready) as (i & s & Ef).
  apply runs_bind, runs_modify, runs_ret. rewrite Ef. cbn [fmap option_fmap option_map snd].
  unfold sys_accept. apply runs_bind, runs_gets. simpl. rewrite Ea. destruct (rd_accept r) as [e|[ch peer]].
  { subst e. apply runs_bind, runs_modify, runs_bind, runs_on_lkern, runs_modify, runs_ret.
    apply runs_bind, runs_on_lis, runs_on_lkern, runs_gets. simpl. apply runs_ret. by rewrite Happ. }
  apply runs_bind, runs_modify, runs_bind, runs_on_lkern, runs_gets, runs_bind, runs_on_lkern, runs_modify.
  apply runs_bind, runs_on_lkern, runs_modify, runs_ret, runs_bind. simpl.
  set (fd' := lowest_free _). pose proof (lowest_free_spec (kn_fds (li_kern (d_net d)))) as [Hfree _].
  unfold fork_child. destruct (Z.ltb_spec (rd_fork r) 0).
  - apply runs_bind, runs_log. intros d1 [Q1 F1]. apply runs_log. intros d2 [Q2 F2]. apply runs_ret.
    destruct Q1 as (A1 & B1 & _ & _ & C1 & D1 & G1), Q2 as (A2 & B2 & _ & _ & C2 & D2 & G2).
    split; [done|]. rewrite Happ, D2, D1, C2, C1, G2, G1, F2, F1. repeat (split; [done|]). split; [|lia].
    unfold socks_open. rewrite A2, A1, B2, B1. simpl. intros f Hf.
    destruct (decide (f = fd')) as [->|Hne]; [set_solver|]. rewrite lookup_insert_ne in Hf by done.
    pose proof (Hopen f Hf). set_solver.
  - apply runs_bind, runs_on_lis, runs_on_lkern. eapply runs_sock; [simpl; apply lookup_insert_eq|].
    apply runs_bind, runs_modify, runs_on_lis, runs_bind, runs_modify, runs_on_lkern, runs_modify, runs_ret. simpl.
    split; [done|]. rewrite map_app. split; [done|]. repeat (split; [done|]).
    assert (({[fd']} ∪ kn_fds (li_kern (d_net d))) ∖ {[fd']} = kn_fds (li_kern (d_net d))) as Ek by set_solver.
    split; [|intros _; exact Ek]. unfold socks_open. simpl. rewrite Ek. intros f [a Hf].
    destruct (decide (f = fd')) as [->|Hne]; [by rewrite lookup_delete_eq in Hf|].
    rewrite lookup_delete_ne, lookup_insert_ne in Hf by done. apply Hopen. by eexists.
Qed.

(** ** The loop *)

(** Between two rounds: [rs] are left, and no signal is pending. *)
Definition between (rs : list (round C)) d : Prop :=
  d_rounds d = rs /\ flags d = (false, false, false) /\ socks_open d.

(** [d'] is [d] with the children of [ts], the same PID file, and without a
    failed [fork] the same descriptors. *)
Definition served (rs : list (round C)) (ts : list task) d d' : Prop :=
  map task_of (d_jobs d') = map task_of (d_jobs d) ++ ts /\ d_pidfile d' = d_pidfile d /\ socks_open d' /\
  (Forall (fun r => 0 <= rd_fork r) rs -> kn_fds (li_kern (d_net d')) = kn_fds (li_kern (d_net d))).

(** The part of a round before the connection. *)
Lemma signals_runs r rs cfg cfg' d (k : config -> M (daemon C) (config + config)) (Q : config + config -> daemon C -> Prop) :
  reap_ok r -> reloaded r cfg cfg' -> between (r :: rs) d ->
  (forall d', socks_open d' -> d_rounds d' = rs -> d_jobs d' = d_jobs d -> d_pidfile d' = d_pidfile d ->
     flags d' = (false, false, rd_exit r) -> kn_fds (li_kern (d_net d')) = kn_fds (li_kern (d_net d)) ->
     li_waits (d_net d') = [rd_wait r] -> li_accepts (d_net d') = [rd_accept r] -> runs (k cfg') Q d') ->
  runs (do* modify (put_rounds rs) in do* begin_round r in do* reap_children r in
        let* cfg := reread_config conf_fuel r o cfg in k cfg) Q d.
Proof.
  intros Hreap Hload (Hrs & Hfl & Hopen) Hk. apply runs_bind, runs_modify, runs_bind, runs_modify, runs_bind.
  set (d1 := put_flags _ _ _ _). injection Hfl as E1 E2 E3.
  eapply runs_mono; [apply (reap_children_runs r d1 (rd_config r) (rd_exit r)); [done|]|].
  { unfold flags, d1. simpl. by rewrite E1, E2, E3. }
  intros [] d2 [Q2 F2]. apply runs_bind. eapply runs_mono; [by apply (reread_runs r cfg cfg' d2 false (rd_exit r))|].
  intros x d3 [-> [Q3 F3]]. destruct Q2 as (A2 & B2 & W2 & X2 & R2 & J2 & P2), Q3 as (A3 & B3 & W3 & X3 & R3 & J3 & P3).
  apply Hk; try (simpl in *; congruence). unfold socks_open. rewrite A3, A2, B3, B2. exact Hopen.
Qed.

Lemma daemon_loop cfg rs ts cfg2 : fit_fd_set fds -> serves cfg rs ts cfg2 -> forall d fuel, between rs d -> (length rs < fuel)%nat ->
  runs (loop fuel (daemon_body conf_fuel o fds) cfg) (fun x d' => x = cfg2 /\ served rs ts d d') d.
Proof.
  intros Hfit. induction 1 as [cfg cfg' r rs Hreap Hload Hexit|cfg cfg' r rs ts cfg2 Hreap Hload Hexit Hwait Hs IH];
    intros d fuel Hb Hf; (destruct fuel as [|fuel]; [simpl in Hf; lia|]); cbn [loop]; apply runs_bind;
    unfold daemon_body; apply runs_bind, runs_gets; rewrite (proj1 Hb); (eapply signals_runs; [done|done|exact Hb|]);
    intros d1 O1 R1 J1 P1 F1 A1 W1 X1; apply runs_bind, runs_gets; injection F1 as E1 E2 E3; rewrite E3, Hexit.
  - apply runs_bind, runs_log. intros d2 [(A2 & B2 & _ & _ & R2 & J2 & P2) _]. apply runs_ret, runs_ret.
    split; [done|]. split; [by rewrite J2, J1, app_nil_r|]. split; [congruence|].
    split; [unfold socks_open; by rewrite A2, B2|]. intros _. congruence.
  - eapply runs_mono; [by apply accept_runs|]. intros x d2 (-> & T2 & R2 & P2 & F2 & O2 & A2).
    eapply runs_mono.
    + apply (IH d2 fuel); [|simpl in Hf; lia]. split; [congruence|]. split; [|done].
      rewrite F2. unfold flags. by rewrite E1, E2, E3, Hexit.
    + intros x d3 (-> & T3 & P3 & O3 & A3). split; [done|]. split; [by rewrite T3, T2, J1, app_assoc|].
      split; [congruence|]. split; [done|]. intros Hforks. apply Forall_cons_1 in Hforks as [Hr Hrs].
      rewrite (A3 Hrs), (A2 Hr). congruence.
Qed.

(** The PID file can be written, if there is to be one. *)
Definition pidfile_ok : Prop :=
  match op_pid_path o with
  | Some path => (mkstemp (path ++ str ".XXXXXX")).2 = true /\ fdopen_ok && fprintf_ok && rename_ok = true
  | None => True
  end.

Lemma write_pidfile_runs pid path (Q : unit -> daemon C -> Prop) d :
  (mkstemp (path ++ str ".XXXXXX")).2 = true /\ fdopen_ok && fprintf_ok && rename_ok = true ->
  Q tt (put_pidfile (Some (decimal pid ++ [x0a])) d) -> runs (write_pidfile pid path) Q d.
Proof.
  intros [Hm [[H1 H2]%andb_prop H3]%andb_prop] HQ. unfold write_pidfile. destruct (mkstemp _) as [t b]. simpl in Hm.
  rewrite Hm, H1, H2, H3. by apply runs_modify.
Qed.

(** A message, or none. *)
Lemma maybe_log (b : bool) m d d1 : quietly d (flags d) d1 ->
  runs (if b then modify (add_log m) else ret tt) (fun _ d2 => quietly d (flags d) d2) d1.
Proof.
  intros [Q1 F1]. destruct b; [|by apply runs_ret]. apply runs_log. intros d2 Q2.
  eapply quietly_trans; [exact (conj Q1 F1)|]. by rewrite <- F1.
Qed.

Lemma close_all_runs l : forall d, runs (close_all l) (fun _ d' =>
  kn_fds (li_kern (d_net d')) = kn_fds (li_kern (d_net d)) ∖ list_to_set l /\ d_jobs d' = d_jobs d /\ d_pidfile d' = d_pidfile d) d.
Proof.
  induction l as [|fd l IH]; intros d; cbn [close_all].
  - apply runs_ret. split; [set_solver|done].
  - apply runs_bind, runs_on_lis, runs_bind, runs_modify, runs_on_lkern, runs_modify.
    eapply runs_mono; [apply IH|]. intros [] d' (E & J & P). simpl in *. split; [set_solver|]. split; congruence.
Qed.
End accept_loop.

(** C14: the daemon serves every connection and then stops.  Once its sockets
    are bound, with descriptors that [select] can wait for, and if its PID file
    can be written, let any rounds follow in which [select] or [accept] may be
    interrupted, children exit, and reloads of the configuration succeed, up
    to a signal to exit.  Then the daemon ends: it has handed every
    connection whose [fork] succeeded to exactly one child, in order, with
    the configuration in force at that time, the PID file is gone, its
    listening sockets are closed, and if no [fork] failed nothing else it
    opened is open. *)
Theorem daemon_serves_until_exit {C} `{HG : GssMech C} `{HS : GssServer C} {HC : ServerCreds C} `{HI : Inet} `{HP : InetPrint}
    `{HA : Passive} `{HE : ConfEnv} `{HD : Startup} conf_fuel pid o cfg fds rs ts cfg2 (d d1 : daemon C) :
  bind_sockets o d = Ret fds d1 -> fit_fd_set fds -> pidfile_ok o -> between rs d1 -> serves conf_fuel o fds cfg rs ts cfg2 ->
  exists d2, server_daemon conf_fuel pid o cfg d = Ret tt d2 /\
    map task_of (d_jobs d2) = map task_of (d_jobs d1) ++ ts /\
    d_pidfile d2 = match op_pid_path o with Some _ => None | None => d_pidfile d1 end /\
    kn_fds (li_kern (d_net d2)) ## list_to_set fds /\
    (Forall (fun r => 0 <= rd_fork r) rs -> kn_fds (li_kern (d_net d2)) = kn_fds (li_kern (d_net d1)) ∖ list_to_set fds).
Proof.
  intros Eb Hfit Hp Hb Hs.
  assert (runs (server_daemon conf_fuel pid o cfg) (fun _ d2 =>
    map task_of (d_jobs d2) = map task_of (d_jobs d1) ++ ts /\
    d_pidfile d2 = match op_pid_path o with Some _ => None | None => d_pidfile d1 end /\
    kn_fds (li_kern (d_net d2)) ## list_to_set fds /\
    (Forall (fun r => 0 <= rd_fork r) rs ->
     kn_fds (li_kern (d_net d2)) = kn_fds (li_kern (d_net d1)) ∖ list_to_set fds)) d) as Hr;
    [|apply runs_elim in Hr as ([] & d2 & E & Hd); by exists d2].
  unfold server_daemon. apply runs_bind. unfold runs at 1, wp at 1. rewrite Eb.
  apply runs_bind. eapply runs_mono with (Q := fun _ d' => between rs d' /\ d_jobs d' = d_jobs d1 /\
    kn_fds (li_kern (d_net d')) = kn_fds (li_kern (d_net d1)) /\ (op_pid_path o = None -> d_pidfile d' = d_pidfile d1)).
  { unfold pidfile_ok in Hp. destruct (op_pid_path o) as [path|]; [|by apply runs_ret]. by apply write_pidfile_runs. }
  intros [] d2 (Hb2 & J2 & F2 & P2). apply runs_bind, runs_log. intros d3 [Q3 L3]. apply runs_bind.
  assert (forall d', quietly d2 (flags d2) d' -> between rs d' /\ d_jobs d' = d_jobs d1 /\
    kn_fds (li_kern (d_net d')) = kn_fds (li_kern (d_net d1)) /\ (op_pid_path o = None -> d_pidfile d' = d_pidfile d1)) as Hq.
  { intros d' [(A & B & _ & _ & R & J & P) L]. destruct Hb2 as (R2 & L2 & O2). split; [|split; [congruence|split; [congruence|]]].
    - split; [congruence|]. split; [congruence|]. unfold socks_open. by rewrite A, B.
    - intros Hnone. rewrite P. auto. }
  eapply runs_mono; [by apply (maybe_log _ _ d2); rewrite <- L3|]. intros [] d3' Q3'. apply runs_bind.
  eapply runs_mono; [by apply (maybe_log _ _ d2)|]. intros [] d4 Q4. destruct (Hq d4 Q4) as (Hb4 & J4 & F4 & P4). apply runs_bind, runs_gets, runs_bind.
  rewrite (proj1 Hb4). eapply runs_mono; [apply (daemon_loop conf_fuel o fds cfg rs ts cfg2 Hfit Hs); [exact Hb4|lia]|].
  intros x d5 (-> & T5 & P5 & O5 & F5). apply runs_bind.
  eapply runs_mono with (Q := fun _ d' => d_jobs d' = d_jobs d5 /\ kn_fds (li_kern (d_net d')) = kn_fds (li_kern (d_net d5)) /\
    d_pidfile d' = match op_pid_path o with Some _ => None | None => d_pidfile d1 end).
  { destruct (op_pid_path o); [by apply runs_modify|]. apply runs_ret. split; [done|]. split; [done|]. rewrite P5. auto. }
  intros [] d6 (J6 & F6 & P6). eapply runs_mono; [apply close_all_runs|]. intros [] d7 (F7 & J7 & P7).
  split; [by rewrite J7, J6, T5, J4|]. split; [congruence|]. split; [rewrite F7; set_solver|].
  intros Hforks. by rewrite F7, F6, (F5 Hforks), F4.
Qed.

(** A daemon on the two wildcard addresses: a connection, a child that exits
    while [select] is interrupted, a second connection after a reload of the
    configuration, and a signal. *)
Definition demo_files : AclEnv := {|
  fs_isdir _ := Some false; fs_readdir _ := None; fs_read _ := Some (str "ls all /bin/ls ANYUSER" ++ [x0a]);
  have_gput := false; have_localgroup := false; have_pcre := false; have_regex := false; gput_open_ok := false;
  gput_check _ _ _ := false; pcre_match _ _ := RegexNoMatch; regex_match _ _ := RegexNoMatch; getgrnam_r _ := [];
  krb5_init_context := 0; krb5_parse_name _ := 0; krb5_aname_to_localname _ := NoLocalName; pw_gid _ := None;
|}.

Definition demo_users : ConfEnv := {| getpwuid _ := None; getpwnam _ := None |}.

Definition demo_startup : Startup := {|
  sd_listen_fds := 0; sd_notify := 0; raise_stop := 0; mkstemp name := (name, true);
  fdopen_ok := true; fprintf_ok := true; rename_ok := true;
|}.

Definition demo_creds : @ServerCreds unit null_server :=
  @Build_ServerCreds unit null_server unit (fun _ => (GSS_S_COMPLETE, tt)) (fun _ => (GSS_S_COMPLETE, tt)).

Definition demo_chan (data : string) : chan unit := Chan (Net [RdData (str data)] [] [] [] [] 0 false) tt [].

Definition demo_daemon (rs : list (round unit)) : daemon unit :=
  Daemon demo_listener false false false rs [] None
    (World (demo_chan "") (Client KindV2 0 None [] 2 [] false 0 0 false false) [] [] [] [] null_net null_net) (getopt_init []).

Definition demo_peer (last : byte) : sockaddr := SaInet [xc0; x00; x02; last] [x00; x00].

Definition demo_rounds : list (round unit) :=
  [Round false false false [] None demo_files (inr [4]) (inr (demo_chan "one", demo_peer x01)) 100;
   Round true false false [(100, 0)] (Some ECHILD) demo_files (inl EINTR) (inl 0) 0;
   Round false true false [] None demo_files (inr [3; 4]) (inr (demo_chan "two", demo_peer x02)) 101;
   Round false false true [] None demo_files (inl EINTR) (inl 0) 0].

Definition demo_options : options :=
  Options false true false true false 4373 None (str "/etc/remctl.conf") (Some (str "/run/remctld.pid")) [].

Definition demo_config : config :=
  match @read_conf_file demo_files demo_users 3 (str "/etc/remctl.conf") (Loading [] [] 0) with
  | Ret _ l => ld_rules l
  | _ => []
  end.

Definition demo_tasks : list (Z * chan unit * sockaddr * config) :=
  [(100, demo_chan "one", demo_peer x01, []); (101, demo_chan "two", demo_peer x02, demo_config)].

Lemma demo_serves : @serves unit demo_users 3 demo_options [3; 4] [] demo_rounds demo_tasks demo_config.
Proof.
  pose (r1 := Round false false false [] None demo_files (inr [4]) (inr (demo_chan "one", demo_peer x01)) 100 : round unit).
  pose (r2 := Round true false false [(100, 0)] (Some ECHILD) demo_files (inl EINTR) (inl 0) 0 : round unit).
  pose (r3 := Round false true false [] None demo_files (inr [3; 4]) (inr (demo_chan "two", demo_peer x02)) 101 : round unit).
  change (@serves unit demo_users 3 demo_options [3; 4] [] (r1 :: tail demo_rounds) (round_task [] r1 ++ tail demo_tasks) demo_config).
  eapply serves_round; [done|done|done| |].
  { split; [exists 4; set_solver|done]. }
  change (@serves unit demo_users 3 demo_options [3; 4] [] (r2 :: skipn 2 demo_rounds) (round_task [] r2 ++ tail demo_tasks) demo_config).
  eapply serves_round; [|done|done|done|].
  { intros _. by right. }
  change (@serves unit demo_users 3 demo_options [3; 4] [] (r3 :: skipn 3 demo_rounds) (round_task demo_config r3 ++ []) demo_config).
  eapply serves_round; [done| |done| |].
  { unfold reloaded, demo_config. change (rd_files r3) with demo_files. change (op_config_path demo_options) with (str "/etc/remctl.conf").
    cbn [rd_config r3].
    assert (match @read_conf_file demo_files demo_users 3 (str "/etc/remctl.conf") (Loading [] [] 0) with
      Ret st _ => status_num st = 0 | _ => False end) as Hs by (vm_compute; done).
    destruct (read_conf_file 3 _ _) as [st l| | |]; [by eexists _, _|done..]. }
  { split; [exists 3; set_solver|done]. }
  by apply serves_exit.
Qed.

Lemma daemon_serves_until_exit_witness :
  let _ := plain_inet in let _ := plain_print in let _ := plain_passive in let _ := null_mech in let _ := null_server in
  let _ := demo_creds in let _ := demo_users in let _ := demo_startup in
  exists d2, server_daemon 3 7 demo_options [] (demo_daemon demo_rounds) = Ret tt d2 /\
    map task_of (d_jobs d2) = demo_tasks /\ d_pidfile d2 = None /\ demo_config <> [] /\
    kn_fds (li_kern (d_net d2)) = {[0; 1; 2]}.
Proof.
  intros inet print passive mech server creds users startup.
  assert (match bind_sockets demo_options (demo_daemon demo_rounds) with
    | Ret fds d1 => fds = [3; 4] /\ d_rounds d1 = demo_rounds /\ flags d1 = (false, false, false) /\ d_jobs d1 = [] /\
        kn_fds (li_kern (d_net d1)) = {[0; 1; 2; 3; 4]} /\ map fst (map_to_list (kn_socks (li_kern (d_net d1)))) = [3; 4]
    | _ => False end) as Hb by (vm_compute; done).
  destruct (bind_sockets demo_options (demo_daemon demo_rounds)) as [fds d1| | |] eqn:Eb; [|done..].
  destruct Hb as (-> & Hr & Hf & Hj & Hk & Hs).
  destruct (daemon_serves_until_exit 3 7 demo_options [] [3; 4] demo_rounds demo_tasks demo_config _ d1 Eb)
    as (d2 & E & T & P & _ & F).
  - by repeat constructor.
  - done.
  - split; [done|]. split; [done|]. intros fd [a Ha]. apply elem_of_map_to_list in Ha.
    assert (fd ∈ [3; 4]) as Hfd by (rewrite <- Hs; apply list_elem_of_fmap; by exists (fd, a)).
    rewrite Hk. apply elem_of_cons in Hfd as [->|[->|[]%elem_of_nil]%elem_of_cons]; apply (bool_decide_unpack _); vm_compute; done.
  - exact demo_serves.
  - exists d2. rewrite Hj in T. rewrite F, Hk by (repeat constructor; done).
    split; [done|]. split; [done|]. split; [done|]. split; [|vm_compute; done].
    assert (match demo_config with [] => False | _ => True end) as Hne by (vm_compute; done). intros Ec. by rewrite Ec in Hne.
Defined.

(** After a [fork] that fails the accepted descriptor stays open in the
    parent: here descriptor 5. *)
Example failed_fork_leaks :
  let _ := plain_inet in let _ := plain_print in let _ := plain_passive in let _ := null_mech in let _ := null_server in
  let _ := demo_creds in let _ := demo_users in let _ := demo_startup in
  exists d2, server_daemon 3 7 demo_options []
      (demo_daemon [Round false false false [] None demo_files (inr [4]) (inr (demo_chan "one", demo_peer x01)) (-1);
                    Round false false true [] None demo_files (inl EINTR) (inl 0) 0]) = Ret tt d2 /\
    kn_fds (li_kern (d_net d2)) = {[0; 1; 2; 5]}.
Proof.
  intros inet print passive mech server creds users startup.
  match goal with |- exists d2, ?run = _ /\ _ =>
    assert (match run with Ret _ d2 => kn_fds (li_kern (d_net d2)) = {[0; 1; 2; 5]} | _ => False end) as Hrun
      by (vm_compute; done);
    destruct run as [[] d2| | |]; [by exists d2|done..]
  end.
Qed.
