(* ===== verification/Delivery.v ===== *)
(** A command from client to server over protocol two: the tokens
    [internal_v2_commandv] puts on the wire make [server_v2_handle_token] run
    the same command. *)

From S2P Require Import Prelude Effects Net Tokens Command Client ClientFraming Server Acl Commands Serve.

Section delivery.
Context {C : Type} `{GssLaws C}.

(** The mechanism, at context [a], wraps the tokens into the wire bytes [W]
    and ends at [a']. *)
Inductive wrapped : C -> list bytes -> bytes -> C -> Prop :=
  | wrapped_nil a : wrapped a [] [] a
  | wrapped_cons a t out a1 ts W a2 :
      gss_wrap a t = (GSS_S_COMPLETE, out, a1) -> blen t <= TOKEN_MAX_DATA ->
      wrapped a1 ts W a2 -> wrapped a (t :: ts) (token_wire v2_flags out ++ W) a2.

(** What the mechanism adds to a token stays below the token limit. *)
Definition wrap_fits : Prop := forall c m o c',
  gss_wrap c m = (GSS_S_COMPLETE, o, c') -> blen m <= TOKEN_MAX_DATA -> blen o <= TOKEN_MAX_LENGTH.

Lemma wrapped_fuel a ts W a' : wrapped a ts W a' -> (length ts <= length W)%nat.
Proof.
  induction 1 as [|a t out a1 ts W a2 _ _ _ IH]; simpl; [lia|].
  rewrite length_app. unfold token_wire. simpl. lia.
Qed.

(** ** The client's side *)

Lemma send_tokens_wrapped ts : forall (w w' : cl C),
  send_tokens ts w = Ret true w' -> exists W,
    wrapped (ch_ctx (cl_chan w)) ts W (ch_ctx (cl_chan w')) /\
    n_out (ch_net (cl_chan w')) = n_out (ch_net (cl_chan w)) ++ W.
Proof.
  induction ts as [|t ts IH]; intros w w' E; simpl in E.
  { injection E as <-. exists []. rewrite app_nil_r. split; [apply wrapped_nil|done]. }
  apply bind_Ret_inv in E as (st & w1 & E1 & E).
  destruct (status_ok st) eqn:Est; simpl in E; [|by apply bind_Ret_inv in E as (? & ? & _ & ?)].
  apply bool_decide_eq_true in Est as ->. apply IH in E as (W & HW & Hout).
  unfold send_priv in E1. apply bind_Ret_inv in E1 as (timeout & w0 & E0 & E1). injection E0 as _ <-.
  unfold on_fd in E1. destruct (r_fd (cl_r w)); [|done]. destruct (bool_decide _); [|done].
  unfold zoom in E1. destruct (token_send_priv _ v2_flags t timeout (cl_chan w)) as [st ch| | |] eqn:Es; [|done..].
  injection E1 as -> <-. simpl in *.
  apply token_send_priv_ok in Es as (Hl & out & Hw & Ho); [|done].
  exists (token_wire v2_flags out ++ W). split; [by eapply wrapped_cons|]. by rewrite Hout, Ho, app_assoc.
Qed.

Lemma command_sent_tokens argv (cw cw' : cl C) sent :
  command_ok argv -> internal_v2_commandv argv cw = Ret true cw' ->
  n_out (ch_net (cl_chan cw')) = n_out (ch_net (cl_chan cw)) ++ sent ->
  exists chunks, concat chunks = encode_command argv /\ Forall chunk_ok chunks /\
    wrapped (ch_ctx (cl_chan cw)) (command_tokens true chunks) sent (ch_ctx (cl_chan cw')).
Proof.
  intros (Hn & Hf & Hb) E Hout.
  destruct (commandv_refines (C:=C) argv) as (chunks & Hcat & Hck & Hsend);
    [unfold COMMAND_MAX_ARGS, UINT32_MAX in *; lia|done|done|].
  rewrite Hsend in E. apply send_tokens_wrapped in E as (W & HW & HoutW).
  rewrite Hout in HoutW. apply app_inv_head in HoutW as <-. by exists chunks.
Qed.

(** ** The server's side *)

Context `{AclEnv} (acl_fuel : nat).
Implicit Types w : world C.

(** The server can wait for its connection. *)
Definition can_wait w : Prop := selectable (c_fd (w_client w)) TIMEOUT.

(** The tokens [ts] are about to arrive, then [rest]. *)
Definition incoming (ts : list bytes) (a' : C) (rest : bytes) (ch : chan C) : Prop :=
  exists a W, wrapped a ts W a' /\ gss_sync a (ch_ctx ch) /\ calm TIMEOUT (ch_net ch) /\
    rd_bytes (k_read (ch_net ch)) = W ++ rest.

Lemma read_token_incoming t ts a' rest w :
  wrap_fits -> can_wait w -> incoming (t :: ts) a' rest (w_chan w) -> exists ch,
    server_v2_read_token w = Ret (TOKEN_OK, t) (put_chan ch w) /\
    incoming ts a' rest ch /\ unwritten (w_chan w) ch.
Proof.
  intros Hfits Hsel (a & W & HW & Hs & Hc & Hrd). inversion HW as [|? ? out a1 ? W' ? Ew Hl HW']; subst.
  rewrite <- app_assoc in Hrd. pose proof (Hfits _ _ _ _ Ew Hl) as Hout.
  pose proof (token_recv_priv_wire _ v2_flags t out a a1 (w_chan w) TOKEN_MAX_LENGTH TIMEOUT (W' ++ rest)
    Hsel Hs Ew eq_refl ltac:(by vm_compute; split) Hout
    ltac:(unfold TOKEN_MAX_LENGTH in *; lia) Hc Hrd) as Hrecv.
  unfold runs, wp in Hrecv. unfold server_v2_read_token, bind. rewrite server_recv_eq. unfold on_chan, zoom.
  destruct (token_recv_priv _ TOKEN_MAX_LENGTH TIMEOUT (w_chan w)) as [r ch| | |]; [|done..].
  destruct Hrecv as (-> & Hs' & Hrd' & Hc' & Hsent).
  simpl. exists ch. split; [done|]. split; [|done]. by exists a1, W'.
Qed.

(** ** Assembling the command *)

(** The world while the command's tokens come in: another channel, and the
    keep-alive flag of the last token. *)
Definition arrived (ch : chan C) w : world C :=
  put_client (set_keepalive true (w_client w)) (put_chan ch w).

Lemma header_nth c chunk i : (i < 4)%nat -> (v2_header c ++ chunk) !! i = v2_header c !! i.
Proof. intros Hi. apply lookup_app_l. simpl. lia. Qed.

Lemma blen_header c chunk : blen (v2_header c ++ chunk) = 4 + blen chunk.
Proof. unfold v2_header. zlist. Qed.

Lemma zdrop_header c chunk : zdrop 4 (v2_header c ++ chunk) = chunk.
Proof. done. Qed.

(** The checks a well-framed token passes. *)
Lemma body_token first last cont chunk b allocated w : cont = negb first ->
  4 + blen chunk <= TOKEN_MAX_DATA -> blen (cbuf_data b) + blen chunk < COMMAND_MAX_DATA ->
  handle_command_body (v2_header (continue_status first last) ++ chunk, b, allocated, cont) w =
  (let continued := negb last in
   let '(b, allocated) :=
     if continued || negb (cbuf_null b) then (cbuf_append b chunk, true) else (b, allocated) in
   if continued then
     let* next := server_v2_read_continuation in
     match next with
     | None => do* cbuf_free b in ret (inr (inl false))
     | Some tok => ret (inl (tok, b, allocated, continued))
     end
   else ret (inr (inr (if cbuf_null b then BToken chunk else b, allocated))))
  (put_client (set_keepalive true (w_client w)) w).
Proof.
  intros -> Hl Hb. unfold handle_command_body, char_of. rewrite !header_nth, blen_header, zdrop_header by lia.
  rewrite (proj2 (Z.ltb_ge TOKEN_MAX_DATA _)) by done. pose proof (blen_nonneg (cbuf_data b)).
  pose proof (blen_nonneg chunk).
  rewrite u64_small, (proj2 (Z.leb_gt _ _)) by (unfold COMMAND_MAX_DATA in *; lia).
  by destruct first, last.
Qed.

Lemma continuation_incoming c chunk ts a' rest w :
  wrap_fits -> can_wait w -> incoming ((v2_header c ++ chunk) :: ts) a' rest (w_chan w) -> exists ch,
    server_v2_read_continuation w = Ret (Some (v2_header c ++ chunk)) (put_chan ch w) /\
    incoming ts a' rest ch /\ unwritten (w_chan w) ch.
Proof.
  intros Hfits Hsel Hin. destruct (read_token_incoming _ _ _ _ _ Hfits Hsel Hin) as (ch & E & Hin' & Hsent).
  exists ch. split; [|done]. unfold server_v2_read_continuation. by rewrite (bind_Ret _ _ _ _ _ E).
Qed.

(** A token that is not the last: the loop goes on with the next one. *)
Lemma body_continue first cont chunk b allocated c' chunk' ts a' rest w :
  wrap_fits -> can_wait w -> cont = negb first ->
  4 + blen chunk <= TOKEN_MAX_DATA -> blen (cbuf_data b) + blen chunk < COMMAND_MAX_DATA ->
  incoming ((v2_header c' ++ chunk') :: ts) a' rest (w_chan w) -> exists ch,
    handle_command_body (v2_header (continue_status first false) ++ chunk, b, allocated, cont) w =
      Ret (inl (v2_header c' ++ chunk', cbuf_append b chunk, true, true)) (arrived ch w) /\
    incoming ts a' rest ch /\ unwritten (w_chan w) ch.
Proof.
  intros Hfits Hsel Hcont Hl Hb Hin. rewrite (body_token first false cont) by done.
  set (w1 := put_client _ w).
  destruct (continuation_incoming _ _ _ _ _ w1 Hfits Hsel Hin) as (ch & E & Hin' & Hsent).
  exists ch. split; [|done]. cbn [negb orb]. by rewrite (bind_Ret _ _ _ _ _ E).
Qed.

(** The last token. *)
Lemma body_last first cont chunk b allocated w :
  cont = negb first -> 4 + blen chunk <= TOKEN_MAX_DATA ->
  blen (cbuf_data b) + blen chunk < COMMAND_MAX_DATA ->
  handle_command_body (v2_header (continue_status first true) ++ chunk, b, allocated, cont) w =
  Ret (inr (inr (if cbuf_null b then (BToken chunk, allocated)
                 else (if cbuf_null (cbuf_append b chunk) then BToken chunk else cbuf_append b chunk, true))))
    (arrived (w_chan w) w).
Proof.
  intros Hcont Hl Hb. rewrite (body_token first true cont) by done. destruct w. by destruct b.
Qed.

Lemma cbuf_append_heap acc c : acc <> [] -> cbuf_append (BHeap acc) c = BHeap (acc ++ c).
Proof. intros Ha. simpl. rewrite (proj2 (Z.eqb_neq _ _)); [done|]. destruct acc; [done|zlist]. Qed.

(** The loop from a token that is not the first on. *)
Lemma assemble_rest cs : forall c fuel acc a' rest w,
  wrap_fits -> can_wait w -> incoming (command_tokens false cs) a' rest (w_chan w) ->
  Forall chunk_ok (c :: cs) -> acc <> [] ->
  blen acc + blen (concat (c :: cs)) < COMMAND_MAX_DATA -> (length cs < fuel)%nat ->
  exists ch, loop fuel handle_command_body
      (v2_header (continue_status false (is_nil cs)) ++ c, BHeap acc, true, true) w =
      Ret (inr (BHeap (acc ++ concat (c :: cs)), true)) (arrived ch w) /\
    incoming [] a' rest ch /\ unwritten (w_chan w) ch.
Proof.
  induction cs as [|c' cs IH]; intros c fuel acc a' rest w Hfits Hsel Hin Hck Hacc Hb Hfuel;
    (destruct fuel as [|fuel]; [simpl in Hfuel; lia|]);
    apply Forall_cons_1 in Hck as [[_ Hc] Hck']; simpl concat in *; rewrite blen_app in Hb.
  - exists (w_chan w). split; [|done].
    rewrite (loop_inr _ _ _ _ _ _ (body_last false true c (BHeap acc) true w eq_refl Hc
      ltac:(simpl cbuf_data; pose proof (blen_nonneg (@nil byte)); lia))).
    cbn [cbuf_null]. by rewrite cbuf_append_heap, app_nil_r by done.
  - rewrite blen_app in Hb. pose proof (blen_nonneg (concat cs)). pose proof (blen_nonneg c').
    destruct (body_continue false true c (BHeap acc) true _ _ _ _ _ w Hfits Hsel eq_refl Hc
      ltac:(simpl cbuf_data; lia) Hin) as (ch & E & Hin' & Hsent).
    rewrite (loop_inl _ _ _ _ _ _ E), cbuf_append_heap by done.
    destruct (IH c' fuel (acc ++ c) a' rest (arrived ch w) Hfits Hsel Hin' Hck')
      as (ch' & E' & Hin'' & Hsent'); [by destruct acc|rewrite !blen_app; lia|simpl in Hfuel; lia|].
    exists ch'. rewrite E', <- app_assoc. split; [done|]. split; [done|exact (unwritten_trans _ _ _ Hsent Hsent')].
Qed.

(** The whole loop. *)
Lemma assemble c cs a' rest w fuel :
  wrap_fits -> can_wait w -> incoming (command_tokens false cs) a' rest (w_chan w) -> Forall chunk_ok (c :: cs) ->
  blen (concat (c :: cs)) < COMMAND_MAX_DATA -> (length cs < fuel)%nat ->
  exists ch b allocated, loop fuel handle_command_body
      (v2_header (continue_status true (is_nil cs)) ++ c, BNull, false, false) w =
      Ret (inr (b, allocated)) (arrived ch w) /\
    cbuf_data b = concat (c :: cs) /\ (allocated = true -> exists d, b = BHeap d) /\
    incoming [] a' rest ch /\ unwritten (w_chan w) ch.
Proof.
  intros Hfits Hsel Hin Hck Hb Hfuel. destruct fuel as [|fuel]; [lia|].
  apply Forall_cons_1 in Hck as [[Hne Hc] Hck']. simpl concat in *. rewrite blen_app in Hb.
  pose proof (blen_nonneg (concat cs)).
  assert (blen (cbuf_data BNull) + blen c < COMMAND_MAX_DATA) as Hb0 by (simpl cbuf_data; rewrite blen_nil; lia).
  destruct cs as [|c' cs]; simpl is_nil.
  - exists (w_chan w), (BToken c), false. simpl concat. rewrite app_nil_r. split; [|done].
    by rewrite (loop_inr _ _ _ _ _ _ (body_last true false c BNull false w eq_refl Hc Hb0)).
  - destruct (body_continue true false c BNull false _ _ _ _ _ w Hfits Hsel eq_refl Hc Hb0 Hin)
      as (ch & E & Hin' & Hsent).
    rewrite (loop_inl _ _ _ _ _ _ E). simpl cbuf_append.
    destruct (assemble_rest cs c' fuel c a' rest (arrived ch w) Hfits Hsel Hin' Hck')
      as (ch' & E' & Hin'' & Hsent'); [done|lia|simpl in Hfuel; lia|].
    rewrite E'. exists ch', (BHeap (c ++ concat (c' :: cs))), true.
    split; [done|]. split; [done|]. split; [by eexists|]. split; [done|exact (unwritten_trans _ _ _ Hsent Hsent')].
Qed.

Lemma command_tokens_length l : forall f, length (command_tokens f l) = length l.
Proof. induction l; intros f; simpl; auto. Qed.

Lemma handle_command_tokens cfg argv c cs a' rest w :
  wrap_fits -> can_wait w -> incoming (command_tokens false cs) a' rest (w_chan w) ->
  Forall chunk_ok (c :: cs) -> command_ok argv ->
  concat (c :: cs) = encode_command argv -> blen (encode_command argv) < COMMAND_MAX_DATA ->
  exists ch, server_v2_handle_command acl_fuel cfg (v2_header (continue_status true (is_nil cs)) ++ c) w =
      (do* server_run_command acl_fuel cfg argv in not_fatal) (arrived ch w) /\
    incoming [] a' rest ch /\ unwritten (w_chan w) ch.
Proof.
  intros Hfits Hsel Hin Hck Hok Hcat Hb.
  assert (length cs < serve_fuel w)%nat as Hfuel.
  { destruct Hin as (a & W & HW & _ & _ & Hrd). unfold serve_fuel. rewrite Hrd, length_app.
    pose proof (wrapped_fuel _ _ _ _ HW) as Hlen. rewrite command_tokens_length in Hlen. lia. }
  destruct (assemble c cs a' rest w (serve_fuel w) Hfits Hsel Hin Hck)
    as (ch & b & allocated & E & Hd & Hheap & Hin' & Hsent); [by rewrite Hcat|done|].
  exists ch. split; [|done]. unfold server_v2_handle_command.
  rewrite (bind_Ret _ _ w (serve_fuel w) w) by done. rewrite (bind_Ret _ _ _ _ _ E).
  rewrite Hd, Hcat, (bind_Ret _ _ _ _ _ (parse_command_encoded argv (arrived ch w) Hok)).
  unfold bind at 1. destruct allocated; [|done]. by destruct (Hheap eq_refl) as [d ->].
Qed.

(** Receiving and handling the tokens of a command. *)
Lemma command_received cfg argv chunks a' rest w :
  wrap_fits -> can_wait w -> incoming (command_tokens true chunks) a' rest (w_chan w) -> Forall chunk_ok chunks -> command_ok argv ->
  concat chunks = encode_command argv -> blen (encode_command argv) < COMMAND_MAX_DATA ->
  exists ch,
    (let* (status, tok) := server_v2_read_token in server_v2_handle_token acl_fuel cfg tok) w =
    (do* server_run_command acl_fuel cfg argv in not_fatal) (arrived ch w) /\
    gss_sync a' (ch_ctx ch) /\ rd_bytes (k_read (ch_net ch)) = rest /\ unwritten (w_chan w) ch.
Proof.
  intros Hfits Hsel Hin Hck Hok Hcat Hb. destruct chunks as [|c cs].
  { exfalso. apply (f_equal blen) in Hcat. rewrite blen_encode_command in Hcat. simpl in Hcat.
    pose proof (blen_nonneg (encode_args argv)). rewrite blen_nil in Hcat. lia. }
  destruct (read_token_incoming _ _ _ _ _ Hfits Hsel Hin) as (ch & Eread & Hin' & Hsent).
  destruct (handle_command_tokens cfg argv c cs _ rest (put_chan ch w) Hfits Hsel Hin' Hck Hok Hcat Hb)
    as (ch' & Ecmd & (a & W & HW' & Hs' & _ & Hrd') & Hsent').
  inversion HW'; subst. exists ch'. split; [|split; [done|split; [done|exact (unwritten_trans _ _ _ Hsent Hsent')]]].
  rewrite (bind_Ret _ _ _ _ _ Eread). unfold server_v2_handle_token, char_of. simpl. exact Ecmd.
Qed.
End delivery.

(** C3: a command the client sends is the command the server runs.  If
    [internal_v2_commandv argv] succeeds on the client, with [argv] within the
    server's limits, and the server's end of the connection is in step and
    receives the bytes that were sent, in whatever pieces and without errors, on
    a descriptor that [select] can wait for, then reading one token and handling
    it (which reads the continuation tokens) is running exactly [argv], with the
    keep-alive flag set and the bytes of this command consumed. *)
Theorem command_delivery {C} `{GssLaws C} `{AclEnv} acl_fuel cfg argv (cw cw' : cl C) (w : world C) sent rest :
  command_ok argv -> blen (encode_command argv) < COMMAND_MAX_DATA -> wrap_fits ->
  internal_v2_commandv argv cw = Ret true cw' ->
  n_out (ch_net (cl_chan cw')) = n_out (ch_net (cl_chan cw)) ++ sent ->
  gss_sync (ch_ctx (cl_chan cw)) (ch_ctx (w_chan w)) -> calm TIMEOUT (ch_net (w_chan w)) ->
  can_wait w -> rd_bytes (k_read (ch_net (w_chan w))) = sent ++ rest ->
  exists ch,
    (let* (status, tok) := server_v2_read_token in server_v2_handle_token acl_fuel cfg tok) w =
    (do* server_run_command acl_fuel cfg argv in not_fatal) (arrived ch w) /\
    gss_sync (ch_ctx (cl_chan cw')) (ch_ctx ch) /\ rd_bytes (k_read (ch_net ch)) = rest /\
    unwritten (w_chan w) ch.
Proof.
  intros Hok Hb Hfits E Hout Hsync Hcalm Hsel Hrd.
  destruct (command_sent_tokens argv cw cw' sent Hok E Hout) as (chunks & Hcat & Hck & HW).
  eapply command_received; [done|done| |done..]. by eexists _, sent.
Qed.

(** The server's end of a connection that [sent] has arrived on. *)
Definition demo_receiver (sent : bytes) : world unit :=
  World (Chan (Net [RdData sent] [] [] [] [] 0 false) tt []) demo_client [] [] [] [] null_net null_net.

(** The wire bytes of protocol two tokens under the identity mechanism. *)
Definition null_wire (toks : list bytes) : bytes := concat (map (token_wire v2_flags) toks).

Lemma null_wrapped toks :
  Forall (fun t => blen t <= TOKEN_MAX_DATA) toks -> @wrapped unit null_mech tt toks (null_wire toks) tt.
Proof. induction 1 as [|t toks Ht _ IH]; [apply wrapped_nil|by eapply wrapped_cons]. Qed.

Lemma demo_receiver_calm sent : sent <> [] -> calm TIMEOUT (ch_net (w_chan (demo_receiver sent))).
Proof.
  intros Hs. split; [by destruct sent; repeat constructor|]. split; [split; constructor|].
  intros _. split; [done|]. intros a b ->%list_elem_of_singleton ->%list_elem_of_singleton. done.
Qed.

Lemma null_fits : @wrap_fits unit null_mech.
Proof. intros c m o c' [= <- <-]. unfold TOKEN_MAX_DATA, TOKEN_MAX_LENGTH. lia. Qed.

Lemma command_delivery_witness :
  let _ := null_mech in let _ := null_laws in let _ := demo_env in
  let argv := [str "ls"; str "-l"] in
  exists cw' sent, internal_v2_commandv argv demo_cl = Ret true cw' /\
    n_out (ch_net (cl_chan cw')) = [] ++ sent /\
    exists ch,
      (let* (status, tok) := server_v2_read_token in server_v2_handle_token 1 [] tok) (demo_receiver sent) =
      (do* server_run_command 1 [] argv in not_fatal) (arrived ch (demo_receiver sent)) /\
      gss_sync (ch_ctx (cl_chan cw')) (ch_ctx ch) /\ rd_bytes (k_read (ch_net ch)) = [] /\
      unwritten (w_chan (demo_receiver sent)) ch.
Proof.
  intros mech laws env argv.
  assert (exists cw', internal_v2_commandv argv demo_cl = Ret true cw') as [cw' E]
    by (eexists; vm_compute; reflexivity).
  exists cw'. exists (n_out (ch_net (cl_chan cw'))). split; [exact E|]. split; [done|].
  apply (command_delivery 1 [] argv demo_cl cw' (demo_receiver (n_out (ch_net (cl_chan cw'))))
    (n_out (ch_net (cl_chan cw'))) []);
    [|by vm_compute|exact null_fits|exact E|done|done| |by right|].
  - split; [by vm_compute|]. split; [repeat constructor|by vm_compute].
  - apply demo_receiver_calm. vm_compute in E. by injection E as <-.
  - unfold rd_bytes. simpl. by rewrite ?app_nil_r.
Defined.

(** The server reads past a short command token.  Handling any token of
    fewer than eight bytes that starts a command and does not announce a
    continuation leaves the token's bytes: the continue status or the argument
    count is read without looking at the length. *)
Lemma short_command_overread {C} `{GssMech C} `{AclEnv} acl_fuel cfg v ka rest (w : world C) :
  v = bz 2 \/ v = bz 3 -> blen rest < 5 -> (forall p3, head rest = Some p3 -> p3 = bz 0) ->
  server_v2_handle_token acl_fuel cfg ([v; bz MESSAGE_COMMAND; ka] ++ rest) w = Fault.
Proof.
  intros Hv Hl Hp3. unfold server_v2_handle_token, char_of.
  assert (forall k : bool, negb (bs v =? 2) && negb (bs v =? 3) = false) as Hver
    by (intros _; by destruct Hv as [-> | ->]).
  rewrite (bind_Ret _ _ w (bs v) w) by done. rewrite Hver by exact true.
  rewrite (bind_Ret _ _ w 1 w) by done. simpl.
  unfold server_v2_handle_command. rewrite (bind_Ret _ _ w (serve_fuel w) w) by done.
  unfold serve_fuel. unfold bind at 1. rewrite loop_S. unfold handle_command_body, char_of, bind. simpl lookup. simpl from_option_fault.
  rewrite (proj2 (Z.ltb_ge TOKEN_MAX_DATA _)) by (unfold TOKEN_MAX_DATA; zlist).
  destruct rest as [|p3 rest]; [done|]. rewrite (Hp3 p3 eq_refl). simpl.
  rewrite blen_cons in Hl.
  assert ((u64 (COMMAND_MAX_DATA - blen (@nil byte)) <=?
           blen (zdrop 4 (v :: bz MESSAGE_COMMAND :: ka :: bz 0 :: rest))) = false) as Hu.
  { apply Z.leb_gt. change (zdrop 4 _) with rest. change (u64 _) with COMMAND_MAX_DATA. unfold COMMAND_MAX_DATA. lia. }
  simpl in Hu. rewrite Hu. simpl.
  change (zdrop 4 _) with rest. rewrite parse_command_short; [done|lia].
Qed.

Lemma short_command_overread_witness :
  let _ := null_mech in let _ := demo_env in
  server_v2_handle_token 1 [] ([bz 2; bz MESSAGE_COMMAND; bz 1] ++ [bz 0; bz 0; bz 0]) (demo_receiver []) = Fault.
Proof.
  intros mech env. apply (short_command_overread 1 [] (bz 2) (bz 1) [bz 0; bz 0; bz 0] (demo_receiver []));
    [by left|by vm_compute|by intros p3 [= <-]].
Defined.

(** Where the descriptor is out of the range of [select], waiting for a token
    is undefined behaviour. *)
Lemma read_token_unselectable {C} `{GssMech C} (w : world C) : ~ can_wait w -> server_v2_read_token w = Fault.
Proof.
  intros Hn. unfold server_v2_read_token, bind. rewrite server_recv_eq.
  unfold on_chan, zoom, token_recv_priv, on_net, bind, token_recv, zoom. unfold bind.
  by rewrite network_read_fault.
Qed.

Lemma first_empty_unselectable {C} `{GssMech C} `{AclEnv} acl_fuel cfg (w : world C) : ~ can_wait w ->
  server_v2_handle_token acl_fuel cfg (v2_header 1 ++ []) w = Fault.
Proof.
  intros Hn.
  assert (forall f, loop (S f) handle_command_body (v2_header 1 ++ [], BNull, false, false) w = Fault) as Hl; cycle 1.
  { unfold server_v2_handle_token, char_of.
    rewrite (bind_Ret _ _ w 2 w) by done. simpl. rewrite (bind_Ret _ _ w 1 w) by done. simpl.
    unfold server_v2_handle_command. rewrite (bind_Ret _ _ w (serve_fuel w) w) by done. unfold bind at 1, serve_fuel.
    match goal with |- match ?l with _ => _ end = _ => enough (l = Fault) as -> by done end. exact (Hl _). }
  intros f. rewrite loop_S. unfold bind at 1.
  pose proof (body_token true false false [] BNull false w eq_refl ltac:(by vm_compute) ltac:(by vm_compute)) as E.
  change (v2_header (continue_status true false) ++ []) with (v2_header 1 ++ []) in E. rewrite E.
  cbn [negb orb]. unfold server_v2_read_continuation, bind. by rewrite read_token_unselectable.
Qed.

(** C39: empty continuation tokens make the server free a pointer into its
    token.  When a command announced by an empty first token continues with
    an empty token and ends with one that carries a whole command, the buffer
    is the third token's memory while the code believes it has allocated it,
    and the command is parsed and then freed where no block starts. *)
Theorem empty_continuation_invalid_free {C} `{GssLaws C} `{AclEnv} acl_fuel cfg argv a' rest (w : world C) :
  command_ok argv -> 4 + blen (encode_command argv) <= TOKEN_MAX_DATA -> wrap_fits ->
  incoming [v2_header 2 ++ []; v2_header 3 ++ encode_command argv] a' rest (w_chan w) ->
  server_v2_handle_token acl_fuel cfg (v2_header 1 ++ []) w = Fault.
Proof.
  intros Hok Hl Hfits Hin. destruct (decide (can_wait w)) as [Hsel|Hn]; [|by apply first_empty_unselectable].
  unfold server_v2_handle_token, char_of.
  rewrite (bind_Ret _ _ w 2 w) by done. simpl. rewrite (bind_Ret _ _ w 1 w) by done. simpl.
  unfold server_v2_handle_command. rewrite (bind_Ret _ _ w (serve_fuel w) w) by done.
  assert (exists f, serve_fuel w = S (S (S f))) as [f ->].
  { pose proof Hin as (a & W & HW & _ & _ & Hrd). pose proof (wrapped_fuel _ _ _ _ HW) as Hlen.
    unfold serve_fuel. rewrite Hrd, length_app. simpl in Hlen.
    exists (length W + length rest - 2)%nat. lia. }
  destruct (body_continue true false [] BNull false _ _ _ _ _ w Hfits Hsel eq_refl ltac:(by vm_compute)
    ltac:(by vm_compute) Hin) as (ch & E1 & Hin1 & _).
  destruct (body_continue false true [] (BHeap []) true _ _ _ _ _ (arrived ch w) Hfits Hsel eq_refl
    ltac:(by vm_compute) ltac:(by vm_compute) Hin1) as (ch2 & E2 & Hin2 & _).
  pose proof (body_last false true (encode_command argv) BNull true (arrived ch2 (arrived ch w)) eq_refl Hl
    ltac:(simpl cbuf_data; rewrite blen_nil; unfold COMMAND_MAX_DATA, TOKEN_MAX_DATA in *; lia)) as E3.
  rewrite (bind_Ret _ _ _ _ _ (eq_trans (loop_inl _ _ _ _ _ _ E1) (eq_trans (loop_inl _ _ _ _ _ _ E2)
    (loop_inr _ _ _ _ _ _ E3)))).
  cbn [cbuf_null cbuf_data]. by rewrite (bind_Ret _ _ _ _ _ (parse_command_encoded argv _ Hok)).
Qed.

Lemma empty_continuation_invalid_free_witness :
  let _ := null_mech in let _ := null_laws in let _ := demo_env in
  let toks := [v2_header 2 ++ []; v2_header 3 ++ encode_command [str "ls"]] in
  server_v2_handle_token 1 [] (v2_header 1 ++ []) (demo_receiver (null_wire toks)) = Fault.
Proof.
  intros mech laws env toks.
  apply (empty_continuation_invalid_free 1 [] [str "ls"] tt [] (demo_receiver (null_wire toks)));
    [|by vm_compute|exact null_fits|].
  - split; [by vm_compute|]. split; [repeat constructor|by vm_compute].
  - exists tt, (null_wire toks). split; [apply null_wrapped; repeat constructor; by vm_compute|].
    split; [done|]. split; [by apply demo_receiver_calm|]. unfold rd_bytes. simpl. by rewrite ?app_nil_r.
Defined.
