(* ===== verification/Results.v ===== *)
(** Results from server to client over protocol two: each message a sender of
    [server/server-v2.c] puts on the wire is what [internal_v2_output] of
    [client/client-v2.c] returns. *)

From S2P Require Import Prelude Effects Net Tokens Command Client ClientFraming Server Acl Commands Serve Delivery.

(** A message that answers a command. *)
Inductive reply : Type :=
  | ROutput (stream : Z) (d : bytes)
  | RStatus (status : Z)
  | RError (code : error_codes) (msg : bytes).

Definition reply_token (m : reply) : bytes :=
  match m with
  | ROutput st d => [bz 2; bz MESSAGE_OUTPUT; bz st] ++ be32 (blen d) ++ d
  | RStatus n => [bz 2; bz MESSAGE_STATUS; bz (status_byte n)]
  | RError c msg => [bz 2; bz MESSAGE_ERROR] ++ be32 (error_num c) ++ be32 (blen msg) ++ msg
  end.

(** What the client makes of it: the status byte is a signed [char]. *)
Definition reply_seen (m : reply) : remctl_output :=
  match m with
  | ROutput st d => Output REMCTL_OUT_OUTPUT d st 0 0
  | RStatus n => Output REMCTL_OUT_STATUS [] 0 (s8 (status_byte n)) 0
  | RError c msg => Output REMCTL_OUT_ERROR msg 0 0 (error_num c)
  end.

Definition reply_final (m : reply) : bool := match m with ROutput _ _ => false | _ => true end.

(** Messages the client's parser has room for. *)
Definition reply_ok (m : reply) : Prop :=
  match m with
  | ROutput st d => (st = 1 \/ st = 2) /\ blen d < 2 ^ 32
  | RStatus n => True
  | RError c msg => blen msg < 2 ^ 32
  end.

Lemma s8_bz z : bs (bz z) = s8 z.
Proof.
  unfold bs. rewrite bu_bz. unfold s8, u8, swrap. f_equal. apply Zplus_mod_idemp_l.
Qed.

Section seen.
Context {C : Type} `{GssMech C}.
Implicit Types w : cl C.

(** The connection object with the output struct [o]. *)
Definition with_output (o : remctl_output) w : cl C :=
  Cl (set_output (Some o) (cl_r w)) (cl_chan w) (cl_fds w).
Definition finished (b : bool) w : cl C :=
  if b then Cl (set_ready false (cl_r w)) (cl_chan w) (cl_fds w) else w.

Lemma read_string_ok pre d o w :
  blen d < 2 ^ 32 -> blen pre + 4 + blen d < 2 ^ 64 ->
  internal_v2_read_string (pre ++ be32 (blen d) ++ d) (blen pre) (with_output o w) =
  Ret true (with_output (output_data d o) w).
Proof.
  intros Hd Hl. pose proof (blen_nonneg d). pose proof (blen_nonneg pre).
  unfold internal_v2_read_string.
  assert (zsub (blen pre) 4 (pre ++ be32 (blen d) ++ d) = Some (be32 (blen d))) as E1.
  { rewrite zsub_Some by (rewrite ?blen_app, ?blen_be32; lia). f_equal.
    rewrite zdrop_blen_app. apply (ztake_blen_app (be32 (blen d))). }
  assert (zsub (blen pre + 4) (blen d) (pre ++ be32 (blen d) ++ d) = Some d) as E2.
  { rewrite zsub_Some by (rewrite ?blen_app, ?blen_be32; lia). f_equal.
    rewrite app_assoc. replace (blen pre + 4) with (blen (pre ++ be32 (blen d)))
      by (rewrite blen_app, blen_be32; lia).
    by rewrite zdrop_blen_app, ztake_ge by lia. }
  rewrite E1. unfold from_option_fault at 1. rewrite (bind_Ret _ _ _ (be32 (blen d)) (with_output o w)) by done.
  rewrite of_be32_be32, u32_small by lia. rewrite !blen_app, blen_be32.
  rewrite u64_small by lia.
  rewrite (proj2 (Z.eqb_eq _ _)) by lia. cbn [negb]. by rewrite E2.
Qed.

Lemma on_output_with f o w : on_output f (with_output o w) = Ret tt (with_output (f o) w).
Proof. done. Qed.

Lemma error_num_range c : 1 <= error_num c <= 10.
Proof. destruct c; simpl; lia. Qed.

(** The client's reading of each message. *)
Lemma output_token_seen m w : reply_ok m ->
  v2_output_token (reply_token m) (with_output wiped w) =
  Ret (Some (reply_seen m)) (with_output (reply_seen m) (finished (reply_final m) w)).
Proof.
  destruct m as [st d|n|c msg]; intros Hok; unfold v2_output_token, reply_token.
  - destruct Hok as [Hst Hd]. pose proof (blen_nonneg d).
    rewrite (bind_Ret _ _ _ 3 (with_output wiped w)) by done. change (3 =? MESSAGE_OUTPUT) with true. cbv iota.
    rewrite (proj2 (Z.ltb_ge _ _)) by (unfold blen; rewrite !length_app; simpl; lia).
    rewrite (bind_Ret _ _ _ _ _ (on_output_with _ _ _)), (bind_Ret _ _ _ st (with_output (output_type REMCTL_OUT_OUTPUT wiped) w))
      by (by destruct Hst as [-> | ->]).
    rewrite (proj2 (andb_false_iff _ _)) by (destruct Hst as [-> | ->]; auto).
    rewrite (bind_Ret _ _ _ _ _ (on_output_with _ _ _)).
    pose proof (read_string_ok [bz 2; bz MESSAGE_OUTPUT; bz st] d (output_stream st (output_type REMCTL_OUT_OUTPUT wiped)) w Hd
      ltac:(unfold blen in *; simpl; lia)) as E.
    by rewrite (bind_Ret _ _ _ _ _ E).
  - rewrite (bind_Ret _ _ _ 4 (with_output wiped w)) by done. simpl. unfold bind. simpl. by rewrite s8_bz.
  - simpl in Hok. pose proof (blen_nonneg msg). pose proof (error_num_range c).
    rewrite (bind_Ret _ _ _ 5 (with_output wiped w)) by done.
    change (5 =? MESSAGE_OUTPUT) with false. change (5 =? MESSAGE_STATUS) with false.
    change (5 =? MESSAGE_ERROR) with true. cbv iota.
    rewrite (proj2 (Z.ltb_ge _ _)) by (unfold blen; rewrite !length_app; simpl; lia).
    rewrite (bind_Ret _ _ _ _ _ (on_output_with _ _ _)).
    set (w1 := with_output _ w).
    assert (zsub 2 4 ([bz 2; bz MESSAGE_ERROR] ++ be32 (error_num c) ++ be32 (blen msg) ++ msg) = Some (be32 (error_num c))) as E1.
    { rewrite zsub_Some by (unfold blen; rewrite ?length_app; simpl; lia). done. }
    rewrite E1, (bind_Ret _ _ _ (be32 (error_num c)) w1) by done.
    rewrite of_be32_be32, u32_small by lia.
    assert (s32 (error_num c) = error_num c) as -> by (by destruct c).
    unfold w1. rewrite (bind_Ret _ _ _ _ _ (on_output_with _ _ _)). rewrite app_assoc.
    pose proof (read_string_ok ([bz 2; bz MESSAGE_ERROR] ++ be32 (error_num c)) msg
      (output_error (error_num c) (output_type REMCTL_OUT_ERROR wiped)) w Hok
      ltac:(unfold blen in *; simpl; lia)) as E.
    change (blen ([bz 2; bz MESSAGE_ERROR] ++ be32 (error_num c))) with 6 in E.
    by rewrite (bind_Ret _ _ _ _ _ E).
Qed.
End seen.

(** ** The connection in between *)

Section delivery.
Context {C : Type} `{GssLaws C}.

(** The sender of each message. *)
Definition send_reply (m : reply) : M (world C) bool :=
  match m with
  | ROutput st d => server_v2_send_output st d
  | RStatus n => server_v2_command_finish None n
  | RError c msg => server_v2_send_error c msg
  end.

Lemma v2_send_true what tok (w w' : world C) :
  v2_send what tok w = Ret true w' -> w' = put_chan (w_chan w') w /\ blen tok <= TOKEN_MAX_DATA /\ exists out,
    gss_wrap (ch_ctx (w_chan w)) tok = (GSS_S_COMPLETE, out, ch_ctx (w_chan w')) /\
    n_out (ch_net (w_chan w')) = n_out (ch_net (w_chan w)) ++ token_wire v2_flags out.
Proof.
  intros E. unfold v2_send in E. apply bind_Ret_inv in E as (st & w1 & E1 & E).
  destruct (status_ok st) eqn:Est; simpl in E;
    [|by apply bind_Ret_inv in E as (? & ? & _ & (? & ? & _ & ?)%bind_Ret_inv)].
  injection E as <-. apply bool_decide_eq_true in Est as ->.
  rewrite server_send_eq in E1. unfold on_chan, zoom in E1.
  destruct (token_send_priv _ v2_flags tok TIMEOUT (w_chan w)) as [st ch| | |] eqn:Es; [|done..].
  injection E1 as -> <-. simpl. split; [done|]. by apply token_send_priv_ok in Es.
Qed.

Lemma send_reply_true m (w w' : world C) : send_reply m w = Ret true w' ->
  w' = put_chan (w_chan w') w /\ blen (reply_token m) <= TOKEN_MAX_DATA /\ exists out,
    gss_wrap (ch_ctx (w_chan w)) (reply_token m) = (GSS_S_COMPLETE, out, ch_ctx (w_chan w')) /\
    n_out (ch_net (w_chan w')) = n_out (ch_net (w_chan w)) ++ token_wire v2_flags out.
Proof.
  destruct m as [st d|n|c msg]; simpl; intros E.
  - unfold server_v2_send_output in E. destruct (_ || _); [done|]. destruct (_ <=? _); [done|].
    by apply v2_send_true in E.
  - by apply v2_send_true in E.
  - unfold server_v2_send_error in E. destruct (_ <=? _); [done|]. by apply v2_send_true in E.
Qed.
(** A message that arrives, wrapped, on a connection that waits for it. *)
Lemma v2_output_wire m a out a' (cw : cl C) rest :
  reply_ok m -> wrap_fits -> blen (reply_token m) <= TOKEN_MAX_DATA ->
  gss_wrap a (reply_token m) = (GSS_S_COMPLETE, out, a') ->
  connected cw -> r_ready (cl_r cw) = true ->
  gss_sync a (ch_ctx (cl_chan cw)) -> calm (r_timeout (cl_r cw)) (ch_net (cl_chan cw)) ->
  rd_bytes (k_read (ch_net (cl_chan cw))) = token_wire v2_flags out ++ rest ->
  exists cw', internal_v2_output cw = Ret (Some (reply_seen m)) cw' /\
    r_ready (cl_r cw') = negb (reply_final m) /\ r_output (cl_r cw') = Some (reply_seen m) /\
    gss_sync a' (ch_ctx (cl_chan cw')) /\
    rd_bytes (k_read (ch_net (cl_chan cw'))) = rest /\ calm (r_timeout (cl_r cw')) (ch_net (cl_chan cw')).
Proof.
  intros Hok Hfits Hl Hw Hconn Hready Hsync Hcalm Hrd.
  pose proof (Hfits _ _ _ _ Hw Hl) as Hlo.
  unfold internal_v2_output. set (cw1 := with_output wiped cw).
  rewrite (bind_Ret _ _ cw tt cw1) by done. rewrite (bind_Ret _ _ cw1 true cw1) by (by unfold field, gets; simpl; rewrite Hready).
  cbn [negb]. destruct Hconn as (fd & Hfd & Hin & Hsel).
  pose proof (token_recv_priv_wire fd v2_flags (reply_token m) out a a' (cl_chan cw)
    TOKEN_MAX_LENGTH (r_timeout (cl_r cw)) rest Hsel Hsync Hw eq_refl ltac:(by vm_compute; split) Hlo
    ltac:(unfold TOKEN_MAX_LENGTH in *; lia) Hcalm Hrd) as Hrecv.
  apply runs_elim in Hrecv as (r & ch & Er & -> & Hs' & Hrd' & Hc' & _).
  set (cw2 := Cl (cl_r cw1) ch (cl_fds cw1)).
  assert (recv_priv cw1 = Ret (TOKEN_OK, v2_flags, reply_token m) cw2) as Erecv.
  { unfold recv_priv, on_fd, bind, field, gets, zoom. simpl.
    rewrite Hfd, bool_decide_eq_true_2 by done. by rewrite Er. }
  assert (internal_v2_read_token cw1 = Ret (Some (reply_token m)) cw2) as Eread.
  { unfold internal_v2_read_token. rewrite (bind_Ret _ _ _ _ _ Erecv). cbn [negb status_ok].
    rewrite Z.eqb_refl. cbn [negb].
    rewrite (proj2 (Z.ltb_ge _ _)) by (destruct m; unfold blen, reply_token; rewrite ?length_app; simpl; lia).
    by destruct m. }
  rewrite (bind_Ret _ _ _ _ _ Eread).
  pose proof (output_token_seen m (Cl (cl_r cw) ch (cl_fds cw)) Hok) as Eseen.
  change cw2 with (with_output wiped (Cl (cl_r cw) ch (cl_fds cw))). rewrite Eseen.
  eexists. split; [done|]. destruct m; simpl; done.
Qed.
End delivery.

(** C5: what the server answers is what the client sees.  If a protocol two
    sender succeeds on the server and the client's end of the connection is in
    step, waits for output ([connected]: with a descriptor that [select] can
    wait for) and receives the bytes that were sent, in whatever pieces and
    without errors, then [internal_v2_output] returns the same
    output data and stream, error code and message, or the status byte as a
    signed number, consumes just those bytes, and expects more output exactly
    after output. *)
Theorem reply_delivery {C} `{GssLaws C} m (w w' : world C) (cw : cl C) sent rest :
  reply_ok m -> wrap_fits -> send_reply m w = Ret true w' ->
  n_out (ch_net (w_chan w')) = n_out (ch_net (w_chan w)) ++ sent ->
  connected cw -> r_ready (cl_r cw) = true ->
  gss_sync (ch_ctx (w_chan w)) (ch_ctx (cl_chan cw)) -> calm (r_timeout (cl_r cw)) (ch_net (cl_chan cw)) ->
  rd_bytes (k_read (ch_net (cl_chan cw))) = sent ++ rest ->
  exists cw', internal_v2_output cw = Ret (Some (reply_seen m)) cw' /\
    r_ready (cl_r cw') = negb (reply_final m) /\ r_output (cl_r cw') = Some (reply_seen m) /\
    gss_sync (ch_ctx (w_chan w')) (ch_ctx (cl_chan cw')) /\
    rd_bytes (k_read (ch_net (cl_chan cw'))) = rest /\ calm (r_timeout (cl_r cw')) (ch_net (cl_chan cw')).
Proof.
  intros Hok Hfits E Hout Hconn Hready Hsync Hcalm Hrd.
  apply send_reply_true in E as (_ & Hl & out & Hw & Ho). rewrite Hout in Ho. apply app_inv_head in Ho as ->.
  by eapply v2_output_wire.
Qed.

(** A client that waits for output on a connection where [sent] has
    arrived. *)
Definition demo_waiting (sent : bytes) : cl unit :=
  Cl (set_ready true (cl_r demo_cl)) (Chan (Net [RdData sent] [] [] [] [] 0 false) tt []) {[3]}.

Lemma reply_delivery_witness :
  let _ := null_mech in let _ := null_laws in
  let m := RStatus 200 in
  exists w' sent, send_reply m (demo_world []) = Ret true w' /\
    n_out (ch_net (w_chan w')) = [] ++ sent /\
    exists cw', internal_v2_output (demo_waiting sent) = Ret (Some (reply_seen m)) cw' /\
      r_ready (cl_r cw') = negb (reply_final m) /\ r_output (cl_r cw') = Some (reply_seen m) /\
      gss_sync (ch_ctx (w_chan w')) (ch_ctx (cl_chan cw')) /\
      rd_bytes (k_read (ch_net (cl_chan cw'))) = [] /\ calm (r_timeout (cl_r cw')) (ch_net (cl_chan cw')).
Proof.
  intros mech laws m.
  assert (exists w', send_reply m (demo_world []) = Ret true w') as [w' E]
    by (eexists; vm_compute; reflexivity).
  exists w', (n_out (ch_net (w_chan w'))). split; [exact E|]. split; [done|].
  apply (reply_delivery m (demo_world []) w' (demo_waiting (n_out (ch_net (w_chan w')))) (n_out (ch_net (w_chan w'))) []);
    [done|exact null_fits|exact E|done| |done|done| |].
  - exists 3. split; [done|]. simpl. split; [by apply elem_of_singleton|by left].
  - split; [|split; [split; constructor|done]].
    vm_compute in E. injection E as <-. repeat constructor.
  - unfold rd_bytes. simpl. by rewrite !app_nil_r.
Defined.

Lemma status_byte_range n : s8 (status_byte n) = n <-> -127 <= n <= 127.
Proof.
  unfold status_byte. destruct (Z.ltb_spec 255 n), (Z.ltb_spec n (-127)); simpl;
    try (change (s8 (-1)) with (-1); lia).
  unfold s8, swrap. change (2 ^ (8 - 1)) with 128. change (2 ^ 8) with 256. split.
  - intros E. pose proof (Z.mod_pos_bound (n + 128) 256 ltac:(lia)). lia.
  - intros Hn. rewrite Z.mod_small; lia.
Qed.

(** C38: which exit statuses survive protocol two.  When the server has sent
    the status of a command with [server_v2_command_finish], and the client,
    in step and waiting for output, receives what was sent, its
    [internal_v2_output] returns a STATUS message; its status is the one that
    was sent exactly if that is from -127 to 127. *)
Theorem status_byte_faithful {C} `{GssLaws C} n (w w' : world C) (cw : cl C) sent rest :
  wrap_fits -> server_v2_command_finish None n w = Ret true w' ->
  n_out (ch_net (w_chan w')) = n_out (ch_net (w_chan w)) ++ sent ->
  connected cw -> r_ready (cl_r cw) = true ->
  gss_sync (ch_ctx (w_chan w)) (ch_ctx (cl_chan cw)) -> calm (r_timeout (cl_r cw)) (ch_net (cl_chan cw)) ->
  rd_bytes (k_read (ch_net (cl_chan cw))) = sent ++ rest ->
  exists o cw', internal_v2_output cw = Ret (Some o) cw' /\ o_type o = REMCTL_OUT_STATUS /\
    (o_status o = n <-> -127 <= n <= 127).
Proof.
  intros Hfits E Hout Hconn Hready Hsync Hcalm Hrd.
  apply (send_reply_true (RStatus n)) in E as (_ & Hl & out & Hw & Ho). rewrite Hout in Ho. apply app_inv_head in Ho as ->.
  destruct (v2_output_wire (RStatus n) _ out _ cw rest I Hfits Hl Hw Hconn Hready Hsync Hcalm Hrd) as (cw' & Ec & _).
  exists (reply_seen (RStatus n)), cw'. split; [exact Ec|]. split; [done|]. apply status_byte_range.
Qed.

(** A status of 200 does not survive. *)
Lemma status_byte_faithful_witness :
  let _ := null_mech in let _ := null_laws in
  exists w' sent, server_v2_command_finish None 200 (demo_world []) = Ret true w' /\
    n_out (ch_net (w_chan w')) = [] ++ sent /\
    exists o cw', internal_v2_output (demo_waiting sent) = Ret (Some o) cw' /\ o_type o = REMCTL_OUT_STATUS /\
      (o_status o = 200 <-> -127 <= 200 <= 127).
Proof.
  intros mech laws.
  assert (exists w', server_v2_command_finish None 200 (demo_world []) = Ret true w') as [w' E]
    by (eexists; vm_compute; reflexivity).
  exists w', (n_out (ch_net (w_chan w'))). split; [exact E|]. split; [done|].
  apply (status_byte_faithful 200 (demo_world []) w' (demo_waiting (n_out (ch_net (w_chan w')))) (n_out (ch_net (w_chan w'))) []);
    [exact null_fits|exact E|done| |done|done| |].
  - exists 3. split; [done|]. simpl. split; [by apply elem_of_singleton|by left].
  - split; [|split; [split; constructor|done]].
    vm_compute in E. injection E as <-. repeat constructor.
  - unfold rd_bytes. simpl. by rewrite !app_nil_r.
Defined.

(** ** Protocol one *)

Lemma v1_send_true {C} `{GssMech C} d n (w w' : world C) :
  server_v1_send_output (Some d) n w = Ret true w' ->
  8 + blen d <= TOKEN_MAX_DATA /\ exists out,
    gss_wrap (ch_ctx (w_chan w)) (be32 n ++ be32 (blen d) ++ d) = (GSS_S_COMPLETE, out, ch_ctx (w_chan w')) /\
    n_out (ch_net (w_chan w')) = n_out (ch_net (w_chan w)) ++ token_wire TOKEN_DATA out.
Proof.
  intros E. unfold server_v1_send_output in E. rewrite (bind_Ret _ _ w d w) in E by done.
  destruct (_ <=? _); [done|]. apply bind_Ret_inv in E as (st & w1 & E1 & E).
  destruct (status_ok st) eqn:Est; simpl in E; [|by apply bind_Ret_inv in E as (? & ? & _ & ?)].
  injection E as <-. apply bool_decide_eq_true in Est as ->.
  rewrite server_send_eq in E1. unfold on_chan, zoom in E1.
  destruct (token_send_priv _ TOKEN_DATA _ TIMEOUT (w_chan w)) as [st ch| | |] eqn:Es; [|done..].
  injection E1 as -> <-. simpl. apply token_send_priv_ok in Es as [Hl He]; [|done]. split; [|exact He].
  rewrite !blen_app, !blen_be32 in Hl. lia.
Qed.

Lemma v1_token_seen {C} `{GssMech C} d n (w : cl C) :
  blen d < 2 ^ 32 ->
  v1_output_token (be32 n ++ be32 (blen d) ++ d) w =
  Ret (Some (Output REMCTL_OUT_OUTPUT d 1 0 0))
    (Cl (set_ready false (set_fd None (set_context false
           (set_output (Some (Output REMCTL_OUT_OUTPUT d 1 0 0)) (set_status (s32 (u32 n)) (cl_r w))))))
        (cl_chan w) (match r_fd (cl_r w) with Some fd => cl_fds w ∖ {[fd]} | None => cl_fds w end)).
Proof.
  intros Hd. pose proof (blen_nonneg d). unfold v1_output_token.
  assert (blen (be32 n ++ be32 (blen d) ++ d) = 8 + blen d) as -> by (rewrite !blen_app, !blen_be32; lia).
  rewrite (proj2 (Z.ltb_ge _ _)) by lia.
  assert (zsub 0 4 (be32 n ++ be32 (blen d) ++ d) = Some (be32 n)) as ->.
  { rewrite zsub_Some by (rewrite ?blen_app, ?blen_be32; lia). done. }
  rewrite (bind_Ret _ _ w (be32 n) w) by done. rewrite of_be32_be32.
  set (w1 := Cl (set_status (s32 (u32 n)) (cl_r w)) (cl_chan w) (cl_fds w)).
  rewrite (bind_Ret _ _ w tt w1) by done.
  assert (zsub 4 4 (be32 n ++ be32 (blen d) ++ d) = Some (be32 (blen d))) as ->.
  { rewrite zsub_Some by (rewrite ?blen_app, ?blen_be32; lia). done. }
  rewrite (bind_Ret _ _ w1 (be32 (blen d)) w1) by done. rewrite of_be32_be32, (u32_small (blen d)) by lia.
  rewrite u64_small by (unfold blen in *; lia). rewrite (proj2 (Z.eqb_eq _ _)) by lia. cbn [negb].
  assert (zsub 8 (blen d) (be32 n ++ be32 (blen d) ++ d) = Some d) as ->.
  { rewrite zsub_Some by (rewrite ?blen_app, ?blen_be32; lia).
    change (zdrop 8 (be32 n ++ be32 (blen d) ++ d)) with d. by rewrite ztake_ge by lia. }
  done.
Qed.

Lemma s32_u32 n : - 2 ^ 31 <= n < 2 ^ 31 -> s32 (u32 n) = n.
Proof.
  intros Hn. unfold s32, swrap, u32. change (2 ^ (32 - 1)) with (2 ^ 31).
  rewrite Zplus_mod_idemp_l, Z.mod_small; lia.
Qed.

(** C31: a protocol one result arrives whole.  If [server_v1_send_output]
    succeeds and a client that waits for its result on the other end, with a
    descriptor below [FD_SETSIZE] if it has a timeout, receives the bytes
    without errors, then three calls of [internal_v1_output] return
    the output as one chunk on stream 1, the exact exit status, and the end;
    after the first the connection is closed and its descriptor forgotten. *)
Theorem v1_result_delivery {C} `{GssLaws C} d n (w w' : world C) (cw : cl C) fd sent rest :
  - 2 ^ 31 <= n < 2 ^ 31 -> wrap_fits -> server_v1_send_output (Some d) n w = Ret true w' ->
  n_out (ch_net (w_chan w')) = n_out (ch_net (w_chan w)) ++ sent ->
  r_fd (cl_r cw) = Some fd -> fd ∈ cl_fds cw -> selectable fd (r_timeout (cl_r cw)) -> r_ready (cl_r cw) = true ->
  gss_sync (ch_ctx (w_chan w)) (ch_ctx (cl_chan cw)) -> calm (r_timeout (cl_r cw)) (ch_net (cl_chan cw)) ->
  rd_bytes (k_read (ch_net (cl_chan cw))) = sent ++ rest ->
  exists cw1 cw2 cw3,
    internal_v1_output cw = Ret (Some (Output REMCTL_OUT_OUTPUT d 1 0 0)) cw1 /\
    internal_v1_output cw1 = Ret (Some (Output REMCTL_OUT_STATUS [] 0 n 0)) cw2 /\
    internal_v1_output cw2 = Ret (Some (Output REMCTL_OUT_DONE [] 0 n 0)) cw3 /\
    r_fd (cl_r cw1) = None /\ fd ∉ cl_fds cw1 /\ rd_bytes (k_read (ch_net (cl_chan cw1))) = rest.
Proof.
  intros Hn Hfits E Hout Hfd Hin Hsel Hready Hsync Hcalm Hrd.
  apply v1_send_true in E as (Hl & out & Hw & Ho). rewrite Hout in Ho. apply app_inv_head in Ho as ->.
  pose proof (blen_nonneg d). unfold TOKEN_MAX_DATA in Hl.
  assert (blen (be32 n ++ be32 (blen d) ++ d) <= TOKEN_MAX_DATA) as Hl'
    by (rewrite !blen_app, !blen_be32; unfold TOKEN_MAX_DATA; lia).
  pose proof (Hfits _ _ _ _ Hw Hl') as Hlo.
  pose proof (token_recv_priv_wire fd TOKEN_DATA _ out (ch_ctx (w_chan w)) _ (cl_chan cw)
    TOKEN_MAX_LENGTH (r_timeout (cl_r cw)) rest Hsel Hsync Hw eq_refl ltac:(by vm_compute; split) Hlo
    ltac:(unfold TOKEN_MAX_LENGTH in *; lia) Hcalm Hrd) as Hrecv.
  apply runs_elim in Hrecv as (r & ch & Er & -> & Hs' & Hrd' & Hc' & _).
  assert (recv_priv cw = Ret (TOKEN_OK, TOKEN_DATA, be32 n ++ be32 (blen d) ++ d) (Cl (cl_r cw) ch (cl_fds cw))) as Erecv.
  { unfold recv_priv, on_fd, bind, field, gets, zoom. rewrite Hfd, bool_decide_eq_true_2 by done. by rewrite Er. }
  eexists _, _, _. split; [|split; [|split; [|split; [|split]]]].
  - unfold internal_v1_output. rewrite (bind_Ret _ _ cw (r_output (cl_r cw)) cw) by done.
    rewrite (bind_Ret _ _ cw true cw) by (by unfold field, gets; rewrite Hready).
    rewrite (bind_Ret _ _ cw (r_status (cl_r cw)) cw) by done.
    unfold v1_receive. destruct (r_output (cl_r cw)); rewrite (bind_Ret _ _ _ _ _ Erecv); cbn [negb status_ok];
      rewrite Z.eqb_refl; cbn [negb]; apply v1_token_seen; lia.
  - unfold internal_v1_output, bind. simpl. rewrite s32_u32 by done. reflexivity.
  - reflexivity.
  - done.
  - simpl. rewrite Hfd. set_solver.
  - exact Hrd'.
Qed.

Lemma v1_result_delivery_witness :
  let _ := null_mech in let _ := null_laws in
  exists w' sent, server_v1_send_output (Some (str "ok")) 200 (demo_world []) = Ret true w' /\
    n_out (ch_net (w_chan w')) = [] ++ sent /\
    exists cw1 cw2 cw3,
      internal_v1_output (demo_waiting sent) = Ret (Some (Output REMCTL_OUT_OUTPUT (str "ok") 1 0 0)) cw1 /\
      internal_v1_output cw1 = Ret (Some (Output REMCTL_OUT_STATUS [] 0 200 0)) cw2 /\
      internal_v1_output cw2 = Ret (Some (Output REMCTL_OUT_DONE [] 0 200 0)) cw3 /\
      r_fd (cl_r cw1) = None /\ 3 ∉ cl_fds cw1 /\ rd_bytes (k_read (ch_net (cl_chan cw1))) = [].
Proof.
  intros mech laws.
  assert (exists w', server_v1_send_output (Some (str "ok")) 200 (demo_world []) = Ret true w') as [w' E]
    by (eexists; vm_compute; reflexivity).
  exists w', (n_out (ch_net (w_chan w'))). split; [exact E|]. split; [done|].
  apply (v1_result_delivery (str "ok") 200 (demo_world []) w' (demo_waiting (n_out (ch_net (w_chan w')))) 3
    (n_out (ch_net (w_chan w'))) []);
    [done|exact null_fits|exact E|done|done| | |done|done| |].
  - simpl. by apply elem_of_singleton.
  - by left.
  - split; [|split; [split; constructor|done]].
    vm_compute in E. injection E as <-. repeat constructor.
  - unfold rd_bytes. simpl. by rewrite !app_nil_r.
Defined.
