(* ===== verification/Simplified.v ===== *)
(** The simplified interface: [remctl] of [client/api.c] returns the whole
    output and the status of the command the server ran. *)

From S2P Require Import Prelude Effects CLib Net Tokens Connect Command Client ClientFraming Open Api ApiSafe Session Server Acl Commands Serve Delivery Results.

(** * What the replies amount to *)

(** The data of the messages on one stream, [None] without any. *)
Fixpoint stream_data (st : Z) (ms : list reply) : option bytes :=
  match ms with
  | [] => None
  | ROutput s d :: ms =>
      if s =? st then Some (d ++ default [] (stream_data st ms)) else stream_data st ms
  | _ :: ms => stream_data st ms
  end.

Definition buf_of (b : option bytes) : rbuf := match b with None => BufNull | Some d => Buf d end.

(** The result for the output messages [ms] and the final message. *)
Definition result_of (ms : list reply) (final : reply) : remctl_result :=
  Result (match final with RError _ msg => Some ("%s"%string, [AStr msg]) | _ => None end)
         (buf_of (stream_data 1 ms)) (buf_of (stream_data 2 ms))
         (match final with RStatus n => s8 (status_byte n) | _ => 0 end).

(** An output message with data on one of the two streams. *)
Definition output_msg (m : reply) : Prop :=
  match m with ROutput st d => reply_ok m /\ d <> [] | _ => False end.

Definition final_msg (m : reply) : Prop := reply_ok m /\ reply_final m = true.

Lemma stream_data_app st ms st' d :
  stream_data st (ms ++ [ROutput st' d]) =
  if st' =? st then Some (default [] (stream_data st ms) ++ d) else stream_data st ms.
Proof.
  induction ms as [|[s e|n|c msg] ms IH]; cbn [app stream_data].
  - destruct (_ =? _); [|done]. simpl. by rewrite app_nil_r.
  - rewrite IH. destruct (s =? st), (st' =? st); simpl; by rewrite ?app_assoc.
  - done.
  - done.
Qed.

Lemma append_data b d : d <> [] -> append_to (buf_of b) d = Some (Buf (default [] b ++ d)).
Proof.
  intros Hd. destruct b as [e|]; [|done]. simpl. pose proof (blen_nonneg e).
  destruct (Z.eqb_spec (blen e + blen d) 0); [|done]. exfalso. apply Hd, blen_0. pose proof (blen_nonneg d). lia.
Qed.

(** The result while only output has come. *)
Definition so_far (ms : list reply) : remctl_result :=
  Result None (buf_of (stream_data 1 ms)) (buf_of (stream_data 2 ms)) 0.

Lemma append_so_far ms m : output_msg m ->
  internal_output_append (so_far ms) (reply_seen m) = (true, so_far (ms ++ [m])).
Proof.
  destruct m as [st d|n|c msg]; [|done..]. intros [[Hst Hl] Hd]. unfold internal_output_append, so_far.
  cbn [o_type o_stream o_data reply_seen rs_stdout rs_stderr rs_error rs_status]. rewrite !stream_data_app.
  destruct Hst as [-> | ->]; cbn; by rewrite append_data.
Qed.

(** * The calls *)

Section simplified.
Context {C : Type} `{HL : GssLaws C} {HG : GssClient C} {HI : Inet}.
Implicit Types w : api C.

(** The connection is in step with a server at context [a], in protocol two,
    waits for output, and [stream] is what the server's end sent. *)
Definition awaiting F (a : C) (stream : bytes) w : Prop :=
  owns F w /\ r_fd (cl_r (ap_cl w)) <> None /\ r_protocol (cl_r (ap_cl w)) = 2 /\ r_ready (cl_r (ap_cl w)) = true /\
  gss_sync a (ch_ctx (cl_chan (ap_cl w))) /\ calm (r_timeout (cl_r (ap_cl w))) (ch_net (cl_chan (ap_cl w))) /\
  rd_bytes (k_read (ch_net (cl_chan (ap_cl w)))) = stream.

(** One message: [remctl_output] gives it, and waits for more after output. *)
Lemma output_step F a out a' m rest w :
  reply_ok m -> wrap_fits -> blen (reply_token m) <= TOKEN_MAX_DATA ->
  gss_wrap a (reply_token m) = (GSS_S_COMPLETE, out, a') ->
  awaiting F a (token_wire v2_flags out ++ rest) w ->
  exists w', remctl_output_ w = Ret (Some (reply_seen m)) w' /\ owns F w' /\
    (reply_final m = false -> awaiting F a' rest w').
Proof.
  intros Hok Hfits Hl Hw (Ho & Hfd & Hp & Hr & Hs & Hc & Hrd).
  set (c0 := Cl (set_error None (cl_r (ap_cl w))) (cl_chan (ap_cl w)) (cl_fds (ap_cl w))).
  pose proof (owns_connected _ _ Ho Hfd) as Hconn.
  assert (connected c0) as Hconn0 by exact Hconn.
  destruct (v2_output_wire m a out a' c0 rest Hok Hfits Hl Hw Hconn0 Hr Hs Hc Hrd) as (c' & E & Hr' & Ho' & Hs' & Hrd' & Hc').
  pose proof (stays_v2_output c0 Hconn0) as Hk. unfold stays, runs, wp in Hk. rewrite E in Hk.
  destruct Hk as (Hk & _ & Hst). destruct (still_fd _ _ (Hst ltac:(done))) as [Efd _].
  exists (put_cl c' w). split.
  - unfold remctl_output_. rewrite (bind_Ret _ _ w (cl_r (ap_cl w)) w) by (by unfold on_cl, zoom, gets; destruct w).
    rewrite (bool_decide_eq_false_2 (r_fd _ = None)) by done. cbn [andb].
    rewrite (bind_Ret _ _ w tt (put_cl c0 w)) by done. rewrite Hp.
    change (2 =? 1) with false. cbv iota. unfold on_cl, zoom. simpl. by rewrite E.
  - assert (owns F (put_cl c' w)) as Ho2 by (by apply (owns_kept F (put_cl c0 w))).
    split; [exact Ho2|]. intros Hf. destruct Hk as [P _]. unfold peer, c0 in P. simpl in P.
    split; [exact Ho2|]. simpl. split; [by rewrite Efd|]. split; [congruence|]. rewrite Hr', Hf. done.
Qed.

Lemma body_output F a out a' ms m rest w :
  output_msg m -> wrap_fits -> blen (reply_token m) <= TOKEN_MAX_DATA ->
  gss_wrap a (reply_token m) = (GSS_S_COMPLETE, out, a') ->
  awaiting F a (token_wire v2_flags out ++ rest) w ->
  exists w', remctl_body (so_far ms) w = Ret (inl (so_far (ms ++ [m]))) w' /\ awaiting F a' rest w'.
Proof.
  intros Hm Hfits Hl Hw Haw. destruct m as [st d|n|c msg]; [|done..]. pose proof Hm as [Hok _].
  destruct (output_step _ _ _ _ _ _ _ Hok Hfits Hl Hw Haw) as (w' & E & _ & Hnext).
  exists w'. split; [|by apply Hnext]. unfold remctl_body. rewrite (bind_Ret _ _ _ _ _ E).
  by rewrite (append_so_far ms _ Hm).
Qed.

Lemma body_final F a out a' ms m rest w :
  final_msg m -> wrap_fits -> blen (reply_token m) <= TOKEN_MAX_DATA ->
  gss_wrap a (reply_token m) = (GSS_S_COMPLETE, out, a') ->
  awaiting F a (token_wire v2_flags out ++ rest) w ->
  exists w', remctl_body (so_far ms) w = Ret (inr (Some (result_of ms m))) w' /\ cl_fds (ap_cl w') = F.
Proof.
  intros [Hok Hf] Hfits Hl Hw Haw.
  destruct (output_step _ _ _ _ _ _ _ Hok Hfits Hl Hw Haw) as (w1 & E & Ho & _).
  pose proof (close_runs _ _ Ho) as Hc. apply runs_elim in Hc as ([] & w2 & Ec & Hfds & _).
  exists w2. split; [|done]. unfold remctl_body. rewrite (bind_Ret _ _ _ _ _ E).
  destruct m as [st d|n|c msg]; [done|cbn|cbn]; by rewrite (bind_Ret _ _ _ _ _ Ec).
Qed.

Lemma body_loop F final rest : final_msg final -> wrap_fits -> forall ms seen fuel a W a' w,
  Forall output_msg ms -> wrapped a (map reply_token (ms ++ [final])) W a' -> awaiting F a (W ++ rest) w ->
  (length ms < fuel)%nat ->
  exists w', loop fuel remctl_body (so_far seen) w = Ret (Some (result_of (seen ++ ms) final)) w' /\
    cl_fds (ap_cl w') = F.
Proof.
  intros Hfin Hfits. induction ms as [|m ms IH]; intros seen fuel a W a' w Hms HW Haw Hfuel;
    (destruct fuel as [|fuel]; [lia|]); cbn [app map] in HW;
    inversion HW as [|? ? out a1 ? W' ? Hw Hl HW']; subst; rewrite <- app_assoc in Haw.
  - destruct (body_final _ _ _ _ seen _ _ _ Hfin Hfits Hl Hw Haw) as (w' & E & Hf). exists w'.
    rewrite app_nil_r. by rewrite (loop_inr _ _ _ _ _ _ E).
  - apply Forall_cons_1 in Hms as [Hm Hms].
    destruct (body_output _ _ _ _ seen _ _ _ Hm Hfits Hl Hw Haw) as (w1 & E & Haw1).
    rewrite (loop_inl _ _ _ _ _ _ E). simpl in Hfuel.
    destruct (IH (seen ++ [m]) fuel _ _ _ _ Hms HW' Haw1 ltac:(lia)) as (w' & E' & Hf). exists w'.
    by rewrite E', <- app_assoc.
Qed.

(** ** After the command *)

Lemma command_sent F argv w w' : owns F w -> command_fits (map cstr argv) ->
  remctl_command argv w = Ret true w' -> r_protocol (cl_r (ap_cl w')) = 2 ->
  owns F w' /\ r_fd (cl_r (ap_cl w')) <> None /\ r_ready (cl_r (ap_cl w')) = true.
Proof.
  intros Ho Hf E Hp.
  assert (remctl_commandv (map cstr argv) w = Ret true w') as Ev.
  { unfold remctl_command in E. destruct argv; [|exact E]. by apply bind_Ret_inv in E as (? & ? & _ & ?). }
  clear E. pose proof (commandv_runs F _ w Ho Hf) as Hr. unfold runs, wp in Hr. rewrite Ev in Hr. split; [exact Hr|].
  unfold remctl_commandv in Ev. apply bind_Ret_inv in Ev as (ok & w1 & E1 & Ev).
  pose proof (reopen_runs F w Ho) as Hre. unfold runs, wp in Hre. rewrite E1 in Hre. destruct Hre as [Ho1 Hc1].
  destruct ok; cbn [negb] in Ev; [|done]. specialize (Hc1 eq_refl).
  apply bind_Ret_inv in Ev as (p & w2 & E2 & Ev).
  assert (p = r_protocol (cl_r (ap_cl w1)) /\ w2 = w1) as [-> ->]
    by (unfold on_cl, zoom, field, gets in E2; by destruct w1; injection E2 as <- <-).
  assert (forall (m : M (cl C) bool) R, on_cl m w1 = Ret true w' -> stays m R (ap_cl w1) ->
    peer (ap_cl w') = peer (ap_cl w1) /\ R true (ap_cl w') /\ m (ap_cl w1) = Ret true (ap_cl w')) as Hop.
  { intros m R Em Hm. unfold on_cl, zoom in Em. unfold stays, runs, wp in Hm.
    destruct (m (ap_cl w1)) as [b c| | |]; [|done..]. injection Em as -> <-. destruct Hm as [[P _] HR]. done. }
  destruct (Z.eqb_spec (r_protocol (cl_r (ap_cl w1))) 1) as [H1|H1].
  - destruct (Hop _ _ Ev (stays_v1_commandv _ _ Hc1)) as (P & _). unfold peer in P. injection P. intros. congruence.
  - destruct (Hop _ _ Ev (stays_v2_commandv _ _ Hf Hc1)) as (P & Hst & Em).
    destruct (still_fd _ _ Hst) as [Efd _]. split.
    + rewrite Efd. by destruct Hc1 as (fd & -> & _).
    + destruct Hf as (Hn & Hfa & Hb). destruct (commandv_refines (C:=C) _ Hn Hfa Hb) as (chunks & _ & _ & Heq).
      rewrite Heq in Em. pose proof (send_tokens_runs (command_tokens true chunks) _ Hc1) as Hs.
      unfold runs, wp in Hs. rewrite Em in Hs. destruct Hs as (sent & _ & _ & Ht). by apply Ht.
Qed.
End simplified.

(** C8: the simplified interface returns what the server sent.  If [remctl]
    can open the connection and send the command, and in protocol two the
    server, whose end of the context is in step, answers with output messages
    and then a status or an error, received in whatever pieces, then the
    result holds the data of each stream, whole and in order, the status or
    the error message, and every descriptor opened has been closed. *)
Theorem remctl_result_delivery {C} `{HL : GssLaws C} {HG : GssClient C} {HI : Inet}
    host port principal command (w w0 w1 w2 : api C) ms final a W a' rest :
  command_fits (map cstr command) ->
  remctl_new w = Ret tt w0 -> remctl_open host port principal w0 = Ret true w1 ->
  remctl_command command w1 = Ret true w2 -> r_protocol (cl_r (ap_cl w2)) = 2 ->
  wrap_fits -> Forall output_msg ms -> final_msg final ->
  wrapped a (map reply_token (ms ++ [final])) W a' -> gss_sync a (ch_ctx (cl_chan (ap_cl w2))) ->
  calm (r_timeout (cl_r (ap_cl w2))) (ch_net (cl_chan (ap_cl w2))) ->
  rd_bytes (k_read (ch_net (cl_chan (ap_cl w2)))) = W ++ rest ->
  exists w', remctl_ host port principal command w = Ret (Some (result_of ms final)) w' /\
    cl_fds (ap_cl w') = cl_fds (ap_cl w).
Proof.
  intros Hfit E0 E1 E2 Hp Hfits Hms Hfin HW Hs Hc Hrd.
  assert (owns (cl_fds (ap_cl w)) w0) as Ho0 by (apply session_owns; by constructor).
  assert (owns (cl_fds (ap_cl w)) w1) as Ho1.
  { pose proof (remctl_open_runs _ host port principal w0 Ho0) as Hr. unfold runs, wp in Hr. rewrite E1 in Hr.
    apply Hr. by injection E0 as <-. }
  destruct (command_sent _ _ _ _ Ho1 Hfit E2 Hp) as (Ho2 & Hfd & Hready).
  pose proof (wrapped_fuel _ _ _ _ HW) as Hlen. rewrite length_map, length_app in Hlen. simpl in Hlen.
  destruct (body_loop (cl_fds (ap_cl w)) final rest Hfin Hfits ms [] (Datatypes.S (open_fuel w2)) a W a' w2 Hms HW)
    as (w' & E & Hf).
  - exact (conj Ho2 (conj Hfd (conj Hp (conj Hready (conj Hs (conj Hc Hrd)))))).
  - unfold open_fuel. rewrite Hrd, length_app. lia.
  - exists w'. split; [|done]. unfold remctl_. rewrite (bind_Ret _ _ _ _ _ E0), (bind_Ret _ _ _ _ _ E1). cbn [negb].
    rewrite (bind_Ret _ _ _ _ _ E2). cbn [negb]. by rewrite (bind_Ret _ _ w2 (open_fuel w2) w2).
Qed.

(** The channel of the witness: the context token, then two output messages
    and a status. *)
Definition demo_answer : bytes :=
  null_welcome ++ null_wire (map reply_token ([ROutput 1 (str "hel"); ROutput 2 (str "oops"); ROutput 1 (str "lo")] ++ [RStatus 3])).

Lemma remctl_result_delivery_witness :
  let _ := null_mech in let _ := null_laws in let _ := null_client in let _ := null_inet in
  let ms := [ROutput 1 (str "hel"); ROutput 2 (str "oops"); ROutput 1 (str "lo")] in
  exists w', remctl_ (str "host") 0 None [str "ls"] (demo_api demo_answer) = Ret (Some (result_of ms (RStatus 3))) w' /\
    cl_fds (ap_cl w') = {[0; 1; 2]} /\
    result_of ms (RStatus 3) = Result None (Buf (str "hello")) (Buf (str "oops")) 3.
Proof.
  intros mech laws gss inet ms.
  assert (exists w1 w2, remctl_open (str "host") 0 None (demo_api demo_answer) = Ret true w1 /\
    remctl_command [str "ls"] w1 = Ret true w2 /\ r_protocol (cl_r (ap_cl w2)) = 2 /\
    rd_bytes (k_read (ch_net (cl_chan (ap_cl w2)))) = null_wire (map reply_token (ms ++ [RStatus 3])) ++ [] /\
    calm (r_timeout (cl_r (ap_cl w2))) (ch_net (cl_chan (ap_cl w2)))) as (w1 & w2 & E1 & E2 & Hp & Hrd & Hc).
  { eexists _, _. split; [vm_compute; reflexivity|]. split; [vm_compute; reflexivity|]. split; [reflexivity|].
    split; [vm_compute; reflexivity|]. split; [|split; [split; constructor|done]]. repeat constructor. }
  destruct (remctl_result_delivery (str "host") 0 None [str "ls"] (demo_api demo_answer) (demo_api demo_answer) w1 w2
    ms (RStatus 3) tt (null_wire (map reply_token (ms ++ [RStatus 3]))) tt []) as (w' & E & Hf).
  - split; [by vm_compute|]. split; [by repeat constructor|by vm_compute].
  - done.
  - exact E1.
  - exact E2.
  - exact Hp.
  - exact null_fits.
  - assert (forall st d, st = 1 \/ st = 2 -> (blen d <? 2 ^ 32) && negb (bool_decide (d = [])) = true ->
      output_msg (ROutput st d)) as Ho.
    { intros st d Hst [Hl%Z.ltb_lt Hd]%andb_prop. split; [split; done|]. intros ->. done. }
    unfold ms. apply Forall_cons; split; [apply Ho; [by left|by vm_compute]|].
    apply Forall_cons; split; [apply Ho; [by right|by vm_compute]|].
    apply Forall_cons; split; [apply Ho; [by left|by vm_compute]|]. constructor.
  - exact (conj I eq_refl).
  - apply null_wrapped. repeat constructor; by vm_compute.
  - done.
  - exact Hc.
  - exact Hrd.
  - exists w'. split; [exact E|]. split; [exact Hf|]. by vm_compute.
Defined.
