(* ===== verification/Remctl.v ===== *)
(** The command line client: [client/remctl.c].

    [tool] is the state of the program: the object with its surroundings
    ([api]), the standard streams, the messages, and the state of [getopt].
    A stream takes each write whole, or as much as its script says.  The
    canonical name of a host is what [getaddrinfo] gives for
    [AI_CANONNAME]. *)

From S2P Require Import Prelude Effects CLib Getopt Net Tokens Connect Command Client Open Api.

Record ostream : Type := OStream {
  os_text : bytes;
  os_takes : list Z;
}.

Record tool (C : Type) `{GssClient C} : Type := Tool {
  tl_api : api C;
  tl_stdout : ostream;
  tl_stderr : ostream;
  tl_log : logs;
  tl_getopt : getopt_state;
}.
Arguments Tool {C _}.
Arguments tl_api {C _}.
Arguments tl_stdout {C _}.
Arguments tl_stderr {C _}.
Arguments tl_log {C _}.
Arguments tl_getopt {C _}.

(** * Standard output and error *)

(** One write: how much of it is taken, and the stream afterwards. *)
Definition stream_write (d : bytes) (s : ostream) : Z * ostream :=
  match os_takes s with
  | [] => (blen d, OStream (os_text s ++ d) [])
  | n :: rest => let n := Z.max 0 (Z.min n (blen d)) in (n, OStream (os_text s ++ ztake n d) rest)
  end.

Definition usage_message : bytes := str "Usage: remctl <options> <host> <command> [<subcommand> [<parameters>]]

Options:
    -b <source>   Source IP used for outgoing connections
    -d            Debugging level of output
    -h            Display this help
    -p <port>     remctld port (default: 4373 falling back to 4444)
    -s <service>  remctld service principal (default: host/<host>)
    -t <timeout>  Timeout in seconds (default: 0, disable timeout)
    -v            Display the version of remctl
".

(** What the options set. *)
Record tool_options : Type := ToolOptions {
  to_source : option bytes;
  to_service : option bytes;
  to_timeout : Z;
  to_port : Z;
}.

Section remctl.
Context {C : Type} `{GssMech C} `{GssClient C} `{Inet}.
Context (posixly : bool) (PACKAGE_STRING : bytes) (canonical : bytes -> Z + bytes).
Implicit Types w : tool C.

Definition put_api a w : tool C := Tool a (tl_stdout w) (tl_stderr w) (tl_log w) (tl_getopt w).
Definition put_out s w : tool C := Tool (tl_api w) s (tl_stderr w) (tl_log w) (tl_getopt w).
Definition put_err s w : tool C := Tool (tl_api w) (tl_stdout w) s (tl_log w) (tl_getopt w).
Definition put_tlog l w : tool C := Tool (tl_api w) (tl_stdout w) (tl_stderr w) l (tl_getopt w).
Definition put_getopt g w : tool C := Tool (tl_api w) (tl_stdout w) (tl_stderr w) (tl_log w) g.

#[export] Instance tool_HasLog : HasLog (tool C) := fun l w => put_tlog (tl_log w ++ [l]) w.

Definition on_api {A} (m : M (api C) A) : M (tool C) A := zoom tl_api put_api m.
Definition on_getopt {A} (m : M getopt_state A) : M (tool C) A := zoom tl_getopt put_getopt m.

Definition write_std (std : std_stream) (d : bytes) : M (tool C) Z := fun w =>
  match std with
  | StdOut => let '(n, s) := stream_write d (tl_stdout w) in Ret n (put_out s w)
  | StdErr => let '(n, s) := stream_write d (tl_stderr w) in Ret n (put_err s w)
  end.

(** [fwrite]: the number of whole items written; none of items of size 0. *)
Definition fwrite (data : bytes) (size nmemb : Z) (std : std_stream) : M (tool C) Z :=
  if (size =? 0) || (nmemb =? 0) then ret 0
  else
    let* d := from_option_fault (zsub 0 (size * nmemb) data) in
    let* n := write_std std d in
    ret (n / size).

(** Formatted output whose result is not looked at. *)
Definition print (std : std_stream) (text : bytes) : M (tool C) unit :=
  do* write_std std text in ret tt.

(** * client/remctl.c *)

Definition remctl_usage {A} (status : Z) : M (tool C) A :=
  do* print (if status =? 0 then StdOut else StdErr) usage_message in exit_with status.

Definition fwrite_checked (data : bytes) (size nmemb : Z) (std : std_stream) : M (tool C) unit :=
  let* n := fwrite data size nmemb std in
  if negb (n =? nmemb) then syswarn "local write of command output failed" [] else ret tt.

(** [die(prefix "%s", remctl_error(r))]: the text of the object's error takes
    the place of the [%s]. *)
Definition die_remctl {A} (prefix : string) : M (tool C) A :=
  let* error := on_api remctl_error in
  die (String.append prefix error.1) error.2.

Definition write_output (std : std_stream) (out : remctl_output) : M (tool C) unit :=
  fwrite_checked (o_data out) (blen (o_data out)) 1 std.

(** One pass of the loop on [out], the calls of [remctl_output] being its
    start; [inr] is [*errorcode]. *)
Definition response_body (_ : unit) : M (tool C) (unit + Z) :=
  let* out := on_api remctl_output_ in
  match out with
  | None => die_remctl "error reading from server: "
  | Some out =>
      match o_type out with
      | REMCTL_OUT_OUTPUT =>
          do* (if o_stream out =? 1 then write_output StdOut out
               else if o_stream out =? 2 then write_output StdErr out
               else
                 do* warn "unknown output stream %d" [AInt (o_stream out)] in
                 write_output StdErr out) in
          ret (inl tt)
      | REMCTL_OUT_ERROR =>
          do* write_output StdErr out in
          do* print StdErr [x0a] in
          ret (inr 255)
      | REMCTL_OUT_STATUS => ret (inr (o_status out))
      | REMCTL_OUT_DONE => ret (inr 0)
      end
  end.

(** Every pass but the last has read a token. *)
Definition process_response : M (tool C) Z :=
  let* fuel := gets (fun w => open_fuel (tl_api w)) in
  loop (Datatypes.S fuel) response_body tt.

(** ** main *)

Definition options_string : bytes := str "+b:dhp:s:t:v".

(** One option; [None] is the end. *)
(** One turn of the loop, once [getopt] has given [option] and [optarg]. *)
Definition handle_option (o : tool_options) (option : Z) (arg : Datatypes.option bytes)
    : M (tool C) (tool_options + tool_options) :=
  if option =? EOF then ret (inr o)
  else if option =? bs "b" then
    ret (inl (ToolOptions arg (to_service o) (to_timeout o) (to_port o)))
  else if option =? bs "d" then ret (inl o)
  else if option =? bs "h" then remctl_usage 0
  else if option =? bs "p" then
    let* a := from_option_fault arg in
    let '(tmp_port, _, rest) := strtol a in
    if negb (bool_decide (rest = [])) || (tmp_port <? 1) || (Z.shiftl 1 16 - 1 <? tmp_port) then
      die "invalid port number %ld" [AInt tmp_port]
    else ret (inl (ToolOptions (to_source o) (to_service o) (to_timeout o) (u16 tmp_port)))
  else if option =? bs "s" then
    ret (inl (ToolOptions (to_source o) arg (to_timeout o) (to_port o)))
  else if option =? bs "t" then
    let* a := from_option_fault arg in
    let '(tmp_timeout, _, rest) := strtol a in
    if negb (bool_decide (rest = [])) || (tmp_timeout <? 0) then
      die "invalid timeout value %ld" [AInt tmp_timeout]
    else ret (inl (ToolOptions (to_source o) (to_service o) tmp_timeout (to_port o)))
  else if option =? bs "v" then
    do* print StdOut (PACKAGE_STRING ++ [x0a]) in exit_with 0
  else if option =? bs "+" then
    let* name := on_getopt (word 0) in
    do* print StdErr (name ++ str ": invalid option -- +" ++ [x0a]) in
    remctl_usage 1
  else remctl_usage 1.

Definition option_body (o : tool_options) : M (tool C) (tool_options + tool_options) :=
  let* option := on_getopt (getopt posixly options_string) in
  let* arg := gets (fun w => optarg (tl_getopt w)) in
  handle_option o option arg.

(** The options, and [argv] after them. *)
Definition main_options (argv : list bytes) : M (tool C) (tool_options * list bytes) :=
  do* modify (put_getopt (getopt_init argv)) in
  let* o := loop (Datatypes.S (argv_size argv)) option_body (ToolOptions None None 0 0) in
  let* operands := gets (fun w => drop (optind (tl_getopt w)) (go_argv (tl_getopt w))) in
  ret (o, operands).

(** The host to connect to. *)
Definition canonical_host (service : option bytes) (host : bytes) : M (tool C) bytes :=
  match service with
  | Some _ => ret host
  | None =>
      match canonical host with
      | inl status => die "cannot resolve host %s: %s" [AStr host; AGai status]
      | inr name => ret name
      end
  end.

(** The object, with its options, and the connection. *)
Definition open_server (o : tool_options) (host : bytes) : M (tool C) unit :=
  let* host := canonical_host (to_service o) host in
  do* on_api remctl_new in
  do* (if negb (to_timeout o =? 0) then
         let* _ := on_api (remctl_set_timeout (to_timeout o)) in ret tt
       else ret tt) in
  do* match to_source o with
      | None => ret tt
      | Some source =>
          let* ok := on_api (remctl_set_source_ip source) in
          if negb ok then die_remctl "" else ret tt
      end in
  let* ok := on_api (remctl_open host (to_port o) (to_service o)) in
  if negb ok then die_remctl "" else ret tt.

Definition send_command (command : list bytes) : M (tool C) unit :=
  let* ok := on_api (remctl_command command) in
  if negb ok then die_remctl "" else ret tt.

(** Everything before [process_response]. *)
Definition start_command (argv : list bytes) : M (tool C) unit :=
  let* (o, operands) := main_options argv in
  match operands with
  | server_host :: ((_ :: _) as command) =>
      do* open_server o server_host in
      send_command command
  | _ => remctl_usage 1
  end.

Definition remctl_main (argv : list bytes) : M (tool C) Z :=
  do* start_command argv in
  let* errorcode := process_response in
  do* on_api remctl_close in
  ret errorcode.
End remctl.
