(* ===== verification/RemctlSpec.v ===== *)
(** The command line client, theorems: it always ends, without undefined
    behaviour and with its descriptors closed, and it passes on what the
    server sent. *)

From S2P Require Import Prelude Effects CLib Getopt Net Tokens Connect Command Client ClientFraming Open Api ApiSafe Session Server Acl Commands Serve Delivery Results Simplified Remctl.

Lemma bs_inj a b : bs a = bs b -> a = b.
Proof.
  intros E. apply bu_inj. unfold bs, s8, swrap in E. pose proof (bu_range a). pose proof (bu_range b).
  change (2 ^ (8 - 1)) with 128 in E. change (2 ^ 8) with 256 in E.
  Z.to_euclidean_division_equations. lia.
Qed.

(** * Output may be asked for again *)

Section again.
Context {C : Type} {HM : GssMech C} {HG : GssClient C} {HI : Inet}.

Lemma v1_receive_pending :
  triple (fun _ : cl C => True) v1_receive (fun r c => r <> None -> v1_pending c).
Proof.
  unfold v1_receive, v1_output_token, v2_malformed, internal_set_error.
  apply (triple_bind _ _ _ (fun _ _ => True)); [by intros ??; destruct (recv_priv _)|]. intros [[st fl] tok].
  assert (forall f, triple (fun _ : cl C => True) (do* update f in ret None)
    (fun (r : option remctl_output) c => r <> None -> v1_pending c)) as Hnone by by intros f c.
  destruct (negb _).
  { apply (triple_bind _ _ _ (fun _ _ => True)); [by intros c _; destruct (internal_token_error _ _ _)|]. intros [].
    apply (triple_bind _ _ _ (fun _ _ => True)); [|by intros []; apply triple_ret].
    intros c _. destruct (bool_decide _); [|done]. by destruct (v1_hangup _). }
  destruct (negb _); [by apply Hnone|]. destruct (_ <? 8); [by apply Hnone|].
  apply (triple_bind _ _ _ (fun _ _ => True)); [by apply triple_from_option|]. intros d1.
  apply (triple_bind _ _ _ (fun _ _ => True)); [by intros c _|]. intros [].
  apply (triple_bind _ _ _ (fun _ _ => True)); [by apply triple_from_option|]. intros d2.
  destruct (negb _); [by apply Hnone|].
  apply (triple_bind _ _ _ (fun _ _ => True)); [by apply triple_from_option|]. intros d3.
  by intros c _.
Qed.

Lemma v1_output_pending :
  triple (fun _ : cl C => True) internal_v1_output
    (fun r c => match r with Some o => o_type o = REMCTL_OUT_OUTPUT -> v1_pending c | None => True end).
Proof.
  intros c _. unfold internal_v1_output, bind, field, gets.
  pose proof (v1_receive_pending c I) as Hr.
  destruct (r_output (cl_r c)) as [o|] eqn:Eo; [destruct (r_ready (cl_r c))|].
  - destruct (v1_receive c) as [[o'|] c'| | |]; try done. intros _. by apply Hr.
  - unfold on_output, update, modify. simpl. rewrite Eo. simpl. by case_bool_decide.
  - destruct (v1_receive c) as [[o'|] c'| | |]; try done. intros _. by apply Hr.
Qed.

(** After a piece of output there may be more. *)
Lemma output_again F w : owns F w -> can_output w ->
  runs remctl_output_ (fun r w' => owns F w' /\ progress (ap_cl w) r (ap_cl w') /\
    match r with Some o => o_type o = REMCTL_OUT_OUTPUT -> can_output w' | None => True end) w.
Proof.
  intros Ho Hcan. pose proof (output_runs F w Ho Hcan) as Hr. apply runs_elim in Hr as (r & w' & E & Ho' & Hp).
  apply runs_elim. exists r, w'. split; [done|]. split; [done|]. split; [done|].
  destruct r as [o|]; [|done]. intros Ht. unfold remctl_output_ in E.
  rewrite (bind_Ret _ _ w (cl_r (ap_cl w)) w) in E by (by unfold on_cl, zoom, gets; destruct w).
  destruct (bool_decide (r_fd _ = None) && _) eqn:Eb; [by apply bind_Ret_inv in E as ([] & ? & _ & ?)|].
  set (w1 := put_cl (Cl (set_error None (cl_r (ap_cl w))) (cl_chan (ap_cl w)) (cl_fds (ap_cl w))) w) in *.
  rewrite (bind_Ret _ _ w tt w1) in E by done. unfold on_cl, zoom in E.
  destruct (Z.eqb_spec (r_protocol (cl_r (ap_cl w))) 1) as [H1|H1].
  - pose proof (v1_output_pending (ap_cl w1) I) as Hpend.
    destruct (internal_v1_output (ap_cl w1)) as [r c'| | |]; [|done..]. injection E as -> <-.
    right. right. right. by apply Hpend.
  - assert (connected (ap_cl w1)) as Hc.
    { apply (owns_connected F w1 Ho). intros Hn. change (r_fd (cl_r (ap_cl w)) = None) in Hn.
      by rewrite bool_decide_eq_true_2 in Eb. }
    pose proof (stays_v2_output (ap_cl w1) Hc) as Hk. unfold stays, runs, wp in Hk.
    destruct (internal_v2_output (ap_cl w1)) as [r c'| | |]; [|done..]. injection E as -> <-.
    destruct Hk as [[P _] _]. right. left. unfold peer in P. simpl in P |- *. congruence.
Qed.

(** A command that was sent leaves the object connected. *)
Lemma command_connected F argv w w' : owns F w -> command_fits (map cstr argv) ->
  remctl_command argv w = Ret true w' -> owns F w' /\ connected (ap_cl w').
Proof.
  intros Ho Hf E.
  assert (remctl_commandv (map cstr argv) w = Ret true w') as Ev.
  { unfold remctl_command in E. destruct argv; [|exact E]. by apply bind_Ret_inv in E as (? & ? & _ & ?). }
  clear E. pose proof (commandv_runs F _ w Ho Hf) as Hr. unfold runs, wp in Hr. rewrite Ev in Hr. split; [exact Hr|].
  unfold remctl_commandv in Ev. apply bind_Ret_inv in Ev as (ok & w1 & E1 & Ev).
  pose proof (reopen_runs F w Ho) as Hre. unfold runs, wp in Hre. rewrite E1 in Hre. destruct Hre as [Ho1 Hc1].
  destruct ok; cbn [negb] in Ev; [|done]. specialize (Hc1 eq_refl).
  apply bind_Ret_inv in Ev as (p & w2 & E2 & Ev).
  assert (w2 = w1) as -> by (unfold on_cl, zoom, field, gets in E2; by destruct w1; injection E2 as <- <-).
  assert (forall (m : M (cl C) bool), on_cl m w1 = Ret true w' -> stays m (fun _ c' => still (ap_cl w1) c') (ap_cl w1) ->
    connected (ap_cl w')) as Hop.
  { intros m Em Hm. unfold on_cl, zoom in Em. unfold stays, runs, wp in Hm.
    destruct (m (ap_cl w1)) as [b c| | |]; [|done..]. injection Em as -> <-. destruct Hm as [_ Hs].
    by eapply still_connected. }
  destruct (p =? 1); eapply Hop; [exact Ev|by apply stays_v1_commandv|exact Ev|by apply stays_v2_commandv].
Qed.
End again.

(** * The program *)

Section program.
Context {C : Type} {HM : GssMech C} {HG : GssClient C} {HI : Inet}.
Context (PACKAGE_STRING : bytes) (canonical : bytes -> Z + bytes).
Implicit Types w : tool C.

Abbreviation option_body := (option_body false PACKAGE_STRING).
Abbreviation handle_option := (handle_option PACKAGE_STRING).
Abbreviation remctl_main := (remctl_main false PACKAGE_STRING canonical).
Abbreviation start_command := (start_command false PACKAGE_STRING canonical).

(** The statuses the program itself exits with. *)
Definition exits (c : Z) w : Prop := c = 0 \/ c = 1.

Lemma wp_die {A} f a (Q : A -> tool C -> Prop) w : wp (die f a) Q exits w.
Proof. by right. Qed.

Lemma wp_usage {A} status (Q : A -> tool C -> Prop) w : status = 0 \/ status = 1 -> wp (remctl_usage status) Q exits w.
Proof.
  intros Hs. unfold remctl_usage, print, write_std, wp, bind.
  destruct (status =? 0), (stream_write _ _); exact Hs.
Qed.

Lemma wp_on_api {A} (m : M (api C) A) (Q : A -> tool C -> Prop) w :
  runs m (fun a x => Q a (put_api x w)) (tl_api w) -> wp (on_api m) Q exits w.
Proof. unfold runs, wp, on_api, zoom. by destruct (m (tl_api w)). Qed.

Lemma wp_die_remctl {A} p (Q : A -> tool C -> Prop) w : wp (die_remctl p) Q exits w.
Proof. by right. Qed.

(** The operations on streams leave the connection alone. *)
Lemma wp_print std text (Q : unit -> tool C -> Prop) w :
  (forall w', tl_api w' = tl_api w -> Q tt w') -> wp (print std text) Q exits w.
Proof. intros HQ. unfold print, write_std, wp, bind. destruct std, (stream_write _ _); by apply HQ. Qed.

Lemma zsub_all (d : bytes) : zsub 0 (blen d) d = Some d.
Proof.
  pose proof (blen_nonneg d). rewrite zsub_Some by lia. by rewrite zdrop_0, ztake_ge by lia.
Qed.

Lemma wp_write_output std out (Q : unit -> tool C -> Prop) w :
  (forall w', tl_api w' = tl_api w -> Q tt w') -> wp (write_output std out) Q exits w.
Proof.
  intros HQ. unfold write_output, fwrite_checked, fwrite. apply wp_bind.
  apply wp_mono with (Q := fun _ w' => tl_api w' = tl_api w) (E := exits); [|intros n w' Ea|done].
  - destruct (_ || _); [done|]. rewrite Z.mul_1_r, zsub_all. apply wp_bind. unfold from_option_fault, wp, ret, bind, write_std.
    by destruct std, (stream_write _ _).
  - destruct (negb _); [|by apply HQ]. by apply wp_modify, HQ.
Qed.

(** ** The options *)

Definition tool_opts : bytes := str "b:dhp:s:t:v".

Lemma arg_given r v g c : returned tool_opts r v g -> v = bs c -> c <> "?"%byte ->
  find_opt tool_opts c = Some true -> exists a, optarg g = Some a.
Proof.
  intros Hr -> Hc Hf. destruct r as [d a|d]; destruct Hr as [Ev Hr].
  - apply bs_inj in Ev as ->. destruct Hr as [_ Hr]. eauto.
  - apply bs_inj in Ev. congruence.
Qed.

Definition options_left (q : point) w0 w : Prop :=
  at_point (tl_getopt w) q /\ go_argv (tl_getopt w) = go_argv (tl_getopt w0) /\ tl_api w = tl_api w0.

(** An option that is not [-t]. *)
Definition untimed (r : getopt_result) : Prop := match r with Opt c _ => c <> "t"%byte | OptBad _ => True end.

Lemma returned_untimed r v g : returned tool_opts r v g -> untimed r -> v <> bs "t".
Proof. destruct r as [c a|c]; intros [-> _] Hc; [intros E; by apply Hc, bs_inj|by vm_compute]. Qed.

(** What an option does, if it has the argument it needs: it changes the
    options or ends the program, and only [-t] sets a timeout. *)
Lemma handle_option_wp o v (arg : option bytes) w : v <> EOF ->
  (forall c, v = bs c -> c <> "?"%byte -> find_opt tool_opts c = Some true -> is_Some arg) ->
  (exists name, word 0 (tl_getopt w) = Ret name (tl_getopt w)) ->
  wp (handle_option o v arg) (fun r w' => match r with
    | inl o' => w' = w /\ (v <> bs "t" -> to_timeout o' = to_timeout o)
    | inr _ => False
    end) exits w.
Proof.
  intros Hne Harg [name Ew]. unfold Remctl.handle_option. rewrite (proj2 (Z.eqb_neq v EOF) Hne).
  destruct (v =? bs "b"); [by apply wp_ret|]. destruct (v =? bs "d"); [by apply wp_ret|].
  destruct (v =? bs "h"); [by apply wp_usage; left|].
  destruct (Z.eqb_spec v (bs "p")) as [Ev|_].
  { destruct (Harg _ Ev) as [a ->]; [done..|]. apply wp_bind, wp_ret. destruct (strtol a) as [[n b] rest].
    destruct (_ || _ || _); [apply wp_die|by apply wp_ret]. }
  destruct (v =? bs "s"); [by apply wp_ret|].
  destruct (Z.eqb_spec v (bs "t")) as [Ev|_].
  { destruct (Harg _ Ev) as [a ->]; [done..|]. apply wp_bind, wp_ret. destruct (strtol a) as [[n b] rest].
    destruct (_ || _); [apply wp_die|by apply wp_ret]. }
  destruct (v =? bs "v"). { apply wp_bind, wp_print. intros w' _. by left. }
  destruct (v =? bs "+"); [|by apply wp_usage; right].
  apply wp_bind. unfold wp at 1, on_getopt, zoom. rewrite Ew.
  apply wp_bind, wp_print. intros w' _. by apply wp_usage; right.
Qed.

Lemma option_body_wp q o w0 w : argv_ok (go_argv (tl_getopt w0)) -> options_left q w0 w ->
  match getopt_next tool_opts q with
  | inl (r, q') => within tool_opts r ->
      wp (option_body o) (fun o' w' => match o' with
        | inl o' => options_left q' w0 w' /\ (untimed r -> to_timeout o' = to_timeout o)
        | inr _ => False
        end) exits w
  | inr operands =>
      wp (option_body o) (fun r w' => match r with
        | inl _ => False
        | inr o' => skipn (optind (tl_getopt w')) (go_argv (tl_getopt w')) = operands /\ tl_api w' = tl_api w0 /\ o' = o
        end) exits w
  end.
Proof.
  intros Hargv (Hat & Ha & Hapi). rewrite <- Ha in Hargv.
  pose proof (getopt_Ret tool_opts (tl_getopt w) q eq_refl Hargv Hat) as Hg.
  assert (forall v g (Q : tool_options + tool_options -> tool C -> Prop), getopt false options_string (tl_getopt w) = Ret v g ->
    wp (handle_option o v (optarg g)) Q exits (put_getopt g w) -> wp (option_body o) Q exits w) as Hbody.
  { intros v g Q E H'. unfold Remctl.option_body. apply wp_bind. unfold on_getopt at 1, wp at 1, zoom. rewrite E.
    by apply wp_bind, wp_gets. }
  destruct (getopt_next tool_opts q) as [[r q']|operands].
  - intros Hr. destruct (Hg Hr) as (v & g & E & Hat' & Ha' & Hne & Hret). eapply Hbody; [exact E|].
    eapply wp_mono; [apply handle_option_wp; [done|intros c ???; by eapply arg_given|]| |done].
    + destruct Hargv as [Hn _]. destruct (go_argv (tl_getopt w)) as [|name l] eqn:El; [done|].
      exists name. apply word_at. cbn [tl_getopt put_getopt]. by rewrite Ha'.
    + intros [o'|o'] w' Hw'; [|done]. destruct Hw' as [-> Ht].
      split; [split; [done|split; [by rewrite <- Ha|done]]|]. intros Hr'. apply Ht. by eapply returned_untimed.
  - destruct Hg as (g & E & Ho & Ha'). eapply Hbody; [exact E|]. by apply wp_ret.
Qed.

Lemma options_loop q rs operands w0 : argv_ok (go_argv (tl_getopt w0)) -> calls tool_opts q rs operands ->
  forall o fuel w, options_left q w0 w -> Forall (within tool_opts) rs -> (length rs < fuel)%nat ->
  wp (loop fuel option_body o) (fun o' w' =>
    skipn (optind (tl_getopt w')) (go_argv (tl_getopt w')) = operands /\ tl_api w' = tl_api w0 /\
    (Forall untimed rs -> to_timeout o' = to_timeout o)) exits w.
Proof.
  intros Hargv Hc. induction Hc as [q operands Hq|q r q' rs operands Hq _ IH]; intros o fuel w Hl Hr Hf;
    (destruct fuel as [|fuel]; [simpl in Hf; lia|]); pose proof (option_body_wp q o w0 w Hargv Hl) as Hb; rewrite Hq in Hb;
    cbn [loop]; apply wp_bind.
  - eapply wp_mono; [exact Hb| |done]. intros [o'|o'] w' Hw'; [done|]. destruct Hw' as (? & ? & ->). by apply wp_ret.
  - apply Forall_cons_1 in Hr as [Hr Hrs]. eapply wp_mono; [by apply Hb| |done].
    intros [o'|o'] w' Hw'; [|done]. destruct Hw' as [Hw' Ht].
    eapply wp_mono; [apply IH; [done|done|simpl in Hf; lia]| |done].
    intros o2 w2 (? & ? & Ht'). split; [done|]. split; [done|]. intros [H1 H2]%Forall_cons_1.
    rewrite (Ht' H2). by apply Ht.
Qed.

(** The options [getopt] does not read past the end of its string for. *)
Definition argv_within (argv : list bytes) : Prop :=
  argv_ok argv /\ Forall (within tool_opts) (getopt_words true tool_opts (tl argv)).1.

Definition operands_of (argv : list bytes) : list bytes := (getopt_words true tool_opts (tl argv)).2.

(** The program has room for a connection: it has not got [-t], or fewer
    than [FD_SETSIZE] descriptors are open. *)
Definition tool_room (argv : list bytes) w : Prop :=
  Forall untimed (getopt_words true tool_opts (tl argv)).1 \/
  Z.of_nat (size (cl_fds (ap_cl (tl_api w)))) < FD_SETSIZE.

Lemma parse_options_wp argv w : argv_within argv ->
  wp (main_options false PACKAGE_STRING argv) (fun r w' => r.2 = operands_of argv /\ tl_api w' = tl_api w /\
    (Forall untimed (getopt_words true tool_opts (tl argv)).1 -> to_timeout r.1 = 0)) exits w.
Proof.
  intros [Hargv Hw]. unfold main_options. apply wp_bind, wp_modify, wp_bind.
  destruct argv as [|name words]; [by destruct Hargv|]. pose proof (calls_words tool_opts words) as Hc.
  assert (options_left ([], words) (put_getopt (getopt_init (name :: words)) w) (put_getopt (getopt_init (name :: words)) w)) as Hl.
  { split; [|done]. split; [done|]. split; [simpl; lia|done]. }
  eapply wp_mono.
  - eapply (options_loop _ _ _ (put_getopt (getopt_init (name :: words)) w)); [exact Hargv|exact Hc|exact Hl|exact Hw|].
    pose proof (calls_length _ _ _ _ Hc). simpl in *. lia.
  - intros o w' (Eo & Ea & Et). by apply wp_bind, wp_gets, wp_ret.
  - done.
Qed.

(** ** Connection and command *)

(** The object once a command is sent. *)
Definition sent_command (F : gset Z) (x : api C) : Prop :=
  owns F x /\ connected (ap_cl x) /\ (r_protocol (cl_r (ap_cl x)) = 2 -> r_ready (cl_r (ap_cl x)) = true).

Lemma open_server_wp o host w : fd_room (cl_fds (ap_cl (tl_api w))) (to_timeout o) ->
  wp (open_server canonical o host)
    (fun _ w' => owns (cl_fds (ap_cl (tl_api w))) (tl_api w') /\ connected (ap_cl (tl_api w'))) exits w.
Proof.
  set (F := cl_fds (ap_cl (tl_api w))). intros Hroom. unfold open_server. apply wp_bind.
  apply wp_mono with (Q := fun _ w' => tl_api w' = tl_api w) (E := exits); [|intros h w1 E1|done].
  { unfold canonical_host. destruct (to_service o); [done|]. destruct (canonical host); [apply wp_die|done]. }
  apply wp_bind, wp_on_api.
  assert (runs remctl_new (fun _ x => owns F x /\ r_fd (cl_r (ap_cl x)) = None) (tl_api w1)) as Hnew.
  { rewrite E1. split; [|done]. apply session_owns. by constructor. }
  eapply runs_mono; [exact Hnew|]. intros [] x1 [Ho1 N1]. apply wp_bind.
  eapply wp_mono with (E := exits) (Q := fun _ w' => owns F (tl_api w') /\ r_fd (cl_r (ap_cl (tl_api w'))) = None);
    [|intros [] w2 [Ho2 N2]|done].
  { destruct (negb _); [|by apply wp_ret]. apply wp_bind, wp_on_api. unfold remctl_set_timeout.
    destruct (_ <? 0); apply runs_bind.
    { eapply owns_update; [done|done|]. intros x2 Ho2 Ef _. apply runs_ret, wp_ret. simpl in *. split; [done|congruence]. }
    apply runs_on_cl, runs_update, runs_ret, wp_ret. simpl. split; [|done].
    destruct Ho1 as (Hf & Hp & _). rewrite N1 in Hf. split; simpl; [by rewrite N1|]. split; [done|].
    split; simpl; [done|]. by rewrite N1. }
  apply wp_bind.
  eapply wp_mono with (E := exits) (Q := fun _ w' => owns F (tl_api w') /\ r_fd (cl_r (ap_cl (tl_api w'))) = None);
    [|intros [] w3 [Ho3 N3]|done].
  { destruct (to_source o); [|by apply wp_ret]. apply wp_bind, wp_on_api, runs_bind.
    eapply owns_update; [done|done|]; intros x2 Hx2 Ef _; apply runs_ret, wp_ret; simpl in *; split; [done|congruence]. }
  apply wp_bind, wp_on_api. eapply runs_mono; [by apply (remctl_open_runs F)|]. intros ok x4 (Ho4 & Hc4 & _).
  destruct ok; cbn [negb]; [apply wp_ret; split; [done|by apply Hc4]|apply wp_die_remctl].
Qed.

Lemma send_command_wp F command w : owns F (tl_api w) -> command_fits (map cstr command) ->
  wp (send_command command) (fun _ w' => sent_command F (tl_api w')) exits w.
Proof.
  intros Ho Hfit. unfold send_command. apply wp_bind, wp_on_api.
  assert (runs (remctl_command command) (fun ok x => ok = true -> sent_command F x) (tl_api w)) as Hr.
  { apply runs_elim. pose proof (call_runs F (tl_api w) (CallCommand command) Ho Hfit) as Hcall.
    unfold runs, run_call, Session.drop, wp, bind in Hcall.
    destruct (remctl_command command (tl_api w)) as [ok x| | |] eqn:E; [|done..]. exists ok, x. split; [done|].
    intros ->. destruct (command_connected F command _ x Ho Hfit E) as [Hox Hcx]. split; [done|]. split; [done|].
    intros Hp. by apply (command_sent F command _ x Ho Hfit E Hp). }
  eapply runs_mono; [exact Hr|]. intros [] x Hx; cbn [negb]; [by apply wp_ret, Hx|apply wp_die_remctl].
Qed.

Lemma start_command_wp argv w : argv_within argv -> tool_room argv w ->
  (forall host command, operands_of argv = host :: command -> command_fits (map cstr command)) ->
  wp (start_command argv)
    (fun _ w' => sent_command (cl_fds (ap_cl (tl_api w))) (tl_api w')) exits w.
Proof.
  intros Hargv Hroom Hfit. unfold Remctl.start_command. apply wp_bind. eapply wp_mono; [by apply parse_options_wp| |done].
  intros [o operands] w1 (E1 & E2 & Et). cbn [fst snd] in E1, Et. subst operands. cbn beta iota.
  destruct (operands_of argv) as [|host [|c command]]; [by apply wp_usage; right..|].
  rewrite <- E2. apply wp_bind. eapply wp_mono; [apply open_server_wp| |done].
  { rewrite E2. destruct Hroom as [Hu|Hlt]; [left; by apply Et|by right]. }
  intros [] w2 [Ho _].
  by apply send_command_wp, (Hfit host).
Qed.

(** ** The responses *)

Lemma response_body_wp F w : owns F (tl_api w) -> can_output (tl_api w) ->
  wp (response_body tt) (fun r w' => owns F (tl_api w') /\ match r with
    | inl _ => can_output (tl_api w') /\ (unread (ap_cl (tl_api w')) < unread (ap_cl (tl_api w)))%nat
    | inr _ => True end) exits w.
Proof.
  intros Ho Hc. unfold response_body. apply wp_bind, wp_on_api. eapply runs_mono; [by apply output_again|].
  intros [out|] x (Hx & Hp & Hagain); [|apply wp_die_remctl].
  assert (forall std (Q : unit -> tool C -> Prop) w1, tl_api w1 = x -> (forall w', tl_api w' = x -> Q tt w') ->
    wp (write_output std out) Q exits w1) as Hwrite.
  { intros std Q w1 E HQ. apply wp_write_output. intros w' E'. apply HQ. congruence. }
  destruct (o_type out) eqn:Et; try (by apply wp_ret).
  - apply wp_bind. eapply wp_mono with (E := exits) (Q := fun _ w' => tl_api w' = x); [| |done].
    + destruct (_ =? 1); [by apply Hwrite|]. destruct (_ =? 2); [by apply Hwrite|].
      by apply wp_bind, wp_modify, Hwrite.
    + intros [] w1 E1. apply wp_ret. rewrite E1. split; [done|]. split; [by apply Hagain|by apply Hp].
  - apply wp_bind, Hwrite; [done|]. intros w1 E1. apply wp_bind, wp_print. intros w2 E2. apply wp_ret.
    by rewrite E2, E1.
Qed.

Lemma process_response_wp F w : owns F (tl_api w) -> can_output (tl_api w) ->
  wp process_response (fun _ w' => owns F (tl_api w')) exits w.
Proof.
  intros Ho Hc. unfold process_response. apply wp_bind, wp_gets.
  eapply (loop_wp (fun _ w' => owns F (tl_api w') /\ can_output (tl_api w')) (fun _ w' => unread (ap_cl (tl_api w')))).
  - intros [] w' [Ho' Hc']. eapply wp_mono; [by apply response_body_wp| |done].
    intros [[]|e] w2 [Ho2 H2]; [|done]. destruct H2. done.
  - done.
  - unfold unread, open_fuel, to_read. lia.
Qed.

(** ** What is shown *)

(** Between [w] and [w'] the program wrote [out] and [err], and gave no
    message. *)
Definition shows w (out err : bytes) w' : Prop :=
  tl_stdout w' = OStream (os_text (tl_stdout w) ++ out) [] /\
  tl_stderr w' = OStream (os_text (tl_stderr w) ++ err) [] /\ tl_log w' = tl_log w.

(** The streams take everything. *)
Definition takes_all w : Prop := os_takes (tl_stdout w) = [] /\ os_takes (tl_stderr w) = [].

Lemma shows_takes w out err w' : shows w out err w' -> takes_all w'.
Proof. intros (E1 & E2 & _). unfold takes_all. by rewrite E1, E2. Qed.

Lemma shows_trans w0 w1 w2 a b c d : shows w0 a b w1 -> shows w1 c d w2 -> shows w0 (a ++ c) (b ++ d) w2.
Proof.
  intros (E1 & E2 & E3) (F1 & F2 & F3). unfold shows. rewrite F1, F2, F3, E1, E2, E3. simpl. by rewrite <- !app_assoc.
Qed.

Lemma shows_api w x : takes_all w -> shows w [] [] (put_api x w).
Proof.
  intros [E1 E2]. unfold shows. simpl. rewrite !app_nil_r. split; [|split; [|done]].
  - destruct (tl_stdout w). simpl in *. by subst.
  - destruct (tl_stderr w). simpl in *. by subst.
Qed.

Lemma write_std_all std d w : takes_all w ->
  exists w', write_std std d w = Ret (blen d) w' /\ tl_api w' = tl_api w /\
    match std with StdOut => shows w d [] w' | StdErr => shows w [] d w' end.
Proof.
  intros [E1 E2]. unfold write_std, stream_write. destruct std; rewrite ?E1, ?E2; (eexists; split; [done|]; split; [done|]);
    unfold shows; simpl; rewrite app_nil_r; split_and?; try done.
  - destruct (tl_stderr w). simpl in *. by subst.
  - destruct (tl_stdout w). simpl in *. by subst.
Qed.

Lemma write_output_all std out w : takes_all w -> o_data out <> [] ->
  exists w', write_output std out w = Ret tt w' /\ tl_api w' = tl_api w /\
    match std with StdOut => shows w (o_data out) [] w' | StdErr => shows w [] (o_data out) w' end.
Proof.
  intros Hw Hd. destruct (write_std_all std (o_data out) w Hw) as (w' & E & Ha & Hs). exists w'. split; [|done].
  assert (0 < blen (o_data out)) as Hpos by (destruct (o_data out); [done|rewrite blen_cons; pose proof (blen_nonneg l); lia]).
  unfold write_output, fwrite_checked, fwrite. rewrite (proj2 (Z.eqb_neq (blen _) 0)) by lia. cbn [orb].
  change (1 =? 0) with false. cbv iota. rewrite Z.mul_1_r, zsub_all.
  rewrite (bind_Ret _ _ w 1 w'); [done|]. rewrite (bind_Ret _ _ w (o_data out) w) by done.
  rewrite (bind_Ret _ _ _ _ _ E). unfold ret. by rewrite Z.div_same by lia.
Qed.

(** What [process_response] makes of the final message. *)
Definition final_code (m : reply) : Z := match m with RStatus n => s8 (status_byte n) | _ => 255 end.
Definition final_text (m : reply) : bytes := match m with RError _ msg => msg ++ [x0a] | _ => [] end.

(** A final message with some text if it is an error. *)
Definition final_shown (m : reply) : Prop :=
  final_msg m /\ match m with RError _ msg => msg <> [] | _ => True end.

End program.

Section delivery.
Context {C : Type} `{HL : GssLaws C} {HG : GssClient C} {HI : Inet}.
Implicit Types w : tool C.

Definition on_stream (st : Z) (ms : list reply) : bytes := default [] (stream_data st ms).

Lemma response_output F a out a' m rest w :
  output_msg m -> wrap_fits -> blen (reply_token m) <= TOKEN_MAX_DATA -> takes_all w ->
  gss_wrap a (reply_token m) = (GSS_S_COMPLETE, out, a') ->
  awaiting F a (token_wire v2_flags out ++ rest) (tl_api w) ->
  exists w', response_body tt w = Ret (inl tt) w' /\ awaiting F a' rest (tl_api w') /\
    shows w (on_stream 1 [m]) (on_stream 2 [m]) w'.
Proof.
  intros Hm Hfits Hl Ht Hw Haw. destruct m as [st d|n|c msg]; [|done..]. destruct Hm as [Hok Hd]. pose proof Hok as [Hst _].
  destruct (output_step _ _ _ _ _ _ _ Hok Hfits Hl Hw Haw) as (x & E & _ & Hnext). specialize (Hnext eq_refl).
  pose proof (shows_api w x Ht) as Hs0. set (w1 := put_api x w) in *. pose proof (shows_takes _ _ _ _ Hs0) as Ht1.
  unfold response_body. rewrite (bind_Ret _ _ w (Some (reply_seen (ROutput st d))) w1) by (unfold on_api, zoom; by rewrite E).
  cbn [reply_seen]. set (o := Output REMCTL_OUT_OUTPUT d st 0 0). cbn [o_type o_stream o].
  assert (exists std, (if st =? 1 then write_output StdOut o
      else if st =? 2 then write_output StdErr o
      else do* warn "unknown output stream %d" [AInt st] in write_output StdErr o)
      = write_output (C:=C) std o /\
    match std with StdOut => on_stream 1 [ROutput st d] = d /\ on_stream 2 [ROutput st d] = []
                 | StdErr => on_stream 1 [ROutput st d] = [] /\ on_stream 2 [ROutput st d] = d end) as (std & -> & Hon).
  { unfold on_stream. simpl. destruct Hst as [-> | ->]; simpl; rewrite app_nil_r; [by exists StdOut|by exists StdErr]. }
  destruct (write_output_all std o w1 Ht1 Hd) as (w2 & E2 & Ea2 & Hs2).
  exists w2. rewrite (bind_Ret _ _ _ _ _ E2). split; [done|]. split; [by rewrite Ea2|].
  destruct std; destruct Hon as [-> ->]; exact (shows_trans _ _ _ _ _ _ _ Hs0 Hs2).
Qed.

Lemma response_final F a out a' m rest w :
  final_shown m -> wrap_fits -> blen (reply_token m) <= TOKEN_MAX_DATA -> takes_all w ->
  gss_wrap a (reply_token m) = (GSS_S_COMPLETE, out, a') ->
  awaiting F a (token_wire v2_flags out ++ rest) (tl_api w) ->
  exists w', response_body tt w = Ret (inr (final_code m)) w' /\ owns F (tl_api w') /\ shows w [] (final_text m) w'.
Proof.
  intros [[Hok Hf] Hmsg] Hfits Hl Ht Hw Haw.
  destruct (output_step _ _ _ _ _ _ _ Hok Hfits Hl Hw Haw) as (x & E & Ho & _).
  pose proof (shows_api w x Ht) as Hs0. set (w1 := put_api x w) in *. pose proof (shows_takes _ _ _ _ Hs0) as Ht1.
  unfold response_body. rewrite (bind_Ret _ _ w (Some (reply_seen m)) w1) by (unfold on_api, zoom; by rewrite E).
  destruct m as [st d|n|c msg]; [done| |].
  - by exists w1.
  - cbn [reply_seen o_type]. destruct (write_output_all StdErr (reply_seen (RError c msg)) w1 Ht1 Hmsg) as (w2 & E2 & Ea2 & Hs2).
    destruct (write_std_all StdErr [x0a] w2 (shows_takes _ _ _ _ Hs2)) as (w3 & E3 & Ea3 & Hs3).
    exists w3. rewrite (bind_Ret _ _ _ _ _ E2). unfold print. unfold bind. rewrite E3. split; [done|].
    split; [by rewrite Ea3, Ea2|]. exact (shows_trans _ _ _ _ _ _ _ Hs0 (shows_trans _ _ _ _ _ _ _ Hs2 Hs3)).
Qed.

Lemma responses_loop F final rest : final_shown final -> wrap_fits -> forall ms fuel a W a' w,
  Forall output_msg ms -> wrapped a (map reply_token (ms ++ [final])) W a' -> takes_all w ->
  awaiting F a (W ++ rest) (tl_api w) -> (length ms < fuel)%nat ->
  exists w', loop fuel response_body tt w = Ret (final_code final) w' /\ owns F (tl_api w') /\
    shows w (on_stream 1 ms) (on_stream 2 ms ++ final_text final) w'.
Proof.
  intros Hfin Hfits. induction ms as [|m ms IH]; intros fuel a W a' w Hms HW Ht Haw Hfuel;
    (destruct fuel as [|fuel]; [lia|]); cbn [app map] in HW;
    inversion HW as [|? ? out a1 ? W' ? Hw Hl HW']; subst; rewrite <- app_assoc in Haw.
  - destruct (response_final _ _ _ _ _ _ _ Hfin Hfits Hl Ht Hw Haw) as (w' & E & Ho & Hs). exists w'.
    by rewrite (loop_inr _ _ _ _ _ _ E).
  - apply Forall_cons_1 in Hms as [Hm Hms].
    destruct (response_output _ _ _ _ _ _ _ Hm Hfits Hl Ht Hw Haw) as (w1 & E & Haw1 & Hs1).
    rewrite (loop_inl _ _ _ _ _ _ E). simpl in Hfuel.
    destruct (IH fuel _ _ _ _ Hms HW' (shows_takes _ _ _ _ Hs1) Haw1 ltac:(lia)) as (w' & E' & Ho & Hs). exists w'.
    split; [done|]. split; [done|]. pose proof (shows_trans _ _ _ _ _ _ _ Hs1 Hs) as Hall.
    assert (forall st, on_stream st [m] ++ on_stream st ms = on_stream st (m :: ms)) as Happ.
    { intros st. unfold on_stream. destruct m as [s d|n|c msg]; simpl; [|done..].
      destruct (s =? st); simpl; [by rewrite app_nil_r|done]. }
    by rewrite app_assoc, !Happ in Hall.
Qed.

Lemma exit_code_status n : 0 <= n <= 255 -> exit_code (final_code (RStatus n)) = n.
Proof.
  intros Hn. simpl. unfold status_byte.
  destruct (Z.ltb_spec 255 n); [lia|]. destruct (Z.ltb_spec n (-127)); [lia|]. cbn [orb].
  unfold exit_code. change 255 with (Z.ones 8). rewrite Z.land_ones by lia. unfold s8, swrap.
  change (2 ^ (8 - 1)) with 128. change (2 ^ 8) with 256. Z.to_euclidean_division_equations. lia.
Qed.

(** The exit status as the shell sees it. *)
Definition exit_shown (final : reply) : Prop :=
  match final with
  | RStatus n => 0 <= n <= 255 -> exit_code (final_code final) = n
  | _ => exit_code (final_code final) = 255
  end.

Lemma final_exit final : final_shown final -> exit_shown final.
Proof. intros [[_ Hf] _]. destruct final as [st d|n|c msg]; [done| |done]. exact (exit_code_status n). Qed.

(** The rest of [main] once the command is sent. *)
Lemma main_responses package canonical argv F w w2 ms final a W a' rest :
  start_command false package canonical argv w = Ret tt w2 -> sent_command F (tl_api w2) ->
  r_protocol (cl_r (ap_cl (tl_api w2))) = 2 ->
  takes_all w2 -> wrap_fits -> Forall output_msg ms -> final_shown final ->
  wrapped a (map reply_token (ms ++ [final])) W a' ->
  gss_sync a (ch_ctx (cl_chan (ap_cl (tl_api w2)))) ->
  calm (r_timeout (cl_r (ap_cl (tl_api w2)))) (ch_net (cl_chan (ap_cl (tl_api w2)))) ->
  rd_bytes (k_read (ch_net (cl_chan (ap_cl (tl_api w2))))) = W ++ rest ->
  exists w', remctl_main false package canonical argv w = Ret (final_code final) w' /\
    shows w2 (on_stream 1 ms) (on_stream 2 ms ++ final_text final) w' /\ cl_fds (ap_cl (tl_api w')) = F.
Proof.
  intros E (Ho & (fd & Hfd & _) & Hready) Hp Ht Hfits Hms Hfin HW Hs Hc Hrd.
  pose proof (wrapped_fuel _ _ _ _ HW) as Hlen. rewrite length_map, length_app in Hlen. simpl in Hlen.
  destruct (responses_loop F final rest Hfin Hfits ms (Datatypes.S (open_fuel (tl_api w2))) a W a' w2 Hms HW Ht) as (w3 & E3 & Ho3 & Hs3).
  - split; [done|]. split; [by rewrite Hfd|]. auto.
  - unfold open_fuel. rewrite Hrd, length_app. lia.
  - pose proof (close_runs _ _ Ho3) as Hclose. apply runs_elim in Hclose as ([] & x & Ex & Ef & _).
    exists (put_api x w3). split; [|split; [|done]].
    + unfold remctl_main. rewrite (bind_Ret _ _ _ _ _ E).
      rewrite (bind_Ret _ _ w2 (final_code final) w3) by exact E3.
      by rewrite (bind_Ret _ _ w3 tt (put_api x w3)) by (unfold on_api, zoom; by rewrite Ex).
    + pose proof (shows_trans _ _ _ _ _ _ _ Hs3 (shows_api w3 x (shows_takes _ _ _ _ Hs3))) as Hall.
      by rewrite !app_nil_r in Hall.
Qed.
End delivery.

(** C10: the command line client is safe.  Whatever the network, the server
    and the standard streams do, [main] reaches an end within its loops'
    bounds and without undefined behaviour: it exits with 0 or 1, or it
    returns and every descriptor it opened is closed.  The arguments have to
    fit the protocol's length fields, an option must not be the last letter
    of the option string, and with [-t] a socket has to get a descriptor that
    a [select] can wait for. *)
Theorem remctl_main_safe {C} {HM : GssMech C} {HG : GssClient C} {HI : Inet} package canonical argv (w : tool C) :
  argv_within argv -> tool_room argv w ->
  (forall host command, operands_of argv = host :: command -> command_fits (map cstr command)) ->
  wp (remctl_main false package canonical argv)
    (fun _ w' => cl_fds (ap_cl (tl_api w')) = cl_fds (ap_cl (tl_api w))) exits w.
Proof.
  intros Hargv Hroom Hfit. unfold remctl_main. apply wp_bind. eapply wp_mono; [by apply start_command_wp| |done].
  intros [] w1 (Ho & Hc & _). apply wp_bind. eapply wp_mono; [apply (process_response_wp _ _ Ho)| |done].
  - left. by destruct Hc as (fd & -> & _).
  - intros e w2 Ho2. apply wp_bind, wp_on_api. eapply runs_mono; [exact (close_runs _ _ Ho2)|]. intros [] x [Ex _].
    by apply wp_ret.
Qed.

(** C9: the command line client passes on what the server sent.  Once it has
    sent the command over protocol two, and the server, whose end of the
    context is in step, answers with output messages and then a status or an
    error, the client writes to its standard output and error exactly the
    data of the two streams, and the error message on a line of its own; it
    closes its descriptors, logs nothing, and its exit status as the shell
    sees it is the program's, all of 0 to 255, or 255 after an error. *)
Theorem remctl_main_delivery {C} `{HL : GssLaws C} {HG : GssClient C} {HI : Inet}
    package canonical argv (w w2 : tool C) ms final a W a' rest :
  argv_within argv -> tool_room argv w ->
  (forall host command, operands_of argv = host :: command -> command_fits (map cstr command)) ->
  start_command false package canonical argv w = Ret tt w2 -> r_protocol (cl_r (ap_cl (tl_api w2))) = 2 ->
  takes_all w2 -> wrap_fits -> Forall output_msg ms -> final_shown final ->
  wrapped a (map reply_token (ms ++ [final])) W a' ->
  gss_sync a (ch_ctx (cl_chan (ap_cl (tl_api w2)))) ->
  calm (r_timeout (cl_r (ap_cl (tl_api w2)))) (ch_net (cl_chan (ap_cl (tl_api w2)))) ->
  rd_bytes (k_read (ch_net (cl_chan (ap_cl (tl_api w2))))) = W ++ rest ->
  exists w', remctl_main false package canonical argv w = Ret (final_code final) w' /\
    shows w2 (on_stream 1 ms) (on_stream 2 ms ++ final_text final) w' /\
    cl_fds (ap_cl (tl_api w')) = cl_fds (ap_cl (tl_api w)) /\ exit_shown final.
Proof.
  intros Hargv Hroom Hfit E Hp Ht Hfits Hms Hfin HW Hs Hc Hrd.
  pose proof (start_command_wp package canonical argv w Hargv Hroom Hfit) as Hstart. unfold wp in Hstart. rewrite E in Hstart.
  destruct (main_responses package canonical argv _ w w2 ms final a W a' rest E Hstart) as (w' & E' & Hw' & Hf); [done..|].
  exists w'. split; [done|]. split; [done|]. split; [done|]. by apply final_exit.
Qed.

(** The program started in a process whose one connection attempt leads to
    [demo_answer]. *)
Definition demo_tool (answer : bytes) : @tool unit null_client :=
  Tool (demo_api answer) (OStream [] []) (OStream [] []) [] (getopt_init []).

Definition demo_argv : list bytes := [str "remctl"; str "-p"; str "4444"; str "host"; str "ls"].

Lemma demo_argv_within : argv_within demo_argv.
Proof.
  split; [split; [done|]|].
  - apply (bool_decide_unpack _). by vm_compute.
  - repeat constructor; done.
Qed.

Lemma demo_argv_fits host command : operands_of demo_argv = host :: command -> command_fits (map cstr command).
Proof.
  intros E. injection E as <- <-. split; [by vm_compute|]. split; [by repeat constructor|by vm_compute].
Qed.

Lemma demo_room answer : tool_room demo_argv (demo_tool answer).
Proof. left. by repeat constructor. Qed.

(** No server answers. *)
Lemma remctl_main_safe_witness :
  let _ := null_mech in let _ := null_client in let _ := null_inet in
  argv_within demo_argv /\
  wp (remctl_main false (str "remctl 3.18") inr demo_argv)
    (fun _ w' => cl_fds (ap_cl (tl_api w')) = {[0; 1; 2]}) exits (demo_tool []).
Proof.
  intros mech client inet. split; [apply demo_argv_within|].
  apply (remctl_main_safe (str "remctl 3.18") inr demo_argv (demo_tool []) demo_argv_within (demo_room []) demo_argv_fits).
Defined.

(** The program of the session above ends with status 200. *)
Lemma remctl_main_delivery_witness :
  let _ := null_mech in let _ := null_laws in let _ := null_client in let _ := null_inet in
  let ms := [ROutput 1 (str "hel"); ROutput 2 (str "oops"); ROutput 1 (str "lo")] in
  let answer := null_welcome ++ null_wire (map reply_token (ms ++ [RStatus 200])) in
  exists w2 w', start_command false [] inr demo_argv (demo_tool answer) = Ret tt w2 /\
    remctl_main false [] inr demo_argv (demo_tool answer) = Ret (-56) w' /\
    shows w2 (str "hello") (str "oops") w' /\ exit_code (-56) = 200.
Proof.
  intros mech laws client inet ms answer.
  assert (exists w2, start_command false [] inr demo_argv (demo_tool answer) = Ret tt w2 /\
    r_protocol (cl_r (ap_cl (tl_api w2))) = 2 /\ takes_all w2 /\
    rd_bytes (k_read (ch_net (cl_chan (ap_cl (tl_api w2))))) = null_wire (map reply_token (ms ++ [RStatus 200])) ++ [] /\
    calm (r_timeout (cl_r (ap_cl (tl_api w2)))) (ch_net (cl_chan (ap_cl (tl_api w2))))) as (w2 & E2 & Hp & Ht & Hrd & Hc).
  { eexists. split; [vm_compute; reflexivity|]. split; [reflexivity|]. split; [done|].
    split; [vm_compute; reflexivity|]. split; [|split; [split; constructor|done]]. repeat constructor. }
  exists w2. destruct (remctl_main_delivery [] inr demo_argv (demo_tool answer) w2 ms (RStatus 200) tt
    (null_wire (map reply_token (ms ++ [RStatus 200]))) tt []) as (w' & E & Hs & _ & Hx).
  - apply demo_argv_within.
  - apply demo_room.
  - apply demo_argv_fits.
  - exact E2.
  - exact Hp.
  - exact Ht.
  - exact null_fits.
  - repeat (apply Forall_cons_2; [split; [split; [lia|by vm_compute]|done]|]). by apply Forall_nil_2.
  - exact (conj (conj I eq_refl) I).
  - apply null_wrapped. repeat constructor; by vm_compute.
  - done.
  - exact Hc.
  - exact Hrd.
  - exists w'. split; [exact E2|]. split; [exact E|]. split; [exact Hs|]. apply Hx. lia.
Defined.

(** An output message without data makes [fwrite] return 0, which the
    program takes for an error. *)
Example empty_output_warns {C} {HG : GssClient C} (w : tool C) :
  write_output StdOut (Output REMCTL_OUT_OUTPUT [] 1 0 0) w =
  Ret tt (add_log (Log SysWarn "local write of command output failed" []) w).
Proof. reflexivity. Qed.
