(* ===== verification/CommandSpec.v ===== *)
(** What reaches the program and the log: the argument vectors of
    [server/commands.c] against their specification, and what
    [server_log_command] of [server/logging.c] reveals. *)

From S2P Require Import Prelude Effects Net Tokens Command Vector Server Acl Process Commands Config ConfigLoad ConfigPrint.

(** * The argument vector *)

(** The index of the argument for standard input, if there is one: as
    [remctld]'s manual has it, [stdin=last] means the last argument, unless
    there is no more than the command and perhaps the subcommand. *)
Definition stdin_index (ru : rule) (argv : list bytes) : option nat :=
  if ru_stdin_arg ru =? -1 then
    if 2 <? blen argv then Some (length argv - 1)%nat else None
  else if (1 <=? ru_stdin_arg ru) && (ru_stdin_arg ru <? blen argv) then Some (Z.to_nat (ru_stdin_arg ru)) else None.

(** [sudo -u user -- program] or the last component of the program's path. *)
Definition argv_prefix (ru : rule) : list bytes :=
  match ru_sudo_user ru with
  | Some u => [PATH_SUDO; str "-u"; u; str "--"; ru_program ru]
  | None => [program_name (ru_program ru)]
  end.

(** What a program is to be given for a command. *)
Definition expected_argv (ru : rule) (argv : list bytes) : list bytes * option bytes :=
  match stdin_index ru argv with
  | Some i => (argv_prefix ru ++ drop 1 (take i argv ++ drop (S i) argv), argv !! i)
  | None => (argv_prefix ru ++ drop 1 argv, None)
  end.

Lemma splice_args_none stdin i args :
  (forall k a, args !! k = Some a -> i + Z.of_nat k <> stdin) -> Forall no_nul args ->
  splice_args stdin i args = (args, None).
Proof.
  revert i. induction args as [|a args IH]; intros i Hi Hn; [done|]. simpl.
  apply Forall_cons_1 in Hn as [Ha Hn].
  rewrite IH; [|intros k b Hk; specialize (Hi (S k) b Hk); lia|done].
  rewrite (proj2 (Z.eqb_neq _ _)) by (specialize (Hi 0%nat a eq_refl); lia).
  by rewrite x_strndup_all.
Qed.

Lemma splice_args_at pre a post i :
  Forall no_nul pre -> Forall no_nul post ->
  splice_args (i + blen pre) i (pre ++ a :: post) = (pre ++ post, Some a).
Proof.
  revert i. induction pre as [|b pre IH]; intros i Hpre Hpost; simpl.
  - rewrite splice_args_none by (done || (intros; change (blen (@nil bytes)) with 0; lia)).
    change (blen (@nil bytes)) with 0. by rewrite (proj2 (Z.eqb_eq _ _)) by lia.
  - apply Forall_cons_1 in Hpre as [Hb Hpre]. rewrite blen_cons.
    replace (i + (1 + blen pre)) with (i + 1 + blen pre) by lia. rewrite IH by done.
    rewrite (proj2 (Z.eqb_neq _ _)) by (pose proof (blen_nonneg pre); lia).
    by rewrite x_strndup_all.
Qed.

Section check.
Context {C : Type} `{GssMech C}.
Implicit Types w : world C.

(** What the check of the arguments lets through. *)
Lemma check_arg_nuls_spec ru user args : forall i w w',
  check_arg_nuls (Some ru) false user i args w = Ret true w' ->
  w' = w /\ forall k a, args !! k = Some a -> no_nul a \/ i + Z.of_nat k = ru_stdin_arg ru \/
    (ru_stdin_arg ru = -1 /\ S k = length args).
Proof.
  induction args as [|b args IH]; intros i w w' E; [by injection E as <-|].
  cbn [check_arg_nuls] in E.
  match type of E with context [if ?c then _ else _] => destruct c eqn:Ec end.
  { apply bind_Ret_inv in E as (? & ? & _ & (? & ? & _ & ?)%bind_Ret_inv). done. }
  apply IH in E as [-> Hall]. split; [done|]. intros [|k] a Hk; simpl in Hk.
  - injection Hk as <-. apply andb_false_iff in Ec as [Hskip|Hn];
      [|left; by apply bool_decide_eq_false in Hn]. right.
    apply negb_false_iff, orb_true_iff in Hskip as [Hs%Z.eqb_eq|Hl]; [left; lia|right].
    destruct args; [|done]. apply Z.eqb_eq in Hl. by split.
  - destruct (Hall k a Hk) as [?|[?|[? ?]]]; [by left|right; left; lia|right; right; split; [done|simpl; lia]].
Qed.
End check.

(** C32: arguments reach the program whole.  For every command that passes the
    check for nuls, the argument vector and the standard input the program is
    given are exactly the ones of the configuration: the program or the sudo
    prefix, then every argument but the one for standard input, byte for byte,
    and that one as input.  Left out is a command with a subcommand and no
    more under [stdin=last]: the manual says that nothing is passed on
    standard input, but the code passes the subcommand
    ([stdin_last_subcommand]). *)
Theorem command_arguments {C} `{GssMech C} ru user a0 args (w w' : world C) :
  -1 <= ru_stdin_arg ru < 2 ^ 63 -> blen (a0 :: args) < 2 ^ 63 ->
  check_arg_nuls (Some ru) false user 1 args w = Ret true w' ->
  ~ (ru_stdin_arg ru = -1 /\ length args = 1%nat) ->
  create_argv_command ru (a0 :: args) = expected_argv ru (a0 :: args).
Proof.
  intros Hs Hl E Hlast1. apply check_arg_nuls_spec in E as [_ Hall].
  unfold create_argv_command, expected_argv. simpl tail. rewrite blen_cons in *. pose proof (blen_nonneg args).
  set (idx := if ru_stdin_arg ru =? -1 then blen args else ru_stdin_arg ru).
  assert ((if ru_stdin_arg ru =? -1 then u64 (1 + blen args - 1) else u64 (ru_stdin_arg ru)) = idx) as ->.
  { unfold idx. destruct (Z.eqb_spec (ru_stdin_arg ru) (-1)); rewrite u64_small; lia. }
  assert (stdin_index ru (a0 :: args) =
          if (1 <=? idx) && (idx <? 1 + blen args) then Some (Z.to_nat idx) else None) as ->.
  { unfold stdin_index, idx. rewrite blen_cons. destruct (Z.eqb_spec (ru_stdin_arg ru) (-1)) as [Em|]; [|done].
    rewrite (proj2 (Z.ltb_lt (blen args) (1 + blen args))), andb_true_r by lia.
    assert (length args <> 1%nat) by tauto. unfold blen in *.
    destruct (Z.ltb_spec 2 (1 + Z.of_nat (length args))), (Z.leb_spec 1 (Z.of_nat (length args))); try lia; [|done].
    f_equal. simpl. lia. }
  assert (forall k a, args !! k = Some a -> 1 + Z.of_nat k <> idx -> no_nul a) as Hnn.
  { intros k a Hk Hne. destruct (Hall k a Hk) as [?|[He|[Hm Hlast]]]; [done| |]; exfalso; apply Hne; unfold idx.
    - rewrite (proj2 (Z.eqb_neq _ _)) by lia. done.
    - rewrite (proj2 (Z.eqb_eq _ _)) by done. unfold blen. lia. }
  destruct (Z.leb_spec 1 idx) as [H1|H1], (Z.ltb_spec idx (1 + blen args)) as [H2|H2]; simpl andb; cbv iota.
  2-4: rewrite splice_args_none; [done| |].
  2,4,6: intros k a Hk; apply lookup_lt_Some in Hk; unfold blen in *; lia.
  2-4: apply Forall_lookup; intros k a Hk; apply (Hnn k a Hk); apply lookup_lt_Some in Hk; unfold blen in *; lia.
  destruct (lookup_lt_is_Some_2 args (Z.to_nat (idx - 1))) as [a Ha]; [unfold blen in *; lia|].
  pose proof (take_drop_middle _ _ _ Ha) as Hmid.
  assert (Z.to_nat idx = S (Z.to_nat (idx - 1))) as -> by lia. simpl. rewrite Ha.
  set (pre := take _ _) in *. set (post := drop _ _) in *.
  assert (length pre = Z.to_nat (idx - 1)) as Hpre by (unfold pre; rewrite length_take; apply lookup_lt_Some in Ha; lia).
  replace (splice_args idx 1 args) with (splice_args (1 + blen pre) 1 (pre ++ a :: post))
    by (rewrite Hmid; f_equal; unfold blen; lia).
  rewrite splice_args_at; [done|..]; apply Forall_lookup; intros k b Hk.
  - apply (Hnn k b); [|apply lookup_lt_Some in Hk; lia]. rewrite <- Hmid. by apply lookup_app_l_Some.
  - apply (Hnn (length pre + S k)%nat b); [|lia]. rewrite <- Hmid, lookup_app_r by lia.
    by replace (length pre + S k - length pre)%nat with (S k) by lia.
Qed.

Lemma command_arguments_witness :
  let _ := null_mech in
  let ru := Rule (str "/etc/remctl.conf") 1 (str "put") (str "ALL") (str "/bin/put") None 1 None (Some (str "www"))
              0 0 None None [] in
  let args := [str "a" ++ [nul] ++ str "b"; str "c"] in
  check_arg_nuls (Some ru) false (str "rra") 1 args (demo_world []) = Ret true (demo_world []) /\
  create_argv_command ru (str "put" :: args) = expected_argv ru (str "put" :: args).
Proof.
  intros mech ru args.
  assert (check_arg_nuls (Some ru) false (str "rra") 1 args (demo_world []) = Ret true (demo_world [])) as E
    by (vm_compute; reflexivity).
  split; [exact E|]. apply (command_arguments ru (str "rra") (str "put") args (demo_world []) (demo_world [])); [split; [done|done]|done|exact E|by intros [? _]].
Defined.

(** What the code does where the manual has nothing passed on standard input. *)
Lemma stdin_last_subcommand ru command subcommand : ru_stdin_arg ru = -1 ->
  create_argv_command ru [command; subcommand] = (argv_prefix ru, Some subcommand) /\
  expected_argv ru [command; subcommand] = (argv_prefix ru ++ [subcommand], None).
Proof.
  intros E. unfold create_argv_command, expected_argv, stdin_index. rewrite E. simpl. by rewrite app_nil_r.
Qed.

(** * The log *)







(** The log line of a command cannot be forged.  Whatever the arguments
    are, every character of the logged command is a tab or printable ASCII;
    in particular there is no line break in it. *)
Lemma log_command_printable {S} `{HasLog S} argv ru user (s s' : S) u :
  server_log_command argv ru user s = Ret u s' -> exists command,
    s' = add_log (Log Notice "COMMAND from %s: %s" [AStr user; AStr command]) s /\
    Forall (fun c => bs c = 9 \/ 32 <= bs c < 127) command.
Proof.
  intros E. unfold server_log_command in E.
  apply bind_Ret_inv in E as (masked & s1 & E1 & E).
  assert (s1 = s) as -> by (destruct (log_args ru 0 argv vector_new); [by injection E1|done]).
  apply bind_Ret_inv in E as (command & s2 & E2 & E). injection E as _ <-.
  pose proof (keeps_Ret id _ _ _ _ (keeps_vector_join id masked (str " ")) E2) as Es.
  unfold id in Es. subst s2.
  exists (map log_printable command). split; [done|].
  apply Forall_fmap, Forall_forall. intros c _. unfold compose, log_printable.
  destruct ((bs c <? 9) || ((9 <? bs c) && (bs c <? 32)) || (bs c =? 127)) eqn:Ec; [right; vm_compute; split; congruence|].
  rewrite !orb_false_iff, andb_false_iff, !Z.ltb_ge, Z.eqb_neq in Ec.
  assert (bs c < 128). { unfold bs, s8, swrap. pose proof (Z.mod_pos_bound (bu c + 2 ^ (8 - 1)) (2 ^ 8) ltac:(lia)). lia. }
  lia.
Qed.

Lemma log_command_printable_witness :
  let argv := [str "ls"; [x1b] ++ str "[2J" ++ [x0a] ++ str "COMMAND from root: rm"] in
  exists s', server_log_command argv None (str "rra") ([] : logs) = Ret tt s' /\
    exists command, s' = [Log Notice "COMMAND from %s: %s" [AStr (str "rra"); AStr command]] /\
      Forall (fun c => bs c = 9 \/ 32 <= bs c < 127) command.
Proof.
  intros argv.
  assert (exists s', server_log_command argv None (str "rra") ([] : logs) = Ret tt s') as [s' E]
    by (eexists; vm_compute; reflexivity).
  exists s'. split; [exact E|]. exact (log_command_printable argv None (str "rra") [] s' tt E).
Defined.

(** ** The mask option of the configuration *)

Lemma mask_scan_u32 ns i : mask_scan (map u32 ns ++ [0]) i = true <->
  exists pre n post, ns = pre ++ n :: post /\ u32 n = i /\ i <> 0 /\ Forall (fun m => u32 m <> 0) pre.
Proof.
  induction ns as [|m ns IH]; simpl.
  - split; [done|]. intros (pre & n & post & E & _). by destruct pre.
  - destruct (Z.eqb_spec (u32 m) 0) as [Hz|Hz]; [|destruct (Z.eqb_spec (u32 m) i) as [Hi|Hi]].
    + split; [done|]. intros (pre & n & post & E & Hn & H0 & Hp). destruct pre as [|p pre]; simplify_eq/=.
      by apply Forall_cons_1 in Hp as [? _].
    + split; [|done]. intros _. exists [], m, ns. subst i. auto.
    + rewrite IH. split.
      * intros (pre & n & post & -> & Hn & H0 & Hp). exists (m :: pre), n, post. repeat split; [done|done|by constructor].
      * intros (pre & n & post & E & Hn & H0 & Hp). destruct pre as [|p pre]; simplify_eq/=.
        apply Forall_cons_1 in Hp as [_ Hp]. by exists pre, n, post.
Qed.

(** What [logmask=] masks.  A list of argument numbers below 2^32 in the configuration masks in
    the log exactly the arguments it lists. *)
Lemma logmask_option {S} `{HasLog S} `{ConfEnv} r ns name lineno (s : S) i :
  ns <> [] -> Forall (fun n => 0 < n < 2 ^ 32) ns ->
  exists r', parse_conf_option r (render_opt (OptLogmask ns)) name lineno s = Ret (CONFIG_SUCCESS, r') s /\
    ((exists mask, ru_logmask r' = Some mask /\ mask_scan mask i = true) <-> i ∈ ns).
Proof.
  intros Hne Hf.
  eexists. split; [apply parse_logmask; [done|by apply logmask_small]|]. simpl.
  assert (forall n, n ∈ ns -> u32 n = n /\ n <> 0) as Hu.
  { rewrite Forall_forall in Hf. intros n Hn%Hf. split; [apply u32_small|]; lia. }
  split.
  - intros (mask & [= <-] & Hs). apply mask_scan_u32 in Hs as (pre & n & post & -> & <- & _).
    rewrite (proj1 (Hu n ltac:(set_solver))). set_solver.
  - intros Hi. eexists. split; [done|]. apply mask_scan_u32. pose proof (Hu i Hi) as [Ei Hnz].
    apply list_elem_of_split in Hi as (pre & post & ->). exists pre, i, post. repeat split; [done|done|].
    apply Forall_forall. intros m Hm. destruct (Hu m ltac:(set_solver)) as [-> ?]. done.
Qed.

#[local] Instance no_users : ConfEnv := {| getpwuid _ := None; getpwnam _ := None |}.

Lemma logmask_option_witness :
  exists r', parse_conf_option (new_rule (str "a") (str "b") (str "/c"))
      (str "logmask=3,17") (str "/f") 1 ([] : logs) = Ret (CONFIG_SUCCESS, r') [] /\
    ((exists mask, ru_logmask r' = Some mask /\ mask_scan mask 17 = true) <-> 17 ∈ [3; 17]).
Proof.
  refine (logmask_option _ [3; 17] _ _ _ _ _ _); [done|].
  repeat constructor; done.
Defined.

(** A mask list is stored as [unsigned int]s that end at the first 0, so a number that is a multiple of
    2^32 is accepted without a message and switches off the masking of every argument listed after it. *)
Lemma logmask_overflow {S} `{HasLog S} `{ConfEnv} r n ns name lineno (s : S) i :
  0 < n <= LONG_MAX -> u32 n = 0 -> Forall (fun n => 0 < n <= LONG_MAX) ns ->
  exists r' mask, parse_conf_option r (render_opt (OptLogmask (n :: ns))) name lineno s = Ret (CONFIG_SUCCESS, r') s /\
    ru_logmask r' = Some mask /\ mask_scan mask i = false.
Proof.
  intros Hn Hz Hf. do 2 eexists. split; [apply parse_logmask; [done|by constructor]|].
  split; [done|]. simpl. by rewrite Hz.
Qed.

Lemma logmask_overflow_witness :
  exists r' mask, parse_conf_option (new_rule (str "a") (str "b") (str "/c"))
      (str "logmask=4294967296,2") (str "/f") 1 ([] : logs) = Ret (CONFIG_SUCCESS, r') [] /\
    ru_logmask r' = Some mask /\ mask_scan mask 2 = false.
Proof.
  refine (logmask_overflow _ 4294967296 [2] _ _ _ _ _ _ _); [done..|].
  repeat constructor; done.
Defined.
