(* ===== verification/Ssh.v ===== *)
(** remctl-shell: [server/server-ssh.c] (parsing the command, the client) and
    the main program [server/remctl-shell.c].

    The output callbacks of [server/server-ssh.c] are in [Server] and
    [Process].  [getopt] is the C library's; logging set-up has no effect on
    the model, whose log keeps every message. *)

From S2P Require Import Prelude Effects CLib Net Buffer Tokens Command Vector Server Acl Config Process Commands Getopt.

(** * server/server-ssh.c: the command *)

Inductive state : Type := SEPARATOR | ARG | QUOTE.

Record parser : Type := Parser {
  ps_args : vector;
  ps_arg : buffer;
  ps_state : state;
  ps_quote : byte;
}.

Definition ps_set_state st p := Parser (ps_args p) (ps_arg p) st (ps_quote p).
Definition ps_set_quote c p := Parser (ps_args p) (ps_arg p) QUOTE c.

(** [buffer_append(arg, p, 1)]. *)
Definition add_byte (c : byte) (p : parser) : option parser :=
  arg ← buffer_append (ps_arg p) [c]; Some (Parser (ps_args p) arg (ps_state p) (ps_quote p)).

(** [vector_addn(args, arg->data, arg->left)]. *)
Definition add_arg (p : parser) : option parser :=
  d ← peek 0 (b_left (ps_arg p)) (cells (ps_arg p));
  args ← vector_addn (ps_args p) d (b_left (ps_arg p));
  Some (Parser args (ps_arg p) (ps_state p) (ps_quote p)).

Definition is_quote (c : byte) : bool := byte_eqb c "'" || byte_eqb c x22.

(** The switch for one character. *)
Definition parse_char (c : byte) (p : parser) : option parser :=
  match ps_state p with
  | SEPARATOR =>
      if negb (isspace c) then
        if is_quote c then Some (ps_set_quote c p) else add_byte c (ps_set_state ARG p)
      else Some p
  | QUOTE =>
      if byte_eqb c (ps_quote p) then Some (ps_set_state ARG p) else add_byte c p
  | ARG =>
      if isspace c then
        p ← add_arg p;
        arg ← buffer_set (ps_arg p) [];
        Some (Parser (ps_args p) arg SEPARATOR (ps_quote p))
      else if is_quote c then Some (ps_set_quote c p) else add_byte c p
  end.

(** A backslash that is not the last character. *)
Definition parse_escape (c : byte) (p : parser) : option parser :=
  p ← add_byte c p;
  Some (match ps_state p with SEPARATOR => ps_set_state ARG p | _ => p end).

Fixpoint parse_walk (command : bytes) (p : parser) : option parser :=
  match command with
  | [] => Some p
  | c :: command =>
      match command with
      | d :: rest =>
          if byte_eqb c "\" then p ← parse_escape d p; parse_walk rest p
          else p ← parse_char c p; parse_walk command p
      | [] => parse_char c p
      end
  end.

Definition server_ssh_parse_command {S} `{HasLog S} (command : bytes) : M S (option (list bytes)) :=
  let* p := from_option_fault (parse_walk command (Parser vector_new buffer_new SEPARATOR nul)) in
  match ps_state p with
  | QUOTE => do* warn "unterminated %c quote in command" [AInt (bs (ps_quote p))] in ret None
  | ARG =>
      let* p := from_option_fault (add_arg p) in
      ret (Some (v_strings (ps_args p)))
  | SEPARATOR => ret (Some (v_strings (ps_args p)))
  end.

(** * The environment of the program *)

Class SshEnv : Type := {
  getenv : bytes -> option bytes;
  host_of : bytes -> option bytes;     (* getaddrinfo, then getnameinfo with NI_NAMEREQD *)
}.

Section shell.
Context {C : Type} `{GssMech C} `{AclEnv} `{ConfEnv} `{SshEnv}.
Context (CONFIG_FILE : bytes) (acl_fuel conf_fuel : nat).

(** ** server_ssh_new_client *)

Definition server_ssh_new_client (user : option bytes) : M (world C) client :=
  let user := match user with Some u => Some u | None => getenv (str "REMCTL_USER") end in
  match user with
  | None => die "REMCTL_USER must be set in the environment via authorized_keys" []
  | Some user =>
      match getenv (str "SSH_CONNECTION") with
      | None => die "SSH_CONNECTION not set (remctl-shell must be run via ssh)" []
      | Some ssh_client =>
          let* client_info := from_option_fault (vector_split_space ssh_client None) in
          let* ipaddress := from_option_fault (head (v_strings client_info)) in
          ret (Client KindSsh 1 (host_of ipaddress) ipaddress 3 user false 0 0 false false)
      end
  end.

(** ** server/remctl-shell.c *)

(** What [usage] prints is not kept. *)
Definition usage {S A} (status : Z) : M S A := exit_with status.

Record shell_options : Type := ShellOptions { so_command : option bytes; so_config : bytes }.

Fixpoint shell_getopt (opts : list getopt_result) (o : shell_options) : M (world C) shell_options :=
  match opts with
  | [] => ret o
  | OptBad optopt :: _ => do* warn "unknown option -%c" [AInt (bs optopt)] in usage 1
  | Opt c arg :: opts =>
      if byte_eqb c "c" then shell_getopt opts (ShellOptions (Some arg) (so_config o))
      else if byte_eqb c "f" then shell_getopt opts (ShellOptions (so_command o) arg)
      else if byte_eqb c "h" then usage 0
      else if byte_eqb c "v" then exit_with 0
      else if byte_eqb c "d" || byte_eqb c "q" || byte_eqb c "S" then shell_getopt opts o
      else do* warn "unknown option -%c" [AInt (bs c)] in usage 1
  end.

(** [argv] without the program's name; the result is [main]'s. *)
Definition shell_main (argv : list bytes) : M (world C) Z :=
  let '(opts, argv) := getopt_all (str "c:df:hqS") argv in
  let* o := shell_getopt opts (ShellOptions None CONFIG_FILE) in
  let* (command_string, user) :=
    match so_command o with
    | None =>
        match argv with
        | [user] =>
            match getenv (str "SSH_ORIGINAL_COMMAND") with
            | None => die "SSH_ORIGINAL_COMMAND not set in the environment" []
            | Some c => ret (c, Some user)
            end
        | _ => usage 1
        end
    | Some c => match argv with [] => ret (c, None) | _ => usage 1 end
    end in
  let* cfg := server_config_load conf_fuel (so_config o) in
  match cfg with
  | None => die "cannot read configuration file %s" [AStr (so_config o)]
  | Some cfg =>
      let* client := server_ssh_new_client user in
      let* command := server_ssh_parse_command command_string in
      match command with
      | None => die "cannot parse command: %s" [AStr command_string]
      | Some command =>
          do* modify (put_client client) in
          server_run_command acl_fuel cfg command
      end
  end.

End shell.
