(* ===== verification/SshSpec.v ===== *)
(** What remctl-shell understands: the quoting grammar of
    [server_ssh_parse_command], and the program's exit status. *)

From S2P Require Import Prelude Effects CLib Net Buffer Tokens Command Vector Server Acl Config Process Commands Execs Ssh Getopt.

(** * The grammar *)

Definition backslash : byte := "\".

(** What may stand between quotes [q], and what it means. *)
Inductive quoted (q : byte) : bytes -> bytes -> Prop :=
  | quoted_nil : quoted q [] []
  | quoted_char c t d : c <> q -> c <> backslash -> quoted q t d -> quoted q (c :: t) (c :: d)
  | quoted_escape c t d : quoted q t d -> quoted q (backslash :: c :: t) (c :: d).

(** A run of characters, escaped characters and quoted strings. *)
Inductive shell_word : bytes -> bytes -> Prop :=
  | word_nil : shell_word [] []
  | word_char c t d : isspace c = false -> is_quote c = false -> c <> backslash ->
      shell_word t d -> shell_word (c :: t) (c :: d)
  | word_escape c t d : shell_word t d -> shell_word (backslash :: c :: t) (c :: d)
  | word_quote q u x t d : is_quote q = true -> quoted q u x -> shell_word t d ->
      shell_word (q :: u ++ q :: t) (x ++ d).

(** A command line: words between white space; a backslash at its very end
    stands for itself. *)
Inductive line : bytes -> list bytes -> Prop :=
  | line_nil : line [] []
  | line_space c t ws : isspace c = true -> line t ws -> line (c :: t) ws
  | line_word w d c t ws : shell_word w d -> w <> [] -> isspace c = true -> line t ws ->
      line (w ++ c :: t) (d :: ws)
  | line_last w d : shell_word w d -> w <> [] -> line w [d]
  | line_backslash w d : shell_word w d -> line (w ++ [backslash]) [d ++ [backslash]].

(** The same as a machine on lists, one step per character. *)
Fixpoint shell_words (st : state) (q : byte) (cur command : bytes) : option (list bytes) :=
  match command with
  | [] => match st with SEPARATOR => Some [] | ARG => Some [cur] | QUOTE => None end
  | c :: command =>
      let step (_ : unit) :=
        match st with
        | SEPARATOR =>
            if isspace c then shell_words SEPARATOR q cur command
            else if is_quote c then shell_words QUOTE c cur command
            else shell_words ARG q (cur ++ [c]) command
        | QUOTE => if byte_eqb c q then shell_words ARG q cur command else shell_words QUOTE q (cur ++ [c]) command
        | ARG =>
            if isspace c then ws ← shell_words SEPARATOR q [] command; Some (cur :: ws)
            else if is_quote c then shell_words QUOTE c cur command
            else shell_words ARG q (cur ++ [c]) command
        end in
      match command with
      | d :: rest =>
          if byte_eqb c backslash then
            shell_words (match st with SEPARATOR => ARG | _ => st end) q (cur ++ [d]) rest
          else step tt
      | [] => step tt
      end
  end.

(** How a word that stands for [d] ends. *)
Inductive word_end (d : bytes) : bytes -> list bytes -> Prop :=
  | end_line : word_end d [] [d]
  | end_space c t ws : isspace c = true -> line t ws -> word_end d (c :: t) (d :: ws)
  | end_backslash : word_end d [backslash] [d ++ [backslash]].

(** What is left of a line inside a word that stands for [cur] so far. *)
Definition rest_of (cur t : bytes) (ws : list bytes) : Prop :=
  exists w d t', shell_word w d /\ t = w ++ t' /\ word_end (cur ++ d) t' ws.

Lemma quote_plain q : is_quote q = true -> isspace q = false /\ q <> backslash.
Proof. by destruct q. Qed.
Lemma space_plain c : isspace c = true -> is_quote c = false /\ c <> backslash.
Proof. by destruct c. Qed.

(** Putting a piece [p] that stands for [x] in front. *)
Lemma rest_of_cons cur p x t ws : (forall w d, shell_word w d -> shell_word (p ++ w) (x ++ d)) ->
  rest_of (cur ++ x) t ws -> rest_of cur (p ++ t) ws.
Proof.
  intros Hp (w & d & t' & Hw & -> & He). exists (p ++ w), (x ++ d), t'. rewrite <- app_assoc in *. auto.
Qed.

(** Taking the first piece off. *)
Lemma rest_of_inv cur t ws : rest_of cur t ws ->
  word_end cur t ws \/
  (exists c t', t = c :: t' /\ isspace c = false /\ is_quote c = false /\ c <> backslash /\ rest_of (cur ++ [c]) t' ws) \/
  (exists c t', t = backslash :: c :: t' /\ rest_of (cur ++ [c]) t' ws) \/
  (exists q u x t', t = q :: u ++ q :: t' /\ is_quote q = true /\ quoted q u x /\ rest_of (cur ++ x) t' ws).
Proof.
  intros (w & d & t' & Hw & -> & He).
  inversion Hw as [|c0 w0 d0 Hs Hq Hb Hw0|c0 w0 d0 Hw0|q u x w0 d0 Hq Hu Hw0]; subst; clear Hw.
  - left. by rewrite app_nil_r in He.
  - right; left. exists c0, (w0 ++ t'). repeat split; try done. exists w0, d0, t'. by rewrite <- app_assoc.
  - right; right; left. exists c0, (w0 ++ t'). split; [done|]. exists w0, d0, t'. by rewrite <- app_assoc.
  - right; right; right. exists q, u, x, (w0 ++ t'). simpl. rewrite <- app_assoc. split; [done|]. split; [done|].
    split; [done|]. exists w0, d0, t'. by rewrite <- app_assoc.
Qed.

Lemma rest_of_end cur t ws : word_end cur t ws -> rest_of cur t ws.
Proof. intros He. exists [], [], t. rewrite app_nil_r. split; [constructor|done]. Qed.

(** The machine accepts the grammar, one piece at a time. *)
Lemma rest_nil cur ws : rest_of cur [] ws <-> ws = [cur].
Proof.
  split; [|intros ->; apply rest_of_end; constructor].
  intros [He|[(? & ? & ? & _)|[(? & ? & ? & _)|(? & ? & ? & ? & ? & _)]]]%rest_of_inv; try done. by inversion He.
Qed.

Lemma rest_backslash cur ws : rest_of cur [backslash] ws <-> ws = [cur ++ [backslash]].
Proof.
  split; [|intros ->; apply rest_of_end; constructor].
  intros [He|[(? & ? & [= <- _] & _ & _ & ? & _)|[(? & ? & ? & _)|(q & ? & ? & ? & [= <- _] & Hq & _)]]]%rest_of_inv; try done.
  by inversion He.
Qed.

Lemma rest_space cur c t ws : isspace c = true ->
  rest_of cur (c :: t) ws <-> exists ws', line t ws' /\ ws = cur :: ws'.
Proof.
  intros Hc. pose proof (space_plain c Hc) as [Hq Hb]. split.
  - intros [He|[(? & ? & [= <- _] & ? & _)|[(? & ? & [= ? _] & _)|(q & ? & ? & ? & [= <- _] & ? & _)]]]%rest_of_inv;
      try congruence. inversion He; subst; [eauto|done].
  - intros (ws' & Hl & ->). apply rest_of_end. by constructor.
Qed.

Lemma rest_char cur c t ws : isspace c = false -> is_quote c = false -> c <> backslash ->
  rest_of cur (c :: t) ws <-> rest_of (cur ++ [c]) t ws.
Proof.
  intros Hs Hq Hb. split.
  - intros [He|[(? & ? & [= <- <-] & _ & _ & _ & ?)|[(? & ? & [= ? _] & _)|(q & ? & ? & ? & [= <- _] & ? & _)]]]%rest_of_inv;
      try congruence. inversion He; subst; congruence.
  - apply (rest_of_cons cur [c] [c]). intros w d. by constructor.
Qed.

Lemma rest_escape cur c t ws : rest_of cur (backslash :: c :: t) ws <-> rest_of (cur ++ [c]) t ws.
Proof.
  split.
  - intros [He|[(? & ? & [= <- _] & _ & _ & ? & _)|[(? & ? & [= <- <-] & ?)|(q & ? & ? & ? & [= <- _] & ? & _)]]]%rest_of_inv;
      try done. by inversion He.
  - apply (rest_of_cons cur [backslash; c] [c]). intros w d. by constructor.
Qed.

(** Inside quotes. *)
Definition rest_quoted (q : byte) (cur t : bytes) (ws : list bytes) : Prop :=
  exists u x t', quoted q u x /\ t = u ++ q :: t' /\ rest_of (cur ++ x) t' ws.

Lemma rest_quote cur q t ws : is_quote q = true -> rest_of cur (q :: t) ws <-> rest_quoted q cur t ws.
Proof.
  intros Hq. pose proof (quote_plain q Hq) as [Hs Hb]. split.
  - intros [He|[(? & ? & [= <- _] & _ & ? & _)|[(? & ? & [= ? _] & _)|(q' & u & x & t' & [= <- ->] & _ & Hu & ?)]]]%rest_of_inv;
      try congruence; [inversion He; subst; congruence|]. by exists u, x, t'.
  - intros (u & x & t' & Hu & -> & Hr).
    change (q :: u ++ q :: t') with (q :: (u ++ [q] ++ t')). rewrite app_assoc.
    apply (rest_of_cons cur (q :: u ++ [q]) x); [|done]. intros w d Hw. simpl. rewrite <- app_assoc. by constructor.
Qed.

Section quotes.
Context (q : byte) (Hq : is_quote q = true).

Lemma quote_not_backslash : q <> backslash.
Proof. by apply quote_plain. Qed.

Lemma rest_quoted_nil cur ws : ~ rest_quoted q cur [] ws.
Proof. intros (u & x & t' & _ & E & _). by destruct u. Qed.

Lemma rest_quoted_backslash cur ws : ~ rest_quoted q cur [backslash] ws.
Proof.
  pose proof quote_not_backslash. intros (u & x & t' & Hu & E & _).
  inversion Hu; subst; simplify_eq/=; by destruct t.
Qed.

Lemma rest_quoted_end cur t ws : rest_quoted q cur (q :: t) ws <-> rest_of cur t ws.
Proof.
  pose proof quote_not_backslash. split.
  - intros (u & x & t' & Hu & E & Hr). inversion Hu; subst; simplify_eq/=. by rewrite app_nil_r in Hr.
  - intros Hr. exists [], [], t. rewrite app_nil_r. repeat split; [constructor|done].
Qed.

Lemma rest_quoted_cons cur p c t ws : (forall u x, quoted q u x -> quoted q (p ++ u) (c :: x)) ->
  rest_quoted q (cur ++ [c]) t ws -> rest_quoted q cur (p ++ t) ws.
Proof.
  intros Hp (u & x & t' & Hu & -> & Hr). exists (p ++ u), (c :: x), t'. split; [auto|].
  split; [by rewrite app_assoc|]. by rewrite <- app_assoc in Hr.
Qed.

Lemma rest_quoted_escape cur c t ws : rest_quoted q cur (backslash :: c :: t) ws <-> rest_quoted q (cur ++ [c]) t ws.
Proof.
  pose proof quote_not_backslash. split.
  - intros (u & x & t' & Hu & E & Hr). inversion Hu as [|c0 u0 x0|c0 u0 x0 Hu0]; subst; simplify_eq/=.
    exists u0, x0, t'. by rewrite <- app_assoc.
  - apply (rest_quoted_cons cur [backslash; c]). intros u x. by constructor.
Qed.

Lemma rest_quoted_char cur c t ws : c <> q -> c <> backslash ->
  rest_quoted q cur (c :: t) ws <-> rest_quoted q (cur ++ [c]) t ws.
Proof.
  intros Hc Hb. split.
  - intros (u & x & t' & Hu & E & Hr). inversion Hu as [|c0 u0 x0 Hc1 Hc2 Hu0|c0 u0 x0]; subst; simplify_eq/=.
    exists u0, x0, t'. by rewrite <- app_assoc.
  - apply (rest_quoted_cons cur [c]). intros u x. by constructor.
Qed.
End quotes.

(** Between words. *)
Lemma line_space_inv c t ws : isspace c = true -> line (c :: t) ws <-> line t ws.
Proof.
  intros Hc. pose proof (space_plain c Hc) as [Hq Hb]. split; [|by constructor].
  intros Hl. inversion Hl as [|? ? ? ? ?|w d c' t' ws' Hw Hne ? ? E|w d Hw Hne E|w d Hw E]; subst; [done| | |].
  - destruct w as [|c1 w]; [done|]. simpl in E. injection E as -> _. inversion Hw; subst; congruence.
  - inversion Hw; subst; congruence.
  - destruct w as [|c1 w]; simpl in E; injection E as E _; [congruence|subst c1]. inversion Hw; subst; congruence.
Qed.

Lemma line_rest t ws : (forall c, head t = Some c -> isspace c = false) -> t <> [] ->
  line t ws <-> rest_of [] t ws.
Proof.
  intros Hsp Hne. split.
  - intros Hl. inversion Hl as [|c t' ws' Hc|w d c t' ws' Hw Hn Hc Hl'|w d Hw Hn|w d Hw]; subst; [done| | | |].
    + by rewrite (Hsp c eq_refl) in Hc.
    + exists w, d, (c :: t'). split; [done|]. split; [done|]. by constructor.
    + exists t, d, []. rewrite app_nil_r. split; [done|]. split; [done|]. constructor.
    + exists w, d, [backslash]. split; [done|]. split; [done|]. constructor.
  - intros (w & d & t' & Hw & -> & He). destruct w as [|c w]; [inversion Hw; subst|]; inversion He; subst; simpl in *.
    + done.
    + by rewrite (Hsp c eq_refl) in *.
    + apply (line_backslash [] []). constructor.
    + rewrite app_nil_r. by apply line_last.
    + by apply (line_word (c :: w)).
    + by apply (line_backslash (c :: w)).
Qed.

Lemma line_nil_inv ws : line [] ws <-> ws = [].
Proof.
  split; [|intros ->; constructor]. intros Hl. inversion Hl as [| |w ? ? ? ? ? ? ? ? E|w ? ? ?|w ? ? E]; try done; by destruct w.
Qed.

(** One character of the switch. *)
Lemma shell_words_char st q cur c t : (c = backslash -> t = []) -> shell_words st q cur (c :: t) =
  match st with
  | SEPARATOR =>
      if isspace c then shell_words SEPARATOR q cur t
      else if is_quote c then shell_words QUOTE c cur t
      else shell_words ARG q (cur ++ [c]) t
  | QUOTE => if byte_eqb c q then shell_words ARG q cur t else shell_words QUOTE q (cur ++ [c]) t
  | ARG =>
      if isspace c then ws ← shell_words SEPARATOR q [] t; Some (cur :: ws)
      else if is_quote c then shell_words QUOTE c cur t
      else shell_words ARG q (cur ++ [c]) t
  end.
Proof.
  intros Hc. cbn [shell_words]. destruct t as [|d t]; [done|]. rewrite byte_eqb_neq; [done|].
  by intros E%Hc.
Qed.

(** The scanner agrees with the grammar on [t], from every state. *)
Definition scans (t : bytes) : Prop := forall q cur ws,
  (shell_words SEPARATOR q [] t = Some ws <-> line t ws) /\
  (shell_words ARG q cur t = Some ws <-> rest_of cur t ws) /\
  (is_quote q = true -> shell_words QUOTE q cur t = Some ws <-> rest_quoted q cur t ws).

Lemma scans_nil : scans [].
Proof.
  intros q cur ws. simpl. rewrite rest_nil, line_nil_inv. split; [naive_solver|]. split; [naive_solver|].
  intros Hq. split; [done|]. by intros ?%rest_quoted_nil.
Qed.

Lemma scans_escape d t : scans t -> scans (backslash :: d :: t).
Proof.
  intros Ht q cur ws. cbn [shell_words]. rewrite byte_eqb_refl.
  destruct (Ht q [d] ws) as (_ & Ha & _). destruct (Ht q (cur ++ [d]) ws) as (_ & Ha' & Hq').
  rewrite rest_escape, Ha'. split; [|split; [done|]].
  - rewrite (line_rest (backslash :: d :: t)), rest_escape by (done || by intros ? [= <-]). exact Ha.
  - intros Hq. rewrite rest_quoted_escape by done. by apply Hq'.
Qed.

Lemma scans_backslash : scans [backslash].
Proof.
  intros q cur ws. simpl. rewrite rest_backslash. split; [|split; [naive_solver|]].
  - rewrite line_rest by (done || by intros ? [= <-]). rewrite rest_backslash. naive_solver.
  - intros Hq. rewrite byte_eqb_neq by (pose proof (quote_not_backslash q Hq); congruence).
    split; [done|]. by intros ?%rest_quoted_backslash.
Qed.

Lemma scans_char c t : c <> backslash -> scans t -> scans (c :: t).
Proof.
  intros Hb Ht q cur ws. rewrite !shell_words_char by (intros ->; done).
  assert (forall ws', shell_words SEPARATOR q [] t = Some ws' <-> line t ws') as HS by (intros ws'; apply (Ht q [])).
  assert (forall q' cur' ws', shell_words ARG q' cur' t = Some ws' <-> rest_of cur' t ws') as HA by (intros; apply Ht).
  assert (forall q' cur' ws', is_quote q' = true -> shell_words QUOTE q' cur' t = Some ws' <-> rest_quoted q' cur' t ws') as HQ
    by (intros q' cur' ws'; apply Ht).
  split; [|split]; cbv beta iota.
  - destruct (isspace c) eqn:Hs; [by rewrite line_space_inv|].
    rewrite line_rest by (done || by intros ? [= <-]). destruct (is_quote c) eqn:Hc.
    + rewrite rest_quote by done. by apply HQ.
    + rewrite rest_char by done. apply HA.
  - destruct (isspace c) eqn:Hs.
    + rewrite rest_space by done. destruct (shell_words SEPARATOR q [] t) as [ws'|]; simpl.
      * split; [intros [= <-]; exists ws'; split; [by apply HS|done]|].
        intros (ws2 & Hl & ->). apply HS in Hl. congruence.
      * split; [done|]. intros (ws2 & Hl & ->). apply HS in Hl. congruence.
    + destruct (is_quote c) eqn:Hc; [rewrite rest_quote by done; by apply HQ|].
      rewrite rest_char by done. apply HA.
  - intros Hq. destruct (decide (c = q)) as [->|Hcq].
    + rewrite byte_eqb_refl, rest_quoted_end by done. apply HA.
    + rewrite byte_eqb_neq, rest_quoted_char by done. by apply HQ.
Qed.

(** The machine decides the grammar. *)
Lemma shell_words_spec t : scans t.
Proof.
  induction t as [t IH] using (induction_ltof1 _ (@length byte)). unfold ltof in IH.
  destruct t as [|c t]; [apply scans_nil|]. destruct (decide (c = backslash)) as [->|Hb].
  - destruct t as [|d t]; [apply scans_backslash|]. apply scans_escape, IH. simpl. lia.
  - apply scans_char; [done|]. apply IH. simpl. lia.
Qed.

(** * The code against the machine *)

(** The vector holds [args] and the buffer [cur]. *)
Record parsing (p : parser) (args : list bytes) (cur : bytes) (st : state) (q : byte) : Prop := {
  pg_vector : vector_ok (ps_args p);
  pg_args : v_strings (ps_args p) = args;
  pg_arg : holds (ps_arg p) cur;
  pg_used : b_used (ps_arg p) = 0;
  pg_nul : no_nul cur;
  pg_state : ps_state p = st;
  pg_quote : ps_quote p = q;
}.

Lemma vector_addn_ok v s : vector_ok v -> no_nul s ->
  exists v', vector_addn v s (blen s) = Some v' /\ v_strings v' = v_strings v ++ [s] /\ vector_ok v'.
Proof.
  intros [Hc H1] Hs. unfold vector_addn. rewrite x_strndup_all by done.
  set (v1 := if _ =? _ then _ else v).
  assert (v_strings v1 = v_strings v /\ v_count v < v_allocated v1 /\ 1 <= v_allocated v1) as (E & Hlt & H1').
  { unfold v1. destruct (Z.eqb_spec (v_count v) (v_allocated v)) as [Heq|]; [|repeat split; done || lia].
    unfold vector_resize. cbn [v_strings v_allocated]. destruct (Z.ltb_spec (v_allocated v + 1) (v_count v)); [lia|].
    destruct (Z.eqb_spec (v_allocated v + 1) 0); [lia|]. repeat split; lia. }
  rewrite E, store_Some by exact Hlt. simpl. eexists. split; [reflexivity|]. split; [done|].
  split; [|done]. unfold v_count in *. simpl. rewrite blen_app. change (blen [s]) with 1. lia.
Qed.

Lemma add_byte_ok p args cur st q c : parsing p args cur st q -> c <> nul -> blen cur + 1024 < 2 ^ 64 ->
  exists p', add_byte c p = Some p' /\ parsing p' args (cur ++ [c]) st q.
Proof.
  intros [Hv Ha Hb Hu Hn Hst Hq] Hc Hl. unfold add_byte.
  destruct (append_holds (ps_arg p) cur [c] Hb) as (b & -> & Hb' & Hu' & _); [change (blen [c]) with 1; lia|].
  simpl. eexists. split; [reflexivity|]. split; try done; [simpl; lia|]. apply no_nul_app. split; [done|].
  unfold no_nul. set_solver.
Qed.

Lemma add_arg_ok p args cur st q : parsing p args cur st q ->
  exists p', add_arg p = Some p' /\ parsing p' (args ++ [cur]) cur st q.
Proof.
  intros [Hv Ha Hb Hu Hn Hst Hq]. unfold add_arg. pose proof (holds_bounds _ _ Hb) as (_ & Hl & _).
  pose proof (blen_nonneg cur). pose proof (holds_peek _ _ 0 (b_left (ps_arg p)) Hb) as Hp. rewrite Hu in Hp.
  change (0 + 0) with 0 in Hp. rewrite Hp by lia. rewrite zdrop_0, ztake_ge, Hl by lia. cbn [mbind option_bind].
  destruct (vector_addn_ok (ps_args p) cur Hv Hn) as (v & -> & Ev & Hv'). simpl.
  eexists. split; [reflexivity|]. split; try done. simpl. by rewrite Ev, Ha.
Qed.

(** One step of the machine, with the words so far. *)
Definition lex_char (c : byte) (args : list bytes) (cur : bytes) (st : state) (q : byte)
    : list bytes * bytes * state * byte :=
  match st with
  | SEPARATOR => if isspace c then (args, cur, SEPARATOR, q)
                 else if is_quote c then (args, cur, QUOTE, c) else (args, cur ++ [c], ARG, q)
  | QUOTE => if byte_eqb c q then (args, cur, ARG, q) else (args, cur ++ [c], QUOTE, q)
  | ARG => if isspace c then (args ++ [cur], [], SEPARATOR, q)
           else if is_quote c then (args, cur, QUOTE, c) else (args, cur ++ [c], ARG, q)
  end.

Definition parsing4 (p : parser) (r : list bytes * bytes * state * byte) : Prop :=
  parsing p r.1.1.1 r.1.1.2 r.1.2 r.2.

Lemma parsing_set_state p args cur st q st' : parsing p args cur st q -> parsing (ps_set_state st' p) args cur st' q.
Proof. by intros []. Qed.

Lemma parse_char_ok p args cur st q c : parsing p args cur st q -> c <> nul -> blen cur + 1024 < 2 ^ 64 ->
  exists p', parse_char c p = Some p' /\ parsing4 p' (lex_char c args cur st q).
Proof.
  intros Hp Hc Hl. pose proof Hp as [Hv Ha Hb Hu Hn Hst Hq]. unfold parse_char, lex_char. rewrite Hst, Hq.
  assert (parsing (ps_set_quote c p) args cur QUOTE c) as Hquote by by split.
  destruct st.
  - destruct (isspace c); cbn [negb]; [by exists p|]. destruct (is_quote c); [by eexists|].
    apply add_byte_ok; [by eapply parsing_set_state|done..].
  - destruct (isspace c); [|destruct (is_quote c); [by eexists|by apply add_byte_ok]].
    destruct (add_arg_ok p args cur ARG q Hp) as (p1 & -> & [Hv1 Ha1 Hb1 Hu1 Hn1 Hst1 Hq1]). cbn [mbind option_bind].
    destruct (set_holds (ps_arg p1) cur [] Hb1) as (b & -> & Hb2 & Hu2 & _); [done|]. simpl.
    eexists. split; [reflexivity|]. split; try done. apply no_nul_nil.
  - destruct (byte_eqb c q); [eexists; split; [reflexivity|]; by eapply parsing_set_state|by apply add_byte_ok].
Qed.

(** What a walk leaves, against the words the machine finds. *)
Definition lexed (args : list bytes) (words : option (list bytes)) (p : parser) : Prop :=
  exists args' cur' st' q', parsing p args' cur' st' q' /\
    match st' with
    | QUOTE => words = None
    | ARG => exists ws, words = Some ws /\ args ++ ws = args' ++ [cur']
    | SEPARATOR => exists ws, words = Some ws /\ args ++ ws = args'
    end.

Lemma lexed_char args cur st q c t p : (c = backslash -> t = []) ->
  (let '(args', cur', st', q') := lex_char c args cur st q in lexed args' (shell_words st' q' cur' t) p) ->
  lexed args (shell_words st q cur (c :: t)) p.
Proof.
  intros Hc. rewrite shell_words_char by done. unfold lex_char.
  destruct st; [destruct (isspace c); [done|destruct (is_quote c); done]| |destruct (byte_eqb c q); done].
  destruct (isspace c); [|destruct (is_quote c); done].
  intros (args' & cur' & st' & q' & Hp & Hw). exists args', cur', st', q'. split; [done|].
  destruct st'; [destruct Hw as (ws & -> & E)..|by rewrite Hw]; exists (cur :: ws); rewrite <- E; (split; [done|]);
    by rewrite <- app_assoc.
Qed.

Lemma lex_char_cur c args cur st q : blen (lex_char c args cur st q).1.1.2 <= blen cur + 1.
Proof.
  pose proof (blen_nonneg cur). assert (blen (cur ++ [c]) = blen cur + 1) as E by (by rewrite blen_app).
  unfold lex_char. destruct st; [destruct (isspace c); [|destruct (is_quote c)]..|destruct (byte_eqb c q)];
    cbn [fst snd]; rewrite ?E, ?blen_nil; lia.
Qed.

Lemma parse_walk_ok n : forall t p args cur st q, (length t <= n)%nat -> parsing p args cur st q -> no_nul t ->
  blen cur + blen t + 1024 < 2 ^ 64 -> exists p', parse_walk t p = Some p' /\ lexed args (shell_words st q cur t) p'.
Proof.
  induction n as [n IH] using lt_wf_ind. intros t p args cur st q Hn Hp Ht Hl. destruct t as [|c t].
  { exists p. split; [done|]. exists args, cur, st, q. split; [done|].
    destruct st; [exists []; by rewrite app_nil_r|by exists [cur]|done]. }
  apply no_nul_cons in Ht as [Hc Ht]. rewrite blen_cons in Hl. pose proof (blen_nonneg t).
  destruct (decide (c = backslash /\ t <> [])) as [[-> Hne]|Hnb].
  - destruct t as [|d t]; [done|]. apply no_nul_cons in Ht as [Hd Ht]. rewrite blen_cons in Hl.
    pose proof (blen_nonneg t). cbn [parse_walk]. change (byte_eqb backslash "\") with true. cbv iota. unfold parse_escape.
    destruct (add_byte_ok p args cur st q d Hp Hd) as (p1 & -> & Hp1); [lia|]. cbn [mbind option_bind].
    pose proof Hp1 as [_ _ _ _ _ Hst _]. rewrite Hst.
    set (st1 := match st with SEPARATOR => ARG | _ => st end).
    assert (parsing (match st with SEPARATOR => ps_set_state ARG p1 | _ => p1 end) args (cur ++ [d]) st1 q) as Hp2.
    { destruct st; [by eapply parsing_set_state|done..]. }
    destruct (IH (length t) ltac:(simpl in Hn; lia) t _ _ _ _ _ ltac:(lia) Hp2 Ht) as (p' & E & Hlex).
    { rewrite blen_app. change (blen [d]) with 1. lia. }
    exists p'. split; [exact E|]. cbn [shell_words]. rewrite byte_eqb_refl. exact Hlex.
  - destruct (parse_char_ok p args cur st q c Hp Hc) as (p1 & E1 & Hp1); [lia|].
    pose proof (lex_char_cur c args cur st q) as Hcur.
    assert (parse_walk (c :: t) p = (p1 ← parse_char c p; parse_walk t p1)) as ->.
    { cbn [parse_walk]. destruct t as [|d t]; [by destruct (parse_char c p)|].
      rewrite byte_eqb_neq; [done|]. intros ->. by apply Hnb. }
    rewrite E1. cbn [mbind option_bind].
    unfold parsing4 in Hp1. destruct (lex_char c args cur st q) as [[[args1 cur1] st1] q1] eqn:El. cbn [fst snd] in *.
    destruct (IH (length t) ltac:(simpl in Hn; lia) t _ _ _ _ _ ltac:(lia) Hp1 Ht) as (p' & E & Hlex); [lia|].
    exists p'. split; [exact E|]. apply lexed_char; [|by rewrite El].
    intros ->. destruct t; [done|by destruct Hnb].
Qed.

(** The parser answers what the machine answers. *)
Lemma parse_command_words {S} `{HasLog S} command (s : S) : no_nul command -> blen command < 2 ^ 63 ->
  exists r s', server_ssh_parse_command command s = Ret r s' /\ r = shell_words SEPARATOR nul [] command /\
    match r with Some _ => s' = s | None => exists c, s' = add_log (Log Warn "unterminated %c quote in command" [AInt c]) s end.
Proof.
  intros Hn Hl. unfold server_ssh_parse_command.
  destruct (parse_walk_ok (length command) command (Parser vector_new buffer_new SEPARATOR nul) [] [] SEPARATOR nul)
    as (p & -> & args & cur & st & q & Hp & Hw); [lia| |done|rewrite blen_nil; lia|].
  { split; try done; [apply buffer_new_holds|apply no_nul_nil]. }
  cbn [from_option_fault]. rewrite (bind_Ret _ _ s p s eq_refl). pose proof Hp as [_ Ha _ _ _ Hst _]. rewrite Hst.
  destruct st.
  - destruct Hw as (ws & -> & E). do 2 eexists. split; [reflexivity|]. simpl in E. split; [congruence|done].
  - destruct Hw as (ws & -> & E). destruct (add_arg_ok p args cur ARG q Hp) as (p' & -> & [_ Ha' _ _ _ _ _]).
    do 2 eexists. split; [reflexivity|]. simpl in E. split; [congruence|done].
  - rewrite Hw. do 2 eexists. split; [reflexivity|]. split; [done|]. by eexists.
Qed.

(** * Theorems *)

(** C27: the commands remctl-shell accepts.  For every command string (free of nuls, as C strings are, and
    shorter than 2^63), the parser terminates without leaving its buffers; it succeeds with arguments [args]
    if and only if the string is a command line of the quoting grammar for exactly those arguments, and
    then logs nothing; otherwise it warns about an unterminated quote and returns [NULL]. *)
Theorem ssh_parse_grammar {S} `{HasLog S} command (s : S) : no_nul command -> blen command < 2 ^ 63 ->
  exists r s', server_ssh_parse_command command s = Ret r s' /\
    (forall args, r = Some args <-> line command args) /\
    match r with Some _ => s' = s | None => exists c, s' = add_log (Log Warn "unterminated %c quote in command" [AInt c]) s end.
Proof.
  intros Hn Hl. destruct (parse_command_words command s Hn Hl) as (r & s' & E & -> & Hlog).
  do 2 eexists. split; [exact E|]. split; [|done]. intros args.
  apply (shell_words_spec command nul [] args).
Qed.

Lemma ssh_parse_grammar_witness :
  let command := str "account passwd 'it''s \'x' a\ b \" in
  exists r s', server_ssh_parse_command command ([] : logs) = Ret r s' /\
    (forall args, r = Some args <-> line command args) /\
    match r with Some _ => s' = [] | None => exists c, s' = add_log (Log Warn "unterminated %c quote in command" [AInt c]) [] end.
Proof. intros command. refine (ssh_parse_grammar command [] _ _); [unfold no_nul; vm_compute; set_solver|done]. Defined.

(** Quoting an argument: single quotes around it, and a backslash before the
    quotes and backslashes in it. *)
Definition quote_byte (c : byte) : bytes := if byte_eqb c "'" || byte_eqb c backslash then [backslash; c] else [c].
Definition shell_quote (arg : bytes) : bytes := "'"%byte :: concat (map quote_byte arg) ++ ["'"%byte].

Lemma shell_quote_word arg : shell_word (shell_quote arg) arg.
Proof.
  rewrite <- (app_nil_r arg) at 2. apply (word_quote "'" (concat (map quote_byte arg)) arg []); [done| |constructor].
  induction arg as [|c arg IH]; [constructor|]. simpl. unfold quote_byte.
  destruct (byte_eqb c "'" || byte_eqb c backslash) eqn:E; [by constructor|].
  apply orb_false_iff in E as [E1%bool_decide_eq_false E2%bool_decide_eq_false]. by constructor.
Qed.

Lemma shell_quote_no_nul arg : no_nul arg -> no_nul (shell_quote arg).
Proof.
  intros Ha. unfold shell_quote. apply no_nul_cons. split; [done|]. apply no_nul_app.
  split; [|by unfold no_nul; set_solver]. induction arg as [|c arg IH]; [apply no_nul_nil|].
  apply no_nul_cons in Ha as [Hc Ha]. simpl. apply no_nul_app. split; [|by apply IH].
  unfold quote_byte, no_nul. destruct (_ || _); set_solver.
Qed.

Lemma line_join args : line (join_ref (str " ") (map shell_quote args)) args.
Proof.
  induction args as [|a [|b args] IH]; [constructor| |].
  - by apply line_last; [apply shell_quote_word|].
  - change (join_ref (str " ") (map shell_quote (a :: b :: args))) with
      (shell_quote a ++ x20 :: join_ref (str " ") (map shell_quote (b :: args))).
    by apply line_word; [apply shell_quote_word| | |].
Qed.

Lemma join_no_nul args : Forall no_nul args -> no_nul (join_ref (str " ") (map shell_quote args)).
Proof.
  induction args as [|a [|b args] IH]; intros Hf; [apply no_nul_nil| |]; apply Forall_cons_1 in Hf as [Ha Hf].
  - by apply shell_quote_no_nul.
  - change (join_ref (str " ") (map shell_quote (a :: b :: args))) with
      (shell_quote a ++ [x20] ++ join_ref (str " ") (map shell_quote (b :: args))).
    apply no_nul_app. split; [by apply shell_quote_no_nul|]. apply no_nul_app. split; [by unfold no_nul; set_solver|by apply IH].
Qed.

(** The round trip of quoting.  Any list of arguments without nuls, each quoted in single quotes with
    backslashes before its quotes and backslashes, and joined with spaces, is parsed back exactly. *)
Lemma ssh_quote_roundtrip {S} `{HasLog S} args (s : S) : Forall no_nul args ->
  blen (join_ref (str " ") (map shell_quote args)) < 2 ^ 63 ->
  server_ssh_parse_command (join_ref (str " ") (map shell_quote args)) s = Ret (Some args) s.
Proof.
  intros Ha Hl. destruct (parse_command_words _ s (join_no_nul args Ha) Hl) as (r & s' & E & Er & Hlog).
  assert (shell_words SEPARATOR nul [] (join_ref (str " ") (map shell_quote args)) = Some args) as Ew.
  { apply (shell_words_spec _ nul [] args), line_join. }
  rewrite Ew in Er. subst r s'. exact E.
Qed.

Lemma ssh_quote_roundtrip_witness :
  server_ssh_parse_command (str "'it\'s' '' 'a \\ b'") ([] : logs) = Ret (Some [str "it's"; []; str "a \ b"]) [].
Proof.
  refine (ssh_quote_roundtrip [str "it's"; []; str "a \ b"] [] _ _); [|done].
  repeat constructor; unfold no_nul; vm_compute; set_solver.
Defined.

(** * The program *)

Section shell.
Context {C : Type} `{GssMech C} `{AclEnv} `{ConfEnv} `{SshEnv}.
Context (CONFIG_FILE : bytes) (acl_fuel conf_fuel : nat).
Implicit Types w : world C.

(** Who asks for what: the user and the command string of an invocation. *)
Definition shell_request (o : shell_options) (operands : list bytes) (user command : bytes) : Prop :=
  match so_command o with
  | None => operands = [user] /\ getenv (str "SSH_ORIGINAL_COMMAND") = Some command
  | Some c => operands = [] /\ command = c /\ getenv (str "REMCTL_USER") = Some user
  end.

Lemma shell_getopt_ret opts : forall o o' w w', shell_getopt opts o w = Ret o' w' -> w' = w.
Proof.
  induction opts as [|[c arg|c] opts IH]; intros o o' w w'; simpl; [by intros [= _ <-]| |done].
  repeat (destruct (byte_eqb c _); [first [done|apply IH]|]). destruct (_ || _); [apply IH|done].
Qed.

Lemma config_load_world conf_f file w r w' : server_config_load conf_f file w = Ret r w' ->
  w_execs w' = w_execs w /\ w_client w' = w_client w.
Proof.
  unfold server_config_load. destruct (read_conf_file _ _ _) as [st l| | |]; [|done..]. intros [= _ <-].
  generalize (ld_log l). intros msgs. revert w. induction msgs as [|m msgs IH]; intros w; [done|]. simpl.
  destruct (IH (add_log m w)) as [-> ->]. done.
Qed.

Lemma parse_command_world command w r w' : server_ssh_parse_command command w = Ret (Some r) w' -> w' = w.
Proof.
  unfold server_ssh_parse_command. intros (p & w1 & E1 & E)%bind_Ret_inv.
  assert (w1 = w) as -> by (destruct (parse_walk _ _); [by injection E1|done]).
  destruct (ps_state p); [by injection E| |done]. apply bind_Ret_inv in E as (p' & w2 & E2 & E).
  destruct (add_arg p) as [p1|]; [|done]. injection E2 as <- <-. by injection E as _ <-.
Qed.

Lemma new_client_ret user w cl w' : server_ssh_new_client user w = Ret cl w' ->
  w' = w /\ c_anonymous cl = false /\
  Some (c_user cl) = match user with Some u => Some u | None => getenv (str "REMCTL_USER") end.
Proof.
  unfold server_ssh_new_client. destruct (match user with Some _ => _ | None => _ end) as [u|]; [|done].
  destruct (getenv _) as [conn|]; [|done]. intros E.
  apply bind_Ret_inv in E as (v & w1 & E1 & E). apply bind_Ret_inv in E as (a & w2 & E2 & E).
  destruct (vector_split_space conn None) as [v'|]; [|done]. injection E1 as -> <-.
  destruct (head (v_strings v)); [|done]. injection E2 as _ <-. injection E as <- <-. done.
Qed.

(** C28: remctl-shell runs nothing the configuration does not permit.  When the program returns, it has
    taken the user from its operand (with the command from SSH_ORIGINAL_COMMAND) or, with -c, from
    REMCTL_USER; it has loaded the configuration and parsed the command; and the programs it ran,
    at most one unless the command is a bare "help", belong to rules of that configuration
    whose access check granted that user, never as anonymous, access. *)
Theorem shell_execs_permitted argv w st w' :
  shell_main CONFIG_FILE acl_fuel conf_fuel argv w = Ret st w' ->
  exists o user command cfg words w1 new,
    shell_getopt (getopt_all (str "c:df:hqS") argv).1 (ShellOptions None CONFIG_FILE) w = Ret o w /\
    shell_request o (getopt_all (str "c:df:hqS") argv).2 user command /\
    server_config_load conf_fuel (so_config o) w = Ret (Some cfg) w1 /\
    server_ssh_parse_command command w1 = Ret (Some words) w1 /\
    w_execs w' = w_execs w ++ new /\ (words <> [str "help"] -> (length new <= 1)%nat) /\
    Forall (fun x => exists ru w0, ru ∈ cfg /\ c_user (w_client w0) = user /\
      c_anonymous (w_client w0) = false /\ permitted_exec acl_fuel w0 ru x) new.
Proof.
  unfold shell_main. destruct (getopt_all _ argv) as [opts operands]. cbn [fst snd].
  intros (o & w1 & Eo & E)%bind_Ret_inv. pose proof (shell_getopt_ret _ _ _ _ _ Eo) as ->.
  apply bind_Ret_inv in E as ([command user] & w1 & Ec & E).
  assert (w1 = w /\ forall u, Some u = match user with Some u => Some u | None => getenv (str "REMCTL_USER") end ->
    shell_request o operands u command) as [-> Hreq].
  { unfold shell_request. destruct (so_command o) as [c|].
    - destruct operands; [|done]. injection Ec as <- <- <-. split; [done|]. by intros u <-.
    - destruct operands as [|u0 [|]]; [done| |done]. destruct (getenv _); [|done]. injection Ec as <- <- <-.
      split; [done|]. by intros u [= ->]. }
  apply bind_Ret_inv in E as ([cfg|] & w1 & El & E); [|done].
  apply bind_Ret_inv in E as (cl & w2 & Ecl & E). apply new_client_ret in Ecl as (-> & Han & Hu).
  apply bind_Ret_inv in E as ([words|] & w2 & Ep & E); [|done].
  pose proof (parse_command_world _ _ _ _ Ep) as ->. rewrite (bind_Ret (modify (put_client cl)) _ w1 tt (put_client cl w1) eq_refl) in E.
  destruct (config_load_world _ _ _ _ _ El) as [Ex _].
  assert (exists new, w_execs w' = w_execs w ++ new /\ (words <> [str "help"] -> (length new <= 1)%nat) /\
    Forall (fun x => exists ru, ru ∈ cfg /\ permitted_exec acl_fuel (put_client cl w1) ru x) new) as (new & En & Hl & Hf).
  { destruct (selected_grew acl_fuel cfg words _ _ _ E) as [(new & En & Hl & Hf)|[-> (n & new & En & _ & Hf)]];
      exists new; rewrite En; simpl; rewrite Ex; (split; [done|]; split; [done|]); [|done].
    eapply Forall_impl; [exact Hf|]. intros x (ru & Hr & Hx). exists ru. split; [by eapply selected_in|done]. }
  exists o, (c_user cl), command, cfg, words, w1, new. repeat split; try done; [by apply Hreq|].
  eapply Forall_impl; [exact Hf|]. intros x (ru & Hr & Hx). by exists ru, (put_client cl w1).
Qed.
(** The documented option -v is not among those remctl-shell knows: whatever follows it, the program
    complains about an unknown option and exits with status 1 without printing its version. *)
Lemma shell_version_unknown argv w :
  shell_main CONFIG_FILE acl_fuel conf_fuel (str "-v" :: argv) w =
  Exit 1 (add_log (Log Warn "unknown option -%c" [AInt 118]) w).
Proof.
  unfold shell_main. unfold getopt_all. cbn [getopt_words]. change (bytes_eqb (str "-v") (str "--")) with false. cbv iota.
  change (str "-v") with ["-"%byte; "v"%byte]. cbv iota. rewrite byte_eqb_refl.
  change (getopt_word (str "c:df:hqS") ["v"%byte]) with ([OptBad "v"], @None byte). cbv iota.
  destruct (getopt_words false (str "c:df:hqS") argv) as [r rest]. reflexivity.
Qed.
End shell.

(** ** A concrete host for the witnesses *)

#[local] Instance shell_demo_files : AclEnv := {|
  fs_isdir _ := None; fs_readdir _ := None;
  fs_read f := if bytes_eqb f (str "/c") then Some (str "account ALL /bin/pw ANYUSER" ++ [x0a]) else None;
  have_gput := false; have_localgroup := false; have_pcre := false; have_regex := false;
  gput_open_ok := false; gput_check _ _ _ := false;
  pcre_match _ _ := RegexNoMatch; regex_match _ _ := RegexNoMatch;
  getgrnam_r _ := []; krb5_init_context := 0; krb5_parse_name _ := 0; krb5_aname_to_localname _ := NoLocalName; pw_gid _ := None;
|}.
#[local] Instance shell_demo_users : ConfEnv := {| getpwuid _ := None; getpwnam _ := None |}.
#[local] Instance shell_demo_env : SshEnv := {|
  getenv n := if bytes_eqb n (str "SSH_ORIGINAL_COMMAND") then Some (str "account 'ls -l'")
              else if bytes_eqb n (str "SSH_CONNECTION") then Some (str "10.0.0.1 4022 10.0.0.2 22") else None;
  host_of _ := None;
|}.

(** A child whose output cannot be read, and that then exits with status [k]. *)
Definition unreadable_child (k : Z) : child :=
  Child (SpawnOk 7 5 6) [EvIo OutStream false true true 5] [] (Some (256 * k)).

Lemma shell_execs_permitted_witness :
  let _ := null_mech in let w := demo_world [demo_child 3] in
  exists w', shell_main (str "/c") 4 1 [str "eagle"] w = Ret 3 w' /\
  exists o user command cfg words w1 new,
    shell_getopt (getopt_all (str "c:df:hqS") [str "eagle"]).1 (ShellOptions None (str "/c")) w = Ret o w /\
    shell_request o (getopt_all (str "c:df:hqS") [str "eagle"]).2 user command /\
    server_config_load 1 (so_config o) w = Ret (Some cfg) w1 /\
    server_ssh_parse_command command w1 = Ret (Some words) w1 /\
    w_execs w' = w_execs w ++ new /\ (words <> [str "help"] -> (length new <= 1)%nat) /\
    Forall (fun x => exists ru (w0 : world unit), ru ∈ cfg /\ c_user (w_client w0) = user /\
      c_anonymous (w_client w0) = false /\ permitted_exec 4 w0 ru x) new.
Proof.
  intros mech w. assert (exists w', shell_main (str "/c") 4 1 [str "eagle"] w = Ret 3 w') as [w' E]
    by (eexists; vm_compute; reflexivity).
  exists w'. split; [exact E|]. exact (shell_execs_permitted (str "/c") 4 1 [str "eagle"] w 3 w' E).
Defined.

(** A failure that reads as success.  When the output of the program cannot be read, the user of
    remctl-shell sees "Internal failure" on standard error, but the program returns the raw wait status
    of its child as its own: for a child that exited with any status [k], 256 * k, of which the caller sees
    the low byte, 0. *)
Lemma shell_failure_exits_zero k : let _ := null_mech in
  exists w', shell_main (str "/c") 4 1 [str "eagle"] (demo_world [unreadable_child k]) = Ret (256 * k) w' /\
    n_out (w_stderr w') = str "Internal failure" ++ [x0a] /\ exit_code (256 * k) = 0.
Proof.
  intros mech. eexists. split; [vm_compute; reflexivity|]. split; [vm_compute; reflexivity|].
  unfold exit_code. change 255 with (Z.ones 8). rewrite Z.land_ones by lia. rewrite Z.mul_comm. by apply Z.mod_mul.
Qed.
