(* ===== verification/Streams.v ===== *)
(** The output of a program over protocol two: everything libevent reads from
    the program's two streams goes to the client in OUTPUT messages, in
    order. *)

From S2P Require Import Prelude Effects Net Tokens Command Server Process.

#[export] Instance stream_eq_dec : EqDecision stream.
Proof. solve_decision. Defined.

(** The data of one stream in the messages that were sent. *)
Definition token_data (st : stream) (tok : bytes) : bytes :=
  match tok with
  | _ :: ty :: s :: _ :: _ :: _ :: _ :: d =>
      if (bu ty =? MESSAGE_OUTPUT) && (bu s =? stream_num st) then d else []
  | _ => []
  end.

Definition stream_data (st : stream) (sent : list (Z * bytes)) : bytes :=
  concat (map (fun t => token_data st t.2) sent).

(** The data a script delivers on a stream: what arrives until the end of
    file, while [reading]. *)
Fixpoint delivered (st : stream) (reading : bool) (evs : list bevent) : bytes :=
  match evs with
  | [] => []
  | EvData s d :: evs => (if reading && bool_decide (s = st) then d else []) ++ delivered st reading evs
  | EvIo s true _ _ _ :: evs => delivered st (reading && negb (bool_decide (s = st))) evs
  | _ :: evs => delivered st reading evs
  end.

(** libevent calls the read callback whenever data has arrived. *)
Fixpoint called_back (evs : list bevent) : Prop :=
  match evs with
  | [] => True
  | EvData s _ :: (EvRead s' :: _) as rest => s = s' /\ called_back rest
  | EvData _ _ :: _ => False
  | _ :: rest => called_back rest
  end.

(** The runs of the loop after the program's exit that are made: until one
    in which no stream is read. *)
Definition is_read (ev : bevent) : bool := match ev with EvRead _ => true | _ => false end.

Fixpoint rounds_made (rounds : list (list bevent)) : list (list bevent) :=
  match rounds with
  | [] => []
  | evs :: rounds => evs :: if existsb is_read evs then rounds_made rounds else []
  end.

Lemma stream_data_snoc st sent t : stream_data st (sent ++ [t]) = stream_data st sent ++ token_data st t.2.
Proof. unfold stream_data. rewrite map_app, concat_app. simpl. by rewrite app_nil_r. Qed.

Lemma token_data_output st st' d :
  token_data st ([bz 2; bz MESSAGE_OUTPUT; bz (stream_num st')] ++ be32 (blen d) ++ d) =
  if bool_decide (st' = st) then d else [].
Proof. by destruct st, st'. Qed.

Section streams.
Context {C : Type} `{GssMech C}.
Implicit Types r : running C.

(** The callbacks protocol two installs. *)
Definition v2_running r : Prop :=
  c_kind (w_client (rn_world r)) = KindV2 /\ forall st, be_readcb (rn_bev st r) = CbOutputV2.

(** What the client has been sent of a stream, and what waits to be sent. *)
Definition seen st r : bytes := stream_data st (ch_sent (w_chan (rn_world r))).
Definition waiting st r : bytes := be_input (rn_bev st r).
Definition reading st r : bool := be_read (rn_bev st r).

Lemma v2_send_ok what tok (w w' : world C) : v2_send what tok w = Ret true w' ->
  ch_sent (w_chan w') = ch_sent (w_chan w) ++ [(v2_flags, tok)] /\ w_client w' = w_client w.
Proof.
  intros E. unfold v2_send in E. apply bind_Ret_inv in E as (st & w1 & E1 & E).
  destruct (status_ok st) eqn:Est; simpl in E;
    [|by apply bind_Ret_inv in E as (? & ? & _ & (? & ? & _ & ?)%bind_Ret_inv)].
  injection E as <-. apply bool_decide_eq_true in Est as ->.
  rewrite server_send_eq in E1. unfold on_chan, zoom in E1.
  destruct (token_send_priv_returns (c_fd (w_client w)) v2_flags tok TIMEOUT (w_chan w)) as [Hs|Hs]; [by rewrite Hs in E1|].
  unfold runs, wp in Hs. destruct (token_send_priv _ v2_flags tok TIMEOUT (w_chan w)) as [st ch| | |]; [|done..].
  injection E1 as -> <-. split; [|done]. by apply Hs.
Qed.

Lemma v2_output_ok st d (w w' : world C) :
  server_v2_send_output (stream_num st) d w = Ret true w' -> w_client w' = w_client w /\
  forall st', stream_data st' (ch_sent (w_chan w')) =
    stream_data st' (ch_sent (w_chan w)) ++ if bool_decide (st = st') then d else [].
Proof.
  intros E. unfold server_v2_send_output in E. destruct (_ || _); [done|]. destruct (_ <=? _); [done|].
  apply v2_send_ok in E as [Es Ec]. split; [done|]. intros st'.
  rewrite Es, stream_data_snoc. f_equal. apply token_data_output.
Qed.

(** The read callback sends the buffer, and leaves the other stream alone. *)
Lemma v2_handle_output_ok st r u r' :
  v2_handle_output st r = Ret u r' -> v2_running r -> rn_break r' = false ->
  v2_running r' /\ waiting st r' = [] /\ rn_break r = false /\
  forall st', seen st' r' ++ waiting st' r' = seen st' r ++ waiting st' r /\ reading st' r' = reading st' r /\
    (waiting st' r = [] -> waiting st' r' = []).
Proof.
  intros E [Hk Hcb] Hb. unfold v2_handle_output in E.
  apply bind_Ret_inv in E as (u1 & r1 & E1 & E). injection E1 as _ <-.
  apply bind_Ret_inv in E as (buf & r2 & E2 & E). injection E2 as <- <-.
  set (r2 := rn_set_bev st _ _) in E.
  apply bind_Ret_inv in E as (ok & r3 & E3 & E). unfold on_world, zoom in E3.
  destruct (server_v2_send_output _ _ (rn_world r2)) as [ok' w'| | |] eqn:Es; [|done..].
  injection E3 as -> <-. destruct ok; simpl in E; injection E as _ <-; [|done].
  apply v2_output_ok in Es as [Ec Hd]. simpl in Hb.
  split; [|split; [by destruct st|split; [done|]]].
  - split; [simpl; by rewrite Ec|]. intros []; [pose proof (Hcb OutStream)|pose proof (Hcb ErrStream)]; by destruct st.
  - intros st'. specialize (Hd st'). unfold seen, waiting, reading. simpl in *.
    rewrite Hd. destruct st, st'; simpl; by rewrite ?app_nil_r.
Qed.

(** One event. *)
Lemma dispatch_ok ev r u r' :
  dispatch ev r = Ret u r' -> v2_running r -> rn_break r' = false ->
  v2_running r' /\ rn_break r = false /\ forall st,
    reading st r' = reading st r && (match ev with EvIo s true _ _ _ => negb (bool_decide (s = st)) | _ => true end) /\
    seen st r' ++ waiting st r' = seen st r ++ waiting st r ++
      match ev with EvData s d => if reading st r && bool_decide (s = st) then d else [] | _ => [] end.
Proof.
  intros E Hr Hb. destruct ev as [s d|s| |s eof err rd errno|status]; simpl in E.
  - injection E as _ <-. simpl in Hb. destruct Hr as [Hk Hcb].
    split; [|split; [done|]].
    + split; [done|]. intros st. specialize (Hcb st). destruct s, st; simpl in *; try done; by destruct (be_read _).
    + intros st. unfold reading, seen, waiting.
      destruct s, st; simpl; destruct (rn_inout r) as [? [] ? ? ? ? ?], (rn_err r) as [? [] ? ? ? ? ?];
        simpl; by rewrite ?app_nil_r.
  - apply bind_Ret_inv in E as (b & r1 & E1 & E). injection E1 as <- <-.
    rewrite (proj2 Hr s) in E. destruct (v2_handle_output_ok _ _ _ _ E Hr Hb) as (Hr' & _ & Hb0 & Hall).
    split; [done|]. split; [done|]. intros st. destruct (Hall st) as (Hs & Hrd & _).
    by rewrite andb_true_r, app_nil_r.
  - apply bind_Ret_inv in E as (b & r1 & E1 & E). injection E1 as <- <-.
    assert (r' = r \/ r' = rn_set_bev OutStream (be_set_write false (rn_inout r)) r) as [-> | ->]
      by (destruct (be_writecb (rn_inout r)); injection E; auto).
    + split; [done|]. split; [done|]. intros st. by rewrite andb_true_r, app_nil_r.
    + split; [destruct Hr as [Hk Hcb]; split; [done|intros []; apply (Hcb OutStream) || apply (Hcb ErrStream)]|].
      split; [done|]. intros []; by rewrite andb_true_r, app_nil_r.
  - unfold server_handle_io_event in E. destruct eof; [|destruct (err && _)].
    + injection E as _ <-. split; [|split; [done|]].
      * destruct Hr as [Hk Hcb]. split; [done|]. intros st. specialize (Hcb st). by destruct s, st.
      * intros st. unfold reading, seen, waiting.
        destruct s, st; simpl; by rewrite ?andb_true_r, ?andb_false_r, ?app_nil_r.
    + injection E as _ <-. split; [|split; [done|]].
      * destruct Hr as [Hk Hcb]. split; [done|]. intros st. specialize (Hcb st). by destruct s, st.
      * intros st. unfold reading, seen, waiting.
        destruct s, st; simpl; by rewrite ?andb_true_r, ?app_nil_r.
    + exfalso. apply bind_Ret_inv in E as (? & r1 & _ & E). apply bind_Ret_inv in E as (? & r2 & _ & E).
      injection E as _ <-. done.
  - assert (rn_world r' = rn_world r /\ (forall st, rn_bev st r' = rn_bev st r) /\ rn_break r' = rn_break r) as (Hw & Hv & Hbk).
    { destruct status; simpl in E; [apply bind_Ret_inv in E as (? & r1 & E1 & E); injection E1 as _ <-|]; by injection E as _ <-. }
    split; [destruct Hr as [Hk Hcb]; split; [by rewrite Hw|intros st; by rewrite Hv]|]. split; [congruence|].
    intros st. unfold reading, seen, waiting. by rewrite Hw, Hv, andb_true_r, app_nil_r.
Qed.

(** Only data makes a buffer wait. *)
Lemma dispatch_waiting ev r u r' st :
  dispatch ev r = Ret u r' -> v2_running r -> rn_break r' = false ->
  waiting st r = [] \/ ev = EvRead st -> (forall d, ev <> EvData st d) -> waiting st r' = [].
Proof.
  intros E Hr Hb Hw Hd. destruct ev as [s d|s| |s eof err rd errno|status]; simpl in E.
  - injection E as _ <-. destruct Hw as [Hw|]; [|done].
    destruct s, st; (exact Hw || by destruct (Hd d)).
  - apply bind_Ret_inv in E as (b & r1 & E1 & E). injection E1 as <- <-.
    rewrite (proj2 Hr s) in E. destruct (v2_handle_output_ok _ _ _ _ E Hr Hb) as (_ & Hs & _ & Hall).
    destruct Hw as [Hw|[= ->]]; [|done]. by apply Hall.
  - destruct Hw as [Hw|]; [|done]. apply bind_Ret_inv in E as (b & r1 & E1 & E). injection E1 as <- <-.
    destruct (be_writecb (rn_inout r)); injection E as _ <-; by destruct st.
  - destruct Hw as [Hw|]; [|done]. unfold server_handle_io_event in E. destruct eof; [|destruct (err && _)].
    1-2: injection E as _ <-; by destruct s, st.
    exfalso. apply bind_Ret_inv in E as (? & r1 & _ & E). apply bind_Ret_inv in E as (? & r2 & _ & E).
    by injection E as _ <-.
  - destruct Hw as [Hw|]; [|done].
    destruct status; simpl in E; [apply bind_Ret_inv in E as (? & r1 & E1 & E); injection E1 as _ <-|]; by injection E as _ <-.
Qed.

Fixpoint reading_after (st : stream) (b : bool) (evs : list bevent) : bool :=
  match evs with
  | [] => b
  | EvIo s true _ _ _ :: evs => reading_after st (b && negb (bool_decide (s = st))) evs
  | _ :: evs => reading_after st b evs
  end.

Lemma delivered_app st evs evs' : forall b,
  delivered st b (evs ++ evs') = delivered st b evs ++ delivered st (reading_after st b evs) evs'.
Proof.
  induction evs as [|ev evs IH]; intros b; [done|]. destruct ev as [s d|s| |s [] err rd errno|status]; simpl; try done.
  by rewrite IH, app_assoc.
Qed.
Lemma reading_after_app st evs evs' : forall b,
  reading_after st b (evs ++ evs') = reading_after st (reading_after st b evs) evs'.
Proof. induction evs as [|ev evs IH]; intros b; [done|]. by destruct ev as [| | |? [] ? ? ?|]; simpl. Qed.

(** The data seen or waiting grew by what the events delivered. *)
Definition grown evs r r' : Prop := forall st,
  reading st r' = reading_after st (reading st r) evs /\
  seen st r' ++ waiting st r' = (seen st r ++ waiting st r) ++ delivered st (reading st r) evs.

Lemma grown_app evs evs' r r1 r2 : grown evs r r1 -> grown evs' r1 r2 -> grown (evs ++ evs') r r2.
Proof.
  intros H1 H2 st. destruct (H1 st) as [Er1 Es1], (H2 st) as [Er2 Es2].
  rewrite reading_after_app, delivered_app, <- Er1, app_assoc, <- Es1. done.
Qed.

(** What [saw_output] records. *)
Lemma dispatch_saw ev r u r' : dispatch ev r = Ret u r' -> v2_running r -> rn_break r' = false ->
  rn_saw_output r' = rn_saw_output r || is_read ev.
Proof.
  intros E Hr Hb. destruct ev as [s d|s| |s eof err rd errno|status]; simpl in E; rewrite ?orb_false_r, ?orb_true_r.
  - by injection E as _ <-.
  - apply bind_Ret_inv in E as (b & r1 & E1 & E). injection E1 as <- <-. rewrite (proj2 Hr s) in E.
    unfold v2_handle_output in E. apply bind_Ret_inv in E as (? & r1 & E1 & E). injection E1 as _ <-.
    apply bind_Ret_inv in E as (buf & r2 & E2 & E). injection E2 as _ <-.
    apply bind_Ret_inv in E as (ok & r3 & E3 & E). unfold on_world, zoom in E3.
    destruct (server_v2_send_output _ _ _); [|done..]. injection E3 as -> <-. by destruct ok; injection E as _ <-.
  - apply bind_Ret_inv in E as (b & r1 & E1 & E). injection E1 as <- <-. by destruct (be_writecb _); injection E as _ <-.
  - unfold server_handle_io_event in E. destruct eof; [by injection E as _ <-|]. destruct (err && _); [by injection E as _ <-|].
    apply bind_Ret_inv in E as (? & r1 & _ & E). apply bind_Ret_inv in E as (? & r2 & _ & E). by injection E as _ <-.
  - destruct status; simpl in E; [apply bind_Ret_inv in E as (? & r1 & E1 & E); injection E1 as _ <-|]; by injection E as _ <-.
Qed.

(** A run of the event loop that is not broken off. *)
Lemma run_events_ok evs : forall r u r',
  run_events evs r = Ret u r' -> v2_running r -> rn_break r' = false ->
  v2_running r' /\ grown evs r r' /\ rn_saw_output r' = rn_saw_output r || existsb is_read evs.
Proof.
  induction evs as [|ev evs IH]; intros r u r' E Hr Hb.
  { injection E as _ <-. split; [done|]. split; [intros st; by rewrite app_nil_r|by rewrite orb_false_r]. }
  simpl in E. apply bind_Ret_inv in E as (u1 & r1 & E1 & E). apply bind_Ret_inv in E as (b & r2 & E2 & E).
  injection E2 as <- <-. destruct (rn_break r1) eqn:Hb1; [injection E as _ <-; congruence|].
  destruct (dispatch_ok _ _ _ _ E1 Hr Hb1) as (Hr1 & _ & Hst).
  destruct (IH _ _ _ E Hr1 Hb) as (Hr' & Hg & Hs). split; [done|].
  split; [|by rewrite Hs, (dispatch_saw _ _ _ _ E1 Hr Hb1), <- orb_assoc].
  apply (grown_app [ev] evs r r1); [|done]. intros st. destruct (Hst st) as [Erd Es].
  rewrite Erd, Es, app_assoc. split.
  - destruct ev as [| | |? [] ? ? ?|]; simpl; by rewrite ?andb_true_r.
  - f_equal. destruct ev as [| | |? [] ? ? ?|]; simpl; by rewrite ?app_nil_r.
Qed.

Lemma run_events_waiting evs : forall r u r',
  run_events evs r = Ret u r' -> v2_running r -> rn_break r' = false -> called_back evs ->
  (forall st, waiting st r = [] \/ head evs = Some (EvRead st)) -> forall st, waiting st r' = [].
Proof.
  induction evs as [|ev evs IH]; intros r u r' E Hr Hb Hcb Hw.
  { injection E as _ <-. intros st. by destruct (Hw st). }
  simpl in E. apply bind_Ret_inv in E as (u1 & r1 & E1 & E). apply bind_Ret_inv in E as (b & r2 & E2 & E).
  injection E2 as <- <-. destruct (rn_break r1) eqn:Hb1; [injection E as _ <-; congruence|].
  destruct (dispatch_ok _ _ _ _ E1 Hr Hb1) as (Hr1 & _ & _).
  assert (forall st, waiting st r = [] \/ ev = EvRead st) as Hw'
    by (intros st; destruct (Hw st) as [?|[= ->]]; auto).
  apply (IH r1 u r'); [done..| |].
  - destruct ev as [s d| | | |]; simpl in Hcb; try done. by destruct evs as [|[] evs]; try done; destruct Hcb.
  - intros st.
    assert ((exists d, ev = EvData st d) \/ forall d, ev <> EvData st d) as [[d ->]|Hn].
    { destruct ev as [s d| | | |]; [destruct (decide (s = st)) as [->|]; [left; by exists d|]| | | |];
        right; intros; congruence. }
    + right. simpl in Hcb. destruct evs as [|[] evs]; try done. by destruct Hcb as [-> _].
    + left. eapply (dispatch_waiting _ _ _ _ st E1); [done..|apply Hw'|exact Hn].
Qed.

(** Rounds run until one of them reads no output. *)
Lemma run_rounds_ok rounds : forall r u r',
  run_rounds rounds r = Ret u r' -> v2_running r -> rn_break r' = false -> rn_saw_output r = true ->
  Forall called_back rounds -> (forall st, waiting st r = []) ->
  grown (concat (rounds_made rounds)) r r' /\ forall st, waiting st r' = [].
Proof.
  assert (forall r r', rn_world r' = rn_world r -> (forall st, rn_bev st r' = rn_bev st r) -> grown [] r r') as Hnil.
  { intros r r' Hw Hv st. unfold seen, waiting, reading. by rewrite Hw, Hv, app_nil_r. }
  induction rounds as [|evs rounds IH]; intros r u r' E Hr Hb Hsaw Hcb Hw.
  { simpl in E. unfold bind in E. simpl in E. destruct (_ && _); injection E as _ <-; (split; [by apply Hnil|exact Hw]). }
  assert (forall r r', rn_break r' = false -> run_rounds rounds r = Ret u r' -> rn_break r = false) as Hbroken.
  { clear. intros r r' Hb E. destruct (rn_break r) eqn:Hbr; [|done]. destruct rounds; simpl in E; unfold bind in E;
      simpl in E; rewrite Hbr, andb_false_r in E; injection E as _ <-; congruence. }
  simpl in E. apply bind_Ret_inv in E as (saw & r1 & E1 & E). injection E1 as <- <-.
  apply bind_Ret_inv in E as (b & r1 & E1 & E). injection E1 as <- <-. rewrite Hsaw in E. cbn [andb] in E.
  destruct (rn_break r) eqn:Hbr; [injection E as _ <-; congruence|]. cbn [negb] in E.
  apply bind_Ret_inv in E as (u1 & r1 & E1 & E). injection E1 as _ <-.
  apply bind_Ret_inv in E as (u2 & r2 & E2 & E). apply Forall_cons_1 in Hcb as [Hcb Hcbs].
  pose proof (Hbroken _ _ Hb E) as Hb2. destruct (run_events_ok _ _ _ _ E2 Hr Hb2) as (Hr2 & Hg & Hs2).
  pose proof (run_events_waiting _ _ _ _ E2 Hr Hb2 Hcb (fun st => or_introl (Hw st))) as Hw2.
  simpl in Hs2 |- *. destruct (existsb is_read evs).
  - destruct (IH _ _ _ E Hr2 Hb Hs2 Hcbs Hw2) as (Hg' & Hw'). split; [by eapply grown_app|done].
  - assert (r' = r2) as -> by (destruct rounds; simpl in E; unfold bind in E; simpl in E; rewrite Hs2 in E; by injection E).
    simpl. rewrite app_nil_r. by split.
Qed.

(** Starting the process installs the callbacks and reads both streams. *)
Lemma start_v2 pid fd1 fd2 r u r' :
  start (SpawnOk pid fd1 fd2) r = Ret u r' -> c_kind (w_client (rn_world r)) = KindV2 ->
  v2_running r' /\ rn_break r' = rn_break r /\ p_status (rn_process r') = p_status (rn_process r) /\
  (exists ru, p_rule (rn_process r) = Some ru /\ let w := rn_world r in
    rn_world r' = put_execs (w_execs w ++ [child_exec (w_client w) (rn_process r) ru]) w) /\
  forall st, waiting st r' = [] /\ reading st r' = true /\ seen st r' = seen st r.
Proof.
  intros E Hk. unfold start in E.
  apply bind_Ret_inv in E as (protocol & r1 & E1 & E). injection E1 as _ <-.
  apply bind_Ret_inv in E as (c & r1 & E1 & E). injection E1 as <- <-.
  apply bind_Ret_inv in E as (p & r1 & E1 & E). injection E1 as <- <-.
  apply bind_Ret_inv in E as (ru & r1 & E1 & E). simpl in E1.
  destruct (p_rule (rn_process r)) as [ru'|] eqn:Eru; [|done]. injection E1 as -> <-.
  do 5 (apply bind_Ret_inv in E as (? & r1 & E1 & E); injection E1 as _ <-).
  unfold client_setup in E. apply bind_Ret_inv in E as (kind & r1 & E1 & E). injection E1 as <- <-.
  simpl in E. rewrite Hk in E. unfold server_v2_command_setup in E.
  apply bind_Ret_inv in E as (writecb & r1 & E1 & E). injection E1 as <- <-.
  do 4 (apply bind_Ret_inv in E as (? & r1 & E1 & E); injection E1 as _ <-).
  injection E as _ <-. split; [split; [exact Hk|by intros []]|]. split; [done|]. split; [done|].
  split; [by exists ru|]. by intros [].
Qed.

(** The main run of the loop dispatches its events. *)
Lemma event_dispatch_events evs r u r' : rn_break r = false -> event_base_dispatch evs r = Ret u r' -> run_events evs r = Ret u r'.
Proof.
  intros Hb E. unfold event_base_dispatch in E. apply bind_Ret_inv in E as (b & r0 & E0 & E). injection E0 as <- <-.
  rewrite Hb in E. cbv iota in E.
  apply bind_Ret_inv in E as (u1 & r1 & E1 & E). do 2 (apply bind_Ret_inv in E as (? & ? & E2 & E); injection E2 as <- <-).
  destruct (_ || _); [|done]. injection E as _ <-. by destruct u1, u.
Qed.

(** Closing down sends nothing, and succeeds only when the loop was not broken
    off. *)
Lemma process_end ch r ok r' :
  end_process ch r = Ret ok r' -> ok = negb (rn_break r) /\ (exists fds, rn_world r' = put_closed fds (rn_world r)) /\
    (ok = true -> p_status (rn_process r') = p_status (rn_process r)).
Proof.
  intros E. unfold end_process in E.
  do 2 (apply bind_Ret_inv in E as (? & ? & E1 & E); injection E1 as <- <-).
  apply bind_Ret_inv in E as (protocol & r3 & E3 & E). injection E3 as <- <-.
  apply bind_Ret_inv in E as (u & r4 & E4 & E).
  assert (rn_break r4 = rn_break r /\ rn_process r4 = rn_process r /\
    exists fds, rn_world r4 = put_closed fds (rn_world r)) as (Hb & Hp & Hfds)
    by (destruct (1 <? _); injection E4 as _ <-; eauto).
  apply bind_Ret_inv in E as (b & r5 & E5 & E). injection E5 as <- <-. rewrite Hb in E.
  destruct (rn_break r).
  - apply bind_Ret_inv in E as (reaped & r5 & E5 & E). injection E5 as <- <-.
    apply bind_Ret_inv in E as (? & r5 & E5 & E). injection E as <- <-.
    destruct (rn_reaped r4); [by injection E5 as _ <-|]. cbn [negb] in E5. unfold wait_child in E5.
    destruct (ch_wait ch); [by injection E5 as _ <-|done].
  - apply bind_Ret_inv in E as (p & r5 & E5 & E). injection E5 as <- <-.
    apply bind_Ret_inv in E as (? & r5 & E5 & E). injection E as <- <-. rewrite <- Hp.
    destruct (p_output (rn_process r4)); [by injection E5 as _ <-|].
    destruct (_ =? 1); by injection E5 as _ <-.
Qed.
End streams.

(** C13: over protocol two no output is lost, reordered or invented.  When
    [server_process_run] succeeds for a program that was started, and libevent
    calls the read callback for all data it reads, the data of the OUTPUT
    messages of either stream is exactly what arrived on that stream, in
    order, until its end of file: everything of the main run of the event
    loop and of the further runs after the exit, up to one without output. *)
Theorem process_output_complete {C} `{GssMech C} p (w w' : world C) p' ch rest pid fd1 fd2 :
  c_kind (w_client w) = KindV2 -> w_children w = ch :: rest -> ch_spawn ch = SpawnOk pid fd1 fd2 ->
  called_back (ch_main ch) -> Forall called_back (ch_rounds ch) ->
  server_process_run p w = Ret (true, p') w' ->
  forall st, stream_data st (ch_sent (w_chan w')) =
    stream_data st (ch_sent (w_chan w)) ++ delivered st true (ch_main ch ++ concat (rounds_made (ch_rounds ch))).
Proof.
  intros Hk Hch Hsp Hcb Hcbs E. unfold server_process_run in E.
  apply bind_Ret_inv in E as (ch' & w1 & E1 & E). unfold next_child in E1. rewrite Hch in E1.
  injection E1 as <- <-. set (r0 := Running _ _ _ _ _ _ _ _ _ _ _ _) in E.
  destruct (run_process ch r0) as [ok r'| | |] eqn:Er; [|done..]. injection E as -> <- <-.
  unfold run_process in Er. rewrite Hsp in Er.
  apply bind_Ret_inv in Er as (u & r1 & Es & Er). destruct (start_v2 _ _ _ _ _ _ Es Hk) as (Hr1 & Hb1 & _ & _ & Hst1).
  apply bind_Ret_inv in Er as (u2 & r2 & Em & Er). apply event_dispatch_events in Em; [|by rewrite Hb1].
  apply bind_Ret_inv in Er as (u3 & r3 & E3 & Er). injection E3 as _ <-.
  apply bind_Ret_inv in Er as (u4 & r4 & Erd & Er).
  apply process_end in Er as (Hb4 & [fds Hsent] & _). symmetry in Hb4. apply negb_true_iff in Hb4.
  assert (rn_break r2 = false) as Hb2.
  { destruct (rn_break r2) eqn:Hb2; [|done]. destruct (ch_rounds ch); simpl in Erd; unfold bind in Erd;
      simpl in Erd; rewrite Hb2 in Erd; injection Erd as _ <-; simpl in Hb4; congruence. }
  destruct (run_events_ok _ _ _ _ Em Hr1 Hb2) as (Hr2 & Hg2 & _).
  assert (forall st, waiting st r2 = []) as Hw2.
  { eapply run_events_waiting; [exact Em|done..|]. intros st. left. apply Hst1. }
  destruct (run_rounds_ok _ _ _ _ Erd Hr2 Hb4 eq_refl Hcbs Hw2) as [Hg4 Hw4].
  intros st. pose proof (grown_app _ _ _ _ _ Hg2 Hg4 st) as [_ Hs].
  destruct (Hst1 st) as (Hwt & Hrd & Hseen).
  rewrite Hrd, Hw4, Hwt, Hseen, !app_nil_r in Hs. rewrite Hsent. exact Hs.
Qed.

(** A rule for the witnesses, and the process of a command under it. *)
Definition demo_process : process :=
  Process (str "ls") [str "ls"]
    (Some (Rule (str "/etc/remctl.conf") 1 (str "ls") (str "ALL") (str "/bin/ls") None 0 None None 0 0 None None []))
    None None 0.

Definition demo_output : child :=
  Child (SpawnOk 7 5 6)
    [EvData OutStream (str "one "); EvRead OutStream; EvData ErrStream (str "oops"); EvRead ErrStream;
     EvData OutStream (str "two"); EvRead OutStream; EvChild (Some 0)]
    [[EvData OutStream (str "!"); EvRead OutStream; EvIo OutStream true false true 0]; []] (Some 0).

Definition demo_running : world unit :=
  World null_chan (Client KindV2 0 None (str "127.0.0.1") 2 (str "rra@EXAMPLE.ORG") false 0 0 true false)
    [] [demo_output] [] [] null_net null_net.

Lemma process_output_complete_witness :
  let _ := null_mech in
  exists p' w', server_process_run demo_process demo_running = Ret (true, p') w' /\
    forall st, stream_data st (ch_sent (w_chan w')) =
      stream_data st [] ++ delivered st true (ch_main demo_output ++ concat (rounds_made (ch_rounds demo_output))).
Proof.
  intros mech.
  assert (exists p' w', server_process_run demo_process demo_running = Ret (true, p') w') as (p' & w' & E)
    by (do 2 eexists; vm_compute; reflexivity).
  exists p', w'. split; [exact E|].
  eapply (process_output_complete demo_process demo_running w' p' demo_output [] 7 5 6);
    [done..| | |exact E].
  - by repeat split.
  - repeat constructor.
Defined.
