(* ===== verification/RoundTrip.v ===== *)
(** From the command line to the program and back: the client program
    [remctl] prints what the program the server ran has written, and exits
    with its status.  The parts are the client of [Remctl], the delivery of
    commands and replies of [Delivery] and [Results], and the server of
    [Serve], [Commands] and [Process]. *)

From S2P Require Import Prelude Effects CLib Getopt Net Tokens Connect Command Vector Client ClientFraming Open Api ApiSafe Session Server Acl Process Commands Execs Serve Delivery Results Streams Simplified Remctl RemctlSpec.

(** What one end sends leaves the other direction in step, too. *)
Class GssDuplex (C : Type) `{GssLaws C} : Prop :=
  gss_sync_sym : forall a b : C, gss_sync a b -> gss_sync b a.

(** * What a program does *)

(** A script as libevent plays it: what it reads from a stream it hands over
    at once, it reads until the end of file, and no stream fails.
    [orderly on z evs ds on' z'] adds that the data [ds] is read while the
    streams to read from go from [on] to [on'] and the status that [waitpid]
    last stored goes from [z] to [z']. *)
Definition shut (st : stream) (on : stream -> bool) : stream -> bool :=
  fun st' => on st' && negb (bool_decide (st = st')).

Inductive orderly : (stream -> bool) -> Z -> list bevent -> list (stream * bytes) -> (stream -> bool) -> Z -> Prop :=
  | orderly_end on z : orderly on z [] [] on z
  | orderly_data on z st d evs ds on' z' : on st = true -> d <> [] ->
      orderly on z evs ds on' z' -> orderly on z (EvData st d :: EvRead st :: evs) ((st, d) :: ds) on' z'
  | orderly_eof on z st err rd errno evs ds on' z' :
      orderly (shut st on) z evs ds on' z' -> orderly on z (EvIo st true err rd errno :: evs) ds on' z'
  | orderly_hangup on z st rd errno evs ds on' z' : errno = ECONNRESET \/ errno = EPIPE ->
      orderly on z evs ds on' z' -> orderly on z (EvIo st false true rd errno :: evs) ds on' z'
  | orderly_written on z evs ds on' z' :
      orderly on z evs ds on' z' -> orderly on z (EvWritten :: evs) ds on' z'
  | orderly_exit on z status evs ds on' z' :
      orderly on status evs ds on' z' -> orderly on z (EvChild (Some status) :: evs) ds on' z'
  | orderly_wait on z evs ds on' z' :
      orderly on z evs ds on' z' -> orderly on z (EvChild None :: evs) ds on' z'.

(** The runs of the loop after the exit, up to one that reads nothing. *)
Inductive drained : (stream -> bool) -> Z -> list (list bevent) -> list (stream * bytes) -> Z -> Prop :=
  | drained_end on z : drained on z [] [] z
  | drained_quiet on z evs rounds on' z' : orderly on z evs [] on' z' -> drained on z (evs :: rounds) [] z'
  | drained_more on z evs rounds d ds on' z' ds' z'' : orderly on z evs (d :: ds) on' z' ->
      drained on' z' rounds ds' z'' -> drained on z (evs :: rounds) (d :: ds ++ ds') z''.

(** The program prints [ds] and ends with [status]. *)
Inductive program_run (ch : child) (ds : list (stream * bytes)) (status : Z) : Prop :=
  | program_run_intro pid fd1 fd2 ds1 on z ds2 : ch_spawn ch = SpawnOk pid fd1 fd2 ->
      orderly (fun _ => true) 0 (ch_main ch) ds1 on z -> drained on z (ch_rounds ch) ds2 status ->
      ds = ds1 ++ ds2 -> program_run ch ds status.

Definition printed (st : stream) (ds : list (stream * bytes)) : bytes :=
  concat (map snd (filter (fun x => x.1 = st) ds)).

Definition output_reply (x : stream * bytes) : reply := ROutput (stream_num x.1) x.2.

Lemma on_stream_printed st ds : on_stream (stream_num st) (map output_reply ds) = printed st ds.
Proof.
  unfold on_stream, printed. induction ds as [|[s d] ds IH]; [done|].
  rewrite filter_cons. cbn [map output_reply Simplified.stream_data fst snd].
  destruct (decide (s = st)) as [->|Hne].
  - rewrite Z.eqb_refl. simpl. by rewrite IH.
  - rewrite (proj2 (Z.eqb_neq _ _)); [exact IH|]. by destruct s, st.
Qed.

Lemma orderly_nonempty on z evs ds on' z' : orderly on z evs ds on' z' -> Forall (fun x => x.2 <> []) ds.
Proof. induction 1; auto. Qed.
Lemma drained_nonempty on z rounds ds z' : drained on z rounds ds z' -> Forall (fun x => x.2 <> []) ds.
Proof.
  induction 1 as [| |on z evs rounds d ds on' z' ds' z'' Ho _ IH]; [constructor..|].
  change (d :: ds ++ ds') with ((d :: ds) ++ ds'). apply Forall_app. split; [by eapply orderly_nonempty|done].
Qed.

Section server.
Context {C : Type} `{HM : GssMech C}.
Implicit Types r : running C.
Implicit Types w : world C.

(** * What the server says *)

(** From [w] to [w'] the server has sent [ms], wrapped, and nothing else. *)
Definition said w w' (ms : list reply) : Prop := exists W,
  wrapped (ch_ctx (w_chan w)) (map reply_token ms) W (ch_ctx (w_chan w')) /\
  n_out (ch_net (w_chan w')) = n_out (ch_net (w_chan w)) ++ W.

(** It also ran no program. *)
Definition answers w w' (ms : list reply) : Prop :=
  w_client w' = w_client w /\ w_execs w' = w_execs w /\ said w w' ms.

Lemma answers_none w w' :
  w_client w' = w_client w -> w_execs w' = w_execs w -> w_chan w' = w_chan w -> answers w w' [].
Proof.
  intros Ec Ee Eh. split; [done|]. split; [done|]. exists []. rewrite Eh, app_nil_r. split; [apply wrapped_nil|done].
Qed.

Lemma answers_refl w : answers w w [].
Proof. by apply answers_none. Qed.

Lemma answers_sent m w w' : send_reply m w = Ret true w' -> answers w w' [m].
Proof.
  intros (Ew & Hl & out & Hwrap & Hout)%send_reply_true. split; [by rewrite Ew|]. split; [by rewrite Ew|].
  exists (token_wire v2_flags out ++ []). rewrite app_nil_r at 2. split; [|done].
  eapply wrapped_cons; [done..|]. apply wrapped_nil.
Qed.

Lemma wrapped_app a ts W (b : C) ts' W' c : wrapped a ts W b -> wrapped b ts' W' c -> wrapped a (ts ++ ts') (W ++ W') c.
Proof.
  induction 1 as [|a t out a1 ts W a2 Hw Hl _ IH]; intros Hb; [done|].
  simpl. rewrite <- app_assoc. eapply wrapped_cons; [done..|]. by apply IH.
Qed.

Lemma answers_app w1 w2 w3 ms ms' : answers w1 w2 ms -> answers w2 w3 ms' -> answers w1 w3 (ms ++ ms').
Proof.
  intros (Ec & Ee & W & HW & Ho) (Ec' & Ee' & W' & HW' & Ho'). split; [congruence|]. split; [congruence|].
  exists (W ++ W'). rewrite map_app, Ho', Ho, app_assoc. split; [|done]. by eapply wrapped_app.
Qed.

(** A sender that gives up says so. *)
Lemma v2_send_false what tok w w' : v2_send what tok w = Ret false w' -> c_fatal (w_client w') = true.
Proof.
  intros E. unfold v2_send in E. apply bind_Ret_inv in E as (st & w1 & _ & E).
  destruct (status_ok st); simpl in E; [by injection E|].
  apply bind_Ret_inv in E as (? & w2 & _ & E). apply bind_Ret_inv in E as (? & w3 & E3 & E).
  injection E3 as _ <-. by injection E as <-.
Qed.

Lemma send_reply_false m w w' : send_reply m w = Ret false w' -> c_fatal (w_client w') = true.
Proof.
  destruct m as [st d|n|c msg]; simpl; intros E.
  - unfold server_v2_send_output in E. destruct (_ || _); [done|]. destruct (_ <=? _); [done|]. by eapply v2_send_false.
  - by eapply v2_send_false.
  - unfold server_v2_send_error in E. destruct (_ <=? _); [done|]. by eapply v2_send_false.
Qed.

(** * The loop *)

(** Between two events of an orderly script. *)
Definition steady (on : stream -> bool) (z : Z) r : Prop :=
  v2_running r /\ rn_break r = false /\ p_status (rn_process r) = z /\
  forall st, waiting st r = [] /\ reading st r = on st.

Definition broken r : Prop := rn_break r = true /\ c_fatal (w_client (rn_world r)) = true.

(** From [r] to [r'] the data [ds] was read and sent. *)
Definition passed_on ds r r' : Prop :=
  answers (rn_world r) (rn_world r') (map output_reply ds) /\
  rn_saw_output r' = rn_saw_output r || negb (bool_decide (ds = [])).

Lemma passed_on_quiet r r' :
  rn_world r' = rn_world r -> rn_saw_output r' = rn_saw_output r -> passed_on [] r r'.
Proof. intros Ew Es. split; [rewrite Ew; apply answers_refl|]. by rewrite Es, orb_false_r. Qed.

Lemma passed_on_app ds ds' r1 r2 r3 : passed_on ds r1 r2 -> passed_on ds' r2 r3 -> passed_on (ds ++ ds') r1 r3.
Proof.
  intros [Ha Es] [Ha' Es']. split; [rewrite map_app; by eapply answers_app|].
  rewrite Es', Es, <- orb_assoc. f_equal. by destruct ds, ds'.
Qed.

(** Data arrives, and the callback sends it. *)
Lemma read_and_send st d on z r u r1 r2 : steady on z r -> on st = true ->
  dispatch (EvData st d) r = Ret u r1 -> dispatch (EvRead st) r1 = Ret u r2 ->
  rn_break r1 = false /\ ((steady on z r2 /\ passed_on [(st, d)] r r2) \/ broken r2).
Proof.
  intros ((Hk & Hcb) & Hb & Hz & Hst) Hon E1 E2. injection E1 as _ <-. split; [done|].
  destruct (Hst st) as [Hw Hr]. unfold waiting in Hw. unfold reading in Hr. rewrite Hr, Hon, Hw in E2. cbn [app] in E2.
  set (r1 := rn_set_bev st _ r) in E2. unfold dispatch, call_readcb in E2.
  apply bind_Ret_inv in E2 as (b & r1' & E & E2). injection E as <- <-.
  assert (be_readcb (rn_bev st r1) = CbOutputV2) as Ecb by (pose proof (Hcb st); by destruct st).
  rewrite Ecb in E2. unfold v2_handle_output in E2.
  apply bind_Ret_inv in E2 as (u1 & r1' & E & E2). injection E as _ <-.
  apply bind_Ret_inv in E2 as (buf & r3 & E & E2). injection E as <- <-.
  assert (be_input (rn_bev st (rn_set_saw_output true r1)) = d) as Ed by by destruct st.
  rewrite Ed in E2. set (r3 := rn_set_bev st _ (rn_set_saw_output true r1)) in E2.
  apply bind_Ret_inv in E2 as (ok & r4 & E & E2). unfold on_world, zoom in E.
  change (server_v2_send_output (stream_num st) d) with (send_reply (C:=C) (output_reply (st, d))) in E.
  destruct (send_reply _ (rn_world r3)) as [ok' w'| | |] eqn:Es; [|done..]. injection E as -> <-.
  destruct ok; simpl in E2; injection E2 as _ <-.
  - left. split; [|split].
    + split; [split; [|]|split; [done|split; [done|]]].
      * simpl. apply answers_sent in Es as (Ec & _). by rewrite Ec.
      * intros st'. pose proof (Hcb st'). by destruct st, st'.
      * intros st'. destruct (Hst st') as [Hw' Hr']. unfold waiting, reading in *.
        destruct st, st'; simpl in *; split; congruence.
    + by apply answers_sent in Es.
    + simpl. by rewrite orb_true_r.
  - right. split; [done|]. simpl. by eapply send_reply_false.
Qed.

(** Any other event of an orderly script. *)
Lemma quiet_event ev on z on' z' r u r' : steady on z r -> dispatch ev r = Ret u r' ->
  match ev with
  | EvIo st true _ _ _ => on' = shut st on /\ z' = z
  | EvIo st false true _ errno => (errno = ECONNRESET \/ errno = EPIPE) /\ on' = on /\ z' = z
  | EvWritten | EvChild None => on' = on /\ z' = z
  | EvChild (Some status) => on' = on /\ z' = status
  | _ => False
  end -> steady on' z' r' /\ passed_on [] r r'.
Proof.
  intros ((Hk & Hcb) & Hb & Hz & Hst) E Hev.
  assert (forall st f, (forall b, be_input (f b) = be_input b /\ be_readcb (f b) = be_readcb b) ->
    (forall st', be_read (rn_bev st' (rn_set_bev st (f (rn_bev st r)) r)) = on' st') -> z' = z ->
    r' = rn_set_bev st (f (rn_bev st r)) r -> steady on' z' r' /\ passed_on [] r r') as Hbev.
  { intros st f Hf Hr -> ->. split; [|by apply passed_on_quiet].
    split; [split; [done|]|split; [done|split; [done|]]].
    - intros st'. pose proof (Hcb st'). destruct (Hf (rn_bev st r)) as [_ Hc]. by destruct st, st'; simpl in *; rewrite ?Hc.
    - intros st'. split; [|apply Hr]. destruct (Hst st') as [Hw _]. destruct (Hf (rn_bev st r)) as [Hi _].
      unfold waiting in *. by destruct st, st'; simpl in *; rewrite ?Hi. }
  destruct ev as [st d|st| |st [] [] rd errno|[status|]]; try done; simpl in E.
  - destruct Hev as [-> ->]. unfold bind in E. simpl in E. destruct (be_writecb _).
    + injection E as _ <-. apply (Hbev OutStream (be_set_write false)); [done| |done|done].
      intros st'. destruct (Hst st') as [_ Hr]. by destruct st'.
    + injection E as _ <-. split; [done|]. by apply passed_on_quiet.
  - destruct Hev as [-> ->]. injection E as _ <-. apply (Hbev st (be_set_read false)); [done| |done|done].
    intros st'. destruct (Hst st') as [_ Hr]. unfold shut, reading in *. destruct st, st'; simpl in *; by rewrite ?andb_true_r, ?andb_false_r.
  - destruct Hev as [-> ->]. injection E as _ <-. apply (Hbev st (be_set_read false)); [done| |done|done].
    intros st'. destruct (Hst st') as [_ Hr]. unfold shut, reading in *. destruct st, st'; simpl in *; by rewrite ?andb_true_r, ?andb_false_r.
  - destruct Hev as (He & -> & ->). unfold server_handle_io_event in E.
    assert ((errno =? ECONNRESET) || (errno =? EPIPE) = true) as He' by (destruct He as [-> | ->]; done).
    rewrite He' in E. injection E as _ <-. apply (Hbev st (be_set_write false)); [done| |done|done].
    intros st'. destruct (Hst st') as [_ Hr]. unfold reading in *. by destruct st, st'.
  - destruct Hev as [-> ->]. unfold bind in E. injection E as _ <-. split; [|by apply passed_on_quiet].
    split; [done|]. done.
  - destruct Hev as [-> ->]. injection E as _ <-. split; [done|]. by apply passed_on_quiet.
Qed.

Lemma run_events_cons ev evs r u r' : run_events (ev :: evs) r = Ret u r' ->
  exists u1 r1, dispatch ev r = Ret u1 r1 /\ if rn_break r1 then r' = r1 else run_events evs r1 = Ret u r'.
Proof.
  intros E. simpl in E. apply bind_Ret_inv in E as (u1 & r1 & E1 & E).
  apply bind_Ret_inv in E as (b & r2 & E2 & E). injection E2 as <- <-. exists u1, r1. split; [done|].
  destruct (rn_break r1); [by injection E|done].
Qed.

(** An orderly script is passed on, unless the connection fails. *)
Lemma run_events_orderly on z evs ds on' z' : orderly on z evs ds on' z' -> forall r u r',
  steady on z r -> run_events evs r = Ret u r' -> (steady on' z' r' /\ passed_on ds r r') \/ broken r'.
Proof.
  assert (forall ev evs ds on z on1 z1 on' z' r u r',
    (forall r u r', steady on1 z1 r -> run_events evs r = Ret u r' -> (steady on' z' r' /\ passed_on ds r r') \/ broken r') ->
    (forall u1 r1, dispatch ev r = Ret u1 r1 -> steady on1 z1 r1 /\ passed_on [] r r1) ->
    steady on z r -> run_events (ev :: evs) r = Ret u r' -> (steady on' z' r' /\ passed_on ds r r') \/ broken r') as Hquiet.
  { clear. intros ev evs ds on z on1 z1 on' z' r u r' IH Hev Hr E.
    apply run_events_cons in E as (u1 & r1 & E1 & E). destruct (Hev _ _ E1) as [Hr1 Hp].
    pose proof Hr1 as (_ & Hb & _). rewrite Hb in E. destruct (IH _ _ _ Hr1 E) as [[Hr' Hp']|]; [left|by right].
    split; [done|]. exact (passed_on_app [] ds _ _ _ Hp Hp'). }
  induction 1 as [on z|on z st d evs ds on' z' Hon Hd _ IH|on z st err rd n evs ds on' z' _ IH
    |on z st rd n evs ds on' z' Hn _ IH|on z evs ds on' z' _ IH|on z s evs ds on' z' _ IH|on z evs ds on' z' _ IH];
    intros r u r' Hr E.
  3-7: (eapply Hquiet; [exact IH| |exact Hr|exact E]; intros u1 r1 E1; eapply quiet_event; [exact Hr|exact E1|done]).
  - injection E as _ <-. left. split; [done|]. by apply passed_on_quiet.
  - apply run_events_cons in E as (u1 & r1 & E1 & E).
    assert (rn_break r1 = false) as Hb1 by (injection E1 as _ <-; apply Hr). rewrite Hb1 in E.
    apply run_events_cons in E as (u2 & r2 & E2 & E). destruct u1, u2.
    destruct (read_and_send _ _ _ _ _ _ _ _ Hr Hon E1 E2) as [_ [[Hr2 Hp]|Hb]].
    + pose proof Hr2 as (_ & Hb & _). rewrite Hb in E. destruct (IH _ _ _ Hr2 E) as [[Hr' Hp']|]; [left|by right].
      split; [done|]. exact (passed_on_app [_] ds _ _ _ Hp Hp').
    + right. pose proof Hb as [Hb' _]. rewrite Hb' in E. by subst.
Qed.

Lemma run_rounds_broken rounds r u r' : broken r -> run_rounds rounds r = Ret u r' -> r' = r.
Proof.
  intros [Hb _] E. destruct rounds; simpl in E; unfold bind in E; simpl in E; rewrite Hb, andb_false_r in E; by injection E.
Qed.

Lemma run_rounds_drained on z rounds ds z' : drained on z rounds ds z' -> forall r u r',
  steady on z r -> rn_saw_output r = true -> run_rounds rounds r = Ret u r' ->
  (exists on', steady on' z' r' /\ answers (rn_world r) (rn_world r') (map output_reply ds)) \/ broken r'.
Proof.
  assert (forall evs rounds r u r', rn_break r = false -> rn_saw_output r = true -> run_rounds (evs :: rounds) r = Ret u r' ->
    exists u1 r1, run_events evs (rn_set_saw_output false r) = Ret u1 r1 /\ run_rounds rounds r1 = Ret u r') as Hround.
  { clear. intros evs rounds r u r' Hb Hs E. simpl in E. unfold bind at 1 2 in E. simpl in E. rewrite Hb, Hs in E.
    apply bind_Ret_inv in E as (? & r0 & E0 & E). injection E0 as _ <-. by apply bind_Ret_inv in E as (u1 & r1 & E1 & E); eauto. }
  induction 1 as [on z|on z evs rounds on' z' Ho|on z evs rounds d ds on' z' ds' z'' Ho _ IH]; intros r u r' Hr Hs E.
  - left. exists on. pose proof Hr as (_ & Hb & _). simpl in E. unfold bind in E. simpl in E. rewrite Hb, Hs in E.
    injection E as _ <-. split; [done|]. apply answers_refl.
  - apply Hround in E as (u1 & r1 & E1 & E); [|apply Hr|done].
    destruct (run_events_orderly _ _ _ _ _ _ Ho (rn_set_saw_output false r) _ _ Hr E1) as [[Hr1 [Ha Hs1]]|Hb].
    + left. exists on'. assert (r' = r1) as ->; [|done].
      destruct rounds; simpl in E; unfold bind in E; simpl in E; rewrite Hs1 in E; by injection E.
    + right. by rewrite (run_rounds_broken _ _ _ _ Hb E).
  - apply Hround in E as (u1 & r1 & E1 & E); [|apply Hr|done].
    destruct (run_events_orderly _ _ _ _ _ _ Ho (rn_set_saw_output false r) _ _ Hr E1) as [[Hr1 [Ha Hs1]]|Hb].
    + destruct (IH _ _ _ Hr1 Hs1 E) as [(on2 & Hr' & Ha')|]; [left|by right]. exists on2. split; [done|].
      change (d :: ds ++ ds') with ((d :: ds) ++ ds'). rewrite map_app. by eapply answers_app.
    + right. by rewrite (run_rounds_broken _ _ _ _ Hb E).
Qed.

(** A whole run: the program was started, and all it printed has been sent. *)
Lemma process_run_replies p w ok p' w' ch rest ds status :
  c_kind (w_client w) = KindV2 -> p_status p = 0 -> w_children w = ch :: rest -> program_run ch ds status ->
  server_process_run p w = Ret (ok, p') w' ->
  (ok = false /\ c_fatal (w_client w') = true) \/
  (ok = true /\ p_status p' = status /\ exists ru w1, p_rule p = Some ru /\
    w1 = put_execs (w_execs w ++ [child_exec (w_client w) p ru]) w /\ answers w1 w' (map output_reply ds)).
Proof.
  intros Hk Hz Hch [pid fd1 fd2 ds1 on z ds2 Hsp Hmain Hrounds ->] E. unfold server_process_run in E.
  apply bind_Ret_inv in E as (ch' & w0 & E0 & E). unfold next_child in E0. rewrite Hch in E0. injection E0 as <- <-.
  set (r0 := Running _ _ _ _ _ _ _ _ _ _ _ _) in E.
  destruct (run_process ch r0) as [ok' r'| | |] eqn:Er; [|done..]. injection E as -> <- <-.
  unfold run_process in Er. rewrite Hsp in Er. apply bind_Ret_inv in Er as (u1 & r1 & E1 & Er).
  destruct (start_v2 _ _ _ _ _ _ E1 Hk) as (Hv & Hb & Hz1 & (ru & Hru & Hw) & Hst).
  assert (steady (fun _ => true) 0 r1) as Hr1.
  { split; [done|]. split; [done|]. split; [by rewrite Hz1|]. intros st. destruct (Hst st) as (? & ? & _). done. }
  apply bind_Ret_inv in Er as (u2 & r2 & E2 & Er). apply event_dispatch_events in E2; [|by rewrite Hb]. apply bind_Ret_inv in Er as (? & r2' & E3 & Er). injection E3 as _ <-.
  apply bind_Ret_inv in Er as (u3 & r3 & E3 & Er). apply process_end in Er as (-> & [fds Hw'] & Hz').
  assert (broken r3 -> negb (rn_break r3) = false /\ c_fatal (w_client (rn_world r')) = true) as Hbroken
    by (intros [-> Hf]; by rewrite Hw').
  destruct (run_events_orderly _ _ _ _ _ _ Hmain _ _ _ Hr1 E2) as [[Hr2 [Ha2 _]]|Hf].
  2: { left. apply Hbroken. by rewrite (run_rounds_broken _ (rn_set_saw_output true r2) _ _ Hf E3). }
  destruct (run_rounds_drained _ _ _ _ _ Hrounds (rn_set_saw_output true r2) _ _ Hr2 eq_refl E3) as [(on3 & Hr3 & Ha3)|Hf].
  2: { left. by apply Hbroken. }
  right. destruct Hr3 as (_ & Hb3 & Hz3 & _). rewrite Hb3 in *. split; [done|]. split; [by rewrite Hz'|].
  exists ru. eexists. split; [done|]. split; [done|].
  pose proof (answers_app _ _ _ _ _ Ha2 Ha3) as Ha. rewrite <- map_app in Ha.
  pose proof (answers_app _ _ _ _ _ Ha (answers_none (rn_world r3) (rn_world r') ltac:(by rewrite Hw') ltac:(by rewrite Hw') ltac:(by rewrite Hw'))) as Hall.
  rewrite app_nil_r in Hall. destruct Hall as (Ec & Ee & Hsaid). unfold said in *. rewrite Hw in *. by split_and!.
Qed.

(** * Commands *)

(** What [server_run_command] makes of the status from [waitpid]. *)
Definition exit_of (status : Z) : Z := if WIFEXITED status then WEXITSTATUS status else -1.

Lemma run_and_finish_replies p w st w' ch rest ds status :
  c_kind (w_client w) = KindV2 -> p_status p = 0 -> w_children w = ch :: rest -> program_run ch ds status ->
  run_and_finish p w = Ret st w' ->
  c_fatal (w_client w') = true \/ exists ru w1, p_rule p = Some ru /\
    w1 = put_execs (w_execs w ++ [child_exec (w_client w) p ru]) w /\
    answers w1 w' (map output_reply ds ++ [RStatus (exit_of status)]).
Proof.
  intros Hk Hz Hch Hrun E. unfold run_and_finish in E. apply bind_Ret_inv in E as ([ok p'] & w2 & E1 & E).
  destruct (process_run_replies _ _ _ _ _ _ _ _ _ Hk Hz Hch Hrun E1) as [[-> Hf]|(-> & Hz' & ru & w1 & Hru & Hw1 & Ha)].
  - left. by injection E as _ <-.
  - rewrite Hz' in E. fold (exit_of status) in E. apply bind_Ret_inv in E as (b & w3 & E2 & E). injection E as _ <-.
    apply bind_Ret_inv in E2 as (kind & w2' & E3 & E2). injection E3 as <- <-.
    assert (c_kind (w_client w2) = KindV2) as Hk2 by (destruct Ha as (-> & _); by rewrite Hw1).
    rewrite Hk2 in E2. destruct b; [right|left; by apply (send_reply_false (RStatus (exit_of status))) in E2].
    exists ru, w1. split; [done|]. split; [done|]. eapply answers_app; [exact Ha|]. exact (answers_sent (RStatus (exit_of status)) _ _ E2).
Qed.

(** ** The command's way to its program *)

Context `{AclEnv} (acl_fuel : nat).

(** The rule's ACL grants the user access. *)
Definition granted (ru : rule) (c : client) : Prop := forall w,
  c_user (w_client w) = c_user c -> c_anonymous (w_client w) = c_anonymous c ->
  exists w', acl_permit acl_fuel ru w = Ret true w'.

(** All but the log. *)
Definition logless w : world C := put_log [] w.

#[local] Instance logless_quiet : LogQuiet logless.
Proof. done. Qed.

Lemma check_nuls_clean user argv w : Forall no_nul argv -> check_nuls user argv w = Ret true w.
Proof.
  intros Hn. unfold check_nuls. destruct argv as [|a [|b argv]]; [done|..]; inversion_clear Hn as [|? ? Ha Hb];
    unfold has_byte; rewrite (bool_decide_eq_false_2 _ Ha); [done|].
  inversion_clear Hb as [|? ? Hb' _]. by rewrite (bool_decide_eq_false_2 _ Hb').
Qed.

Lemma check_arg_nuls_clean ru help user argv w : Forall no_nul argv -> forall i, check_arg_nuls ru help user i argv w = Ret true w.
Proof.
  induction 1 as [|a argv Ha _ IH]; intros i; [done|]. simpl. unfold has_byte.
  by rewrite (bool_decide_eq_false_2 _ Ha), andb_false_r.
Qed.

(** The process of a command that matches a rule. *)
Definition command_process (ru : rule) (command : bytes) (argv : list bytes) : process :=
  let '(req_argv, input) := create_argv_command ru argv in
  Process command req_argv (Some ru) input None 0.

(** The way to the access check only logs. *)
Lemma run_command_matched cfg a args w st w' : Forall no_nul (a :: args) ->
  server_run_command acl_fuel cfg (a :: args) w = Ret st w' ->
  exists w1 args', logless w1 = logless w /\
    match find_config_line cfg (Some a) (head args) with
    | Some ru => exists b w2, acl_permit acl_fuel ru w1 = Ret b w2 /\
        if (b : bool) then run_and_finish (command_process ru a (a :: args)) w2 = Ret st w'
        else (do* notice "access denied: user %s, command %s%s%s" args' in
              do* error_ ERROR_ACCESS "Access denied" in ret (-1)) w2 = Ret st w'
    | None => a <> str "help" ->
        (do* notice "unknown command %s%s%s from user %s" args' in
         do* error_ ERROR_UNKNOWN_COMMAND "Unknown command" in ret (-1)) w1 = Ret st w'
    end.
Proof.
  intros Hn E. unfold server_run_command in E.
  apply bind_Ret_inv in E as (user & w0 & E0 & E). injection E0 as _ <-.
  rewrite (bind_Ret _ _ _ _ _ (check_nuls_clean user _ w Hn)) in E. cbn [negb] in E.
  pose proof Hn as [Ha Hargs]%Forall_cons_1. rewrite x_strndup_all in E by done.
  assert ((fun a => x_strndup a (blen a)) <$> head args = head args) as Hsub.
  { destruct args as [|b args]; [done|]. simpl. inversion Hargs; subst. by rewrite x_strndup_all. }
  rewrite Hsub in E. clear Hsub.
  assert (forall ru, run_matched acl_fuel ru false a (head args) None (a :: args) w = Ret st w' -> exists w1 user,
    logless w1 = logless w /\
    match ru with
    | Some ru => exists b w2, acl_permit acl_fuel ru w1 = Ret b w2 /\
        if (b : bool) then run_and_finish (command_process ru a (a :: args)) w2 = Ret st w'
        else (do* notice "access denied: user %s, command %s%s%s" ([AStr user; AStr a] ++ sub_log (head args)) in
              do* error_ ERROR_ACCESS "Access denied" in ret (-1)) w2 = Ret st w'
    | None =>
        (do* notice "unknown command %s%s%s from user %s" ([AStr a] ++ sub_log (head args) ++ [AStr user]) in
         do* error_ ERROR_UNKNOWN_COMMAND "Unknown command" in ret (-1)) w1 = Ret st w'
    end) as Hrun.
  { clear E. intros ru E. unfold run_matched in E.
    apply bind_Ret_inv in E as (user' & w0 & E0 & E). injection E0 as _ <-.
    rewrite (bind_Ret _ _ _ _ _ (check_arg_nuls_clean _ _ _ _ w Hargs _)) in E. cbn [negb] in E.
    apply bind_Ret_inv in E as (u & w1 & E1 & E). apply (keeps_Ret logless) in E1; [|by apply log_command_quiet, _].
    exists w1. eexists. split; [exact E1|]. destruct ru as [ru|]; [|exact E].
    apply bind_Ret_inv in E as (b & w2 & E2 & E). exists b, w2. split; [exact E2|].
    destruct b; [|exact E]. unfold command_process. by destruct (create_argv_command ru (a :: args)). }
  destruct (find_config_line cfg (Some a) (head args)) as [ru|].
  - destruct (Hrun _ E) as (w1 & user' & El & E'). by eauto.
  - destruct (bytes_eqb a (str "help")) eqn:Eh.
    + exists w, []. split; [done|]. intros Hne. by apply bytes_eqb_true in Eh.
    + destruct (Hrun _ E) as (w1 & user' & El & E'). by eauto.
Qed.

(** A permitted command runs. *)
Lemma run_command_permitted cfg a args ru w st w' :
  Forall no_nul (a :: args) -> find_config_line cfg (Some a) (head args) = Some ru -> granted ru (w_client w) ->
  server_run_command acl_fuel cfg (a :: args) w = Ret st w' ->
  exists w1, logless w1 = logless w /\ run_and_finish (command_process ru a (a :: args)) w1 = Ret st w'.
Proof.
  intros Hn Hru Hgrant E. apply run_command_matched in E as (w1 & l & El & E); [|done]. rewrite Hru in E.
  destruct E as (b & w2 & E2 & E). pose proof (f_equal w_client El : w_client w1 = w_client w) as Ec.
  destruct (Hgrant w1) as (w2' & E2'); [by rewrite Ec..|]. rewrite E2' in E2. injection E2 as <- <-.
  apply (keeps_Ret logless) in E2'; [|by apply keeps_acl_permit, _]. exists w2'. split; [congruence|done].
Qed.

(** The answer to a permitted command. *)
Lemma run_command_replies cfg a args ru w st w' ch rest ds status :
  c_kind (w_client w) = KindV2 -> Forall no_nul (a :: args) ->
  find_config_line cfg (Some a) (head args) = Some ru -> granted ru (w_client w) ->
  w_children w = ch :: rest -> program_run ch ds status ->
  server_run_command acl_fuel cfg (a :: args) w = Ret st w' ->
  c_fatal (w_client w') = true \/
  (w_execs w' = w_execs w ++ [child_exec (w_client w) (command_process ru a (a :: args)) ru] /\
   said w w' (map output_reply ds ++ [RStatus (exit_of status)])).
Proof.
  intros Hk Hn Hru Hgrant Hch Hrun E.
  destruct (run_command_permitted _ _ _ _ _ _ _ Hn Hru Hgrant E) as (w1 & El & E1).
  pose proof (f_equal w_client El) as Ec. pose proof (f_equal w_children El) as Ech.
  pose proof (f_equal w_execs El) as Ex. pose proof (f_equal w_chan El) as Eh. simpl in *.
  assert (p_rule (command_process ru a (a :: args)) = Some ru /\ p_status (command_process ru a (a :: args)) = 0) as [Hpr Hps]
    by (unfold command_process; by destruct (create_argv_command _ _)).
  destruct (run_and_finish_replies (command_process ru a (a :: args)) w1 st w' ch rest ds status) as [Hf|(ru' & w2 & Hru' & -> & _ & Ee & W & HW & Ho)];
    [by rewrite Ec|done|by rewrite Ech|done|done|by left|right].
  rewrite Hpr in Hru'. injection Hru' as <-. simpl in *. unfold said. rewrite <- Ec, <- Ex, <- Eh. split; [done|]. by exists W.
Qed.

(** ** Refusals *)

Definition denied (ru : rule) (c : client) : Prop := forall w,
  c_user (w_client w) = c_user c -> c_anonymous (w_client w) = c_anonymous c ->
  exists w', acl_permit acl_fuel ru w = Ret false w'.

(** Commands that are answered with an error. *)
Inductive refused (cfg : config) (a : bytes) (args : list bytes) (c : client) : error_codes -> bytes -> Prop :=
  | refused_unknown : find_config_line cfg (Some a) (head args) = None -> a <> str "help" ->
      refused cfg a args c ERROR_UNKNOWN_COMMAND (str "Unknown command")
  | refused_denied ru : find_config_line cfg (Some a) (head args) = Some ru -> denied ru c ->
      refused cfg a args c ERROR_ACCESS (str "Access denied").

Lemma client_error_said code msg w b w' : c_kind (w_client w) = KindV2 -> client_error code msg w = Ret b w' ->
  c_fatal (w_client w') = true \/ answers w w' [RError code msg].
Proof.
  intros Hk E. simpl in E. apply bind_Ret_inv in E as (kind & w1 & E1 & E). injection E1 as <- <-. rewrite Hk in E.
  destruct b; [right; by apply (answers_sent (RError code msg))|left; by apply (send_reply_false (RError code msg)) in E].
Qed.

(** A refused command runs nothing. *)
Lemma run_command_refused cfg a args code msg w st w' :
  c_kind (w_client w) = KindV2 -> Forall no_nul (a :: args) -> refused cfg a args (w_client w) code msg ->
  server_run_command acl_fuel cfg (a :: args) w = Ret st w' ->
  c_fatal (w_client w') = true \/ (w_execs w' = w_execs w /\ said w w' [RError code msg]).
Proof.
  intros Hk Hn Href E. apply run_command_matched in E as (w1 & l & El & E); [|done].
  assert (forall code text fmt w1, logless w1 = logless w ->
    (do* notice fmt l in do* error_ code text in ret (-1)) w1 = Ret st w' ->
    c_fatal (w_client w') = true \/ (w_execs w' = w_execs w /\ said w w' [RError code (str text)])) as Herr.
  { clear - Hk. intros code text fmt w1 El E. apply bind_Ret_inv in E as (u & w2 & E2 & E).
    apply (keeps_Ret logless) in E2; [|by apply keeps_notice, _]. apply bind_Ret_inv in E as (u' & w3 & E3 & E).
    injection E as _ <-. unfold error_ in E3. apply bind_Ret_inv in E3 as (b & w4 & E3 & E). injection E as _ <-.
    pose proof (eq_trans E2 El) as El2. apply client_error_said in E3 as [Hf|(_ & Ee & Hs)];
      [by left| |by rewrite (f_equal w_client El2 : w_client w2 = w_client w)].
    right. split; [by rewrite Ee, (f_equal w_execs El2 : w_execs w2 = w_execs w)|].
    unfold said in *. by rewrite (f_equal w_chan El2 : w_chan w2 = w_chan w) in Hs. }
  destruct Href as [Hnone Hne|ru Hru Hdeny].
  - rewrite Hnone in E. by eapply Herr, E.
  - rewrite Hru in E. destruct E as (b & w2 & E2 & E). pose proof (f_equal w_client El : w_client w1 = w_client w) as Ec.
    destruct (Hdeny w1) as (w2' & E2'); [by rewrite Ec..|]. rewrite E2' in E2. injection E2 as <- <-.
    apply (keeps_Ret logless) in E2'; [|by apply keeps_acl_permit, _]. eapply Herr; [|exact E]. congruence.
Qed.
End server.

(** The messages are within what the client can take. *)
Lemma wrapped_sizes {C} `{GssMech C} (a : C) ts W b : wrapped a ts W b -> Forall (fun t => blen t <= TOKEN_MAX_DATA) ts.
Proof. induction 1; auto. Qed.

Lemma output_msgs ds : Forall (fun x => x.2 <> []) ds ->
  Forall (fun t => blen t <= TOKEN_MAX_DATA) (map reply_token (map output_reply ds)) -> Forall output_msg (map output_reply ds).
Proof.
  induction 1 as [|[st d] ds Hd _ IH]; simpl; [done|]. intros [Hl Hls]%Forall_cons_1. apply Forall_cons_2; [|by apply IH].
  split; [|done]. split; [destruct st; simpl; auto|]. revert Hl. simpl. unfold TOKEN_MAX_DATA. zlist.
Qed.

Lemma program_nonempty ch ds status : program_run ch ds status -> Forall (fun x => x.2 <> []) ds.
Proof.
  intros [pid fd1 fd2 ds1 on z ds2 _ H1%orderly_nonempty H2%drained_nonempty ->]. by apply Forall_app.
Qed.

(** Every exit status survives. *)
Lemma exit_code_of status :
  exit_code (final_code (RStatus (exit_of status))) = if WIFEXITED status then WEXITSTATUS status else 255.
Proof.
  unfold exit_of. destruct (WIFEXITED status); [|done]. apply exit_code_status. unfold WEXITSTATUS.
  change (Z.land _ 255) with (Z.land (Z.shiftr status 8) (Z.ones 8)). rewrite Z.land_ones by lia.
  pose proof (Z.mod_pos_bound (Z.shiftr status 8) (2 ^ 8) ltac:(lia)). lia.
Qed.

Lemma map_cstr_id l : Forall no_nul l -> map cstr l = l.
Proof. induction 1 as [|s l Hs _ IH]; [done|]. simpl. by rewrite cstr_id, IH. Qed.

Section client.
Context {C : Type} `{HL : GssLaws C} {HG : GssClient C} {HI : Inet}.
Context (PACKAGE_STRING : bytes) (canonical : bytes -> Z + bytes).
Implicit Types w : tool C.

(** The program opens the connection at [w1] and sends [command]. *)
Definition requests argv w (command : list bytes) w1 w2 : Prop := exists o host w0,
  main_options false PACKAGE_STRING argv w = Ret (o, host :: command) w0 /\
  open_server canonical o host w0 = Ret tt w1 /\ send_command command w1 = Ret tt w2.

Lemma requests_start argv w c command w1 w2 :
  requests argv w (c :: command) w1 w2 -> start_command false PACKAGE_STRING canonical argv w = Ret tt w2.
Proof.
  intros (o & host & w0 & E0 & E1 & E2). unfold start_command. rewrite (bind_Ret _ _ _ _ _ E0). simpl.
  by rewrite (bind_Ret _ _ _ _ _ E1).
Qed.

Lemma requests_state argv w command w1 w2 : argv_within argv -> tool_room argv w -> command_fits (map cstr command) ->
  requests argv w command w1 w2 -> let F := cl_fds (ap_cl (tl_api w)) in
  connected (ap_cl (tl_api w1)) /\ sent_command F (tl_api w2).
Proof.
  intros Hargv Hroom Hfit (o & host & w0 & E0 & E1 & E2) F.
  pose proof (parse_options_wp PACKAGE_STRING argv w Hargv) as Hp. unfold wp in Hp. rewrite E0 in Hp.
  destruct Hp as (_ & Ea & Et). cbn [fst] in Et.
  pose proof (open_server_wp canonical o host w0) as Ho. unfold wp in Ho. rewrite E1, Ea in Ho.
  specialize (Ho ltac:(destruct Hroom as [Hu|Hlt]; [left; by apply Et|by right])).
  pose proof (send_command_wp F command w1 (proj1 Ho) Hfit) as Hs. unfold wp in Hs. rewrite E2 in Hs. by destruct Ho.
Qed.

(** Sending the operands is [internal_v2_commandv] on the open connection. *)
Lemma requests_sent command w1 w2 : command <> [] -> command_fits (map cstr command) ->
  connected (ap_cl (tl_api w1)) -> r_protocol (cl_r (ap_cl (tl_api w1))) = 2 -> send_command command w1 = Ret tt w2 ->
  exists cw, cl_chan cw = cl_chan (ap_cl (tl_api w1)) /\
    internal_v2_commandv (map cstr command) cw = Ret true (ap_cl (tl_api w2)) /\
    r_protocol (cl_r (ap_cl (tl_api w2))) = 2.
Proof.
  intros Hne Hfit (fd & Hfd & Hin) Hp E. unfold send_command in E. apply bind_Ret_inv in E as (ok & w3 & E1 & E).
  destruct ok; cbn [negb] in E; [injection E as <-|by apply bind_Ret_inv in E as (? & ? & _ & ?)].
  unfold on_api, zoom in E1. destruct (remctl_command command (tl_api w1)) as [ok x| | |] eqn:Ec; [|done..].
  injection E1 as -> <-. destruct command as [|c command]; [done|]. unfold remctl_command, remctl_commandv in Ec.
  set (cw := Cl (set_error None (cl_r (ap_cl (tl_api w1)))) (cl_chan (ap_cl (tl_api w1))) (cl_fds (ap_cl (tl_api w1)))).
  assert (internal_reopen (tl_api w1) = Ret true (put_cl cw (tl_api w1))) as Er.
  { unfold internal_reopen. rewrite (bind_Ret _ _ _ (Some fd) (tl_api w1)); [done|].
    unfold on_cl, zoom, field, gets. rewrite Hfd. by destruct (tl_api w1). }
  rewrite (bind_Ret _ _ _ _ _ Er) in Ec. cbn [negb] in Ec.
  rewrite (bind_Ret _ _ _ 2 (put_cl cw (tl_api w1))) in Ec by (unfold on_cl, zoom, field, gets; simpl; by rewrite Hp).
  change (2 =? 1) with false in Ec. cbv iota in Ec. unfold on_cl, zoom in Ec. simpl ap_cl in Ec.
  destruct (internal_v2_commandv (map cstr (c :: command)) cw) as [b cw'| | |] eqn:Ev; [|done..].
  injection Ec as -> <-. exists cw. split; [done|]. split; [done|].
  pose proof (stays_v2_commandv _ cw Hfit ltac:(by exists fd)) as Hst. unfold stays, runs, wp in Hst. rewrite Ev in Hst.
  destruct Hst as [[P _] _]. unfold peer in P. simpl in *. congruence.
Qed.
End client.

(** * The whole exchange *)

(** What the theorems on whole commands share: the program opens a connection
    over protocol two at [w1], sends its operands at [w2] and can write all
    its output; the server's end is in step with the client's and handles the
    command without failing; and each gets the bytes the other sent. *)
Record exchange {C} `{HL : GssLaws C} {HG : GssClient C} {HI : Inet} `{AclEnv} package canonical argv acl_fuel cfg command
    (w w1 w2 : tool C) (sw sw' : world C) : Prop := Exchange {
  ex_argv : argv_within argv;
  ex_room : tool_room argv w;
  ex_no_nul : Forall no_nul command;
  ex_command : command_ok command /\ blen (encode_command command) < COMMAND_MAX_DATA;
  ex_requests : requests package canonical argv w command w1 w2;
  ex_protocol : r_protocol (cl_r (ap_cl (tl_api w1))) = 2;
  ex_takes : takes_all w2;
  ex_sync : gss_sync (ch_ctx (cl_chan (ap_cl (tl_api w1)))) (ch_ctx (w_chan sw));
  ex_there : exists sent rest,
    n_out (ch_net (cl_chan (ap_cl (tl_api w2)))) = n_out (ch_net (cl_chan (ap_cl (tl_api w1)))) ++ sent /\
    rd_bytes (k_read (ch_net (w_chan sw))) = sent ++ rest /\ calm TIMEOUT (ch_net (w_chan sw));
  ex_server : c_kind (w_client sw) = KindV2 /\
    (let* (_, tok) := server_v2_read_token in server_v2_handle_token acl_fuel cfg tok) sw = Ret true sw';
  ex_back : exists replied rest,
    n_out (ch_net (w_chan sw')) = n_out (ch_net (w_chan sw)) ++ replied /\
    rd_bytes (k_read (ch_net (cl_chan (ap_cl (tl_api w2))))) = replied ++ rest /\
    calm (r_timeout (cl_r (ap_cl (tl_api w2)))) (ch_net (cl_chan (ap_cl (tl_api w2))));
}.

(** The server runs the command, and the client shows what it then says. *)
Lemma exchange_shows {C} `{HL : GssLaws C} `{!GssDuplex C} {HG : GssClient C} {HI : Inet} `{AclEnv}
    package canonical argv acl_fuel cfg a args (w w1 w2 : tool C) (sw sw' : world C) :
  wrap_fits -> exchange package canonical argv acl_fuel cfg (a :: args) w w1 w2 sw sw' -> exists ch st,
    server_run_command acl_fuel cfg (a :: args) (arrived ch sw) = Ret st sw' /\ c_fatal (w_client sw') = false /\
    forall ms final, said (arrived ch sw) sw' (ms ++ [final]) -> Forall output_msg ms -> final_shown final ->
      exists w', remctl_main false package canonical argv w = Ret (final_code final) w' /\
        shows w2 (on_stream 1 ms) (on_stream 2 ms ++ final_text final) w' /\
        cl_fds (ap_cl (tl_api w')) = cl_fds (ap_cl (tl_api w)).
Proof.
  intros Hfits [Hargv Hroom Hn [Hok Hb] Hreq Hp1 Ht Hsync (sent & rest & Hsent & Hrds & Hcalms) [_ Es] (replied & rest' & Hreplied & Hrdc & Hcalmc)].
  assert (map cstr (a :: args) = a :: args) as Hcstr by (apply map_cstr_id; exact Hn).
  assert (command_fits (map cstr (a :: args))) as Hfit
    by (rewrite Hcstr; destruct Hok as (Hnum & Ha & Hl); split; [unfold COMMAND_MAX_ARGS, UINT32_MAX in *; lia|done]).
  destruct (requests_state _ _ _ _ _ _ _ Hargv Hroom Hfit Hreq) as [Hconn Hsc].
  pose proof (requests_start _ _ _ _ _ _ _ _ Hreq) as Estart. destruct Hreq as (o & host & w0 & _ & _ & Esend).
  destruct (requests_sent (a :: args) w1 w2 ltac:(done) Hfit Hconn Hp1 Esend) as (cw & Ecw & Ev & Hp2). rewrite Hcstr in Ev. rewrite <- Ecw in *.
  destruct (command_sent_tokens _ _ _ _ Hok Ev Hsent) as (chunks & Hcat & Hck & HW).
  destruct (command_received acl_fuel cfg (a :: args) chunks (ch_ctx (cl_chan (ap_cl (tl_api w2)))) rest sw)
    as (ch & Erun & Hsync' & _ & [_ Hout]); [done| |by eexists _, sent|done..|].
  { destruct (decide (can_wait sw)) as [|Hnw]; [done|]. unfold bind in Es. by rewrite read_token_unselectable in Es. }
  rewrite Erun in Es. apply bind_Ret_inv in Es as (st & sw1 & Es & Ef). injection Ef as Ef ->.
  exists ch, st. split; [done|]. split; [by apply negb_true_iff in Ef|]. intros ms final (W & HW' & Ho) Hms Hfin.
  simpl in HW', Ho. rewrite Hout, Hreplied in Ho. apply app_inv_head in Ho as <-.
  by apply (main_responses package canonical argv _ w w2 ms final _ replied _ rest'
    Estart Hsc Hp2 Ht Hfits Hms Hfin HW' (gss_sync_sym _ _ Hsync') Hcalmc Hrdc).
Qed.

(** C1: a remote command behaves like a local one.  The command line client
    and the server exchange a command for which the server has a rule whose
    ACL grants the user access, and whose program prints [ds] and ends with
    [status].  Then the program was run with the arguments and the environment
    of its rule and this user, and the client writes to its standard output
    and error exactly what the program printed on these, closes its
    descriptors, and exits with the program's exit status, or with 255 when
    the program did not exit by itself. *)
Theorem remctl_round_trip {C} `{HL : GssLaws C} `{!GssDuplex C} {HG : GssClient C} {HI : Inet} `{AclEnv}
    package canonical argv acl_fuel cfg a args ru ch children ds status (w w1 w2 : tool C) (sw sw' : world C) :
  wrap_fits -> exchange package canonical argv acl_fuel cfg (a :: args) w w1 w2 sw sw' ->
  find_config_line cfg (Some a) (head args) = Some ru -> granted (C:=C) acl_fuel ru (w_client sw) ->
  w_children sw = ch :: children -> program_run ch ds status ->
  w_execs sw' = w_execs sw ++ [child_exec (w_client sw) (command_process ru a (a :: args)) ru] /\
  exists code w', remctl_main false package canonical argv w = Ret code w' /\
    shows w2 (printed OutStream ds) (printed ErrStream ds) w' /\
    cl_fds (ap_cl (tl_api w')) = cl_fds (ap_cl (tl_api w)) /\
    exit_code code = if WIFEXITED status then WEXITSTATUS status else 255.
Proof.
  intros Hfits Hex Hru Hgrant Hch Hrun. pose proof (ex_server _ _ _ _ _ _ _ _ _ _ _ Hex) as [Hk _].
  pose proof (ex_no_nul _ _ _ _ _ _ _ _ _ _ _ Hex) as Hn.
  destruct (exchange_shows _ _ _ _ _ _ _ _ _ _ _ _ Hfits Hex) as (sch & st & Es & Ef & Hshow).
  destruct (run_command_replies acl_fuel cfg a args ru (arrived sch sw) st sw' ch children ds status)
    as [Hf|[Hx Hsaid]]; [done..|congruence|]. split; [exact Hx|].
  assert (Forall output_msg (map output_reply ds)) as Hms.
  { destruct Hsaid as (W & HW & _). pose proof (wrapped_sizes _ _ _ _ HW) as Hl. rewrite map_app in Hl.
    apply Forall_app in Hl as [Hl _]. by apply output_msgs; [eapply program_nonempty|]. }
  destruct (Hshow _ _ Hsaid Hms ltac:(done)) as (w' & Em & Hw' & Hfds).
  exists (final_code (RStatus (exit_of status))), w'. split; [done|]. split; [|split; [done|by apply exit_code_of]].
  rewrite app_nil_r in Hw'. by rewrite <- !on_stream_printed.
Qed.

(** C2: a command that is not permitted leaves no trace but an error.  The
    command line client and the server exchange a command other than [help]
    that no rule matches, or any command whose rule's ACL denies the user
    access ([refused]; a help request that no rule matches may run the
    programs that give help and summaries).  Then no program was run, and the client writes nothing to its standard output, the server's
    message to its standard error, closes its descriptors, and exits with
    255. *)
Theorem remctl_refused {C} `{HL : GssLaws C} `{!GssDuplex C} {HG : GssClient C} {HI : Inet} `{AclEnv}
    package canonical argv acl_fuel cfg a args code msg (w w1 w2 : tool C) (sw sw' : world C) :
  wrap_fits -> exchange package canonical argv acl_fuel cfg (a :: args) w w1 w2 sw sw' ->
  refused (C:=C) acl_fuel cfg a args (w_client sw) code msg ->
  w_execs sw' = w_execs sw /\
  exists w', remctl_main false package canonical argv w = Ret 255 w' /\
    shows w2 [] (msg ++ [x0a]) w' /\ cl_fds (ap_cl (tl_api w')) = cl_fds (ap_cl (tl_api w)).
Proof.
  intros Hfits Hex Href. pose proof (ex_server _ _ _ _ _ _ _ _ _ _ _ Hex) as [Hk _].
  pose proof (ex_no_nul _ _ _ _ _ _ _ _ _ _ _ Hex) as Hn.
  destruct (exchange_shows _ _ _ _ _ _ _ _ _ _ _ _ Hfits Hex) as (ch & st & Es & Ef & Hshow).
  destruct (run_command_refused acl_fuel cfg a args code msg (arrived ch sw) st sw') as [Hf|[Hx Hsaid]];
    [done|done|by destruct Href; econstructor|done|congruence|]. split; [exact Hx|].
  apply (Hshow [] (RError code msg) Hsaid); [done|]. by destruct Href.
Qed.

(** A server whose [ls] prints on both streams, also after its exit, and ends
    with status 200. *)
Definition demo_program : child :=
  Child (SpawnOk 7 5 6)
    [EvData OutStream (str "hel"); EvRead OutStream; EvData ErrStream (str "oops"); EvRead ErrStream;
     EvIo ErrStream true false true 0; EvChild (Some (Z.shiftl 200 8))]
    [[EvData OutStream (str "lo"); EvRead OutStream; EvIo OutStream true false true 0]; []] (Some 0).

Definition demo_printed : list (stream * bytes) :=
  [(OutStream, str "hel"); (ErrStream, str "oops"); (OutStream, str "lo")].

Lemma demo_program_run : program_run demo_program demo_printed (Z.shiftl 200 8).
Proof.
  eapply (program_run_intro _ _ _ 7 5 6 [_; _] _ _ [_]); [done| | |done].
  - eapply orderly_data; [done..|]. eapply orderly_data; [done..|]. apply orderly_eof, orderly_exit, orderly_end.
  - eapply (drained_more _ _ _ _ _ []); [|eapply drained_quiet, orderly_end].
    eapply orderly_data; [done..|]. apply orderly_eof, orderly_end.
Qed.

(** The server that has got [sent], and what the client sends it. *)
Definition demo_sw (sent : bytes) : world unit :=
  World (Chan (Net [RdData sent] [] [] [] [] 0 false) tt []) demo_client [] [demo_program] [] [] null_net null_net.

Definition demo_sent : bytes := token_wire v2_flags (v2_header 0 ++ encode_command [str "ls"]).

Definition demo_acl_rule : rule := demo_rule [str "deny:rra@EXAMPLE.ORG"; str "princ:eagle@EXAMPLE.ORG"].

#[export] Instance null_duplex : @GssDuplex unit null_mech null_laws.
Proof. done. Qed.

(** An exchange of the witnesses: the answer is what the server said. *)
Lemma demo_exchange cfg w w1 w2 sw' replied :
  let _ := null_mech in let _ := null_laws in let _ := null_client in let _ := null_inet in let _ := demo_env in
  requests [] inr demo_argv w [str "ls"] w1 w2 -> r_protocol (cl_r (ap_cl (tl_api w1))) = 2 -> takes_all w2 ->
  n_out (ch_net (cl_chan (ap_cl (tl_api w2)))) = n_out (ch_net (cl_chan (ap_cl (tl_api w1)))) ++ demo_sent ->
  (let* (_, tok) := server_v2_read_token in server_v2_handle_token 4 cfg tok) (demo_sw demo_sent) = Ret true sw' ->
  n_out (ch_net (w_chan sw')) = replied -> rd_bytes (k_read (ch_net (cl_chan (ap_cl (tl_api w2))))) = replied ->
  calm (r_timeout (cl_r (ap_cl (tl_api w2)))) (ch_net (cl_chan (ap_cl (tl_api w2)))) ->
  exchange [] inr demo_argv 4 cfg [str "ls"] w w1 w2 (demo_sw demo_sent) sw'.
Proof.
  intros mech laws client inet env Hreq Hp Ht Hsent Es Ho Hrd Hc.
  assert (Forall no_nul [str "ls"]) as Hn by (apply (bool_decide_unpack _); by vm_compute).
  assert (command_ok [str "ls"] /\ blen (encode_command [str "ls"]) < COMMAND_MAX_DATA) as Hok
    by (split; [split; [by vm_compute|]; split; [by repeat constructor|by vm_compute]|by vm_compute]).
  assert (calm TIMEOUT (ch_net (w_chan (demo_sw demo_sent)))) as Hcs by by apply demo_receiver_calm.
  split; [exact demo_argv_within|left; by repeat constructor|exact Hn|exact Hok|exact Hreq|exact Hp|exact Ht|exact I| | |].
  - exists demo_sent, []. split; [exact Hsent|]. split; [|exact Hcs]. unfold rd_bytes. simpl. by rewrite ?app_nil_r.
  - split; [reflexivity|exact Es].
  - exists replied, []. rewrite app_nil_r. split; [exact Ho|]. split; [exact Hrd|exact Hc].
Qed.

(** Runs both ends. *)
Ltac demo_exchanged :=
  do 3 eexists; eapply demo_exchange;
    [do 3 eexists; split; [vm_compute; reflexivity|]; split; [vm_compute; reflexivity|]; vm_compute; reflexivity
    |reflexivity|done|vm_compute; reflexivity|vm_compute; reflexivity|vm_compute; reflexivity|vm_compute; reflexivity
    |split; [|split; [split; constructor|done]]; repeat constructor].

Lemma remctl_round_trip_witness :
  let _ := null_mech in let _ := null_laws in let _ := null_client in let _ := null_inet in let _ := demo_env in
  let w := demo_tool (null_welcome ++ null_wire (map reply_token (map output_reply demo_printed ++ [RStatus 200]))) in
  exists w1 w2 sw', exchange [] inr demo_argv 4 [demo_acl_rule] [str "ls"] w w1 w2 (demo_sw demo_sent) sw' /\
    w_execs sw' = [child_exec demo_client (Process (str "ls") [str "ls"] (Some demo_acl_rule) None None 0) demo_acl_rule] /\
    exists code w', remctl_main false [] inr demo_argv w = Ret code w' /\
      shows w2 (str "hello") (str "oops") w' /\ cl_fds (ap_cl (tl_api w')) = {[0; 1; 2]} /\ exit_code code = 200.
Proof.
  intros mech laws client inet env w.
  assert (granted (C:=unit) 4 demo_acl_rule demo_client) as Hgrant.
  { intros w' Hu Ha. eexists. unfold acl_permit, bind, gets, server_config_acl_permit. rewrite Hu, Ha. vm_compute. reflexivity. }
  assert (exists w1 w2 sw', exchange [] inr demo_argv 4 [demo_acl_rule] [str "ls"] w w1 w2 (demo_sw demo_sent) sw')
    as (w1 & w2 & sw' & Hex) by demo_exchanged.
  exists w1, w2, sw'. split; [exact Hex|].
  exact (remctl_round_trip [] inr demo_argv 4 [demo_acl_rule] (str "ls") [] demo_acl_rule demo_program [] demo_printed
    (Z.shiftl 200 8) w w1 w2 (demo_sw demo_sent) sw' null_fits Hex eq_refl Hgrant eq_refl demo_program_run).
Defined.

(** The rule for another user. *)
Definition demo_denying : rule := demo_rule [str "deny:eagle@EXAMPLE.ORG"; str "anyuser:auth"].

Lemma remctl_refused_witness :
  let _ := null_mech in let _ := null_laws in let _ := null_client in let _ := null_inet in let _ := demo_env in
  let w := demo_tool (null_welcome ++ null_wire (map reply_token [RError ERROR_ACCESS (str "Access denied")])) in
  exists w1 w2 sw', exchange [] inr demo_argv 4 [demo_denying] [str "ls"] w w1 w2 (demo_sw demo_sent) sw' /\
    w_execs sw' = [] /\
    exists w', remctl_main false [] inr demo_argv w = Ret 255 w' /\
      shows w2 [] (str "Access denied" ++ [x0a]) w' /\ cl_fds (ap_cl (tl_api w')) = {[0; 1; 2]}.
Proof.
  intros mech laws client inet env w.
  assert (refused (C:=unit) 4 [demo_denying] (str "ls") [] demo_client ERROR_ACCESS (str "Access denied")) as Href.
  { apply (refused_denied _ _ _ _ _ demo_denying); [reflexivity|]. intros w' Hu Ha. eexists.
    unfold acl_permit, bind, gets, server_config_acl_permit. rewrite Hu, Ha. vm_compute. reflexivity. }
  assert (exists w1 w2 sw', exchange [] inr demo_argv 4 [demo_denying] [str "ls"] w w1 w2 (demo_sw demo_sent) sw')
    as (w1 & w2 & sw' & Hex) by demo_exchanged.
  exists w1, w2, sw'. split; [exact Hex|].
  exact (remctl_refused [] inr demo_argv 4 [demo_denying] (str "ls") [] ERROR_ACCESS (str "Access denied")
    w w1 w2 (demo_sw demo_sent) sw' null_fits Hex Href).
Defined.
